(** * Word2vec toy model (src/toy_model_w2v.ts): a shallow embedding

    The development follows the TypeScript class [Word2vec]:

    - [Js]: the pieces of the JavaScript runtime the class relies on
      ([String.prototype.split], objects used as string-keyed maps with
      their enumeration order, [Array.prototype.sort], [slice]);
    - [JsArith], [JsMath]: the interface of the JavaScript [number] type
      as the class uses it.  The code is embedded once, over any
      implementation of that interface.  Two implementations are given:
      IEEE-754 binary64 (Rocq's primitive floats, the arithmetic a
      JavaScript engine runs) and exact rational arithmetic;
    - [build_vocab], [bSearch], the negative-sampling update shared by
      [train_sg_pair] and [train_cbow_pair], [train_sentence], and
      [compute_query_result];
    - the rest of the class: [update_config], [init_model],
      [validate_query_in], [validate_query_out], [update_qi_and_qo],
      [autocomplete], [train_until_breakpoint] and the requests that
      call them.  What these methods import ([get_random_init_weight],
      the filter of jQuery UI, [Date.now]) is a parameter.

    Scope of the embedding.  In [build_vocab], [train_sentence],
    [update_qi_and_qo] and [compute_query_result] the [in] operator and
    the property reads are modelled on an object's own properties; the
    code's objects also inherit the members of [Object.prototype]
    ([constructor], [toString], [__proto__], ...), and the statements that
    depend on the difference are made for corpora, sentences and requests
    without these names ([JsProto.plain]).  [validate_query_in] and
    [validate_query_out] are modelled with the inherited names.  Counters,
    counts and indices are JavaScript numbers holding integers below 2^53;
    they are modelled by [nat] and [Z].  [Array.prototype.sort] is
    modelled as a stable insertion sort: every stable sort gives its
    result when the comparison orders the elements, as ECMAScript 2019
    requires, and the order is the engine's own choice when it does not.

    Numbers in the proofs.  What holds for any arithmetic is proved for
    any instance of [JsArith] and [JsMath], IEEE-754 included.  What
    depends on the values of sums, products and roundings is proved over
    [Exact]: an arithmetic whose numbers denote reals and whose operations
    are the real ones; the rounding of binary64 is not modelled there,
    and the statements that binary64 does not share say so, with the
    state in which it departs from them.  The rational instance shows
    that [Exact] can be met; its [Math.pow], [Math.exp] and [Math.sqrt]
    are stand-ins: what is stated of a concrete rational model does not
    depend on their values, one example apart, which says so.

    Layout: the embedding, then the predicates of the statements and the
    concrete models, then the proofs by topic (vocabulary, search,
    cumulative table, negative draws, CBOW, ranking, rank histories), then
    the properties of the rest of the class and of what the methods keep
    when they are composed. *)

From Stdlib Require Import ZArith QArith Qcanon Qround Reals Qreals Lra Lia.
From Stdlib Require Import Floats String Ascii List DecimalString.
From Stdlib Require Import Sorted Permutation.
From stdpp Require Import base list strings.

Local Open Scope Z_scope.
Local Open Scope nat_scope.

(** * The JavaScript runtime *)

Module Js.

(** [s.split(sep)] for a separator of one character: the pieces between
    the separators, empty pieces included ([""] for the empty string). *)
Fixpoint split (sep : ascii) (s : string) : list string :=
  match s with
  | EmptyString => [EmptyString]
  | String c s' =>
      if Ascii.eqb c sep then EmptyString :: split sep s'
      else match split sep s' with
           | w :: ws => String c w :: ws
           | [] => [String c EmptyString]
           end
  end.

(** [util.startsWith(q, '-')] and [q.slice(1)]. *)
Definition starts_with (c : ascii) (s : string) : bool :=
  match s with
  | String c' _ => Ascii.eqb c' c
  | EmptyString => false
  end.

Definition slice1 (s : string) : string :=
  match s with
  | String _ s' => s'
  | EmptyString => EmptyString
  end.

(** ** Objects used as maps

    An object literal [{}] filled by assignment: its own properties, in
    creation order.  Assigning to an existing key keeps its place. *)
Definition obj (V : Type) : Type := list (string * V).

Section Obj.
Context {V : Type}.

Fixpoint get (k : string) (o : obj V) : option V :=
  match o with
  | [] => None
  | (k', v) :: o' => if String.eqb k' k then Some v else get k o'
  end.

(** [k in o] *)
Definition has (k : string) (o : obj V) : bool :=
  match get k o with Some _ => true | None => false end.

(** [o[k] = v] *)
Fixpoint set (k : string) (v : V) (o : obj V) : obj V :=
  match o with
  | [] => [(k, v)]
  | (k', v') :: o' =>
      if String.eqb k' k then (k', v) :: o' else (k', v') :: set k v o'
  end.

(** [o[k].field = ...]: an update of the object stored under [k]. *)
Fixpoint alter (f : V -> V) (k : string) (o : obj V) : obj V :=
  match o with
  | [] => []
  | (k', v') :: o' =>
      if String.eqb k' k then (k', f v') :: o' else (k', v') :: alter f k o'
  end.

(** [delete o[k]] *)
Definition remove (k : string) (o : obj V) : obj V :=
  List.filter (fun kv => negb (String.eqb (fst kv) k)) o.
End Obj.

(** ** Enumeration order of the keys

    [for (k in o)] and [Object.keys(o)] list the keys that are array
    indices first, in ascending numeric order, then the other keys in
    creation order. *)
Definition digit (c : ascii) : option N :=
  let n := N_of_ascii c in
  if ((48 <=? n) && (n <=? 57))%N then Some (n - 48)%N else None.

Fixpoint digits (s : string) (acc : N) : option N :=
  match s with
  | EmptyString => Some acc
  | String c s' =>
      match digit c with
      | Some d => digits s' (10 * acc + d)%N
      | None => None
      end
  end.

(** A canonical numeric string below 2^32 - 1. *)
Definition array_index (s : string) : option N :=
  match s with
  | EmptyString => None
  | String c s' =>
      match digit c with
      | None => None
      | Some d =>
          if (d =? 0)%N then
            match s' with EmptyString => Some 0%N | _ => None end
          else
            match digits s' d with
            | Some n => if (n <? 4294967295)%N then Some n else None
            | None => None
            end
      end
  end.

(** ** [Array.prototype.sort]

    [gt a b] stands for [comparefn(a, b) > 0].  The sort is stable (as
    ECMAScript 2019 requires): an element moves behind another one only
    when the comparison says so.  For a comparison that is not a consistent
    order ECMAScript leaves the result to the implementation; the model
    then gives the result of this insertion sort. *)
Section Sort.
Context {A : Type} (gt : A -> A -> bool).

Fixpoint insert (x : A) (l : list A) : list A :=
  match l with
  | [] => [x]
  | y :: l' => if gt x y then y :: insert x l' else x :: y :: l'
  end.

Definition sort (l : list A) : list A := List.fold_right insert [] l.
End Sort.

(** [keys o]: the enumeration order of [o]'s own keys. *)
Definition keys {V : Type} (o : obj V) : list string :=
  let ks := List.map fst o in
  let indexed :=
    List.flat_map
      (fun k => match array_index k with Some n => [(n, k)] | None => [] end) ks in
  let named :=
    List.filter
      (fun k => match array_index k with Some _ => false | None => true end) ks in
  List.map snd (sort (fun a b => (fst b <? fst a)%N) indexed) ++ named.

(** The decimal string of a non-negative integer, and the order of
    [sort()] without a comparison function: by the elements' strings. *)
Definition to_string (n : nat) : string :=
  NilEmpty.string_of_uint (Nat.to_uint n).

Definition sort_default (l : list nat) : list nat :=
  sort (fun a b => String.ltb (to_string b) (to_string a)) l.

(** [a.slice(start, end)] for integer arguments. *)
Definition slice {A : Type} (l : list A) (start stop : Z) : list A :=
  let len := Z.of_nat (length l) in
  let rel x := if (x <? 0)%Z then Z.max (len + x) 0 else Z.min x len in
  let k := rel start in
  let e := rel stop in
  firstn (Z.to_nat (e - k)) (skipn (Z.to_nat k) l).

End Js.


(** * JavaScript numbers

    The operations of the [number] type the class uses.  [JsArith] has the
    arithmetic and comparisons of the language itself; [JsMath] adds the
    functions of the [Math] object and [to_int], the integer a number
    holds when it is used as an array index, a [slice] bound or an operand
    of [%] ([None] for a number that holds no integer, such as [NaN]). *)

Class JsArith (F : Type) : Type := {
  fint : Z -> F;                  (* the number that holds an integer *)
  fadd : F -> F -> F;
  fsub : F -> F -> F;
  fmul : F -> F -> F;
  fdiv : F -> F -> F;
  fneg : F -> F;                  (* -a *)
  fsqrt : F -> F;                 (* Math.sqrt *)
  fnan : F;                       (* what undefined is in arithmetic *)
  flt : F -> F -> bool;           (* a < b *)
  feq : F -> F -> bool            (* a == b *)
}.

Class JsMath (F : Type) : Type := {
  fexp : F -> F;                  (* Math.exp *)
  fpow : F -> F -> F;             (* Math.pow *)
  fround : F -> F;                (* Math.round *)
  ffloor : F -> F;                (* Math.floor *)
  fmin : F -> F -> F;             (* Math.min *)
  to_int : F -> option Z
}.

Declare Scope js_scope.
Delimit Scope js_scope with js.
Infix "+" := fadd : js_scope.
Infix "-" := fsub : js_scope.
Infix "*" := fmul : js_scope.
Infix "/" := fdiv : js_scope.
Infix "<?" := flt : js_scope.
Infix "=?" := feq : js_scope.

(** IEEE-754 binary64, the arithmetic of a JavaScript engine. *)
#[export] Instance float_arith : JsArith float := {
  fint z :=
    if (z <? 0)%Z then PrimFloat.opp (PrimFloat.of_uint63 (Uint63.of_Z (- z)))
    else PrimFloat.of_uint63 (Uint63.of_Z z);
  fadd := PrimFloat.add;
  fsub := PrimFloat.sub;
  fmul := PrimFloat.mul;
  fdiv := PrimFloat.div;
  fneg := PrimFloat.opp;
  fsqrt := PrimFloat.sqrt;
  fnan := PrimFloat.nan;
  flt := PrimFloat.ltb;
  feq := PrimFloat.eqb
}.

(** The [Math] functions in binary64.  A number that is not zero, infinite
    or [NaN] is [(-1)^s * m * 2^e]; with [0 <= e] it is an integer. *)
Definition signed (s : bool) (m : positive) : Z :=
  if s then Z.neg m else Z.pos m.

(** [Math.round]: the integer nearest to [x], the upper one of two;
    [-0] for an [x] of [[-0.5, 0)]. *)
Definition float_round (x : float) : float :=
  match Prim2SF x with
  | S754_finite s m e =>
      if (0 <=? e)%Z then x
      else
        let z := ((2 * signed s m + 2 ^ (- e)) / 2 ^ (1 - e))%Z in
        if (z =? 0)%Z then (if s then (-0)%float else 0%float)
        else if (z <? 0)%Z
             then PrimFloat.opp (PrimFloat.of_uint63 (Uint63.of_Z (- z)))
             else PrimFloat.of_uint63 (Uint63.of_Z z)
  | _ => x
  end.

(** [Math.floor] *)
Definition float_floor (x : float) : float :=
  match Prim2SF x with
  | S754_finite s m e =>
      if (0 <=? e)%Z then x
      else
        let z := (signed s m / 2 ^ (- e))%Z in
        if (z <? 0)%Z
        then PrimFloat.opp (PrimFloat.of_uint63 (Uint63.of_Z (- z)))
        else PrimFloat.of_uint63 (Uint63.of_Z z)
  | _ => x
  end.

(** [Math.min]: [NaN] when an argument is [NaN]; [-0] is below [0]. *)
Definition float_min (x y : float) : float :=
  if PrimFloat.eqb x x && PrimFloat.eqb y y then
    if PrimFloat.ltb y x then y
    else if PrimFloat.ltb x y then x
    else if PrimFloat.ltb (PrimFloat.div 1 y) 0 then y else x
  else PrimFloat.nan.

Definition float_to_int (x : float) : option Z :=
  match Prim2SF x with
  | S754_zero _ => Some 0%Z
  | S754_finite s m e =>
      if (0 <=? e)%Z then Some (signed s m * 2 ^ e)%Z
      else if (Z.pos m mod 2 ^ (- e) =? 0)%Z
           then Some (signed s m / 2 ^ (- e))%Z
           else None
  | _ => None
  end.

(** [Math.exp] and [Math.pow] are approximations that an engine is free to
    choose; the language fixes [Math.exp] at the zeros (1) and at [NaN]
    ([NaN]), and every engine has [Math.pow(1, y) = 1] for a finite [y].
    These are the arguments at which the statements on binary64 below
    evaluate the two functions (the exponential of [-f] for a product [f]
    that is 0 or [NaN], the power [0.75] of the count 1): [float_exp] and
    [float_pow] have these values, and stand as [NaN] for the values at the
    other arguments, which nothing below depends on. *)
Definition float_exp (x : float) : float :=
  if PrimFloat.eqb x 0 then 1%float else PrimFloat.nan.

Definition float_pow (x y : float) : float :=
  if PrimFloat.eqb x 1
     && PrimFloat.ltb (PrimFloat.abs y) PrimFloat.infinity
  then 1%float else PrimFloat.nan.

#[export] Instance float_math : JsMath float := {
  fexp := float_exp;
  fpow := float_pow;
  fround := float_round;
  ffloor := float_floor;
  fmin := float_min;
  to_int := float_to_int
}.

(** Exact rational arithmetic.  The square root is not a rational
    function and the rationals have no [NaN]; no statement below depends
    on what is taken for them here. *)
Definition Qc_ltb (x y : Qc) : bool :=
  match (x ?= y)%Qc with Lt => true | _ => false end.

Definition Qc_eqb (x y : Qc) : bool :=
  match (x ?= y)%Qc with Eq => true | _ => false end.

Definition Qc_of_Z (z : Z) : Qc := Q2Qc (inject_Z z).

#[export] Instance Qc_arith : JsArith Qc := {
  fint := Qc_of_Z;
  fadd := Qcplus;
  fsub := Qcminus;
  fmul := Qcmult;
  fdiv := Qcdiv;
  fneg := Qcopp;
  fsqrt x := x;
  fnan := Qc_of_Z 0;
  flt := Qc_ltb;
  feq := Qc_eqb
}.

(** The [Math] functions over the rationals: [Math.round x] is
    [floor (x + 1/2)]; the power and the exponential are stand-ins that
    keep the one property used of them, positive results. *)
#[export] Instance Qc_math : JsMath Qc := {
  fexp _ := Qc_of_Z 1;
  fpow x _ := if Qc_ltb (Qc_of_Z 0) x then x else Qc_of_Z 1;
  fround x := Qc_of_Z (Qfloor (x + Q2Qc (1 # 2))%Qc);
  ffloor x := Qc_of_Z (Qfloor x);
  fmin x y := if Qc_ltb y x then y else x;
  to_int x := if Qc_eqb (Qc_of_Z (Qfloor x)) x then Some (Qfloor x) else None
}.

(** * The model: configuration and vocabulary *)

(** [Word2vecConfig], the fields the engine reads. *)
Record Word2vecConfig (F : Type) : Type := {
  hidden_size : nat;
  alpha : F;
  window : Z;
  min_count : Z;
  min_alpha : F;
  sg : bool;
  negative : Z;
  cbow_mean : bool;
  iter : F
}.
Arguments hidden_size {F}. Arguments alpha {F}. Arguments window {F}.
Arguments min_count {F}. Arguments min_alpha {F}. Arguments sg {F}.
Arguments negative {F}. Arguments cbow_mean {F}. Arguments iter {F}.

(** [class VocabItem { idx; count = 0 }] *)
Record VocabItem : Type := { idx : nat; count : nat }.

Definition set_idx (i : nat) (it : VocabItem) : VocabItem :=
  {| idx := i; count := count it |}.

Definition incr_count (it : VocabItem) : VocabItem :=
  {| idx := idx it; count := count it + 1 |}.

(** The null word ['\0']. *)
Definition null_word : string := String Ascii.zero EmptyString.

(** [this.vocab[w].count] for a word of [index2word]. *)
Definition count_of (vocab : Js.obj VocabItem) (w : string) : nat :=
  match Js.get w vocab with Some it => count it | None => 0 end.

(** Lines 172-181: count the words.  The state of the two nested loops is
    [(this.vocab, this.index2word)]. *)
Definition count_word (st : Js.obj VocabItem * list string) (word : string)
  : Js.obj VocabItem * list string :=
  let '(vocab, index2word) := st in
  let '(vocab, index2word) :=
    if Js.has word vocab then (vocab, index2word)
    else (Js.set word {| idx := length index2word; count := 0 |} vocab,
          index2word ++ [word]) in
  (Js.alter incr_count word vocab, index2word).

Definition count_words (sentences : list string)
  : Js.obj VocabItem * list string :=
  List.fold_left
    (fun st sentence => List.fold_left count_word (Js.split " " sentence) st)
    sentences ([], []).

(** Lines 183-197: discard the rare words. *)
Definition keep_word (min_count : Z) (vocab : Js.obj VocabItem)
    (st : Js.obj VocabItem * list string) (word : string)
  : Js.obj VocabItem * list string :=
  let '(vocab_tmp, index2word_tmp) := st in
  match Js.get word vocab with
  | Some it =>
      if (min_count <=? Z.of_nat (count it))%Z then
        (Js.set word (set_idx (length index2word_tmp) it) vocab_tmp,
         index2word_tmp ++ [word])
      else st
  | None => st
  end.

Definition discard_rare (min_count : Z) (st : Js.obj VocabItem * list string)
  : Js.obj VocabItem * list string :=
  if (1 <? min_count)%Z then
    List.fold_left (keep_word min_count (fst st)) (Js.keys (fst st)) ([], [])
  else st.

(** Lines 199-207: sort by count, put the null word in front, renumber. *)
Definition by_count (vocab : Js.obj VocabItem) (a b : string) : bool :=
  (0 <? Z.of_nat (count_of vocab b) - Z.of_nat (count_of vocab a))%Z.

Definition renumber (vocab : Js.obj VocabItem) (index2word : list string)
  : Js.obj VocabItem :=
  List.fold_left
    (fun v i =>
       match index2word !! i with
       | Some w => Js.alter (set_idx i) w v
       | None => v
       end)
    (seq 1 (length index2word - 1)) vocab.

Definition sort_and_index (st : Js.obj VocabItem * list string)
  : Js.obj VocabItem * list string :=
  let '(vocab, index2word) := st in
  let index2word := null_word :: Js.sort (by_count vocab) index2word in
  let vocab := Js.set null_word {| idx := 0; count := 1 |} vocab in
  (renumber vocab index2word, index2word).

(** Lines 169-207: the vocabulary and [index2word] of a corpus. *)
Definition vocabulary (min_count : Z) (corpus : string)
  : Js.obj VocabItem * list string :=
  sort_and_index
    (discard_rare min_count (count_words (Js.split "010" corpus))).

(** Lines 209-213: the total of the counts. *)
Definition total_words (vocab : Js.obj VocabItem) : nat :=
  List.fold_left (fun t w => t + count_of vocab w) (Js.keys vocab) 0.

Section Vocabulary.
Context {F : Type} `{JsArith F} `{JsMath F}.
Local Open Scope js_scope.

(** Lines 7-8. *)
Definition power : F := fint 3 / fint 4.
Definition cum_table_domain : F := fint 2147483647.

(** Lines 216-222: [train_words_pow]. *)
Definition train_words_pow (counts : list nat) : F :=
  List.fold_left (fun t c => t + fpow (fint (Z.of_nat c)) power) counts (fint 0).

(** Lines 223-227: the entries of [cum_table] from index [i] on, given
    the running sum [cumultative]. *)
Fixpoint cum_table_from (total : F) (cumultative : F) (counts : list nat)
  : list F :=
  match counts with
  | [] => []
  | c :: counts' =>
      let cumultative :=
        cumultative + fpow (fint (Z.of_nat c)) power / total in
      fround (cumultative * cum_table_domain)
        :: cum_table_from total cumultative counts'
  end.

Definition make_cum_table (vocab : Js.obj VocabItem) (index2word : list string)
  : list F :=
  let counts := List.map (count_of vocab) index2word in
  cum_table_from (train_words_pow counts) (fint 0) counts.

(** What [build_vocab] leaves in the object. *)
Record Vocab : Type := {
  sentences : list string;
  vocab : Js.obj VocabItem;
  index2word : list string;
  cum_table : list F;
  num_sentences : nat;
  vocab_size : nat;
  corpus_size : nat
}.

Definition build_vocab (min_count : Z) (corpus : string) : Vocab :=
  let sentences := Js.split "010" corpus in
  let '(vocab, index2word) := vocabulary min_count corpus in
  {| sentences := sentences;
     vocab := vocab;
     index2word := index2word;
     cum_table := make_cum_table vocab index2word;
     num_sentences := length sentences;
     vocab_size := length index2word;
     corpus_size := total_words vocab |}.
End Vocabulary.
Arguments Vocab : clear implicits.

(** * Outcomes

    A method returns, throws a [TypeError] (a property read on
    [undefined]), or never returns. *)
Inductive result (A : Type) : Type :=
  | Ok (a : A)
  | Throws
  | Hangs.
Arguments Ok {A} a.
Arguments Throws {A}.
Arguments Hangs {A}.

Definition bind {A B : Type} (r : result A) (f : A -> result B) : result B :=
  match r with
  | Ok a => f a
  | Throws => Throws
  | Hangs => Hangs
  end.

Notation "'let*' p ':=' e 'in' k" := (bind e (fun p => k))
  (at level 10, p pattern, e at level 200, k at level 200).

(** [for (a of l) body]: the loop stops at the first iteration that does
    not return. *)
Fixpoint for_each {A S : Type} (body : A -> S -> result S) (l : list A) (s : S)
  : result S :=
  match l with
  | [] => Ok s
  | a :: l' => let* s' := body a s in for_each body l' s'
  end.

(** * Vectors and the binary search *)

Section Vectors.
Context {F : Type} `{JsArith F}.
Local Open Scope js_scope.

(** [l[j]] read as a number, and [l[j] = x]. *)
Definition vget (l : list F) (j : nat) : F := nth j l fnan.

Definition vset (l : list F) (j : nat) (x : F) : list F :=
  if (j <? length l)%nat then <[j:=x]> l
  else l ++ replicate (j - length l) fnan ++ [x].

(** [for (j < n) l.push(0)] *)
Definition zeros (n : nat) : list F := replicate n (fint 0).

(** [f = 0; for (j < n) f += a[j] * b[j]] *)
Definition dot (n : nat) (a b : list F) : F :=
  List.fold_left (fun f j => f + vget a j * vget b j) (seq 0 n) (fint 0).

(** [for (j < n) y[j] += g * x[j]] *)
Definition axpy (n : nat) (g : F) (x y : list F) : list F :=
  List.fold_left (fun y j => vset y j (vget y j + g * vget x j)) (seq 0 n) y.

(** [for (j < n) y[j] += x[j]] *)
Definition vadd (n : nat) (x y : list F) : list F :=
  List.fold_left (fun y j => vset y j (vget y j + vget x j)) (seq 0 n) y.

(** [for (j < n) y[j] -= x[j]] *)
Definition vsub (n : nat) (x y : list F) : list F :=
  List.fold_left (fun y j => vset y j (vget y j - vget x j)) (seq 0 n) y.

(** [for (j < n) y[j] /= d] *)
Definition vdiv (n : nat) (d : F) (y : list F) : list F :=
  List.fold_left (fun y j => vset y j (vget y j / d)) (seq 0 n) y.

(** A row of a matrix that a loop over [j < n] reads: the first read of
    an undefined row throws; with [n = 0] nothing is read. *)
Definition deref (n : nat) (r : option (list F)) : result (list F) :=
  match r with
  | Some l => Ok l
  | None => if (n =? 0)%nat then Ok [] else Throws
  end.

(** Lines 649-663.  The [while] loop of [bSearch]: each round that
    compares decisively narrows [top - bot], so [fuel = xs.length]
    rounds are enough for them; a round in which no comparison holds
    ([c] is [NaN]) changes nothing, and the loop never ends. *)
Fixpoint bSearch_loop (fuel : nat) (xs : list F) (x : F) (bot top : nat)
  : result nat :=
  if (bot <? top)%nat then
    match fuel with
    | O => Hangs
    | S fuel' =>
        let mid := ((bot + top) / 2)%nat in
        let c := vget xs mid - x in
        if c =? fint 0 then Ok mid
        else
          let bot' := if c <? fint 0 then (mid + 1)%nat else bot in
          let top' := if fint 0 <? c then mid else top in
          bSearch_loop fuel' xs x bot' top'
    end
  else Ok bot.

Definition bSearch (xs : list F) (x : F) : result nat :=
  if (length xs =? 0)%nat then Ok 0%nat
  else if vget xs (length xs - 1) <? x then Ok (length xs)
  else if x <? vget xs 0 then Ok 0%nat
  else bSearch_loop (length xs) xs x 0 (length xs).
End Vectors.

(** * The object

    [QueryOutRecord] is declared in [./model_state]; its fields are the
    ones [update_qi_and_qo] and [compute_query_result] write.  [rank] and
    [rank_history] are absent until the record is first ranked. *)
Record RankEntry : Type := { entry_rank : nat; iteration : nat }.

Record QueryOutRecord : Type := {
  query : string;
  status : string;
  rank : option nat;
  rank_history : option (list RankEntry)
}.

Section State.
Context {F : Type}.

(** The fields of [Word2vec] and of its [state] that training and
    ranking read and write; [draws] counts the calls of
    [get_random_float] so far. *)
Record Word2vec : Type := {
  config : Word2vecConfig F;
  voc : Vocab F;
  query_in : list string;
  qi_key : string;
  queries_watched : Js.obj bool;
  queries_ignored : Js.obj bool;
  qo_map : Js.obj (Js.obj QueryOutRecord);
  syn0 : list (list F);
  syn1 : list (list F);
  learning_rate : F;
  instances : nat;
  state_sentences : nat;
  epochs : nat;
  count_instances_watched : nat;
  query_out_records : list QueryOutRecord;
  qi_vec : list F;
  draws : nat
}.

Definition set_weights (m : Word2vec) (s0 s1 : list (list F)) (n : nat)
  : Word2vec :=
  {| config := config m; voc := voc m; query_in := query_in m;
     qi_key := qi_key m; queries_watched := queries_watched m;
     queries_ignored := queries_ignored m; qo_map := qo_map m;
     syn0 := s0; syn1 := s1;
     learning_rate := learning_rate m; instances := instances m;
     state_sentences := state_sentences m; epochs := epochs m;
     count_instances_watched := count_instances_watched m;
     query_out_records := query_out_records m; qi_vec := qi_vec m;
     draws := n |}.

Definition set_learning_rate (m : Word2vec) (lr : F) : Word2vec :=
  {| config := config m; voc := voc m; query_in := query_in m;
     qi_key := qi_key m; queries_watched := queries_watched m;
     queries_ignored := queries_ignored m; qo_map := qo_map m;
     syn0 := syn0 m; syn1 := syn1 m;
     learning_rate := lr; instances := instances m;
     state_sentences := state_sentences m; epochs := epochs m;
     count_instances_watched := count_instances_watched m;
     query_out_records := query_out_records m; qi_vec := qi_vec m;
     draws := draws m |}.

Definition set_counters (m : Word2vec) (i s e w : nat) : Word2vec :=
  {| config := config m; voc := voc m; query_in := query_in m;
     qi_key := qi_key m; queries_watched := queries_watched m;
     queries_ignored := queries_ignored m; qo_map := qo_map m;
     syn0 := syn0 m; syn1 := syn1 m;
     learning_rate := learning_rate m; instances := i;
     state_sentences := s; epochs := e;
     count_instances_watched := w;
     query_out_records := query_out_records m; qi_vec := qi_vec m;
     draws := draws m |}.

Definition set_query_result (m : Word2vec)
    (qo : Js.obj (Js.obj QueryOutRecord)) (rs : list QueryOutRecord)
    (v : list F) : Word2vec :=
  {| config := config m; voc := voc m; query_in := query_in m;
     qi_key := qi_key m; queries_watched := queries_watched m;
     queries_ignored := queries_ignored m; qo_map := qo;
     syn0 := syn0 m; syn1 := syn1 m;
     learning_rate := learning_rate m; instances := instances m;
     state_sentences := state_sentences m; epochs := epochs m;
     count_instances_watched := count_instances_watched m;
     query_out_records := rs; qi_vec := v;
     draws := draws m |}.
End State.
Arguments Word2vec : clear implicits.

(** * Training *)

Section Training.
Context {F : Type} `{JsArith F} `{JsMath F}.
Local Open Scope js_scope.

(** [get_random_float] is imported from [./random]: the source of
    numbers is a parameter, [get_random_float n] being the number the
    [n]-th call returns. *)
Variable get_random_float : nat -> F.

(** [m[t]] for a number [t]: [undefined] unless [t] holds an index of
    the matrix. *)
Definition row (m : list (list F)) (t : option Z) : option (nat * list F) :=
  match t with
  | Some z =>
      if (z <? 0)%Z then None
      else match m !! Z.to_nat z with
           | Some l => Some (Z.to_nat z, l)
           | None => None
           end
  | None => None
  end.

(** Lines 586 and 616: [Math.floor(r * cum_table_domain) % (vocab_size - 1) + 1];
    [None] is [NaN]. *)
Definition redraw (vocab_size : nat) (r : F) : option Z :=
  match to_int (ffloor (r * cum_table_domain)) with
  | Some z =>
      let d := (Z.of_nat vocab_size - 1)%Z in
      if (d =? 0)%Z then None else Some (Z.rem z d + 1)%Z
  | None => None
  end.

(** Lines 584-586 and 614-616: the target of a negative draw, and the
    number of calls of the random source after it. *)
Definition draw_negative (m : Word2vec F) (n : nat) : result (option Z * nat) :=
  let random := get_random_float n * cum_table_domain in
  let* t := bSearch (cum_table (voc m)) random in
  if (t =? 0)%nat
  then Ok (redraw (vocab_size (voc m)) (get_random_float (n + 1)), (n + 2)%nat)
  else Ok (Some (Z.of_nat t), (n + 1)%nat).

(** Lines 590-595 and 620-625: one gradient step against the output
    vector of [target]. *)
Definition ns_update (m : Word2vec F) (l1 : list F) (label : F)
    (target : option Z) (st : list F * list (list F))
  : result (list F * list (list F)) :=
  let '(neu1e, syn1) := st in
  let n := hidden_size (config m) in
  match row syn1 target with
  | None => if (n =? 0)%nat then Ok st else Throws
  | Some (t, l2) =>
      let f := dot n l1 l2 in
      let g := (label - fint 1 / (fint 1 + fexp (fneg f))) * learning_rate m in
      let neu1e := axpy n g l2 neu1e in
      let l2 := axpy n g l1 l2 in
      Ok (neu1e, <[t:=l2]> syn1)
  end.

(** Lines 577-596 and 607-626, the body of the loop over [d], the same
    text in [train_sg_pair] and [train_cbow_pair].  The state is
    [(neu1e, syn1, draws)]. *)
Definition ns_body (m : Word2vec F) (l1 : list F) (w_idx : nat) (d : nat)
    (st : list F * list (list F) * nat)
  : result (list F * list (list F) * nat) :=
  let '(neu1e, syn1, n) := st in
  if (d =? 0)%nat then
    let* st' := ns_update m l1 (fint 1) (Some (Z.of_nat w_idx)) (neu1e, syn1) in
    Ok (st', n)
  else
    let* (target, n) := draw_negative m n in
    match target with
    | Some t =>
        if (t =? Z.of_nat w_idx)%Z then Ok (neu1e, syn1, n)
        else let* st' := ns_update m l1 (fint 0) target (neu1e, syn1) in Ok (st', n)
    | None => let* st' := ns_update m l1 (fint 0) target (neu1e, syn1) in Ok (st', n)
    end.

Definition negative_sampling (m : Word2vec F) (l1 : list F) (w_idx : nat)
  : result (list F * list (list F) * nat) :=
  for_each (ns_body m l1 w_idx)
    (seq 0 (Z.to_nat (negative (config m) + 1)))
    (zeros (hidden_size (config m)), syn1 m, draws m).

(** Lines 569-598. *)
Definition train_sg_pair (m : Word2vec F) (w_idx context_idx : nat)
  : result (Word2vec F) :=
  let n := hidden_size (config m) in
  let* l1 := deref n (syn0 m !! context_idx) in
  let* (neu1e, syn1', k) := negative_sampling m l1 w_idx in
  Ok (set_weights m (<[context_idx := vadd n neu1e l1]> (syn0 m)) syn1' k).

(** Line 627. *)
Definition add_error (n : nat) (neu1e : list F) (a : nat)
    (syn0 : list (list F)) : result (list (list F)) :=
  match syn0 !! a with
  | Some r => Ok (<[a := vadd n neu1e r]> syn0)
  | None => if (n =? 0)%nat then Ok syn0 else Throws
  end.

(** Lines 600-628. *)
Definition train_cbow_pair (m : Word2vec F) (w_idx : nat)
    (context_idxs : list nat) (l1 : list F) : result (Word2vec F) :=
  let* (neu1e, syn1', k) := negative_sampling m l1 w_idx in
  let* syn0' := for_each (add_error (hidden_size (config m)) neu1e)
            context_idxs (syn0 m) in
  Ok (set_weights m syn0' syn1' k).

(** Lines 531-533: the reduced window around [pos], as [start] and the
    words of [words_reduced_window].  A [reduced_window] that holds no
    integer ([NaN]) makes both slice bounds [NaN]: the empty slice. *)
Definition reduced_window_of (m : Word2vec F) (words : list string) (pos : nat)
  : nat * list string :=
  let w := window (config m) in
  match to_int (fround (get_random_float (draws m) * fint w)) with
  | Some reduced_window =>
      let start := Z.max 0 (Z.of_nat pos - w + reduced_window) in
      (Z.to_nat start,
       Js.slice words start (Z.of_nat pos + w + 1 - reduced_window))
  | None => (0%nat, [])
  end.

(** Lines 544-550: [word2_indices]. *)
Definition word2_indices_of (start pos : nat) (words_reduced_window : list string)
  : list nat :=
  List.flat_map
    (fun i => let pos2 := (i + start)%nat in
              if (pos2 =? pos)%nat then [] else [pos2])
    (seq 0 (length words_reduced_window)).

(** Lines 551-554: the hidden vector [l1] of the CBOW branch. *)
Definition cbow_l1 (m : Word2vec F) (word2_indices : list nat) : result (list F) :=
  let n := hidden_size (config m) in
  let* l1 := for_each
         (fun i l1 => let* r := deref n (syn0 m !! i) in Ok (vadd n r l1))
         word2_indices (zeros n) in
  if cbow_mean (config m) && (0 <? length word2_indices)%nat
  then Ok (vdiv n (fint (Z.of_nat (length word2_indices))) l1)
  else Ok l1.

(** [this.vocab[w].idx] *)
Definition idx_of (m : Word2vec F) (w : string) : result nat :=
  match Js.get w (vocab (voc m)) with
  | Some it => Ok (idx it)
  | None => Throws
  end.

(** Lines 530-560: the callback of [words.forEach]. *)
Definition train_word (words : list string) (p : nat * string) (m : Word2vec F)
  : result (Word2vec F) :=
  let '(pos, word) := p in
  let '(start, words_reduced_window) := reduced_window_of m words pos in
  let m := set_weights m (syn0 m) (syn1 m) (draws m + 1) in
  let* m :=
    (if sg (config m) then
       for_each
         (fun q m =>
            let '(i, word2) := q in
            if (i + start =? pos)%nat then Ok m
            else let* w := idx_of m word in
                 let* c := idx_of m word2 in train_sg_pair m w c)
         (combine (seq 0 (length words_reduced_window)) words_reduced_window)
         m
     else
       let word2_indices := word2_indices_of start pos words_reduced_window in
       let* l1 := cbow_l1 m word2_indices in
       let* w := idx_of m word in
       train_cbow_pair m w word2_indices l1) in
  Ok (set_counters m (instances m + 1) (state_sentences m) (epochs m)
        (if Js.has word (queries_watched m)
         then (count_instances_watched m + 1)%nat
         else count_instances_watched m)).

(** Lines 519-567. *)
Definition train_sentence (m : Word2vec F) : result (Word2vec F) :=
  match sentences (voc m) !! state_sentences m with
  | None => Throws
  | Some sentence =>
      let words := Js.split " " sentence in
      let c := config m in
      let progress :=
        fmin (fint 1)
          (fint (Z.of_nat (instances m))
           / (fint (Z.of_nat (corpus_size (voc m))) * iter c)) in
      let m := set_learning_rate m (alpha c - (alpha c - min_alpha c) * progress) in
      let words := List.filter (fun w => Js.has w (vocab (voc m))) words in
      let* m := for_each (train_word words) (combine (seq 0 (length words)) words) m in
      let s := (state_sentences m + 1)%nat in
      if (num_sentences (voc m) <=? s)%nat
      then Ok (set_counters m (instances m) 0 (epochs m + 1)
                 (count_instances_watched m))
      else Ok (set_counters m (instances m) s (epochs m)
                 (count_instances_watched m))
  end.
End Training.


(** * Ranking *)

(** Lines 476-485: the new rank of a record.  A last history entry made
    at the same [iterations] is overwritten, otherwise an entry is
    pushed. *)
Definition push_rank (rank iterations : nat) (h : list RankEntry)
  : list RankEntry :=
  match last h with
  | Some e =>
      if (iteration e =? iterations)%nat
      then removelast h ++ [{| entry_rank := rank; iteration := iteration e |}]
      else h ++ [{| entry_rank := rank; iteration := iterations |}]
  | None => h ++ [{| entry_rank := rank; iteration := iterations |}]
  end.

Definition update_rank (rank iterations : nat) (r : QueryOutRecord)
  : QueryOutRecord :=
  {| query := query r;
     status := status r;
     rank := Some rank;
     rank_history :=
       Some (push_rank rank iterations (default [] (rank_history r))) |}.

(** [a.rank - b.rank > 0] *)
Definition by_rank (a b : QueryOutRecord) : bool :=
  match rank a, rank b with
  | Some x, Some y => (y <? x)%nat
  | _, _ => false
  end.

(** Lines 632-645. *)
Fixpoint uniq_fast_from (seen : list nat) (a : list nat) : list nat :=
  match a with
  | [] => []
  | item :: a' =>
      if bool_decide (item ∈ seen) then uniq_fast_from seen a'
      else item :: uniq_fast_from (item :: seen) a'
  end.

Definition uniq_fast (a : list nat) : list nat := uniq_fast_from [] a.

(** [xs.map(f)] and [xs.filter(p)] for callbacks that may throw. *)
Fixpoint map_r {A B : Type} (f : A -> result B) (l : list A) : result (list B) :=
  match l with
  | [] => Ok []
  | a :: l' => let* b := f a in let* r := map_r f l' in Ok (b :: r)
  end.

Fixpoint filter_r {A : Type} (p : A -> result bool) (l : list A)
  : result (list A) :=
  match l with
  | [] => Ok []
  | a :: l' =>
      let* b := p a in let* r := filter_r p l' in Ok (if b then a :: r else r)
  end.

Section Ranking.
Context {F : Type} `{JsArith F}.
Local Open Scope js_scope.

(** [interface ScoredItem]; [rank] is the position in [item_scores]. *)
Record ScoredItem : Type := { item_idx : nat; score : F }.

(** [this.index2word[i]] used as a property key. *)
Definition word_at (m : Word2vec F) (i : nat) : string :=
  nth i (index2word (voc m)) "undefined"%string.

(** Lines 388-401: one term of [query_in]; the state is
    [(qi_vec, q_idx_set)]. *)
Definition add_query_term (m : Word2vec F) (q : string)
    (st : list F * list nat) : result (list F * list nat) :=
  let '(qi_vec, q_idx_set) := st in
  let n := hidden_size (config m) in
  let minus := Js.starts_with "-" q in
  let word := if minus then Js.slice1 q else q in
  match Js.get word (vocab (voc m)) with
  | None => Throws
  | Some it =>
      let qidx := idx it in
      let* r := deref n (syn0 m !! qidx) in
      Ok (if minus then vsub n r qi_vec else vadd n r qi_vec,
          qidx :: q_idx_set)
  end.

(** Lines 402-408. *)
Definition normalize (n : nat) (qi_vec : list F) : list F :=
  let l2 := dot n qi_vec qi_vec in
  let l2_sqrt := fsqrt l2 in
  vdiv n l2_sqrt qi_vec.

(** Lines 411-425: [scores[i]]. *)
Definition score_of (m : Word2vec F) (qi_vec : list F) (q_idx_set : list nat)
    (i : nat) : result F :=
  if bool_decide (i ∈ q_idx_set) then Ok (fint 0)
  else
    let n := hidden_size (config m) in
    let* r := deref n (syn0 m !! i) in
    let prod := dot n qi_vec r in
    let l2 := dot n r r in
    let l2_sqrt := fsqrt l2 in
    if l2 =? fint 0 then Ok (fint 0) else Ok (prod / l2_sqrt).

(** [b.score - a.score > 0] *)
Definition by_score (a b : ScoredItem) : bool :=
  fint 0 <? score b - score a.

(** Lines 433-435. *)
Definition rank_items (scores : list F) : list ScoredItem :=
  Js.sort by_score
    (List.map (fun p => {| item_idx := fst p; score := snd p |})
       (combine (seq 0 (length scores)) scores)).

(** Lines 436-442. *)
Definition rank_lookup_of (m : Word2vec F) (item_scores : list ScoredItem)
  : Js.obj nat :=
  List.fold_left
    (fun rank_lookup p =>
       let word := word_at m (item_idx (snd p)) in
       if Js.has word (queries_watched m)
       then Js.set word (fst p) rank_lookup
       else rank_lookup)
    (combine (seq 0 (length item_scores)) item_scores) [].

(** Lines 452-464: the ten first ranks, then the ranks of the watched
    words. *)
Definition watched_rank (m : Word2vec F) (rank_lookup : Js.obj nat)
    (q_idx_set : list nat) (word : string) (ranks_to_show : list nat)
  : result (list nat) :=
  match Js.get word rank_lookup with
  | None => Ok ranks_to_show
  | Some rank =>
      match Js.get word (vocab (voc m)) with
      | None => Throws
      | Some it =>
          if bool_decide (idx it ∈ q_idx_set) then Ok ranks_to_show
          else Ok (ranks_to_show ++ [rank])
      end
  end.

(** Lines 465-468. *)
Definition not_ignored (m : Word2vec F) (item_scores : list ScoredItem)
    (rank : nat) : result bool :=
  match item_scores !! rank with
  | None => Throws
  | Some it => Ok (negb (Js.has (word_at m (item_idx it)) (queries_ignored m)))
  end.

Definition not_query (item_scores : list ScoredItem) (q_idx_set : list nat)
    (rank : nat) : result bool :=
  match item_scores !! rank with
  | None => Throws
  | Some it => Ok (negb (bool_decide (item_idx it ∈ q_idx_set)))
  end.

Definition ranks_to_show_of (m : Word2vec F) (item_scores : list ScoredItem)
    (rank_lookup : Js.obj nat) (q_idx_set : list nat) : result (list nat) :=
  let* rs := for_each (watched_rank m rank_lookup q_idx_set)
         (Js.keys (queries_watched m)) (seq 0 10) in
  let* rs := filter_r (not_ignored m item_scores) (uniq_fast rs) in
  let* rs := filter_r (not_query item_scores q_idx_set) rs in
  Ok (Js.sort_default rs).

(** Lines 469-487: the body of the loop over [ranks_to_show].  The state
    is [qo_lookup] ([None] when [qo_map] has no entry for [qi_key]) and
    the words whose records were pushed on [query_out_records]: the array
    holds the records of [qo_lookup] themselves, not copies. *)
Definition show_rank (m : Word2vec F) (item_scores : list ScoredItem)
    (rank : nat) (st : option (Js.obj QueryOutRecord) * list string)
  : result (option (Js.obj QueryOutRecord) * list string) :=
  let '(qo_lookup, pushed) := st in
  match item_scores !! rank, qo_lookup with
  | Some it, Some qo =>
      let word := word_at m (item_idx it) in
      let qo :=
        if Js.has word qo then qo
        else Js.set word {| query := word; status := "NORMAL";
                            rank := None; rank_history := None |} qo in
      Ok (Some (Js.alter (update_rank rank (instances m)) word qo),
          pushed ++ [word])
  | _, _ => Throws
  end.

(** Lines 367-493. *)
Definition compute_query_result (m : Word2vec F) : result (Word2vec F) :=
  if (length (query_in m) =? 0)%nat
  then Ok (set_query_result m (qo_map m) [] (qi_vec m))
  else
    let n := hidden_size (config m) in
    let* (qi_vec, q_idx_set) :=
      for_each (add_query_term m) (query_in m) (zeros n, []) in
    let qi_vec := normalize n qi_vec in
    let* scores := map_r (score_of m qi_vec q_idx_set) (seq 0 (vocab_size (voc m))) in
    let item_scores := rank_items scores in
    let rank_lookup := rank_lookup_of m item_scores in
    let* ranks_to_show := ranks_to_show_of m item_scores rank_lookup q_idx_set in
    let* (qo_lookup, pushed) :=
      for_each (show_rank m item_scores) ranks_to_show
        (Js.get (qi_key m) (qo_map m), []) in
    let records :=
      match qo_lookup with
      | Some qo => omap (fun w => Js.get w qo) pushed
      | None => []
      end in
    let qo_map' :=
      match qo_lookup with
      | Some qo => Js.set (qi_key m) qo (qo_map m)
      | None => qo_map m
      end in
    Ok (set_query_result m qo_map' (Js.sort by_rank records) qi_vec).
End Ranking.
Arguments ScoredItem : clear implicits.


(** * The rest of the class

    The methods around the vocabulary, the training step and the ranking:
    the configuration, the initial weights, the validation of queries, the
    bookkeeping of the watched words, the completion of a term and the
    training loop. *)

(** ** More of the runtime: strings *)

Module JsString.

(** [a.join(sep)] for an array of strings. *)
Fixpoint join (sep : string) (a : list string) : string :=
  match a with
  | [] => EmptyString
  | [x] => x
  | x :: a' => (x ++ sep ++ join sep a')%string
  end.

(** [s[0]]: [None] is [undefined]. *)
Definition first (s : string) : option ascii :=
  match s with
  | String c _ => Some c
  | EmptyString => None
  end.

(** [s.slice(2)] *)
Definition slice2 (s : string) : string :=
  match s with
  | String _ (String _ s') => s'
  | _ => EmptyString
  end.

(** The double quote and the line feed. *)
Definition dquote : string := String (ascii_of_nat 34) EmptyString.
Definition newline : string := String (ascii_of_nat 10) EmptyString.

End JsString.

(** ** More of the runtime: inherited properties

    The objects of the class are object literals.  [k in o] holds for a key
    [k] of [o] and also for a member name of [Object.prototype], and
    [o[k]] then reads the member of the prototype.  [Js.has] and [Js.get]
    are the test and the read of the own properties: they are what [in] and
    [o[k]] do for every key that is not such a name. *)
Module JsProto.

(** The member names of [Object.prototype]. *)
Definition names : list string :=
  ["constructor"; "hasOwnProperty"; "isPrototypeOf"; "propertyIsEnumerable";
   "toLocaleString"; "toString"; "valueOf"; "__proto__";
   "__defineGetter__"; "__defineSetter__"; "__lookupGetter__";
   "__lookupSetter__"]%string.

Definition inherited (k : string) : bool := existsb (String.eqb k) names.

(** [k in o] *)
Definition has_in {V : Type} (k : string) (o : Js.obj V) : bool :=
  Js.has k o || inherited k.

(** Keys of which none is inherited. *)
Definition plain (ks : list string) : Prop :=
  Forall (fun k => inherited k = false) ks.

End JsProto.

(** ** [update_config] (lines 94-101)

    The configuration as the object it is: the custom value of a key
    replaces the default one when the configuration has the key. *)
Definition update_config {V : Type} (model_config config : Js.obj V)
  : Js.obj V :=
  List.fold_left
    (fun model_config key =>
       if Js.has key model_config then
         match Js.get key config with
         | Some v => Js.set key v model_config
         | None => model_config
         end
       else model_config)
    (Js.keys config) model_config.

(** ** [init_model] (lines 235-263)

    [get_random_init_weight] is imported from [./random]: the weights
    are a parameter, [get_random_init_weight k h] being what the [k]-th
    call returns for the argument [h]. *)
Section Init.
Context {F : Type} `{JsArith F} `{JsMath F}.
Variable get_random_init_weight : nat -> nat -> F.

(** The rows [v0] ([side = 0]) and [v1] ([side = 1]): the calls
    alternate between the two. *)
Definition init_row (hidden_size side i : nat) : list F :=
  List.map
    (fun j => get_random_init_weight (2 * (i * hidden_size + j) + side)
                hidden_size)
    (seq 0 hidden_size).

Definition init_rows (vocab_size hidden_size side : nat) : list (list F) :=
  List.map (init_row hidden_size side) (seq 0 vocab_size).

Definition init_model (m : Word2vec F) : Word2vec F :=
  let vocab_size := vocab_size (voc m) in
  let hidden_size := hidden_size (config m) in
  let m := set_weights m (init_rows vocab_size hidden_size 0)
             (init_rows vocab_size hidden_size 1) (draws m) in
  set_counters m 0 0 0 (count_instances_watched m).

(** [this.sentences], [this.vocab], ... as [build_vocab] leaves them. *)
Definition set_voc (m : Word2vec F) (v : Vocab F) : Word2vec F :=
  {| config := config m; voc := v; query_in := query_in m;
     qi_key := qi_key m; queries_watched := queries_watched m;
     queries_ignored := queries_ignored m; qo_map := qo_map m;
     syn0 := syn0 m; syn1 := syn1 m;
     learning_rate := learning_rate m; instances := instances m;
     state_sentences := state_sentences m; epochs := epochs m;
     count_instances_watched := count_instances_watched m;
     query_out_records := query_out_records m; qi_vec := qi_vec m;
     draws := draws m |}.

(** Lines 117-121, the request [init_model]: [build_vocab] on the corpus,
    then [init_model]. *)
Definition build_and_init (corpus : string) (m : Word2vec F) : Word2vec F :=
  init_model (set_voc m (build_vocab (min_count (config m)) corpus)).
End Init.

(** ** [validate_query_in] and [validate_query_out] (lines 295-327) *)

Record Validation : Type := { is_valid : bool; message : string }.

Definition not_in_vocabulary (query : string) : string :=
  (JsString.dquote ++ query ++ JsString.dquote ++ " is not in vocabulary.")%string.

(** Lines 301-312, the body of the loop over [query_in]. *)
Definition validate_term (vocab : Js.obj VocabItem) (v : Validation)
    (query : string) : Validation :=
  let query := if Js.starts_with "-" query then Js.slice1 query else query in
  if JsProto.has_in query vocab then v
  else
    let message :=
      if (0 <? String.length (message v))%nat
      then (message v ++ "<br>" ++ JsString.newline)%string
      else message v in
    {| is_valid := false;
       message := (message ++ not_in_vocabulary query)%string |}.

(** [None] is the vocabulary that [build_vocab] has not made yet: the
    methods throw an [Error]. *)
Definition validate_query_in (vocab : option (Js.obj VocabItem))
    (query_in : list string) : result Validation :=
  match vocab with
  | None => Throws
  | Some vocab =>
      Ok (List.fold_left (validate_term vocab) query_in
            {| is_valid := true; message := EmptyString |})
  end.

Definition validate_query_out (vocab : option (Js.obj VocabItem))
    (query : string) : result Validation :=
  match vocab with
  | None => Throws
  | Some vocab =>
      if JsProto.has_in query vocab
      then Ok {| is_valid := true; message := EmptyString |}
      else Ok {| is_valid := false; message := not_in_vocabulary query |}
  end.

(** ** [update_qi_and_qo] (lines 329-361) *)

(** The fields of the request that the method reads; [None] is a field
    that the request does not have. *)
Record QueryRequest : Type := {
  request_status : string;
  request_query_in : option (list string);
  request_query_out : option (list string)
}.

(** [{'G':'GOOD', 'B':'BAD', 'W': 'WATCHED'}[prefix]], for a prefix that
    [$.inArray] finds in [['G', 'B', 'W']]. *)
Definition status_of_prefix (prefix : option ascii) : option string :=
  match prefix with
  | Some c =>
      if Ascii.eqb c "G" then Some "GOOD"%string
      else if Ascii.eqb c "B" then Some "BAD"%string
      else if Ascii.eqb c "W" then Some "WATCHED"%string
      else None
  | None => None
  end.

Definition set_status (s : string) (r : QueryOutRecord) : QueryOutRecord :=
  {| query := query r; status := s; rank := rank r;
     rank_history := rank_history r |}.

(** Lines 344-360, the body of the loop over [query_out].  The state is
    [qo_lookup] ([None] when [qo_map] has no entry for [qi_key]),
    [queries_watched] and [queries_ignored]. *)
Definition update_query_out (q : string)
    (st : option (Js.obj QueryOutRecord) * Js.obj bool * Js.obj bool)
  : result (option (Js.obj QueryOutRecord) * Js.obj bool * Js.obj bool) :=
  let '(qo_lookup, queries_watched, queries_ignored) := st in
  let prefix := JsString.first q in
  let q_str := JsString.slice2 q in
  match status_of_prefix prefix with
  | Some s =>
      let queries_watched := Js.set q_str true queries_watched in
      match qo_lookup with
      | None => Throws
      | Some qo =>
          let qo :=
            if Js.has q_str qo then qo
            else Js.set q_str {| query := q_str; status := EmptyString;
                                 rank := None; rank_history := None |} qo in
          let qo := Js.alter (set_status s) q_str qo in
          let queries_ignored :=
            if Js.has q_str queries_ignored
            then Js.remove q_str queries_ignored
            else queries_ignored in
          Ok (Some qo, queries_watched, queries_ignored)
      end
  | None =>
      match prefix with
      | Some c =>
          if Ascii.eqb c "I" && Js.has q_str queries_watched
          then Ok (qo_lookup, Js.remove q_str queries_watched,
                   Js.set q_str true queries_ignored)
          else Ok st
      | None => Ok st
      end
  end.

Section Session.
Context {F : Type}.

(** The object with [this.state.status] and the three breakpoints. *)
Record Session : Type := {
  model : Word2vec F;
  session_status : string;
  breakpoint_instances_watched : Z;
  breakpoint_iterations : Z;
  breakpoint_time : Z
}.

Definition set_model (s : Session) (m : Word2vec F) : Session :=
  {| model := m; session_status := session_status s;
     breakpoint_instances_watched := breakpoint_instances_watched s;
     breakpoint_iterations := breakpoint_iterations s;
     breakpoint_time := breakpoint_time s |}.

Definition set_session_status (s : Session) (status : string) : Session :=
  {| model := model s; session_status := status;
     breakpoint_instances_watched := breakpoint_instances_watched s;
     breakpoint_iterations := breakpoint_iterations s;
     breakpoint_time := breakpoint_time s |}.

Definition set_queries (m : Word2vec F) (q : list string) (key : string)
    (watched ignored : Js.obj bool) (qo : Js.obj (Js.obj QueryOutRecord))
    (records : list QueryOutRecord)
  : Word2vec F :=
  {| config := config m; voc := voc m; query_in := q;
     qi_key := key; queries_watched := watched;
     queries_ignored := ignored; qo_map := qo;
     syn0 := syn0 m; syn1 := syn1 m;
     learning_rate := learning_rate m; instances := instances m;
     state_sentences := state_sentences m; epochs := epochs m;
     count_instances_watched := count_instances_watched m;
     query_out_records := records; qi_vec := qi_vec m;
     draws := draws m |}.

(** [state.query_out_records] holds the records of [qo_map] themselves,
    those of the key under which [compute_query_result] ranked them, each
    under its word: what is written in a record of that store shows in the
    array at once. *)
Definition shared_records (qo_map : Js.obj (Js.obj QueryOutRecord))
    (key : string) (records : list QueryOutRecord) : list QueryOutRecord :=
  List.map
    (fun r =>
       match Js.get key qo_map with
       | Some qo => default r (Js.get (query r) qo)
       | None => r
       end)
    records.

(** [qo_lookup] is the object stored in [qo_map] under [qi_key]: what
    the loop writes in it is written in [qo_map].  The records of
    [state.query_out_records] are those of the key that the query had
    before the call. *)
Definition update_qi_and_qo (request : QueryRequest) (s : Session)
  : result Session :=
  let m := model s in
  let ranked_key := qi_key m in
  let query_in := default [] (request_query_in request) in
  let qi_key := JsString.join "&" query_in in
  let qo_map :=
    if (0 <? String.length qi_key)%nat && negb (Js.has qi_key (qo_map m))
    then Js.set qi_key [] (qo_map m)
    else qo_map m in
  let query_out := default [] (request_query_out request) in
  let* (qo_lookup, queries_watched, queries_ignored) :=
    for_each update_query_out query_out
      (Js.get (V := Js.obj QueryOutRecord) qi_key qo_map,
       queries_watched m, queries_ignored m) in
  let qo_map :=
    match qo_lookup with
    | Some qo => Js.set qi_key qo qo_map
    | None => qo_map
    end in
  Ok (set_session_status
        (set_model s (set_queries m query_in qi_key queries_watched
                        queries_ignored qo_map
                        (shared_records qo_map ranked_key
                           (query_out_records m))))
        (request_status request)).
End Session.
Arguments Session : clear implicits.

(** ** [autocomplete] (lines 265-293)

    [$.ui.autocomplete.filter] belongs to jQuery UI: it is a parameter.
    [util.startsWith] is the test of a prefix.  [None] is the
    [index2word] that [build_vocab] has not made yet. *)
Section Autocomplete.
Variable ui_filter : list string -> string -> list string.

Definition autocomplete (index2word : option (list string)) (term : string)
  : list string :=
  match index2word with
  | None => []
  | Some index2word =>
      if (String.length term =? 0)%nat then []
      else
        let minus := Js.starts_with "-" term in
        let search_term := if minus then Js.slice1 term else term in
        let out := ui_filter index2word search_term in
        let out_s := List.filter (String.prefix search_term) out in
        let out_ns := List.filter (fun w => negb (String.prefix search_term w)) out in
        let out := out_s ++ out_ns in
        let out := if minus then List.map (String.append "-") out else out in
        firstn 20 out
  end.
End Autocomplete.

(** ** [train_until_breakpoint] (lines 495-517) and the request [train]

    [Date.now] is a parameter: [now k] is what its [k]-th call returns.
    The loop has no bound of its own: [fuel] bounds the number of rounds
    of the model, and [None] is the loop that has not ended within
    them. *)
Section Breakpoints.
Context {F : Type} `{JsArith F} `{JsMath F}.
Variable get_random_float : nat -> F.
Variable now : nat -> Z.

(** The three tests after [train_sentence]: the status to stop with, if
    any, and the number of calls of [Date.now] so far. *)
Definition breakpoint_met (s : Session F) (clock : nat)
  : option string * nat :=
  let m := model s in
  let timed := (0 <? breakpoint_time s)%Z in
  if timed && (breakpoint_time s <=? now clock)%Z
  then (Some "AUTO_BREAK"%string, S clock)
  else
    let clock := if timed then S clock else clock in
    if (0 <? breakpoint_iterations s)%Z
       && (breakpoint_iterations s <=? Z.of_nat (instances m))%Z
    then (Some "USER_BREAK"%string, clock)
    else if (0 <? breakpoint_instances_watched s)%Z
            && (breakpoint_instances_watched s
                <=? Z.of_nat (count_instances_watched m))%Z
    then (Some "USER_BREAK"%string, clock)
    else (None, clock).

Fixpoint train_loop (fuel : nat) (s : Session F) (clock : nat)
  : option (result (Session F * nat)) :=
  match fuel with
  | O => None
  | S fuel' =>
      match train_sentence get_random_float (model s) with
      | Ok m =>
          let s := set_model s m in
          match breakpoint_met s clock with
          | (Some status, clock) => Some (Ok (set_session_status s status, clock))
          | (None, clock) => train_loop fuel' s clock
          end
      | Throws => Some Throws
      | Hangs => Some Hangs
      end
  end.

Definition train_until_breakpoint (fuel : nat) (s : Session F) (clock : nat)
  : option (result (Session F * nat)) :=
  match train_loop fuel s clock with
  | Some (Ok (s, clock)) =>
      match compute_query_result (model s) with
      | Ok m => Some (Ok (set_model s m, clock))
      | Throws => Some Throws
      | Hangs => Some Hangs
      end
  | r => r
  end.

(** Lines 140-156, the requests [train] ([iterations] is
    [request['iterations'] || -1]) and [train-continue]. *)
Definition set_breakpoints (s : Session F) (watched iterations time : Z)
  : Session F :=
  {| model := model s; session_status := session_status s;
     breakpoint_instances_watched := watched;
     breakpoint_iterations := iterations;
     breakpoint_time := time |}.

Definition train_request (report_interval : Z) (requested : option Z)
    (watched : bool) (fuel : nat) (s : Session F) (clock : nat)
  : option (result (Session F * nat)) :=
  let requested_iterations :=
    match requested with
    | Some z => if (z =? 0)%Z then (-1)%Z else z
    | None => (-1)%Z
    end in
  let time := (now clock + report_interval)%Z in
  let m := model s in
  let s :=
    if (0 <? requested_iterations)%Z then
      if watched
      then set_breakpoints s
             (Z.of_nat (count_instances_watched m) + requested_iterations)
             (-1) time
      else set_breakpoints s (-1)
             (Z.of_nat (instances m) + requested_iterations) time
    else set_breakpoints s (-1) (-1) time in
  train_until_breakpoint fuel s (S clock).

Definition train_continue_request (report_interval : Z) (fuel : nat)
    (s : Session F) (clock : nat) : option (result (Session F * nat)) :=
  let time := (now clock + report_interval)%Z in
  train_until_breakpoint fuel
    (set_breakpoints s (breakpoint_instances_watched s)
       (breakpoint_iterations s) time)
    (S clock).
End Breakpoints.


(** * Exact arithmetic

    An implementation of the numbers is exact when every number denotes a
    real and the operations are the operations on the reals.  Nothing is
    said of a division by zero, of [Math.sqrt] and of [Math.exp]; of
    [Math.pow] only that a positive base gives a positive power and the
    base 0 a power that is not negative.
    IEEE-754 arithmetic is not exact: it rounds, and it has [NaN]. *)
Class Exact (F : Type) `{JsArith F} `{JsMath F} : Type := {
  den : F -> R;
  den_inj : forall x y, den x = den y -> x = y;
  den_int : forall z, den (fint z) = IZR z;
  den_add : forall x y, den (fadd x y) = (den x + den y)%R;
  den_sub : forall x y, den (fsub x y) = (den x - den y)%R;
  den_mul : forall x y, den (fmul x y) = (den x * den y)%R;
  den_div : forall x y, den y <> 0%R -> den (fdiv x y) = (den x / den y)%R;
  flt_lt : forall x y, flt x y = true <-> (den x < den y)%R;
  feq_eq : forall x y, feq x y = true <-> den x = den y;
  den_round : forall x, den (fround x) = IZR (Zfloor (den x + / 2));
  den_floor : forall x, den (ffloor x) = IZR (Zfloor (den x));
  den_min : forall x y, den (fmin x y) = Rmin (den x) (den y);
  to_int_den : forall x z, to_int x = Some z <-> den x = IZR z;
  pow_pos : forall x y, (0 < den x)%R -> (0 < den (fpow x y))%R;
  pow_nonneg : forall x y, (0 <= den x)%R -> (0 <= den (fpow x y))%R
}.

(** The reals that the rationals denote. *)
Definition Qc_den (x : Qc) : R := Q2R (this x).


(** * The statements: predicates

    The properties that the theorems below state of the vocabulary, of
    the cumulative table, of the rank histories and of the ranking. *)

(** The tokens of a corpus, in order. *)
Definition tokens (corpus : string) : list string :=
  List.flat_map (Js.split " ") (Js.split "010" corpus).

Definition counted (ts : list string) (st : Js.obj VocabItem * list string)
  : Prop :=
  List.map fst (fst st) = snd st
  /\ NoDup (snd st)
  /\ (forall w, In w (snd st) <-> In w ts)
  /\ (forall w, count_of (fst st) w = count_occ string_dec ts w).

(** The state of the vocabulary after pruning: the tokens counted
    [min_count] times or more, each with its count. *)
Definition kept (min_count : Z) (ts : list string)
    (st : Js.obj VocabItem * list string) : Prop :=
  List.map fst (fst st) = snd st
  /\ NoDup (snd st)
  /\ (forall w, In w (snd st) <->
                In w ts /\ (min_count <= Z.of_nat (count_occ string_dec ts w))%Z)
  /\ (forall w, In w (snd st) -> count_of (fst st) w = count_occ string_dec ts w).

(** The iteration numbers of a history increase strictly and none is
    above [bound]. *)
Definition history_ok (bound : nat) (r : QueryOutRecord) : Prop :=
  let h := default [] (rank_history r) in
  StronglySorted lt (List.map iteration h)
  /\ Forall (fun e => iteration e <= bound) h.

(** Every record of every query key has such a history. *)
Definition records_ok (bound : nat) (qo_map : Js.obj (Js.obj QueryOutRecord))
  : Prop :=
  Forall (fun kq => Forall (fun wr => history_ok bound (snd wr)) (snd kq)) qo_map.

Definition lookup_ok (bound : nat) (qo : option (Js.obj QueryOutRecord)) : Prop :=
  match qo with
  | Some o => Forall (fun wr => history_ok bound (snd wr)) o
  | None => True
  end.

(** The word of a query term, without its sign. *)
Definition query_word (q : string) : string :=
  if Js.starts_with "-" q then Js.slice1 q else q.

(** Every record is stored under its own word. *)
Definition keys_ok (qo : Js.obj QueryOutRecord) : Prop :=
  Forall (fun wr => query (snd wr) = fst wr) qo.

(** Both records are ranked, the first one not after the second. *)
Definition ranked_le (a b : QueryOutRecord) : Prop :=
  exists x y, rank a = Some x /\ rank b = Some y /\ x <= y.

Section RankingPredicates.
Context {F : Type} `{JsArith F}.

(** What the loop of lines 469-487 keeps true of [qo_lookup] and of the
    words pushed: every pushed word has a record, ranked at a rank [k] that
    was shown ([Q k]) and whose item is that word. *)
Definition shown_ok (m : Word2vec F) (items : list (ScoredItem F)) (Q : nat -> Prop)
    (st : option (Js.obj QueryOutRecord) * list string) : Prop :=
  match fst st with
  | Some qo =>
      keys_ok qo
      /\ forall w, In w (snd st) ->
           exists r k it,
             Js.get w qo = Some r /\ rank r = Some k /\ Q k
             /\ items !! k = Some it /\ word_at m (item_idx it) = w
  | None => snd st = []
  end.

(** The test of line 434 on two scores: [b - a > 0], the score [b] is the
    higher one. *)
Definition higher (a b : F) : bool := flt (fint 0) (fsub b a).

(** The test orders the scores: of two scores not each is the higher
    one, and a score that is not above a second one not above a third is
    not above the third.  (A score that is [NaN] is above and below
    nothing, and breaks the second condition between two numbers.) *)
Definition comparable (scores : list F) : Prop :=
  (forall a b, In a scores -> In b scores ->
     higher a b = true -> higher b a = false)
  /\ (forall a b c, In a scores -> In b scores -> In c scores ->
        higher a b = false -> higher b c = false -> higher a c = false).

Definition comparable_b (scores : list F) : bool :=
  forallb
    (fun a =>
       forallb
         (fun b =>
            implb (higher a b) (negb (higher b a))
            && forallb
                 (fun c =>
                    implb (negb (higher a b) && negb (higher b c))
                      (negb (higher a c)))
                 scores)
         scores)
    scores.

(** The order of [item_scores]: the second item does not have the higher
    score, and of two items of which none has the higher score the first
    one has the lower index. *)
Definition ranked_before (a b : ScoredItem F) : Prop :=
  by_score a b = false
  /\ (by_score b a = false -> item_idx a < item_idx b).

(** The history that the record of the word [w] has before a call, under
    the current query key: empty for a word without a record, and for a
    record that has not been ranked. *)
Definition prior_history (m : Word2vec F) (w : string) : list RankEntry :=
  match Js.get (qi_key m) (qo_map m) with
  | Some qo =>
      match Js.get w qo with
      | Some r => default [] (rank_history r)
      | None => []
      end
  | None => []
  end.

(** The record [r] of the word [w] as a call leaves it when it ranks the
    word: a rank [k], pushed on the history that the word had before the
    call. *)
Definition written (m : Word2vec F) (w : string) (r : QueryOutRecord) : Prop :=
  exists k,
    rank r = Some k
    /\ rank_history r
       = Some (push_rank k (instances m) (prior_history m w)).

(** What the loop of lines 469-487 keeps true of [qo_lookup] and of the
    words pushed, with respect to the store [qo0] that the call found:
    no record is removed, a record is the one of [qo0] or one that the
    call has written, and the records of the words pushed are written
    ones. *)
Definition writes_ok (m : Word2vec F)
    (st : option (Js.obj QueryOutRecord) * list string) : Prop :=
  match fst st with
  | Some qo =>
      exists qo0,
        Js.get (qi_key m) (qo_map m) = Some qo0
        /\ (forall w, Js.get w qo = None -> Js.get w qo0 = None)
        /\ (forall w r, Js.get w qo = Some r ->
              Js.get w qo0 = Some r \/ written m w r)
        /\ (forall w, In w (snd st) ->
              exists r, Js.get w qo = Some r /\ written m w r)
  | None => snd st = []
  end.

(** The state in which a query can be ranked: ten words or more, a row of
    [syn0] for every index, query terms and words of [index2word] that are
    keys of [vocab], and a record store for the query key. *)
Definition rankable (m : Word2vec F) : Prop :=
  10 <= vocab_size (voc m)
  /\ length (syn0 m) = vocab_size (voc m)
  /\ length (index2word (voc m)) = vocab_size (voc m)
  /\ (forall q, In q (query_in m) ->
        exists it, Js.get (query_word q) (vocab (voc m)) = Some it
                   /\ idx it < vocab_size (voc m))
  /\ (forall w, In w (index2word (voc m)) ->
        is_Some (Js.get w (vocab (voc m))))
  /\ is_Some (Js.get (qi_key m) (qo_map m)).

End RankingPredicates.

Section TrainingPredicates.
Context {F : Type}.

(** What a step keeps: the records, and an instance count that has not
    fallen. *)
Definition counters_kept (m0 m : Word2vec F) : Prop :=
  qo_map m = qo_map m0 /\ instances m0 <= instances m.

End TrainingPredicates.

Section TablePredicates.
Context {F : Type} `{Exact F}.

(** The invariant of the table: one entry for each index, entries that do
    not decrease, each an integer of [[0, 2^31 - 1]], the last one the
    domain constant. *)
Definition cum_table_inv (v : Vocab F) : Prop :=
  length (cum_table v) = vocab_size v
  /\ StronglySorted (fun a b => (den a <= den b)%R) (cum_table v)
  /\ Forall (fun a => exists z, den a = IZR z /\ (0 <= z <= 2147483647)%Z)
       (cum_table v)
  /\ last (cum_table v) = Some cum_table_domain.

End TablePredicates.

Section DrawPredicates.
Context {F : Type} `{JsArith F} `{JsMath F}.
Variable get_random_float : nat -> F.

(** The targets of the draws of [k] turns of the loop over [d], from the
    [n]-th call of the random source on, and the number of calls after
    them. *)
Fixpoint negative_draws (m : Word2vec F) (k n : nat)
  : result (list (option Z) * nat) :=
  match k with
  | O => Ok ([], n)
  | S k' =>
      let* (t, n') := draw_negative get_random_float m n in
      let* (ts, n'') := negative_draws m k' n' in
      Ok (t :: ts, n'')
  end.

(** The gradient steps of lines 590-595 for a list of targets, each with
    its label, in order. *)
Definition ns_updates (m : Word2vec F) (l1 : list F) (targets : list (F * Z))
    (st : list F * list (list F)) : result (list F * list (list F)) :=
  for_each (fun p => ns_update m l1 (fst p) (Some (snd p))) targets st.

(** The draws that are not the true target, with the label 0. *)
Definition negatives (w_idx : nat) (targets : list Z) : list (F * Z) :=
  List.map (fun t => (fint 0, t))
    (List.filter (fun t => negb (t =? Z.of_nat w_idx)%Z) targets).

End DrawPredicates.

(** Of the [2^31 - 1] values that [Math.floor(r * cum_table_domain)] takes
    for [r] in [[0, 1)], the number of those that the redraw with the
    divisor [d = vocab_size - 1] turns into the target [t]. *)
Definition redraw_count (d t : Z) : Z := ((2147483647 - t + d) / d)%Z.


(** The words of [query_in], without their signs, that are not [in]
    [vocab]. *)
Definition missing_words (vocab : Js.obj VocabItem) (query_in : list string)
  : list string :=
  List.filter (fun w => negb (JsProto.has_in w vocab))
    (List.map query_word query_in).

(** The word of an item: the item without the sign that the term has. *)
Definition item_word (term item : string) : string :=
  if Js.starts_with "-" term then Js.slice1 item else item.


(** A matrix of [rows] rows of [cols] entries. *)
Definition matrix {F : Type} (rows cols : nat) (m : list (list F)) : Prop :=
  length m = rows /\ Forall (fun r => length r = cols) m.

Section ModelPredicates.
Context {F : Type}.

(** [syn0] and [syn1] have a row of [hidden_size] entries for every index
    of the vocabulary. *)
Definition shaped (m : Word2vec F) : Prop :=
  matrix (vocab_size (voc m)) (hidden_size (config m)) (syn0 m)
  /\ matrix (vocab_size (voc m)) (hidden_size (config m)) (syn1 m).

(** What a training step does not touch. *)
Definition same_setup (m0 m : Word2vec F) : Prop :=
  config m = config m0 /\ voc m = voc m0
  /\ query_in m = query_in m0 /\ qi_key m = qi_key m0
  /\ queries_watched m = queries_watched m0
  /\ queries_ignored m = queries_ignored m0
  /\ qo_map m = qo_map m0
  /\ query_out_records m = query_out_records m0 /\ qi_vec m = qi_vec m0.

(** The indices of [vocab] are indices of the matrices, and the cursor
    [state.sentences] is an index of [sentences]. *)
Definition indexed (m : Word2vec F) : Prop :=
  (forall w it, Js.get w (vocab (voc m)) = Some it ->
                idx it < vocab_size (voc m))
  /\ num_sentences (voc m) = length (sentences (voc m))
  /\ state_sentences m < num_sentences (voc m).

(** What a step of the loops over the words keeps. *)
Definition step_kept (m0 m : Word2vec F) : Prop :=
  same_setup m0 m /\ shaped m
  /\ learning_rate m = learning_rate m0
  /\ state_sentences m = state_sentences m0 /\ epochs m = epochs m0
  /\ draws m0 <= draws m.
End ModelPredicates.

Section ModelInvariant.
Context {F : Type} `{Exact F}.

(** The state in which training goes on: the shape of the matrices, the
    indices, and the invariant of the cumulative table. *)
Definition well_formed (m : Word2vec F) : Prop :=
  shaped m /\ indexed m /\ cum_table_inv (voc m).

(** The order of the ranks: the higher score first and, of two equal
    scores, the lower index first. *)
Definition ranks_before (a b : ScoredItem F) : Prop :=
  (den (score b) < den (score a))%R
  \/ (den (score a) = den (score b) /\ item_idx a < item_idx b).
End ModelInvariant.

Section FramePredicates.
Context {F : Type}.

(** What the training of a word leaves as it is; the random source is
    only read further. *)
Definition frame_kept (m0 m : Word2vec F) : Prop :=
  same_setup m0 m
  /\ learning_rate m = learning_rate m0
  /\ state_sentences m = state_sentences m0 /\ epochs m = epochs m0
  /\ draws m0 <= draws m.

(** The state of the training, which the methods of the queries leave
    as it is. *)
Definition same_training (m0 m : Word2vec F) : Prop :=
  config m = config m0 /\ voc m = voc m0
  /\ syn0 m = syn0 m0 /\ syn1 m = syn1 m0
  /\ learning_rate m = learning_rate m0
  /\ instances m = instances m0
  /\ state_sentences m = state_sentences m0 /\ epochs m = epochs m0
  /\ count_instances_watched m = count_instances_watched m0
  /\ draws m = draws m0.

(** The state in which a query of known words can be ranked: ten words
    or more, a row of [syn0] and a word of [index2word] for every index,
    and an entry of [vocab] for every word. *)
Definition queryable (m : Word2vec F) : Prop :=
  10 <= vocab_size (voc m)
  /\ length (syn0 m) = vocab_size (voc m)
  /\ length (index2word (voc m)) = vocab_size (voc m)
  /\ (forall w it, Js.get w (vocab (voc m)) = Some it ->
                   idx it < vocab_size (voc m))
  /\ (forall w, In w (index2word (voc m)) ->
                is_Some (Js.get w (vocab (voc m)))).

(** No word of a sentence is a member name of [Object.prototype]. *)
Definition plain_sentences (m : Word2vec F) : Prop :=
  Forall (fun sentence => JsProto.plain (Js.split " " sentence))
    (sentences (voc m)).

(** No word of [index2word] and no watched word is such a name. *)
Definition plain_model (m : Word2vec F) : Prop :=
  JsProto.plain (index2word (voc m))
  /\ JsProto.plain (List.map fst (queries_watched m)).

(** The words of a sentence that are keys of [vocab]. *)
Definition known_words (m : Word2vec F) (sentence : string) : list string :=
  List.filter (fun w => Js.has w (vocab (voc m))) (Js.split " " sentence).
End FramePredicates.

(** The key of the query of a request, the words of its terms and the
    words that it marks are no member names of [Object.prototype]. *)
Definition plain_request (request : QueryRequest) : Prop :=
  let query := default [] (request_query_in request) in
  JsProto.inherited (JsString.join "&" query) = false
  /\ JsProto.plain (List.map query_word query)
  /\ JsProto.plain
       (List.map JsString.slice2 (default [] (request_query_out request))).

(** A record of [qo_lookup] stays, with its word and its status. *)
Definition record_kept (qo0 : Js.obj QueryOutRecord)
    (qo : option (Js.obj QueryOutRecord)) : Prop :=
  forall w r, Js.get w qo0 = Some r ->
    exists qo' r', qo = Some qo' /\ Js.get w qo' = Some r'
                   /\ query r' = query r /\ status r' = status r.


(** No word is watched and ignored at once. *)
Definition disjoint_marks (watched ignored : Js.obj bool) : Prop :=
  forall w, Js.has w watched = true -> Js.has w ignored = false.

(** A record of [qo_lookup] stays, with its word, its rank and its
    history. *)
Definition history_kept (qo0 : Js.obj QueryOutRecord)
    (qo : option (Js.obj QueryOutRecord)) : Prop :=
  forall w r, Js.get w qo0 = Some r ->
    exists qo' r', qo = Some qo' /\ Js.get w qo' = Some r'
                   /\ query r' = query r /\ rank r' = rank r
                   /\ rank_history r' = rank_history r.

(** The word has a record, marked good, bad or watched. *)
Definition marked (w : string) (qo : option (Js.obj QueryOutRecord)) : Prop :=
  exists qo' r, qo = Some qo' /\ Js.get w qo' = Some r
                /\ (status r = "GOOD"%string \/ status r = "BAD"%string
                    \/ status r = "WATCHED"%string).

(** [qo_map] after line 338. *)
Definition with_store (key : string) (qo_map : Js.obj (Js.obj QueryOutRecord))
  : Js.obj (Js.obj QueryOutRecord) :=
  if (0 <? String.length key)%nat && negb (Js.has key qo_map)
  then Js.set key [] qo_map
  else qo_map.


Section TrainingRuns.
Context {F : Type} `{JsArith F} `{JsMath F}.
Variable get_random_float : nat -> F.

(** [n] calls of [train_sentence] in a row. *)
Fixpoint train_sentences (n : nat) (m : Word2vec F) : result (Word2vec F) :=
  match n with
  | O => Ok m
  | S n' =>
      let* m1 := train_sentence get_random_float m in train_sentences n' m1
  end.
End TrainingRuns.

Section BreakpointPredicates.
Context {F : Type}.

(** The breakpoints of a session are those of another one. *)
Definition same_breakpoints (s0 s : Session F) : Prop :=
  breakpoint_time s = breakpoint_time s0
  /\ breakpoint_iterations s = breakpoint_iterations s0
  /\ breakpoint_instances_watched s = breakpoint_instances_watched s0.

(** No breakpoint is set. *)
Definition no_breakpoint (s : Session F) : Prop :=
  (breakpoint_time s <= 0)%Z /\ (breakpoint_iterations s <= 0)%Z
  /\ (breakpoint_instances_watched s <= 0)%Z.
End BreakpointPredicates.

(** * The statements: concrete models *)

(** The corpus of the two tokens ['\0'], with the default [min_count]. *)
Definition C4_corpus : string := (null_word ++ " " ++ null_word)%string.

(** Eleven words, vectors of two coordinates, and the query [a - a]. *)
Definition C2_config : Word2vecConfig float :=
  {| hidden_size := 2; alpha := 0.5%float; window := 3; min_count := 1;
     min_alpha := 0.25%float; sg := true; negative := 5; cbow_mean := true;
     iter := 20%float |}.

(** [cum_table] is not read by [compute_query_result]. *)
Definition C2_voc : Vocab float :=
  let '(v, i2w) := vocabulary 1 "a b c d e f g h i j k" in
  {| sentences := ["a b c d e f g h i j k"%string];
     vocab := v; index2word := i2w; cum_table := [];
     num_sentences := 1; vocab_size := length i2w;
     corpus_size := total_words v |}.

Definition C2_model : Word2vec float :=
  {| config := C2_config; voc := C2_voc;
     query_in := ["a"; "-a"]%string; qi_key := "a&-a";
     queries_watched := []; queries_ignored := [];
     qo_map := [("a&-a"%string, [])];
     syn0 := List.map (fun i => [fint (Z.of_nat i) / 4; 1 - fint (Z.of_nat i) / 8]%float)
               (seq 0 12);
     syn1 := []; learning_rate := 0.5%float; instances := 0;
     state_sentences := 0; epochs := 0; count_instances_watched := 0;
     query_out_records := []; qi_vec := []; draws := 0 |}.

(** A model with the query [b - a], the watched word [k], and a record of
    [k] that was ranked at the instance counts 2 and 4. *)
Definition C6_model : Word2vec float :=
  {| config := C2_config; voc := C2_voc;
     query_in := ["b"; "-a"]%string; qi_key := "b&-a";
     queries_watched := [("k"%string, true)]; queries_ignored := [];
     qo_map :=
       [("b&-a"%string,
         [("k"%string,
           {| query := "k"; status := "WATCHED"; rank := Some 5;
              rank_history :=
                Some [{| entry_rank := 3; iteration := 2 |};
                      {| entry_rank := 5; iteration := 4 |}] |})])];
     syn0 := syn0 C2_model;
     syn1 := []; learning_rate := 0.5%float; instances := 7;
     state_sentences := 0; epochs := 0; count_instances_watched := 0;
     query_out_records := []; qi_vec := []; draws := 0 |}.

(** The corpus [a b] with [min_count = 1]: [a] has index 1 and [b] index
    2.  The random source returns 0 at every call. *)
Definition C1_config : Word2vecConfig Qc :=
  {| hidden_size := 1; alpha := Q2Qc (1 # 10); window := 3; min_count := 1;
     min_alpha := Q2Qc (1 # 100); sg := false; negative := 5;
     cbow_mean := true; iter := Qc_of_Z 20 |}.

Definition C1_model : Word2vec Qc :=
  {| config := C1_config; voc := build_vocab 1 "a b";
     query_in := []; qi_key := ""; queries_watched := [];
     queries_ignored := []; qo_map := [];
     syn0 := [[Qc_of_Z 1]; [Qc_of_Z 2]; [Qc_of_Z 3]];
     syn1 := [[Qc_of_Z 1]; [Qc_of_Z 1]; [Qc_of_Z 1]];
     learning_rate := Q2Qc (1 # 10); instances := 0; state_sentences := 0;
     epochs := 0; count_instances_watched := 0; query_out_records := [];
     qi_vec := []; draws := 0 |}.

Definition C1_random (_ : nat) : Qc := Qc_of_Z 0.

(** A random source that returns 0 and a half in turn. *)
Definition C3_random (k : nat) : Qc :=
  if Nat.even k then Qc_of_Z 0 else Q2Qc (1 # 2).

(** The model of the sentence [a b] with [window = 0]. *)
Definition C8_model : Word2vec Qc :=
  {| config :=
       {| hidden_size := 1; alpha := Q2Qc (1 # 10); window := 0;
          min_count := 1; min_alpha := Q2Qc (1 # 100); sg := false;
          negative := 5; cbow_mean := true; iter := Qc_of_Z 20 |};
     voc := voc C1_model;
     query_in := []; qi_key := ""; queries_watched := [];
     queries_ignored := []; qo_map := [];
     syn0 := syn0 C1_model; syn1 := syn1 C1_model;
     learning_rate := Q2Qc (1 # 10); instances := 0; state_sentences := 0;
     epochs := 0; count_instances_watched := 0; query_out_records := [];
     qi_vec := []; draws := 0 |}.

(** The rows of a matrix of rationals, as fractions. *)
Definition fractions (m : list (list Qc)) : list (list Q) :=
  List.map (List.map this) m.

(** A skip-gram model of the corpus of the two sentences [a b] and
    [b a], as [build_vocab] and [init_model] make it from weights that are
    all a half. *)
Definition sg_config : Word2vecConfig Qc :=
  {| hidden_size := 2; alpha := Q2Qc (1 # 10); window := 3; min_count := 1;
     min_alpha := Q2Qc (1 # 100); sg := true; negative := 2;
     cbow_mean := true; iter := Qc_of_Z 20 |}.

Definition sg_corpus : string := ("a b" ++ JsString.newline ++ "b a")%string.

Definition half_weight (_ _ : nat) : Qc := Q2Qc (1 # 2).

Definition sg_model : Word2vec Qc :=
  build_and_init half_weight sg_corpus
    {| config := sg_config; voc := build_vocab 1 EmptyString;
       query_in := []; qi_key := EmptyString; queries_watched := [];
       queries_ignored := []; qo_map := [];
       syn0 := []; syn1 := [];
       learning_rate := Qc_of_Z 0; instances := 0; state_sentences := 0;
       epochs := 0; count_instances_watched := 0; query_out_records := [];
       qi_vec := []; draws := 0 |}.

(** A session on that model, and a request that watches [b], then ignores
    it, for the query [a - b]. *)
Definition sg_session : Session Qc :=
  {| model := sg_model; session_status := "WAIT_FOR_TRAIN";
     breakpoint_instances_watched := -1; breakpoint_iterations := -1;
     breakpoint_time := -1 |}.

Definition sg_request : QueryRequest :=
  {| request_status := "WAIT_FOR_TRAIN";
     request_query_in := Some ["a"; "-b"]%string;
     request_query_out := Some ["W_b"; "I_b"]%string |}.

(** A model of ten words and the null word, and a session on it. *)
Definition ten_words : string := "a b c d e f g h i j".

Definition ten_session : Session Qc :=
  {| model := build_and_init half_weight ten_words sg_model;
     session_status := "WAIT_FOR_TRAIN";
     breakpoint_instances_watched := -1; breakpoint_iterations := -1;
     breakpoint_time := -1 |}.

(** A clock that advances by one at each call, and the session with a
    breakpoint after one instance. *)
Definition tick (k : nat) : Z := Z.of_nat (100 + k).

Definition sg_session_one : Session Qc :=
  {| model := sg_model; session_status := "WAIT_FOR_TRAIN";
     breakpoint_instances_watched := -1; breakpoint_iterations := 1;
     breakpoint_time := -1 |}.


(** Ten million different words, [w], [ww], [www], ..., each once. *)
Fixpoint unary (n : nat) : string :=
  match n with
  | O => EmptyString
  | S n' => String "w" (unary n')
  end.

Definition C5_words : list string :=
  List.map unary (seq 1 (Pos.to_nat 9999999)).

Definition C5_corpus : string := JsString.join " " C5_words.

(** The model of [C8_model] in binary64, with [iter = 0]; the random
    source returns 0 at every call. *)
Definition C8_float_model : Word2vec float :=
  {| config :=
       {| hidden_size := 1; alpha := 0.125%float; window := 0;
          min_count := 1; min_alpha := 0.0625%float; sg := false;
          negative := 5; cbow_mean := true; iter := 0%float |};
     voc := build_vocab 1 "a b";
     query_in := []; qi_key := ""; queries_watched := [];
     queries_ignored := []; qo_map := [];
     syn0 := [[1]; [2]; [3]]%float; syn1 := [[1]; [1]; [1]]%float;
     learning_rate := 0.125%float; instances := 0; state_sentences := 0;
     epochs := 0; count_instances_watched := 0; query_out_records := [];
     qi_vec := []; draws := 0 |}.

Definition C8_float_random (_ : nat) : float := 0%float.
(** The state of the engine in binary64 after the request [init_model] on
    a corpus of two sentences, with [iter = 0] and the query [d].  The
    initial weights are those of the calls of [get_random_init_weight]
    below: the rows of [syn0] of [c] and of [d] are [(0.125, 0)], those of
    [a] and [b] are [(0.125, 0.125)], the other ones [(0, 0.125)], and
    [syn1] holds zeros. *)
Definition C6_float_weight (k h : nat) : float :=
  if Nat.odd k then 0%float
  else
    let i := (k / 2 / 2)%nat in
    if Nat.even (k / 2)
    then (if (1 <=? i)%nat && (i <=? 4)%nat then 0.125%float else 0%float)
    else (if (3 <=? i)%nat && (i <=? 4)%nat then 0%float else 0.125%float).

Definition C6_float_corpus : string :=
  ("a b" ++ JsString.newline ++ "c d e f g h i j k")%string.

Definition C6_float_start : Word2vec float :=
  {| config :=
       {| hidden_size := 2; alpha := 0.125%float; window := 1;
          min_count := 1; min_alpha := 0.0625%float; sg := true;
          negative := 5; cbow_mean := true; iter := 0%float |};
     voc := {| sentences := []; vocab := []; index2word := [];
               cum_table := []; num_sentences := 0; vocab_size := 0;
               corpus_size := 0 |};
     query_in := ["d"%string]; qi_key := "d";
     queries_watched := []; queries_ignored := [];
     qo_map := [("d"%string, [])];
     syn0 := []; syn1 := []; learning_rate := 0.125%float; instances := 0;
     state_sentences := 0; epochs := 0; count_instances_watched := 0;
     query_out_records := []; qi_vec := []; draws := 0 |}.

Definition C6_float_model : Word2vec float :=
  build_and_init C6_float_weight C6_float_corpus C6_float_start.

(** Initial weights that differ from row to row, and the corpus of the
    words of [C6_model]. *)
Definition C7_weight (k h : nat) : float :=
  (fint (Z.of_nat (k mod 7 + 1)) / 8)%float.

Definition C7_corpus : string := "a b c d e f g h i j k".

(** * Outcomes and loops: general facts *)

Lemma bind_Ok {A B : Type} (r : result A) (f : A -> result B) (b : B) :
  bind r f = Ok b -> exists a, r = Ok a /\ f a = Ok b.
Proof. destruct r as [a| |]; simpl; intros E; try discriminate. eauto. Qed.

Ltac bind_inv H :=
  let a := fresh "a" in
  let E := fresh "E" in
  apply bind_Ok in H; destruct H as (a & E & H).

Lemma for_each_cons {A S : Type} (body : A -> S -> result S) (a : A)
    (l : list A) (s : S) :
  for_each body (a :: l) s = (let* s' := body a s in for_each body l s').
Proof. reflexivity. Qed.

(** An invariant of the loop state holds after the loop. *)
Lemma for_each_invariant {A S : Type} (P : S -> Prop)
    (body : A -> S -> result S) (l : list A) :
  (forall a s s', In a l -> P s -> body a s = Ok s' -> P s') ->
  forall s s', P s -> for_each body l s = Ok s' -> P s'.
Proof.
  induction l as [|a l IH]; intros Hbody s s' Hs E; simpl in E.
  - injection E as <-. exact Hs.
  - bind_inv E. eapply IH; [| |exact E].
    + intros b t t' Hb. apply Hbody. right. exact Hb.
    + eapply Hbody; [left; reflexivity|exact Hs|exact E0].
Qed.

Lemma for_each_total {A S : Type} (P : S -> Prop)
    (body : A -> S -> result S) (l : list A) :
  (forall a s, In a l -> P s -> exists s', body a s = Ok s' /\ P s') ->
  forall s, P s -> exists s', for_each body l s = Ok s' /\ P s'.
Proof.
  induction l as [|a l IH]; intros Hbody s Hs.
  - exists s. split; [reflexivity|exact Hs].
  - rewrite for_each_cons.
    destruct (Hbody a s (or_introl eq_refl) Hs) as (s1 & E1 & Hs1).
    rewrite E1. simpl. apply IH; [|exact Hs1].
    intros b t Hb. apply Hbody. right. exact Hb.
Qed.

Lemma map_r_Ok {A B : Type} (f : A -> result B) (l : list A) (l' : list B) :
  map_r f l = Ok l' ->
  length l' = length l
  /\ forall i x, l !! i = Some x -> exists y, f x = Ok y /\ l' !! i = Some y.
Proof.
  revert l'. induction l as [|a l IH]; intros l' E; simpl in E.
  - injection E as <-. split; [reflexivity|]. intros i x Hx. discriminate.
  - bind_inv E. bind_inv E. injection E as <-.
    destruct (IH a1 E1) as [Hlen Hall]. split; [simpl; lia|].
    intros [|i] x Hx; simpl in Hx |- *.
    + injection Hx as <-. eauto.
    + apply Hall. exact Hx.
Qed.

Lemma map_r_total {A B : Type} (f : A -> result B) (l : list A) :
  (forall x, In x l -> exists y, f x = Ok y) -> exists l', map_r f l = Ok l'.
Proof.
  induction l as [|a l IH]; intros Hf; simpl; [eauto|].
  destruct (Hf a (or_introl eq_refl)) as [b ->].
  destruct IH as [l' ->]; [intros x Hx; apply Hf; right; exact Hx|].
  simpl. eauto.
Qed.

Lemma filter_r_Ok {A : Type} (p : A -> result bool) (l l' : list A) :
  filter_r p l = Ok l' ->
  forall x, In x l' -> In x l /\ p x = Ok true.
Proof.
  revert l'. induction l as [|a l IH]; intros l' E x Hx; simpl in E.
  - injection E as <-. destruct Hx.
  - bind_inv E. bind_inv E. injection E as <-.
    destruct a0.
    + destruct Hx as [<-|Hx].
      * split; [left; reflexivity|exact E0].
      * destruct (IH a1 E1 x Hx) as [Hin Hp]. split; [right; exact Hin|exact Hp].
    + destruct (IH a1 E1 x Hx) as [Hin Hp]. split; [right; exact Hin|exact Hp].
Qed.

Lemma filter_r_total {A : Type} (p : A -> result bool) (l : list A) :
  (forall x, In x l -> exists b, p x = Ok b) -> exists l', filter_r p l = Ok l'.
Proof.
  induction l as [|a l IH]; intros Hp; simpl; [eauto|].
  destruct (Hp a (or_introl eq_refl)) as [b ->].
  destruct IH as [l' ->]; [intros x Hx; apply Hp; right; exact Hx|].
  simpl. eauto.
Qed.

Lemma fold_left_fixed {A B : Type} (f : A -> B -> A) (l : list B) (a : A) :
  (forall b, In b l -> f a b = a) -> List.fold_left f l a = a.
Proof.
  induction l as [|b l IH]; intros Hf; simpl; [reflexivity|].
  rewrite (Hf b (or_introl eq_refl)). apply IH.
  intros b' Hb'. apply Hf. right. exact Hb'.
Qed.

Lemma fold_left_invariant {A B : Type} (P : A -> Prop) (f : A -> B -> A)
    (l : list B) :
  (forall a b, In b l -> P a -> P (f a b)) ->
  forall a, P a -> P (List.fold_left f l a).
Proof.
  induction l as [|b l IH]; intros Hf a Ha; simpl; [exact Ha|].
  apply IH; [|apply Hf; [left; reflexivity|exact Ha]].
  intros a' b' Hb'. apply Hf. right. exact Hb'.
Qed.

(** * Sorting: general facts *)

Lemma insert_Permutation {A : Type} (gt : A -> A -> bool) (x : A) (l : list A) :
  Permutation (Js.insert gt x l) (x :: l).
Proof.
  induction l as [|y l IH]; simpl; [reflexivity|].
  destruct (gt x y); [|reflexivity].
  rewrite IH. apply perm_swap.
Qed.

Lemma sort_Permutation {A : Type} (gt : A -> A -> bool) (l : list A) :
  Permutation (Js.sort gt l) l.
Proof.
  induction l as [|x l IH]; simpl; [reflexivity|].
  rewrite insert_Permutation. constructor. exact IH.
Qed.

Lemma sort_Forall {A : Type} (P : A -> Prop) (gt : A -> A -> bool) (l : list A) :
  Forall P l -> Forall P (Js.sort gt l).
Proof. intros Hl. eapply Permutation_Forall; [|exact Hl]. symmetry. apply sort_Permutation. Qed.

Section SortByOrder.
Context {A : Type} (gt : A -> A -> bool) (le : A -> A -> Prop) (P : A -> Prop).
Hypothesis le_trans : forall a b c, le a b -> le b c -> le a c.
Hypothesis gt_true : forall a b, P a -> P b -> gt a b = true -> le b a.
Hypothesis gt_false : forall a b, P a -> P b -> gt a b = false -> le a b.

Lemma insert_sorted_le (x : A) (l : list A) :
  P x -> Forall P l -> StronglySorted le l ->
  StronglySorted le (Js.insert gt x l).
Proof.
  intros Hx Hl Hs. induction Hs as [|y l Hs IH Hy]; simpl.
  - repeat constructor.
  - inversion_clear Hl as [|? ? HPy HPl].
    destruct (gt x y) eqn:G.
    + constructor; [apply IH; exact HPl|].
      eapply Permutation_Forall; [symmetry; apply insert_Permutation|].
      constructor; [apply gt_true; assumption|exact Hy].
    + assert (Hxy : le x y) by (apply gt_false; assumption).
      constructor; [constructor; assumption|].
      constructor; [exact Hxy|].
      eapply Forall_impl; [exact Hy|]. simpl. intros z Hz.
      eapply le_trans; eassumption.
Qed.

Lemma sort_sorted_le (l : list A) :
  Forall P l -> StronglySorted le (Js.sort gt l).
Proof.
  induction 1 as [|x l Hx Hl IH]; simpl; [constructor|].
  apply insert_sorted_le; [exact Hx| |exact IH].
  apply sort_Forall. exact Hl.
Qed.

End SortByOrder.

Section SortByKey.
Context {A : Type} (gt : A -> A -> bool) (key : A -> nat) (P : A -> Prop).
Hypothesis gt_key : forall a b, P a -> P b -> gt a b = (key b <? key a)%nat.

Lemma insert_sorted (x : A) (l : list A) :
  P x -> Forall P l ->
  StronglySorted (fun a b => key a <= key b) l ->
  StronglySorted (fun a b => key a <= key b) (Js.insert gt x l).
Proof.
  intros Hx Hl Hs. induction Hs as [|y l Hs IH Hy]; simpl.
  - repeat constructor.
  - inversion_clear Hl as [|? ? HPy HPl].
    rewrite (gt_key x y Hx HPy).
    destruct (Nat.ltb_spec (key y) (key x)) as [L|L].
    + constructor; [apply IH; exact HPl|].
      eapply Permutation_Forall;
        [symmetry; apply insert_Permutation|].
      constructor; [lia|exact Hy].
    + constructor; [constructor; assumption|].
      constructor; [exact L|].
      eapply Forall_impl; [exact Hy|]. simpl. intros; lia.
Qed.

Lemma sort_sorted (l : list A) :
  Forall P l -> StronglySorted (fun a b => key a <= key b) (Js.sort gt l).
Proof.
  induction 1 as [|x l Hx Hl IH]; simpl; [constructor|].
  apply insert_sorted; [exact Hx| |exact IH].
  apply sort_Forall. exact Hl.
Qed.

End SortByKey.

Lemma StronglySorted_snoc (l : list nat) (x : nat) :
  StronglySorted lt l -> Forall (fun y => y < x) l ->
  StronglySorted lt (l ++ [x]).
Proof.
  induction 1 as [|y l Hl IH Hy]; intros Hx; simpl.
  - repeat constructor.
  - inversion_clear Hx as [|? ? Hyx Hlx]. constructor; [auto|].
    apply Forall_app. split; [exact Hy|]. repeat constructor. exact Hyx.
Qed.

Lemma StronglySorted_snoc_inv (l : list nat) (x : nat) :
  StronglySorted lt (l ++ [x]) ->
  StronglySorted lt l /\ Forall (fun y => y < x) l.
Proof.
  induction l as [|y l IH]; simpl; intros Hs.
  - split; constructor.
  - inversion_clear Hs as [|? ? Hl Hy]. destruct (IH Hl) as [Hl' Hx].
    apply Forall_app in Hy. destruct Hy as [Hy Hyx].
    inversion_clear Hyx. split; constructor; auto.
Qed.

Lemma StronglySorted_restrict {A : Type} (R R' : A -> A -> Prop) (P : A -> Prop)
    (l : list A) :
  (forall a b, P a -> P b -> R a b -> R' a b) ->
  Forall P l -> StronglySorted R l -> StronglySorted R' l.
Proof.
  intros HR Hl Hs. induction Hs as [|x l Hs IH Hx]; [constructor|].
  inversion_clear Hl as [|? ? HPx HPl]. constructor; [apply IH; exact HPl|].
  rewrite Forall_forall in Hx, HPl |- *. intros y Hy.
  apply HR; [exact HPx|apply HPl; exact Hy|apply Hx; exact Hy].
Qed.

(** The sort is stable: an element that stood before all those of a
    sorted array is inserted before the ones it does not have to follow.
    The comparison has to be an order on the elements in [P] only. *)
Section StableSortOn.
Context {A : Type} (gt : A -> A -> bool) (before le : A -> A -> Prop)
  (P : A -> Prop).
Hypothesis le_trans :
  forall a b c, P a -> P b -> P c -> le a b -> le b c -> le a c.
Hypothesis gt_true : forall x y, P x -> P y -> gt x y = true -> le y x.
Hypothesis gt_false :
  forall x y, P x -> P y -> before x y -> gt x y = false -> le x y.

Lemma insert_stable_on (x : A) (l : list A) :
  P x -> Forall P l -> StronglySorted le l -> Forall (before x) l ->
  StronglySorted le (Js.insert gt x l).
Proof.
  intros Px HP Hs. induction Hs as [|y l Hs IH Hall]; intros Hx; simpl.
  - repeat constructor.
  - apply Forall_cons in Hx. destruct Hx as [Hxy Hx].
    apply Forall_cons in HP. destruct HP as [Py HP].
    destruct (gt x y) eqn:E.
    + constructor; [apply IH; assumption|].
      rewrite (insert_Permutation gt x l). constructor; [|exact Hall].
      apply gt_true; assumption.
    + constructor; [constructor; assumption|].
      pose proof (gt_false x y Px Py Hxy E) as Hle. constructor; [exact Hle|].
      rewrite Forall_forall in HP, Hall. apply Forall_forall. intros z Hz.
      apply (le_trans x y z); auto.
Qed.

Lemma sort_stable_on (l : list A) :
  Forall P l -> StronglySorted before l -> StronglySorted le (Js.sort gt l).
Proof.
  intros HP Hs. induction Hs as [|x l Hs IH Hall]; simpl; [constructor|].
  apply Forall_cons in HP. destruct HP as [Px HP].
  apply insert_stable_on; [exact Px| |apply IH; exact HP|].
  - rewrite (sort_Permutation gt l). exact HP.
  - rewrite (sort_Permutation gt l). exact Hall.
Qed.
End StableSortOn.

(** * Objects: general facts *)

Lemma get_set_eq {V : Type} (k : string) (v : V) (o : Js.obj V) :
  Js.get k (Js.set k v o) = Some v.
Proof.
  induction o as [|[k' v'] o IH]; simpl.
  - rewrite String.eqb_refl. reflexivity.
  - destruct (String.eqb k' k) eqn:E; simpl; rewrite E; [reflexivity|exact IH].
Qed.

Lemma get_set_ne {V : Type} (k k0 : string) (v : V) (o : Js.obj V) :
  k0 <> k -> Js.get k (Js.set k0 v o) = Js.get k o.
Proof.
  intros Hne. induction o as [|[k' v'] o IH]; simpl.
  - destruct (String.eqb_spec k0 k); [contradiction|reflexivity].
  - destruct (String.eqb_spec k' k0) as [E|E]; simpl.
    + subst k'. destruct (String.eqb_spec k0 k); [contradiction|reflexivity].
    + destruct (String.eqb_spec k' k); [reflexivity|exact IH].
Qed.

Lemma get_alter {V : Type} (f : V -> V) (k k0 : string) (o : Js.obj V) :
  Js.get k (Js.alter f k0 o)
  = if String.eqb k0 k then option_map f (Js.get k o) else Js.get k o.
Proof.
  induction o as [|[k' v'] o IH]; simpl.
  - destruct (String.eqb k0 k); reflexivity.
  - destruct (String.eqb_spec k' k0) as [E|E]; simpl.
    + subst k'. destruct (String.eqb_spec k0 k); reflexivity.
    + destruct (String.eqb_spec k' k) as [E'|E']; [|exact IH].
      subst k'. destruct (String.eqb_spec k0 k); [congruence|reflexivity].
Qed.

Lemma get_In {V : Type} (k : string) (v : V) (o : Js.obj V) :
  Js.get k o = Some v -> In (k, v) o.
Proof.
  induction o as [|[k' v'] o IH]; simpl; intros E; [discriminate|].
  destruct (String.eqb_spec k' k) as [->|_].
  - injection E as <-. left. reflexivity.
  - right. apply IH. exact E.
Qed.

Lemma has_get {V : Type} (k : string) (o : Js.obj V) :
  Js.has k o = true -> exists v, Js.get k o = Some v.
Proof. unfold Js.has. destruct (Js.get k o) as [v|]; [eauto|discriminate]. Qed.

Lemma has_In {V : Type} (k : string) (o : Js.obj V) :
  Js.has k o = true <-> In k (List.map fst o).
Proof.
  unfold Js.has. induction o as [|[k' v'] o IH]; simpl.
  - split; [discriminate|intros []].
  - destruct (String.eqb_spec k' k) as [->|Hne].
    + split; [left; reflexivity|reflexivity].
    + rewrite IH. split; [right; assumption|]. intros [E|Hin]; [contradiction|exact Hin].
Qed.

Lemma get_None {V : Type} (k : string) (o : Js.obj V) :
  ~ In k (List.map fst o) -> Js.get k o = None.
Proof.
  intros Hk. destruct (Js.get k o) as [v|] eqn:G; [|reflexivity].
  exfalso. apply Hk. apply has_In. unfold Js.has. rewrite G. reflexivity.
Qed.

Lemma keys_set {V : Type} (k : string) (v : V) (o : Js.obj V) :
  List.map fst (Js.set k v o)
  = if Js.has k o then List.map fst o else List.map fst o ++ [k].
Proof.
  unfold Js.has. induction o as [|[k' v'] o IH]; simpl; [reflexivity|].
  destruct (String.eqb_spec k' k) as [->|Hne]; simpl; [reflexivity|].
  rewrite IH. destruct (Js.get k o); reflexivity.
Qed.

Lemma keys_alter {V : Type} (f : V -> V) (k : string) (o : Js.obj V) :
  List.map fst (Js.alter f k o) = List.map fst o.
Proof.
  induction o as [|[k' v'] o IH]; simpl; [reflexivity|].
  destruct (String.eqb k' k); simpl; [reflexivity|]. rewrite IH. reflexivity.
Qed.

Lemma Forall_set {V : Type} (P : string * V -> Prop) (k : string) (v : V)
    (o : Js.obj V) :
  (forall k', P (k', v)) -> Forall P o -> Forall P (Js.set k v o).
Proof.
  intros Hv. induction 1 as [|[k' v'] o Hkv Ho IH]; simpl.
  - constructor; [apply Hv|constructor].
  - destruct (String.eqb k' k); constructor; auto.
Qed.

Lemma Forall_alter {V : Type} (P : string * V -> Prop) (f : V -> V)
    (k : string) (o : Js.obj V) :
  (forall k' v, P (k', v) -> P (k', f v)) ->
  Forall P o -> Forall P (Js.alter f k o).
Proof.
  intros Hf. induction 1 as [|[k' v'] o Hkv Ho IH]; simpl.
  - constructor.
  - destruct (String.eqb k' k); constructor; auto.
Qed.

Lemma get_Forall {V : Type} (P : string * V -> Prop) (k : string) (v : V)
    (o : Js.obj V) :
  Forall P o -> Js.get k o = Some v -> exists k', P (k', v).
Proof.
  induction 1 as [|[k' v'] o Hkv Ho IH]; simpl; intros E.
  - discriminate.
  - destruct (String.eqb k' k).
    + injection E as <-. eauto.
    + auto.
Qed.

Lemma Forall_set_key {V : Type} (P : string * V -> Prop) (k : string) (v : V)
    (o : Js.obj V) :
  P (k, v) -> Forall P o -> Forall P (Js.set k v o).
Proof.
  intros Hv. induction 1 as [|[k' v'] o Hkv Ho IH]; simpl.
  - constructor; [exact Hv|constructor].
  - destruct (String.eqb_spec k' k) as [->|_]; constructor; auto.
Qed.

Lemma Forall_alter_key {V : Type} (P : string * V -> Prop) (f : V -> V)
    (k : string) (o : Js.obj V) :
  (forall v, P (k, v) -> P (k, f v)) ->
  Forall P o -> Forall P (Js.alter f k o).
Proof.
  intros Hf. induction 1 as [|[k' v'] o Hkv Ho IH]; simpl.
  - constructor.
  - destruct (String.eqb_spec k' k) as [->|_]; constructor; auto.
Qed.

Lemma keys_Permutation {V : Type} (o : Js.obj V) :
  Permutation (Js.keys o) (List.map fst o).
Proof.
  unfold Js.keys. rewrite (Permutation_map snd (sort_Permutation _ _)).
  induction (List.map fst o) as [|k ks IH]; simpl; [reflexivity|].
  destruct (Js.array_index k) as [n|]; simpl.
  - constructor. exact IH.
  - rewrite <- Permutation_middle. constructor. exact IH.
Qed.

(** * The rationals are exact *)

Lemma Qc_den_Q2Qc q : Qc_den (Q2Qc q) = Q2R q.
Proof. unfold Qc_den. simpl. apply Qeq_eqR, Qred_correct. Qed.

Lemma Qc_den_inj x y : Qc_den x = Qc_den y -> x = y.
Proof. intros E. apply Qc_is_canon, eqR_Qeq, E. Qed.

Lemma Qc_den_int z : Qc_den (Qc_of_Z z) = IZR z.
Proof. unfold Qc_of_Z. rewrite Qc_den_Q2Qc. unfold Q2R. simpl. field. Qed.

Lemma Qc_den_add x y : Qc_den (x + y)%Qc = (Qc_den x + Qc_den y)%R.
Proof. unfold Qcplus. rewrite Qc_den_Q2Qc. apply Q2R_plus. Qed.

Lemma Qc_den_sub x y : Qc_den (x - y)%Qc = (Qc_den x - Qc_den y)%R.
Proof.
  unfold Qcminus, Qcplus, Qcopp. rewrite !Qc_den_Q2Qc, Q2R_plus.
  simpl. rewrite (Qeq_eqR _ _ (Qred_correct _)), Q2R_opp. reflexivity.
Qed.

Lemma Qc_den_mul x y : Qc_den (x * y)%Qc = (Qc_den x * Qc_den y)%R.
Proof. unfold Qcmult. rewrite Qc_den_Q2Qc. apply Q2R_mult. Qed.

Lemma Qc_den_div x y :
  Qc_den y <> 0%R -> Qc_den (x / y)%Qc = (Qc_den x / Qc_den y)%R.
Proof.
  intros Hy. unfold Qcdiv, Qcmult, Qcinv. rewrite Qc_den_Q2Qc, Q2R_mult.
  simpl. rewrite (Qeq_eqR _ _ (Qred_correct _)), Q2R_inv; [reflexivity|].
  intros E. apply Hy. unfold Qc_den. rewrite (Qeq_eqR _ _ E).
  unfold Q2R. simpl. lra.
Qed.

Lemma Qc_ltb_lt x y : Qc_ltb x y = true <-> (Qc_den x < Qc_den y)%R.
Proof.
  unfold Qc_ltb, Qccompare, Qc_den.
  destruct (Qcompare_spec (this x) (this y)) as [E|L|L]; split; intros G;
    try discriminate; try reflexivity.
  - rewrite (Qeq_eqR _ _ E) in G. lra.
  - apply Qlt_Rlt, L.
  - apply Qlt_Rlt in L. lra.
Qed.

Lemma Qc_eqb_eq x y : Qc_eqb x y = true <-> Qc_den x = Qc_den y.
Proof.
  unfold Qc_eqb, Qccompare, Qc_den.
  destruct (Qcompare_spec (this x) (this y)) as [E|L|L]; split; intros G;
    try discriminate; try reflexivity.
  - apply Qeq_eqR, E.
  - apply Qlt_Rlt in L. lra.
  - apply Qlt_Rlt in L. lra.
Qed.

Lemma Zfloor_Q2R q : Zfloor (Q2R q) = Qfloor q.
Proof.
  apply Zfloor_eq. split.
  - rewrite <- (Qc_den_int (Qfloor q)). unfold Qc_of_Z. rewrite Qc_den_Q2Qc.
    apply Qle_Rle, Qfloor_le.
  - pose proof (Qlt_Rlt _ _ (Qlt_floor q)) as L.
    replace (Q2R (inject_Z (Qfloor q + 1))) with (IZR (Qfloor q) + 1)%R in L;
      [exact L|].
    unfold Q2R. simpl. rewrite plus_IZR. field.
Qed.

Lemma Qc_den_floor (x : Qc) : Qc_den (Qc_of_Z (Qfloor x)) = IZR (Zfloor (Qc_den x)).
Proof. rewrite Qc_den_int. unfold Qc_den. now rewrite Zfloor_Q2R. Qed.

Lemma Qc_den_round (x : Qc) :
  Qc_den (Qc_of_Z (Qfloor (x + Q2Qc (1 # 2))%Qc))
  = IZR (Zfloor (Qc_den x + / 2)).
Proof.
  rewrite Qc_den_floor, Qc_den_add, Qc_den_Q2Qc. do 3 f_equal.
  unfold Q2R. simpl. lra.
Qed.

Lemma Qc_den_min (x y : Qc) :
  Qc_den (if Qc_ltb y x then y else x) = Rmin (Qc_den x) (Qc_den y).
Proof.
  destruct (Qc_ltb y x) eqn:E.
  - apply Qc_ltb_lt in E. rewrite Rmin_right; lra.
  - rewrite Rmin_left; [reflexivity|].
    destruct (Rle_or_lt (Qc_den x) (Qc_den y)) as [L|L]; [exact L|].
    apply Qc_ltb_lt in L. congruence.
Qed.

Lemma Qc_to_int_den (x : Qc) z :
  (if Qc_eqb (Qc_of_Z (Qfloor x)) x then Some (Qfloor x) else None) = Some z
  <-> Qc_den x = IZR z.
Proof.
  destruct (Qc_eqb (Qc_of_Z (Qfloor x)) x) eqn:E; split; intros G.
  - injection G as <-. apply Qc_eqb_eq in E. now rewrite <- E, Qc_den_int.
  - f_equal. rewrite <- Zfloor_Q2R. fold (Qc_den x). rewrite G. apply ZfloorZ.
  - discriminate.
  - exfalso. assert (Qc_eqb (Qc_of_Z (Qfloor x)) x = true); [|congruence].
    apply Qc_eqb_eq. rewrite Qc_den_floor, G, ZfloorZ. reflexivity.
Qed.

Lemma Qc_pow_pos (x y : Qc) :
  (0 < Qc_den x)%R ->
  (0 < Qc_den (if Qc_ltb (Qc_of_Z 0) x then x else Qc_of_Z 1))%R.
Proof.
  intros Hx. destruct (Qc_ltb (Qc_of_Z 0) x); [exact Hx|].
  rewrite Qc_den_int. lra.
Qed.

Lemma Qc_pow_nonneg (x y : Qc) :
  (0 <= Qc_den x)%R ->
  (0 <= Qc_den (if Qc_ltb (Qc_of_Z 0) x then x else Qc_of_Z 1))%R.
Proof.
  intros Hx. destruct (Qc_ltb (Qc_of_Z 0) x); [exact Hx|].
  rewrite Qc_den_int. lra.
Qed.

#[export] Instance Qc_exact : Exact Qc := {|
  den := Qc_den;
  den_inj := Qc_den_inj;
  den_int := Qc_den_int;
  den_add := Qc_den_add;
  den_sub := Qc_den_sub;
  den_mul := Qc_den_mul;
  den_div := Qc_den_div;
  flt_lt := Qc_ltb_lt;
  feq_eq := Qc_eqb_eq;
  den_round := Qc_den_round;
  den_floor := Qc_den_floor;
  den_min := Qc_den_min;
  to_int_den := Qc_to_int_den;
  pow_pos := Qc_pow_pos;
  pow_nonneg := Qc_pow_nonneg
|}.

(** * The vocabulary (lines 167-207) *)

Lemma count_of_alter_idx (i : nat) (w k : string) (o : Js.obj VocabItem) :
  count_of (Js.alter (set_idx i) w o) k = count_of o k.
Proof.
  unfold count_of. rewrite get_alter.
  destruct (String.eqb w k); [|reflexivity].
  destruct (Js.get k o); reflexivity.
Qed.

Lemma count_of_renumber (o : Js.obj VocabItem) (i2w : list string) (k : string) :
  count_of (renumber o i2w) k = count_of o k.
Proof.
  unfold renumber. generalize (seq 1 (length i2w - 1)). intros l. revert o.
  induction l as [|i l IH]; intros o; simpl; [reflexivity|].
  rewrite IH. destruct (i2w !! i); [apply count_of_alter_idx|reflexivity].
Qed.

(** The null word heads [index2word], with count 1. *)
Lemma vocabulary_null_word (mc : Z) (corpus : string) :
  exists rest,
    snd (vocabulary mc corpus) = null_word :: rest
    /\ count_of (fst (vocabulary mc corpus)) null_word = 1.
Proof.
  unfold vocabulary.
  destruct (discard_rare mc (count_words (Js.split "010" corpus))) as [v i2w].
  simpl. eexists. split; [reflexivity|].
  rewrite count_of_renumber. unfold count_of. rewrite get_set_eq. reflexivity.
Qed.

(** ** Counting (lines 172-181) *)

Lemma count_of_alter_incr (w k : string) (o : Js.obj VocabItem) :
  In w (List.map fst o) ->
  count_of (Js.alter incr_count w o) k
  = if String.eqb w k then count_of o k + 1 else count_of o k.
Proof.
  intros Hw. unfold count_of. rewrite get_alter.
  destruct (String.eqb_spec w k) as [<-|_]; [|reflexivity].
  apply has_In in Hw. apply has_get in Hw. destruct Hw as [it ->]. reflexivity.
Qed.

Lemma count_occ_snoc (ts : list string) (w k : string) :
  count_occ string_dec (ts ++ [w]) k
  = if String.eqb w k then count_occ string_dec ts k + 1
    else count_occ string_dec ts k.
Proof.
  rewrite count_occ_app. simpl.
  destruct (string_dec w k) as [->|Hne].
  - rewrite String.eqb_refl. reflexivity.
  - apply String.eqb_neq in Hne. rewrite Hne. lia.
Qed.

Lemma count_word_counted (ts : list string) (w : string)
    (st : Js.obj VocabItem * list string) :
  counted ts st -> counted (ts ++ [w]) (count_word st w).
Proof.
  destruct st as [o i2w]. unfold counted, count_word. cbn [fst snd].
  intros (Hkeys & Hnd & Hin & Hcount).
  destruct (Js.has w o) eqn:Hhas; cbn [fst snd].
  - assert (Hw : In w (List.map fst o)) by (apply has_In; exact Hhas).
    split; [rewrite keys_alter; exact Hkeys|]. split; [exact Hnd|]. split.
    + intros k. rewrite Hin, in_app_iff. simpl. split; [auto|].
      intros [Hk|[<-|[]]]; [exact Hk|]. apply Hin. rewrite <- Hkeys. exact Hw.
    + intros k. rewrite count_of_alter_incr by exact Hw.
      rewrite count_occ_snoc, Hcount. reflexivity.
  - assert (Hw : ~ In w (List.map fst o)).
    { intros G. apply has_In in G. congruence. }
    assert (Hw' : In w (List.map fst
                         (Js.set w {| idx := length i2w; count := 0 |} o))).
    { rewrite keys_set, Hhas. apply in_or_app. right. left. reflexivity. }
    split; [rewrite keys_alter, keys_set, Hhas, Hkeys; reflexivity|]. split.
    { apply NoDup_app. split; [exact Hnd|]. split.
      - intros x Hx [->|[]]%list_elem_of_In. apply Hw. rewrite Hkeys.
        apply list_elem_of_In. exact Hx.
      - repeat constructor. intros []%list_elem_of_In. }
    split.
    + intros k. rewrite !in_app_iff, Hin. reflexivity.
    + intros k. rewrite count_of_alter_incr by exact Hw'.
      rewrite count_occ_snoc, <- Hcount.
      destruct (String.eqb_spec w k) as [<-|Hne]; unfold count_of.
      * rewrite get_set_eq. rewrite (get_None w o Hw). reflexivity.
      * rewrite get_set_ne by exact Hne. reflexivity.
Qed.

Lemma fold_count_word_counted (ts : list string) :
  counted ts (List.fold_left count_word ts ([], [])).
Proof.
  induction ts as [|w ts IH] using rev_ind.
  - simpl. unfold counted. simpl. repeat split; try constructor; auto.
  - rewrite fold_left_app. simpl. apply count_word_counted. exact IH.
Qed.

Lemma count_words_tokens (sentences : list string) :
  count_words sentences
  = List.fold_left count_word (List.flat_map (Js.split " ") sentences) ([], []).
Proof.
  unfold count_words. generalize (@nil (string * VocabItem), @nil string).
  induction sentences as [|s ss IH]; intros st; simpl; [reflexivity|].
  rewrite fold_left_app. apply IH.
Qed.

(** ** Pruning (lines 183-197) *)

Lemma keep_words_spec (min_count : Z) (vocab : Js.obj VocabItem)
    (ks : list string) :
  NoDup ks -> (forall k, In k ks -> In k (List.map fst vocab)) ->
  let st := List.fold_left (keep_word min_count vocab) ks ([], []) in
  List.map fst (fst st) = snd st
  /\ NoDup (snd st)
  /\ (forall w, In w (snd st) <->
                In w ks /\ (min_count <= Z.of_nat (count_of vocab w))%Z)
  /\ (forall w, In w (snd st) -> count_of (fst st) w = count_of vocab w).
Proof.
  induction ks as [|k ks IH] using rev_ind; intros Hnd Hks; cbv zeta.
  - simpl. split; [reflexivity|]. split; [constructor|]. split.
    + intros w. split; [intros []|intros [[] _]].
    + intros w [].
  - rewrite fold_left_app. simpl.
    apply NoDup_app in Hnd. destruct Hnd as (Hnd & Hk & _).
    destruct IH as (Hkeys & Hnd' & Hin & Hcount);
      [exact Hnd|intros x Hx; apply Hks, in_or_app; left; exact Hx|].
    destruct (List.fold_left (keep_word min_count vocab) ks ([], []))
      as [vt lt]. cbn [fst snd] in *.
    assert (Hkv : In k (List.map fst vocab))
      by (apply Hks, in_or_app; right; left; reflexivity).
    apply has_In, has_get in Hkv. destruct Hkv as [it Hit].
    assert (Hcit : count_of vocab k = count it)
      by (unfold count_of; rewrite Hit; reflexivity).
    assert (Hfresh : ~ In k lt).
    { intros G. apply Hin in G. destruct G as [G _].
      apply (Hk k); [apply list_elem_of_In; exact G|]. constructor. }
    unfold keep_word. rewrite Hit.
    destruct (Z.leb_spec min_count (Z.of_nat (count it))) as [L|L];
      cbn [fst snd].
    + assert (Hhas : Js.has k vt = false).
      { destruct (Js.has k vt) eqn:G; [|reflexivity].
        apply has_In in G. rewrite Hkeys in G. contradiction. }
      split; [rewrite keys_set, Hhas, Hkeys; reflexivity|]. split.
      { apply NoDup_app. split; [exact Hnd'|]. split.
        - intros x Hx [->|[]]%list_elem_of_In. apply Hfresh.
          apply list_elem_of_In. exact Hx.
        - repeat constructor. intros []%list_elem_of_In. }
      split.
      * intros w. rewrite !in_app_iff, Hin. simpl. split.
        -- intros [[G1 G2]|[<-|[]]]; [auto|]. split; [auto|]. rewrite Hcit. exact L.
        -- intros [[G|[<-|[]]] G2]; auto.
      * intros w Hw. unfold count_of at 1.
        destruct (String.eqb_spec k w) as [<-|Hne].
        -- rewrite get_set_eq. simpl. symmetry. exact Hcit.
        -- rewrite get_set_ne by exact Hne. apply Hcount.
           apply in_app_or in Hw. destruct Hw as [Hw|[G|[]]]; [exact Hw|contradiction].
    + split; [exact Hkeys|]. split; [exact Hnd'|]. split; [|exact Hcount].
      intros w. rewrite Hin, in_app_iff. simpl. split; [intros [G1 G2]; auto|].
      intros [[G|[<-|[]]] G2]; [auto|]. rewrite Hcit in G2. lia.
Qed.

Lemma discard_rare_kept (min_count : Z) (ts : list string)
    (st : Js.obj VocabItem * list string) :
  counted ts st -> kept min_count ts (discard_rare min_count st).
Proof.
  intros (Hkeys & Hnd & Hin & Hcount). unfold discard_rare, kept.
  destruct (Z.ltb_spec 1 min_count) as [L|L].
  - pose proof (keys_Permutation (fst st)) as Hperm. rewrite Hkeys in Hperm.
    destruct (keep_words_spec min_count (fst st) (Js.keys (fst st)))
      as (Hk & Hn & Hi & Hc).
    + rewrite Hperm. exact Hnd.
    + intros k Hk. rewrite Hkeys. eapply Permutation_in; [exact Hperm|exact Hk].
    + split; [exact Hk|]. split; [exact Hn|]. split.
      * intros w. rewrite Hi, Hcount, <- Hin. split; intros [G1 G2]; split;
          try exact G2.
        -- eapply Permutation_in; [exact Hperm|exact G1].
        -- eapply Permutation_in; [symmetry; exact Hperm|exact G1].
      * intros w Hw. rewrite (Hc w Hw). apply Hcount.
  - split; [exact Hkeys|]. split; [exact Hnd|]. split.
    + intros w. rewrite Hin. split; [|intros [G _]; exact G].
      intros G. split; [exact G|].
      apply (count_occ_In string_dec) in G. lia.
    + intros w _. apply Hcount.
Qed.

(** ** Sorting and numbering (lines 199-207) *)

Lemma renumber_get (l : list string) (w : string) (i : nat)
    (js : list nat) (v : Js.obj VocabItem) :
  NoDup l -> l !! i = Some w ->
  let v' :=
    List.fold_left
      (fun v j => match l !! j with
                  | Some w' => Js.alter (set_idx j) w' v
                  | None => v
                  end) js v in
  (In i js -> Js.get w v' = option_map (set_idx i) (Js.get w v))
  /\ (~ In i js -> Js.get w v' = Js.get w v).
Proof.
  intros Hnd Hi. induction js as [|j js IH] using rev_ind; cbv zeta.
  - simpl. split; [intros []|reflexivity].
  - rewrite fold_left_app. simpl. cbv zeta in IH. destruct IH as [IH1 IH2].
    rewrite in_app_iff. simpl.
    destruct (l !! j) as [w'|] eqn:Hj.
    + rewrite get_alter. destruct (String.eqb_spec w' w) as [->|Hne].
      * assert (j = i) by (eapply NoDup_lookup; eassumption). subst j.
        split; [|intros G; exfalso; apply G; right; left; reflexivity].
        intros _. destruct (in_dec Nat.eq_dec i js) as [Hin|Hout].
        -- rewrite (IH1 Hin). destruct (Js.get w v); reflexivity.
        -- rewrite (IH2 Hout). reflexivity.
      * assert (j <> i) by congruence. split.
        -- intros [G|[G|[]]]; [apply IH1; exact G|contradiction].
        -- intros G. apply IH2. intros G'. apply G. left. exact G'.
    + assert (j <> i) by congruence. split.
      * intros [G|[G|[]]]; [apply IH1; exact G|contradiction].
      * intros G. apply IH2. intros G'. apply G. left. exact G'.
Qed.

(** For a corpus that does not hold the null word: the null word heads
    [index2word], no word stands twice, the entries of [vocab] are the
    words of [index2word], the entry of the word at position [i] has the
    index [i], the words after the null word are the tokens counted
    [min_count] times or more, with their counts, in the order of
    counts that do not increase. *)
Lemma vocabulary_spec (min_count : Z) (corpus : string) :
  ~ In null_word (tokens corpus) ->
  exists rest,
    snd (vocabulary min_count corpus) = null_word :: rest
    /\ NoDup (null_word :: rest)
    /\ Permutation (List.map fst (fst (vocabulary min_count corpus)))
         (null_word :: rest)
    /\ (forall i w,
          (null_word :: rest) !! i = Some w ->
          exists it, Js.get w (fst (vocabulary min_count corpus)) = Some it
                     /\ idx it = i)
    /\ Js.get null_word (fst (vocabulary min_count corpus))
       = Some {| idx := 0; count := 1 |}
    /\ (forall w,
          In w rest <->
          In w (tokens corpus)
          /\ (min_count
              <= Z.of_nat (count_occ string_dec (tokens corpus) w))%Z)
    /\ (forall w,
          In w rest ->
          count_of (fst (vocabulary min_count corpus)) w
          = count_occ string_dec (tokens corpus) w)
    /\ StronglySorted
         (fun a b => count_of (fst (vocabulary min_count corpus)) b
                     <= count_of (fst (vocabulary min_count corpus)) a)
         rest.
Proof.
  intros Hnull. unfold vocabulary. rewrite count_words_tokens.
  fold (tokens corpus).
  pose proof (discard_rare_kept min_count (tokens corpus) _
                (fold_count_word_counted (tokens corpus))) as Hkept.
  destruct (discard_rare min_count
              (List.fold_left count_word (tokens corpus) ([], [])))
    as [v2 l2].
  destruct Hkept as (Hkeys & Hnd & Hin & Hcount). cbn [fst snd] in *.
  unfold sort_and_index. cbn [fst snd].
  set (rest := Js.sort (by_count v2) l2).
  set (v0 := Js.set null_word {| idx := 0; count := 1 |} v2).
  assert (Hperm : Permutation rest l2) by apply sort_Permutation.
  assert (Hnull2 : ~ In null_word l2).
  { intros G. apply Hin in G. destruct G as [G _]. contradiction. }
  assert (Hnd3 : NoDup (null_word :: rest)).
  { constructor.
    - rewrite Hperm. intros G. apply Hnull2. apply list_elem_of_In. exact G.
    - rewrite Hperm. exact Hnd. }
  assert (Hkeys0 : List.map fst v0 = l2 ++ [null_word]).
  { unfold v0. rewrite keys_set, Hkeys.
    destruct (Js.has null_word v2) eqn:G; [|reflexivity].
    apply has_In in G. rewrite Hkeys in G. contradiction. }
  assert (Hget0 : forall w, w <> null_word -> Js.get w v0 = Js.get w v2).
  { intros w Hw. unfold v0. apply get_set_ne. congruence. }
  assert (Hc3 : forall w, w <> null_word ->
            count_of (renumber v0 (null_word :: rest)) w = count_of v2 w).
  { intros w Hw. rewrite count_of_renumber. unfold count_of.
    rewrite Hget0 by exact Hw. reflexivity. }
  assert (Hrest_ne : forall w, In w rest -> w <> null_word).
  { intros w Hw ->. apply Hnull2. eapply Permutation_in; eassumption. }
  assert (Hidx : forall i w,
            (null_word :: rest) !! i = Some w ->
            exists it, Js.get w (renumber v0 (null_word :: rest)) = Some it
                       /\ idx it = i).
  { intros i w Hi. unfold renumber.
    destruct (renumber_get (null_word :: rest) w i
                (seq 1 (length (null_word :: rest) - 1)) v0 Hnd3 Hi)
      as [Hin' Hout].
    destruct i as [|i].
    - simpl in Hi. injection Hi as <-. rewrite Hout.
      + unfold v0. rewrite get_set_eq. eauto.
      + rewrite in_seq. lia.
    - rewrite Hin'.
      + assert (Hw : In w rest).
        { simpl in Hi. apply list_elem_of_In, list_elem_of_lookup. eauto. }
        rewrite (Hget0 w (Hrest_ne w Hw)).
        assert (Hk : In w (List.map fst v2)).
        { rewrite Hkeys. eapply Permutation_in; eassumption. }
        apply has_In, has_get in Hk. destruct Hk as [it ->]. simpl. eauto.
      + apply lookup_lt_Some in Hi. rewrite in_seq. simpl in Hi |- *. lia. }
  exists rest. split; [reflexivity|]. split; [exact Hnd3|]. split.
  { unfold renumber. set (f := fun v j => _).
    assert (Hk : forall js v, List.map fst (List.fold_left f js v) = List.map fst v).
    { induction js as [|j js IH]; intros v; simpl; [reflexivity|].
      rewrite IH. unfold f. destruct ((null_word :: rest) !! j);
        [apply keys_alter|reflexivity]. }
    rewrite Hk, Hkeys0. rewrite <- Permutation_cons_append.
    constructor. symmetry. exact Hperm. }
  split; [exact Hidx|]. split.
  { destruct (Hidx 0 null_word eq_refl) as (it & Hit & Hi0).
    rewrite Hit. f_equal.
    pose proof (count_of_renumber v0 (null_word :: rest) null_word) as Hc.
    unfold count_of in Hc. rewrite Hit in Hc. unfold v0 in Hc.
    rewrite get_set_eq in Hc. simpl in Hc. destruct it as [i c]. simpl in *.
    congruence. }
  split.
  { intros w. rewrite <- Hin. split; intros G.
    - eapply Permutation_in; eassumption.
    - eapply Permutation_in; [symmetry; exact Hperm|exact G]. }
  split.
  { intros w Hw. rewrite (Hc3 w (Hrest_ne w Hw)). apply Hcount.
    eapply Permutation_in; eassumption. }
  assert (Hs : StronglySorted (fun a b => count_of v2 b <= count_of v2 a) rest).
  { apply (sort_sorted_le (by_count v2) _ (fun _ => True)).
    - intros a b c; lia.
    - intros a b _ _. unfold by_count. intros G. apply Z.ltb_lt in G. lia.
    - intros a b _ _. unfold by_count. intros G. apply Z.ltb_ge in G. lia.
    - apply Forall_forall. auto. }
  eapply (StronglySorted_restrict _ _ (fun w => w <> null_word)); [| |exact Hs].
  - intros a b Ha Hb. rewrite (Hc3 a Ha), (Hc3 b Hb). auto.
  - apply Forall_forall. intros w Hw. apply Hrest_ne.
    apply list_elem_of_In. exact Hw.
Qed.

(** ** The empty corpus *)

Lemma vocabulary_empty_corpus (mc : Z) :
  (1 < mc)%Z ->
  vocabulary mc "" = ([(null_word, {| idx := 0; count := 1 |})], [null_word]).
Proof.
  intros Hmc. unfold vocabulary, discard_rare. simpl Js.split.
  assert (E : (1 <? mc)%Z = true) by (apply Z.ltb_lt; exact Hmc).
  rewrite E. cbn. 
  assert (E' : (mc <=? Z.of_nat 1)%Z = false) by (apply Z.leb_gt; simpl; exact Hmc).
  rewrite E'. reflexivity.
Qed.

(** C9, as amended: with [min_count] above 1 (the default is 2),
    [build_vocab] on the empty corpus returns a vocabulary of size 1 whose
    only word is the null word, at index 0 with count 1. *)
Theorem C9_empty_corpus_min_count_above_1
    {F : Type} `{JsArith F} `{JsMath F} (mc : Z) :
  (1 < mc)%Z ->
  let v := build_vocab (F := F) mc "" in
  vocab_size v = 1
  /\ index2word v = [null_word]
  /\ vocab v = [(null_word, {| idx := 0; count := 1 |})]
  /\ length (cum_table v) = 1.
Proof.
  intros Hmc. unfold build_vocab.
  rewrite (vocabulary_empty_corpus mc Hmc). cbn. repeat split; reflexivity.
Qed.

Lemma C9_witness :
  (1 < 2)%Z
  /\ (let v := build_vocab (F := Qc) 2 "" in
      vocab_size v = 1
      /\ index2word v = [null_word]
      /\ vocab v = [(null_word, {| idx := 0; count := 1 |})]
      /\ length (cum_table v) = 1).
Proof. split; [lia | apply (C9_empty_corpus_min_count_above_1 2); lia]. Defined.

(** C9 as stated fails: with [min_count = 1] the empty string, the one
    token of the empty corpus, is kept, and the vocabulary has size 2. *)
Lemma C9_counterexample :
  vocab_size (build_vocab (F := Qc) 1 "") = 2
  /\ index2word (build_vocab (F := Qc) 1 "") = [null_word; EmptyString].
Proof. split; reflexivity. Qed.

(** ** A corpus that holds the null word *)

(** C4 (the code at the failing input): the token ['\0'] of the corpus
    and the null word put in front are one key of [vocab]; the loop that
    renumbers gives that key the index 1, so that no entry has index 0
    and the word stands twice in [index2word]. *)
Theorem C4_null_word_in_corpus :
  let v := build_vocab (F := Qc) 2 C4_corpus in
  index2word v = [null_word; null_word]
  /\ vocab v = [(null_word, {| idx := 1; count := 1 |})]
  /\ vocab_size v = 2
  /\ ~ (exists w it, Js.get w (vocab v) = Some it /\ idx it = 0).
Proof.
  cbv zeta. repeat split; try reflexivity.
  intros (w & it & Hget & Hidx).
  change (vocab (build_vocab (F := Qc) 2 C4_corpus))
    with [(null_word, {| idx := 1; count := 1 |})] in Hget.
  unfold Js.get in Hget.
  destruct (String.eqb null_word w); [|discriminate Hget].
  injection Hget as <-. discriminate Hidx.
Qed.

(** * The binary search in exact arithmetic (lines 649-663) *)

Section ExactSearch.
Context {F : Type} `{Exact F}.

Lemma den_zero : den (fint 0) = 0%R.
Proof. apply den_int. Qed.

Lemma flt_false (x y : F) : flt x y = false <-> (den y <= den x)%R.
Proof.
  destruct (flt x y) eqn:E.
  - apply flt_lt in E. split; [discriminate|lra].
  - split; [|reflexivity]. intros _.
    destruct (Rle_or_lt (den y) (den x)) as [L|L]; [exact L|].
    apply flt_lt in L. congruence.
Qed.

Lemma feq_false (x y : F) : feq x y = false <-> den x <> den y.
Proof.
  destruct (feq x y) eqn:E.
  - apply feq_eq in E. split; [discriminate|congruence].
  - split; [|reflexivity]. intros _ G. apply feq_eq in G. congruence.
Qed.

Lemma bSearch_loop_unfold (fuel : nat) (xs : list F) (x : F) (bot top : nat) :
  bSearch_loop (S fuel) xs x bot top
  = if (bot <? top)%nat then
      let mid := ((bot + top) / 2)%nat in
      let c := (vget xs mid - x)%js in
      if (c =? fint 0)%js then Ok mid
      else bSearch_loop fuel xs x
             (if (c <? fint 0)%js then (mid + 1)%nat else bot)
             (if (fint 0 <? c)%js then mid else top)
    else Ok bot.
Proof. reflexivity. Qed.

(** The loop ends, and below [length xs], when [x] is not above the last
    entry. *)
Lemma bSearch_loop_in_bounds (xs : list F) (x : F) :
  (den x <= den (vget xs (length xs - 1)))%R ->
  forall fuel bot top,
    top - bot <= fuel -> bot <= top <= length xs -> bot < length xs ->
    exists i, bSearch_loop fuel xs x bot top = Ok i /\ i < length xs.
Proof.
  intros Hlast. induction fuel as [|fuel IH]; intros bot top Hfuel Hbt Hbot.
  - simpl. destruct (Nat.ltb_spec bot top) as [L|L]; [lia|].
    exists bot. split; [reflexivity|exact Hbot].
  - rewrite bSearch_loop_unfold.
    destruct (Nat.ltb_spec bot top) as [L|L];
      [|exists bot; split; [reflexivity|exact Hbot]].
    set (mid := (bot + top) / 2).
    assert (Hmid : bot <= mid < top).
    { unfold mid. split.
      - apply Nat.div_le_lower_bound; lia.
      - apply Nat.Div0.div_lt_upper_bound; lia. }
    cbv zeta. set (c := (vget xs mid - x)%js).
    assert (Hc : den c = (den (vget xs mid) - den x)%R) by apply den_sub.
    destruct (feq c (fint 0)) eqn:E0.
    + exists mid. split; [reflexivity|lia].
    + apply feq_false in E0. rewrite den_zero in E0.
      destruct (flt c (fint 0)) eqn:E1.
      * apply flt_lt in E1. rewrite den_zero in E1.
        assert (E2 : flt (fint 0) c = false)
          by (apply flt_false; rewrite den_zero; lra).
        rewrite E2.
        assert (mid <> length xs - 1).
        { intros G. rewrite G in Hc. lra. }
        apply IH; lia.
      * apply flt_false in E1. rewrite den_zero in E1.
        assert (E2 : flt (fint 0) c = true)
          by (apply flt_lt; rewrite den_zero; lra).
        rewrite E2. apply IH; lia.
Qed.

Lemma bSearch_in_bounds (xs : list F) (x : F) :
  0 < length xs ->
  (den x <= den (vget xs (length xs - 1)))%R ->
  exists i, bSearch xs x = Ok i /\ i < length xs.
Proof.
  intros Hlen Hlast. unfold bSearch.
  destruct (Nat.eqb_spec (length xs) 0) as [E|E]; [lia|].
  assert (E1 : flt (vget xs (length xs - 1)) x = false)
    by (apply flt_false; exact Hlast).
  rewrite E1. destruct (flt x (vget xs 0)).
  - exists 0. split; [reflexivity|exact Hlen].
  - apply bSearch_loop_in_bounds; [exact Hlast|lia|lia|lia].
Qed.

(** A number of [[0, 1)] scaled into the domain is below the domain. *)
Lemma scaled_below_domain (r : F) :
  (0 <= den r < 1)%R ->
  (0 <= den (r * cum_table_domain)%js < den (cum_table_domain (F := F)))%R.
Proof.
  intros Hr. rewrite den_mul. unfold cum_table_domain. rewrite den_int.
  split; nra.
Qed.

(** The redrawn target lies in [[1, vocab_size - 1]]. *)
Lemma redraw_in_range (vocab_size : nat) (r : F) :
  2 <= vocab_size -> (0 <= den r)%R ->
  exists z, redraw vocab_size r = Some z
            /\ (1 <= z <= Z.of_nat vocab_size - 1)%Z.
Proof.
  intros Hvs Hr. unfold redraw.
  set (z0 := Zfloor (den (r * cum_table_domain)%js)).
  assert (E : to_int (ffloor (r * cum_table_domain)%js) = Some z0)
    by (apply to_int_den, den_floor).
  rewrite E.
  assert (Hz0 : (0 <= z0)%Z).
  { apply Zfloor_lub. rewrite den_mul. unfold cum_table_domain.
    rewrite den_int. simpl. nra. }
  destruct (Z.eqb_spec (Z.of_nat vocab_size - 1) 0) as [G|G]; [lia|].
  eexists. split; [reflexivity|].
  pose proof (Z.rem_bound_pos z0 (Z.of_nat vocab_size - 1) Hz0 ltac:(lia)).
  lia.
Qed.

End ExactSearch.

(** * The cumulative table in exact arithmetic (lines 215-227) *)

Section ExactCumTable.
Context {F : Type} `{Exact F}.

(** [count^power] as a real. *)
Definition pw (c : nat) : R := den (fpow (fint (Z.of_nat c)) power).

Fixpoint sumR (l : list R) : R :=
  match l with
  | [] => 0%R
  | x :: l' => (x + sumR l')%R
  end.

Lemma pw_nonneg (c : nat) : (0 <= pw c)%R.
Proof. apply pow_nonneg. rewrite den_int. apply IZR_le. lia. Qed.

Lemma pw_pos (c : nat) : 0 < c -> (0 < pw c)%R.
Proof. intros Hc. apply pow_pos. rewrite den_int. apply IZR_lt. lia. Qed.

Lemma sumR_pw_nonneg (counts : list nat) : (0 <= sumR (List.map pw counts))%R.
Proof.
  induction counts as [|c cs IH]; simpl; [lra|].
  pose proof (pw_nonneg c). lra.
Qed.

Lemma den_fold_pow (counts : list nat) (acc : F) :
  den (List.fold_left
         (fun t c => (t + fpow (fint (Z.of_nat c)) power)%js) counts acc)
  = (den acc + sumR (List.map pw counts))%R.
Proof.
  revert acc. induction counts as [|c cs IH]; intros acc; simpl; [lra|].
  rewrite IH, den_add. unfold pw. lra.
Qed.

Lemma den_train_words_pow (counts : list nat) :
  den (train_words_pow counts) = sumR (List.map pw counts).
Proof. unfold train_words_pow. rewrite den_fold_pow, den_int. lra. Qed.

Lemma div_nonneg (a b : R) : (0 <= a)%R -> (0 < b)%R -> (0 <= a / b)%R.
Proof.
  intros Ha Hb. unfold Rdiv. apply Rmult_le_pos; [exact Ha|].
  left. apply Rinv_0_lt_compat. exact Hb.
Qed.

Definition scaled (s : R) : Z := Zfloor (s * 2147483647 + / 2).

Lemma scaled_mono (s t : R) : (s <= t)%R -> (scaled s <= scaled t)%Z.
Proof. intros Hst. apply Zfloor_le. lra. Qed.

Lemma scaled_0 : scaled 0 = 0%Z.
Proof. apply Zfloor_eq. simpl. lra. Qed.

Lemma scaled_1 : scaled 1 = 2147483647%Z.
Proof. apply Zfloor_eq. lra. Qed.

Lemma cum_table_from_spec (total : F) (counts : list nat) :
  (0 < den total)%R ->
  forall acc : F,
    let s := (den acc + sumR (List.map pw counts) / den total)%R in
    let tbl := cum_table_from total acc counts in
    length tbl = length counts
    /\ Forall (fun a => exists z, den a = IZR z
                                  /\ (scaled (den acc) <= z <= scaled s)%Z) tbl
    /\ StronglySorted (fun a b => (den a <= den b)%R) tbl
    /\ (counts <> [] ->
        exists e, last tbl = Some e /\ den e = IZR (scaled s)).
Proof.
  intros HT. induction counts as [|c cs IH]; intros acc; cbv zeta.
  - simpl. repeat split; try constructor. intros G. destruct (G eq_refl).
  - simpl List.map. simpl sumR. simpl cum_table_from.
    set (acc' := (acc + fpow (fint (Z.of_nat c)) power / total)%js).
    assert (Hacc' : den acc' = (den acc + pw c / den total)%R).
    { unfold acc'. rewrite den_add, den_div; [reflexivity|lra]. }
    set (e0 := fround (acc' * cum_table_domain)%js).
    assert (He0 : den e0 = IZR (scaled (den acc'))).
    { unfold e0, scaled. rewrite den_round, den_mul.
      unfold cum_table_domain. rewrite den_int. reflexivity. }
    assert (Hstep : (0 <= pw c / den total)%R).
    { apply div_nonneg; [apply pw_nonneg|exact HT]. }
    assert (Hrest : (0 <= sumR (List.map pw cs) / den total)%R).
    { apply div_nonneg; [apply sumR_pw_nonneg|exact HT]. }
    assert (Hs : (den acc' + sumR (List.map pw cs) / den total
                  = den acc + (pw c + sumR (List.map pw cs)) / den total)%R).
    { rewrite Hacc'. field. lra. }
    destruct (IH acc') as (Hlen & Hall & Hsort & Hlast).
    rewrite Hs in Hall, Hlast.
    repeat split.
    + simpl. rewrite Hlen. reflexivity.
    + constructor.
      * exists (scaled (den acc')). split; [exact He0|].
        split; apply scaled_mono; lra.
      * eapply Forall_impl; [exact Hall|]. simpl.
        intros a (z & Hz & Hlo & Hhi). exists z. split; [exact Hz|].
        split; [|exact Hhi].
        etransitivity; [|exact Hlo]. apply scaled_mono. lra.
    + constructor; [exact Hsort|].
      eapply Forall_impl; [exact Hall|]. simpl.
      intros a (z & Hz & Hlo & _). rewrite He0, Hz. apply IZR_le. exact Hlo.
    + intros _. destruct cs as [|c' cs'].
      * exists e0. split; [reflexivity|]. rewrite He0. f_equal. f_equal.
        simpl. rewrite Hacc'. lra.
      * destruct Hlast as (e & He & Hde); [discriminate|].
        exists e. split; [|exact Hde].
        simpl cum_table_from in He |- *. rewrite last_cons, He. reflexivity.
Qed.

(** The table that [build_vocab] makes has the invariant. *)
Lemma build_vocab_cum_table_inv (mc : Z) (corpus : string) :
  cum_table_inv (build_vocab mc corpus).
Proof.
  unfold cum_table_inv, build_vocab.
  destruct (vocabulary_null_word mc corpus) as (rest & Hi2w & Hcount).
  destruct (vocabulary mc corpus) as [v i2w]. simpl in Hi2w, Hcount. simpl.
  unfold make_cum_table. subst i2w.
  set (counts := List.map (count_of v) (null_word :: rest)).
  assert (Hne : counts <> []) by discriminate.
  assert (HT : (0 < den (train_words_pow counts))%R).
  { rewrite den_train_words_pow. unfold counts. simpl. rewrite Hcount.
    pose proof (pw_pos 1 ltac:(lia)).
    pose proof (sumR_pw_nonneg (List.map (count_of v) rest)). lra. }
  destruct (cum_table_from_spec (train_words_pow counts) counts HT (fint 0))
    as (Hlen & Hall & Hsort & Hlast).
  rewrite den_int in Hall, Hlast.
  assert (Hone : (0 + sumR (List.map pw counts) / den (train_words_pow counts)
                  = 1)%R).
  { rewrite den_train_words_pow in HT |- *. field. lra. }
  rewrite Hone, scaled_1 in Hall, Hlast. rewrite scaled_0 in Hall.
  repeat split.
  - rewrite Hlen. unfold counts. rewrite length_map. reflexivity.
  - exact Hsort.
  - exact Hall.
  - destruct (Hlast Hne) as (e & He & Hde). rewrite He. f_equal.
    apply den_inj. rewrite Hde. unfold cum_table_domain. rewrite den_int.
    reflexivity.
Qed.

End ExactCumTable.

(** For any arithmetic, the table has one entry for each count. *)
Lemma cum_table_from_length {F : Type} `{JsArith F} `{JsMath F}
    (total acc : F) (counts : list nat) :
  length (cum_table_from total acc counts) = length counts.
Proof.
  revert acc. induction counts as [|c cs IH]; intros acc; [reflexivity|].
  simpl. rewrite IH. reflexivity.
Qed.


(** The table of the corpus [a b a], over the rationals with the
    identity for [Math.pow]: the counts 1, 2, 1 of the null word, [a] and
    [b] give a quarter, three quarters and the whole of the domain. *)
Example cum_table_a_b_a :
  List.map this (cum_table (build_vocab (F := Qc) 1 "a b a"))
  = [536870912; 1610612735; 2147483647]%Q.
Proof. vm_compute. reflexivity. Qed.

(** ** The table in binary64 *)

Lemma split_one (sep : ascii) (s : string) :
  ~ In sep (list_ascii_of_string s) -> Js.split sep s = [s].
Proof.
  induction s as [|c s IH]; simpl; [reflexivity|]. intros Hs.
  destruct (Ascii.eqb_spec c sep) as [->|Hne]; [tauto|].
  rewrite IH by tauto. reflexivity.
Qed.

Lemma split_app (sep : ascii) (x s : string) :
  ~ In sep (list_ascii_of_string x) ->
  Js.split sep (x ++ String sep s) = x :: Js.split sep s.
Proof.
  induction x as [|c x IH]; intros Hx.
  - change (EmptyString ++ String sep s)%string with (String sep s).
    simpl. rewrite Ascii.eqb_refl. reflexivity.
  - change (String c x ++ String sep s)%string
      with (String c (x ++ String sep s)).
    simpl in Hx |- *.
    destruct (Ascii.eqb_spec c sep) as [->|Hne]; [tauto|].
    rewrite IH by tauto. reflexivity.
Qed.

Lemma split_join (sep : ascii) (ws : list string) :
  ws <> [] ->
  Forall (fun w => ~ In sep (list_ascii_of_string w)) ws ->
  Js.split sep (JsString.join (String sep EmptyString) ws) = ws.
Proof.
  induction ws as [|x ws IH]; intros Hne Hall; [contradiction|].
  apply Forall_cons in Hall. destruct Hall as [Hx Hall].
  destruct ws as [|y ws].
  - simpl. apply split_one. exact Hx.
  - change (JsString.join (String sep EmptyString) (x :: y :: ws))
      with (x ++ String sep EmptyString
              ++ JsString.join (String sep EmptyString) (y :: ws))%string.
    change (String sep EmptyString
              ++ JsString.join (String sep EmptyString) (y :: ws))%string
      with (String sep (JsString.join (String sep EmptyString) (y :: ws))).
    rewrite split_app by exact Hx. rewrite IH; [reflexivity|discriminate|exact Hall].
Qed.

Lemma chars_app (a b : string) :
  list_ascii_of_string (a ++ b)
  = list_ascii_of_string a ++ list_ascii_of_string b.
Proof.
  induction a as [|c a IH]; [reflexivity|].
  change (String c a ++ b)%string with (String c (a ++ b)).
  simpl. rewrite IH. reflexivity.
Qed.

Lemma join_chars (sep : ascii) (ws : list string) (c : ascii) :
  In c (list_ascii_of_string (JsString.join (String sep EmptyString) ws)) ->
  c = sep \/ exists w, In w ws /\ In c (list_ascii_of_string w).
Proof.
  induction ws as [|x ws IH]; [intros []|].
  destruct ws as [|y ws].
  - simpl. intros Hc. right. exists x. auto.
  - change (JsString.join (String sep EmptyString) (x :: y :: ws))
      with (x ++ String sep EmptyString
              ++ JsString.join (String sep EmptyString) (y :: ws))%string.
    change (String sep EmptyString
              ++ JsString.join (String sep EmptyString) (y :: ws))%string
      with (String sep (JsString.join (String sep EmptyString) (y :: ws))).
    rewrite chars_app. intros Hc.
    apply in_app_or in Hc. destruct Hc as [Hc|[<-|Hc]].
    + right. exists x. split; [left; reflexivity|exact Hc].
    + left. reflexivity.
    + destruct (IH Hc) as [->|(w & Hw & Hcw)]; [left; reflexivity|].
      right. exists w. split; [right; exact Hw|exact Hcw].
Qed.

(** The tokens of words joined by spaces are the words. *)
Lemma tokens_join (ws : list string) :
  ws <> [] ->
  Forall (fun w => ~ In " "%char (list_ascii_of_string w)
                   /\ ~ In "010"%char (list_ascii_of_string w)) ws ->
  tokens (JsString.join " " ws) = ws.
Proof.
  intros Hne Hall. unfold tokens. rewrite split_one.
  - simpl. rewrite app_nil_r. apply split_join; [exact Hne|].
    eapply Forall_impl; [exact Hall|]. simpl. tauto.
  - intros Hc. apply join_chars in Hc. destruct Hc as [Hc|(w & Hw & Hc)].
    + discriminate Hc.
    + rewrite Forall_forall in Hall. rewrite <- list_elem_of_In in Hw.
      apply (proj2 (Hall w Hw)). exact Hc.
Qed.

Lemma unary_chars (n : nat) : list_ascii_of_string (unary n) = repeat "w"%char n.
Proof. induction n as [|n IH]; simpl; [reflexivity|]. rewrite IH. reflexivity. Qed.

Lemma unary_length (n : nat) : String.length (unary n) = n.
Proof. induction n as [|n IH]; simpl; [reflexivity|]. rewrite IH. reflexivity. Qed.

Lemma C5_words_spec :
  length C5_words = Pos.to_nat 9999999
  /\ NoDup C5_words
  /\ ~ In null_word C5_words
  /\ Forall (fun w => ~ In " "%char (list_ascii_of_string w)
                      /\ ~ In "010"%char (list_ascii_of_string w)) C5_words.
Proof.
  unfold C5_words. split; [rewrite length_map, length_seq; reflexivity|].
  split.
  - apply NoDup_ListNoDup. apply Finite.Injective_map_NoDup.
    + intros a b E. apply (f_equal String.length) in E.
      rewrite !unary_length in E. exact E.
    + apply seq_NoDup.
  - split.
    + rewrite in_map_iff. intros (n & E & _).
      apply (f_equal list_ascii_of_string) in E. rewrite unary_chars in E.
      destruct n as [|[|n]]; discriminate E.
    + apply Forall_forall. intros w Hw. rewrite list_elem_of_In in Hw.
      apply in_map_iff in Hw. destruct Hw as (n & <- & _).
      rewrite unary_chars. split; intros G; apply repeat_spec in G;
        discriminate G.
Qed.

Lemma C5_tokens : tokens C5_corpus = C5_words.
Proof.
  destruct C5_words_spec as (Hlen & _ & _ & Hall).
  apply tokens_join; [|exact Hall].
  intros E. rewrite E in Hlen. simpl in Hlen.
  pose proof (Pos2Nat.is_pos 9999999). lia.
Qed.

(** Tokens that stand once each, with [min_count] at most 1: every word
    of the vocabulary has the count 1. *)
Lemma distinct_tokens_counts (mc : Z) (corpus : string) :
  (mc <= 1)%Z -> ~ In null_word (tokens corpus) ->
  NoDup (tokens corpus) ->
  List.map (count_of (fst (vocabulary mc corpus))) (snd (vocabulary mc corpus))
  = repeat 1 (S (length (tokens corpus))).
Proof.
  intros Hmc Hnull Hnd.
  destruct (vocabulary_spec mc corpus Hnull)
    as (rest & Hi2w & Hnd' & _ & _ & Hn & Hin & Hcount & _).
  rewrite Hi2w. cbn [List.map repeat]. f_equal.
  { unfold count_of. rewrite Hn. reflexivity. }
  assert (Hone : forall w, In w (tokens corpus) ->
            count_occ string_dec (tokens corpus) w = 1).
  { intros w Hw.
    pose proof (proj1 (List.NoDup_count_occ string_dec _)
                  (proj1 (NoDup_ListNoDup _) Hnd) w).
    pose proof (proj1 (count_occ_In string_dec _ w) Hw). lia. }
  assert (Hsame : forall w, In w rest <-> In w (tokens corpus)).
  { intros w. rewrite Hin. split; [tauto|]. intros Hw. split; [exact Hw|].
    rewrite (Hone w Hw). lia. }
  assert (Hlen : length rest = length (tokens corpus)).
  { apply Permutation_length. apply NoDup_Permutation.
    - apply NoDup_cons in Hnd'. tauto.
    - exact Hnd.
    - intros w. rewrite !list_elem_of_In. apply Hsame. }
  rewrite <- Hlen.
  assert (G : forall l : list string,
             (forall w, In w l -> In w rest) ->
             List.map (count_of (fst (vocabulary mc corpus))) l
             = repeat 1 (length l)).
  { induction l as [|w l IH]; intros Hl; [reflexivity|].
    cbn [List.map repeat length]. f_equal.
    - rewrite Hcount by (apply Hl; left; reflexivity).
      apply Hone. apply Hsame. apply Hl. left. reflexivity.
    - apply IH. intros w' Hw'. apply Hl. right. exact Hw'. }
  apply G. auto.
Qed.

Section TableOfRepeat.
Context {F : Type} `{JsArith F} `{JsMath F}.


Lemma train_words_pow_repeat (c n : nat) :
  train_words_pow (repeat c n)
  = Nat.iter n (fun t => (t + fpow (fint (Z.of_nat c)) power)%js) (fint 0).
Proof.
  unfold train_words_pow.
  assert (G : forall t : F,
             List.fold_left
               (fun t c => (t + fpow (fint (Z.of_nat c)) power)%js)
               (repeat c n) t
             = Nat.iter n (fun t => (t + fpow (fint (Z.of_nat c)) power)%js) t).
  { induction n as [|n IH]; intros t; [reflexivity|].
    cbn [repeat List.fold_left]. rewrite IH. symmetry.
    exact (@Nat.iter_succ_r F n
             (fun t0 => (t0 + fpow (fint (Z.of_nat c)) power)%js) t). }
  apply G.
Qed.

(** The last entry of the table of [n + 1] words of the count [c]. *)
Lemma cum_table_repeat (total : F) (c n : nat) (acc : F) :
  last (cum_table_from total acc (repeat c (S n)))
  = Some (fround
            (Nat.iter (S n)
               (fun a => (a + fpow (fint (Z.of_nat c)) power / total)%js) acc
             * cum_table_domain)%js).
Proof.
  revert acc. induction n as [|n IH]; intros acc; [reflexivity|].
  change (repeat c (S (S n))) with (c :: repeat c (S n)).
  cbn [cum_table_from].
  change (repeat c (S n)) with (c :: repeat c n) at 1.
  cbn [cum_table_from]. rewrite last_cons_cons.
  change (fround _ :: cum_table_from total _ (repeat c n))
    with (cum_table_from total
            (acc + fpow (fint (Z.of_nat c)) power / total)%js (repeat c (S n))).
  rewrite IH. f_equal. f_equal. f_equal. symmetry.
  exact (@Nat.iter_succ_r F (S n)
           (fun a => (a + fpow (fint (Z.of_nat c)) power / total)%js) acc).
Qed.

(** The same for a number of words given in binary: the iterations are
    those of [Pos.iter]. *)
Lemma train_words_pow_ones (c : nat) (p : positive) :
  train_words_pow (repeat c (Pos.to_nat p))
  = Pos.iter (fun t => (t + fpow (fint (Z.of_nat c)) power)%js) (fint 0) p.
Proof.
  rewrite train_words_pow_repeat. symmetry.
  exact (Pos2Nat.inj_iter p
           (fun t : F => (t + fpow (fint (Z.of_nat c)) power)%js) (fint 0)).
Qed.

Lemma cum_table_ones (total : F) (c : nat) (p : positive) :
  last (cum_table_from total (fint 0) (repeat c (Pos.to_nat p)))
  = Some (fround
            (Pos.iter
               (fun a => (a + fpow (fint (Z.of_nat c)) power / total)%js)
               (fint 0) p
             * cum_table_domain)%js).
Proof.
  destruct (Pos2Nat.is_succ p) as [n En]. rewrite En, cum_table_repeat, <- En.
  apply (f_equal (fun z => Some (fround (z * cum_table_domain)%js))).
  symmetry.
  exact (Pos2Nat.inj_iter p
           (fun a : F => (a + fpow (fint (Z.of_nat c)) power / total)%js)
           (fint 0)).
Qed.

End TableOfRepeat.


(** * Negative draws (lines 584-590) *)

Section ExactDraws.
Context {F : Type} `{Exact F}.
Variable get_random_float : nat -> F.

Lemma cum_table_inv_last (v : Vocab F) :
  cum_table_inv v ->
  0 < length (cum_table v)
  /\ vget (cum_table v) (length (cum_table v) - 1) = cum_table_domain.
Proof.
  intros (_ & _ & _ & Hlast). apply last_Some in Hlast.
  destruct Hlast as [l' ->]. rewrite length_app. simpl. split; [lia|].
  unfold vget. replace (length l' + 1 - 1) with (length l') by lia.
  rewrite app_nth2, Nat.sub_diag; [reflexivity|lia].
Qed.

Lemma row_in_bounds (m : list (list F)) (t : Z) :
  (0 <= t < Z.of_nat (length m))%Z -> is_Some (row m (Some t)).
Proof.
  intros Ht. unfold row.
  destruct (Z.ltb_spec t 0) as [L|L]; [lia|].
  destruct (lookup_lt_is_Some_2 m (Z.to_nat t)) as [l Hl]; [lia|].
  rewrite Hl. eauto.
Qed.

Lemma search_in_bounds (m : Word2vec F) (n : nat) :
  cum_table_inv (voc m) ->
  (0 <= den (get_random_float n) < 1)%R ->
  exists i,
    bSearch (cum_table (voc m)) (get_random_float n * cum_table_domain)%js = Ok i
    /\ i < vocab_size (voc m).
Proof.
  intros Hinv Hr. destruct (cum_table_inv_last _ Hinv) as [Hlen Hlast].
  destruct Hinv as (Hsize & _). rewrite <- Hsize.
  apply bSearch_in_bounds; [exact Hlen|]. rewrite Hlast.
  pose proof (scaled_below_domain _ Hr). lra.
Qed.

Lemma draw_in_bounds (m : Word2vec F) (n : nat) :
  cum_table_inv (voc m) ->
  2 <= vocab_size (voc m) ->
  (0 <= den (get_random_float n) < 1)%R ->
  (0 <= den (get_random_float (n + 1)) < 1)%R ->
  exists t n',
    draw_negative get_random_float m n = Ok (Some t, n')
    /\ (1 <= t < Z.of_nat (vocab_size (voc m)))%Z
    /\ n < n'.
Proof.
  intros Hinv Hvs Hr Hr'. unfold draw_negative.
  destruct (search_in_bounds m n Hinv Hr) as (i & Hi & Hlt).
  rewrite Hi. simpl. destruct (Nat.eqb_spec i 0) as [E|E].
  - destruct (redraw_in_range (vocab_size (voc m)) (get_random_float (n + 1)))
      as (z & Hz & Hrange); [exact Hvs|lra|].
    rewrite Hz. exists z, (n + 2). split; [reflexivity|]. lia.
  - exists (Z.of_nat i), (n + 1). split; [reflexivity|]. lia.
Qed.

End ExactDraws.

(** C10: in exact arithmetic, when the random source returns a number of
    [[0, 1)] and the cumulative table has its invariant, the binary search
    of a negative draw returns an index below [vocab_size], never
    [xs.length], and row [target] of [syn1] exists; with two words or more
    the same holds of the target after the redraw of index 0. *)
Theorem C10_negative_draw_in_bounds
    {F : Type} `{Exact F} (get_random_float : nat -> F)
    (m : Word2vec F) (n : nat) :
  cum_table_inv (voc m) ->
  length (syn1 m) = vocab_size (voc m) ->
  (forall k, 0 <= den (get_random_float k) < 1)%R ->
  (exists i,
     bSearch (cum_table (voc m)) (get_random_float n * cum_table_domain)%js
     = Ok i
     /\ i < vocab_size (voc m)
     /\ i <> length (cum_table (voc m))
     /\ is_Some (row (syn1 m) (Some (Z.of_nat i))))
  /\ (2 <= vocab_size (voc m) ->
      exists t n',
        draw_negative get_random_float m n = Ok (Some t, n')
        /\ (1 <= t < Z.of_nat (vocab_size (voc m)))%Z
        /\ is_Some (row (syn1 m) (Some t))).
Proof.
  intros Hinv Hsyn1 Hrnd. split.
  - destruct (search_in_bounds get_random_float m n Hinv (Hrnd n))
      as (i & Hi & Hlt).
    exists i. split; [exact Hi|]. split; [exact Hlt|].
    destruct Hinv as (Hsize & _). split; [lia|].
    apply row_in_bounds. lia.
  - intros Hvs.
    destruct (draw_in_bounds get_random_float m n Hinv Hvs (Hrnd n) (Hrnd (n + 1)))
      as (t & n' & Hd & Ht & _).
    exists t, n'. split; [exact Hd|]. split; [exact Ht|].
    apply row_in_bounds. lia.
Qed.

Lemma C1_random_unit (k : nat) : (0 <= den (C1_random k) < 1)%R.
Proof. unfold C1_random. simpl. rewrite Qc_den_int. lra. Qed.

Lemma C10_witness :
  cum_table_inv (voc C1_model)
  /\ length (syn1 C1_model) = vocab_size (voc C1_model)
  /\ (exists i,
        bSearch (cum_table (voc C1_model)) (C1_random 0 * cum_table_domain)%js
        = Ok i
        /\ i < vocab_size (voc C1_model)).
Proof.
  assert (Hinv : cum_table_inv (voc C1_model))
    by apply (build_vocab_cum_table_inv (F := Qc)).
  split; [exact Hinv|]. split; [reflexivity|].
  destruct (C10_negative_draw_in_bounds C1_random C1_model 0 Hinv eq_refl
              C1_random_unit) as [(i & Hi & Hlt & _) _].
  exists i. split; [exact Hi|exact Hlt].
Defined.

(** * The loop over the draws (lines 577-596) *)

(** ** The redraw (lines 586 and 616) *)

(** The values of the floor that give the target [t] are [t - 1],
    [t - 1 + d], [t - 1 + 2 d], ... below [2^31 - 1]. *)
Lemma redraw_class (d t z : Z) :
  (0 < d)%Z -> (1 <= t <= d)%Z ->
  ((0 <= z < 2147483647)%Z /\ (z mod d + 1 = t)%Z)
  <-> exists i, (0 <= i < redraw_count d t)%Z /\ z = (t - 1 + d * i)%Z.
Proof.
  intros Hd Ht. unfold redraw_count. split.
  - intros [Hz Hm]. exists (z / d)%Z.
    pose proof (Z.div_mod z d ltac:(lia)) as E.
    pose proof (Z.div_pos z d ltac:(lia) Hd) as Hq.
    split; [|lia]. split; [exact Hq|].
    assert (G : (z / d + 1 <= (2147483647 - t + d) / d)%Z).
    { apply Z.div_le_lower_bound; [exact Hd|]. lia. }
    lia.
  - intros (i & Hi & ->).
    pose proof (Z.mul_div_le (2147483647 - t + d) d Hd) as G.
    assert (G' : (d * i <= d * ((2147483647 - t + d) / d - 1))%Z)
      by (apply Z.mul_le_mono_nonneg_l; lia).
    split; [nia|].
    rewrite (Z.mul_comm d i), Z_mod_plus_full, Z.mod_small; lia.
Qed.

(** Two targets have the same number of values, to within one. *)
Lemma redraw_count_even (d t t' : Z) :
  (0 < d)%Z -> (1 <= t <= d)%Z -> (1 <= t' <= d)%Z ->
  (-1 <= redraw_count d t - redraw_count d t' <= 1)%Z.
Proof.
  intros Hd Ht Ht'. unfold redraw_count.
  assert (G : forall s, (1 <= s <= d)%Z ->
            (2147483647 / d <= (2147483647 - s + d) / d <= 2147483647 / d + 1)%Z).
  { intros s Hs. split.
    - apply Z.div_le_mono; lia.
    - replace (2147483647 / d + 1)%Z with ((2147483647 + 1 * d) / d)%Z
        by (apply Z.div_add; lia).
      apply Z.div_le_mono; lia. }
  pose proof (G t Ht). pose proof (G t' Ht'). lia.
Qed.

Section ExactSampling.
Context {F : Type} `{Exact F}.
Variable get_random_float : nat -> F.

(** The floor of a number of [[0, 1)] scaled into the domain. *)
Lemma floor_scaled (r : F) :
  (0 <= den r < 1)%R ->
  (0 <= Zfloor (den r * 2147483647) < 2147483647)%Z.
Proof.
  intros Hr. split.
  - apply Zfloor_lub. simpl. nra.
  - apply lt_IZR. pose proof (Zfloor_bound (den r * 2147483647)). lra.
Qed.

(** The redrawn target, from the number that the random source returns. *)
Lemma redraw_value (vocab_size : nat) (r : F) :
  2 <= vocab_size -> (0 <= den r)%R ->
  redraw vocab_size r
  = Some (Zfloor (den r * 2147483647) mod (Z.of_nat vocab_size - 1) + 1)%Z.
Proof.
  intros Hvs Hr. unfold redraw.
  set (z0 := Zfloor (den (r * cum_table_domain)%js)).
  assert (E : to_int (ffloor (r * cum_table_domain)%js) = Some z0)
    by (apply to_int_den, den_floor).
  rewrite E.
  assert (Ez : z0 = Zfloor (den r * 2147483647)).
  { unfold z0. rewrite den_mul. unfold cum_table_domain. rewrite den_int.
    reflexivity. }
  assert (Hz0 : (0 <= z0)%Z).
  { rewrite Ez. apply Zfloor_lub. simpl. nra. }
  destruct (Z.eqb_spec (Z.of_nat vocab_size - 1) 0) as [G|G]; [lia|].
  rewrite Z.rem_mod_nonneg by lia. rewrite Ez. reflexivity.
Qed.

(** The numbers of [[0, 1)] that are redrawn to [t] fill [redraw_count]
    intervals of the length [1 / (2^31 - 1)]. *)
Lemma redraw_intervals (vocab_size : nat) (r : F) (t : Z) :
  2 <= vocab_size -> (0 <= den r < 1)%R ->
  redraw vocab_size r = Some t
  <-> (1 <= t <= Z.of_nat vocab_size - 1)%Z
      /\ exists i,
           (0 <= i < redraw_count (Z.of_nat vocab_size - 1) t)%Z
           /\ (IZR (t - 1 + (Z.of_nat vocab_size - 1) * i)
               <= den r * 2147483647
               < IZR (t - 1 + (Z.of_nat vocab_size - 1) * i) + 1)%R.
Proof.
  intros Hvs Hr. rewrite (redraw_value vocab_size r Hvs) by lra.
  set (d := (Z.of_nat vocab_size - 1)%Z).
  set (z := Zfloor (den r * 2147483647)).
  assert (Hd : (0 < d)%Z) by (unfold d; lia).
  pose proof (floor_scaled r Hr) as Hz. fold z in Hz.
  pose proof (Z.mod_pos_bound z d Hd) as Hm.
  split.
  - intros E. injection E as E. split; [lia|].
    destruct (proj1 (redraw_class d t z Hd ltac:(lia))) as (i & Hi & Ei);
      [split; [exact Hz|exact E]|].
    exists i. split; [exact Hi|]. rewrite <- Ei. apply Zfloor_bound.
  - intros (Ht & i & Hi & Hri). f_equal.
    assert (Ei : z = (t - 1 + d * i)%Z) by (apply Zfloor_eq; exact Hri).
    apply (proj2 (redraw_class d t z Hd Ht)). exists i. auto.
Qed.

(** Whatever the table is, an accepted target is not 0: it is the index
    that the lookup returns, or the redraw when that index is 0. *)
Lemma draw_not_zero (m : Word2vec F) (n : nat) (target : option Z) (n' : nat) :
  2 <= vocab_size (voc m) ->
  (0 <= den (get_random_float (n + 1)))%R ->
  draw_negative get_random_float m n = Ok (target, n') ->
  exists i t,
    bSearch (cum_table (voc m)) (get_random_float n * cum_table_domain)%js = Ok i
    /\ target = Some t /\ (1 <= t)%Z
    /\ (i = 0 ->
        t = (Zfloor (den (get_random_float (n + 1)) * 2147483647)
             mod (Z.of_nat (vocab_size (voc m)) - 1) + 1)%Z
        /\ (t <= Z.of_nat (vocab_size (voc m)) - 1)%Z
        /\ n' = n + 2)
    /\ (i <> 0 -> t = Z.of_nat i /\ n' = n + 1).
Proof.
  intros Hvs Hr. unfold draw_negative. intros E. bind_inv E.
  exists a. destruct (Nat.eqb_spec a 0) as [Ea|Ea].
  - injection E as <- <-.
    rewrite (redraw_value (vocab_size (voc m)) _ Hvs Hr).
    set (z := Zfloor (den (get_random_float (n + 1)) * 2147483647)).
    pose proof (Z.mod_pos_bound z (Z.of_nat (vocab_size (voc m)) - 1)
                  ltac:(lia)) as Hm.
    eexists. split; [exact E0|]. split; [reflexivity|]. split; [lia|].
    split; [|contradiction]. intros _. split; [reflexivity|]. split; lia.
  - injection E as <- <-. exists (Z.of_nat a). split; [exact E0|].
    split; [reflexivity|]. split; [lia|]. split; [contradiction|].
    intros _. split; reflexivity.
Qed.

(** A draw of the true target: nothing is updated, the turn is spent. *)
Lemma ns_body_skip (m : Word2vec F) (l1 : list F) (w_idx d : nat)
    (neu1e : list F) (syn1 : list (list F)) (n n' : nat) :
  d <> 0 ->
  draw_negative get_random_float m n = Ok (Some (Z.of_nat w_idx), n') ->
  ns_body get_random_float m l1 w_idx d (neu1e, syn1, n) = Ok (neu1e, syn1, n').
Proof.
  intros Hd E. unfold ns_body.
  destruct (Nat.eqb_spec d 0) as [G|_]; [contradiction|].
  rewrite E. simpl. rewrite Z.eqb_refl. reflexivity.
Qed.

(** Any other draw: one update with the label 0. *)
Lemma ns_body_update (m : Word2vec F) (l1 : list F) (w_idx d : nat)
    (neu1e : list F) (syn1 : list (list F)) (n n' : nat) (t : Z) :
  d <> 0 -> t <> Z.of_nat w_idx ->
  draw_negative get_random_float m n = Ok (Some t, n') ->
  ns_body get_random_float m l1 w_idx d (neu1e, syn1, n)
  = (let* st' := ns_update m l1 (fint 0) (Some t) (neu1e, syn1) in Ok (st', n')).
Proof.
  intros Hd Ht E. unfold ns_body.
  destruct (Nat.eqb_spec d 0) as [G|_]; [contradiction|].
  rewrite E. simpl. destruct (Z.eqb_spec t (Z.of_nat w_idx)); [contradiction|].
  reflexivity.
Qed.

(** The turns [a], [a + 1], ... of the loop, [k] of them: each draws one
    target, and the updates made are those of the targets that are not
    the true one. *)
Lemma ns_loop_draws (m : Word2vec F) (l1 : list F) (w_idx : nat) :
  cum_table_inv (voc m) -> 2 <= vocab_size (voc m) ->
  (forall k, 0 <= den (get_random_float k) < 1)%R ->
  forall k a st n,
    a <> 0 ->
    exists targets n',
      negative_draws get_random_float m k n = Ok (List.map Some targets, n')
      /\ length targets = k
      /\ Forall (fun t => (1 <= t < Z.of_nat (vocab_size (voc m)))%Z) targets
      /\ for_each (ns_body get_random_float m l1 w_idx) (seq a k) (st, n)
         = (let* st' := ns_updates m l1 (negatives w_idx targets) st in
            Ok (st', n')).
Proof.
  intros Hinv Hvs Hrnd. induction k as [|k IH]; intros a st n Ha.
  - exists [], n. repeat split; constructor.
  - destruct (draw_in_bounds get_random_float m n Hinv Hvs
                (Hrnd n) (Hrnd (n + 1))) as (t & n1 & Hd & Ht & _).
    destruct st as [neu1e syn1].
    cbn [seq]. rewrite for_each_cons. cbn [negative_draws]. rewrite Hd.
    cbn [bind].
    destruct (Z.eqb_spec t (Z.of_nat w_idx)) as [Et|Et].
    + subst t. rewrite (ns_body_skip m l1 w_idx a neu1e syn1 n n1 Ha Hd).
      cbn [bind].
      destruct (IH (S a) (neu1e, syn1) n1 ltac:(lia))
        as (ts & n' & Hts & Hlen & Hall & Hloop).
      exists (Z.of_nat w_idx :: ts), n'. rewrite Hts. cbn [bind List.map].
      split; [reflexivity|]. split; [simpl; lia|].
      split; [constructor; [exact Ht|exact Hall]|].
      rewrite Hloop. unfold negatives. cbn [List.filter].
      rewrite Z.eqb_refl. reflexivity.
    + rewrite (ns_body_update m l1 w_idx a neu1e syn1 n n1 t Ha Et Hd).
      destruct (ns_update m l1 (fint 0) (Some t) (neu1e, syn1))
        as [st1| |] eqn:Hup; cbn [bind].
      * destruct (IH (S a) st1 n1 ltac:(lia))
          as (ts & n' & Hts & Hlen & Hall & Hloop).
        exists (t :: ts), n'. rewrite Hts. cbn [bind List.map].
        split; [reflexivity|]. split; [simpl; lia|].
        split; [constructor; [exact Ht|exact Hall]|].
        rewrite Hloop. unfold negatives, ns_updates. cbn [List.filter].
        destruct (Z.eqb_spec t (Z.of_nat w_idx)) as [G|_]; [contradiction|].
        cbn [negb List.map]. rewrite for_each_cons. cbn [fst snd].
        rewrite Hup. reflexivity.
      * destruct (IH (S a) (neu1e, syn1) n1 ltac:(lia))
          as (ts & n' & Hts & Hlen & Hall & _).
        exists (t :: ts), n'. rewrite Hts. cbn [bind List.map].
        split; [reflexivity|]. split; [simpl; lia|].
        split; [constructor; [exact Ht|exact Hall]|].
        unfold negatives, ns_updates. cbn [List.filter].
        destruct (Z.eqb_spec t (Z.of_nat w_idx)) as [G|_]; [contradiction|].
        cbn [negb List.map]. rewrite for_each_cons. cbn [fst snd].
        rewrite Hup. reflexivity.
      * destruct (IH (S a) (neu1e, syn1) n1 ltac:(lia))
          as (ts & n' & Hts & Hlen & Hall & _).
        exists (t :: ts), n'. rewrite Hts. cbn [bind List.map].
        split; [reflexivity|]. split; [simpl; lia|].
        split; [constructor; [exact Ht|exact Hall]|].
        unfold negatives, ns_updates. cbn [List.filter].
        destruct (Z.eqb_spec t (Z.of_nat w_idx)) as [G|_]; [contradiction|].
        cbn [negb List.map]. rewrite for_each_cons. cbn [fst snd].
        rewrite Hup. reflexivity.
Qed.

(** The whole loop: the update of the true target with the label 1, then
    one turn for each of the [negative] draws. *)
Lemma negative_sampling_targets (m : Word2vec F) (l1 : list F) (w_idx : nat) :
  cum_table_inv (voc m) -> 2 <= vocab_size (voc m) ->
  (forall k, 0 <= den (get_random_float k) < 1)%R ->
  (0 <= negative (config m))%Z ->
  exists targets n',
    negative_draws get_random_float m (Z.to_nat (negative (config m))) (draws m)
    = Ok (List.map Some targets, n')
    /\ length targets = Z.to_nat (negative (config m))
    /\ Forall (fun t => (1 <= t < Z.of_nat (vocab_size (voc m)))%Z) targets
    /\ negative_sampling get_random_float m l1 w_idx
       = (let* st' :=
            ns_updates m l1
              ((fint 1, Z.of_nat w_idx) :: negatives w_idx targets)
              (zeros (hidden_size (config m)), syn1 m) in
          Ok (st', n')).
Proof.
  intros Hinv Hvs Hrnd Hneg. unfold negative_sampling.
  replace (Z.to_nat (negative (config m) + 1))
    with (S (Z.to_nat (negative (config m)))) by lia.
  cbn [seq]. rewrite for_each_cons. unfold ns_body at 1. cbn [Nat.eqb].
  destruct (ns_update m l1 (fint 1) (Some (Z.of_nat w_idx))
              (zeros (hidden_size (config m)), syn1 m)) as [st1| |] eqn:Hup;
    cbn [bind].
  - destruct (ns_loop_draws m l1 w_idx Hinv Hvs Hrnd
                (Z.to_nat (negative (config m))) 1 st1 (draws m) ltac:(lia))
      as (ts & n' & Hts & Hlen & Hall & Hloop).
    exists ts, n'. split; [exact Hts|]. split; [exact Hlen|].
    split; [exact Hall|]. unfold ns_updates. rewrite for_each_cons.
    cbn [fst snd]. rewrite Hup. exact Hloop.
  - destruct (ns_loop_draws m l1 w_idx Hinv Hvs Hrnd
                (Z.to_nat (negative (config m))) 1
                (zeros (hidden_size (config m)), syn1 m) (draws m) ltac:(lia))
      as (ts & n' & Hts & Hlen & Hall & _).
    exists ts, n'. split; [exact Hts|]. split; [exact Hlen|].
    split; [exact Hall|]. unfold ns_updates. rewrite for_each_cons.
    cbn [fst snd]. rewrite Hup. reflexivity.
  - destruct (ns_loop_draws m l1 w_idx Hinv Hvs Hrnd
                (Z.to_nat (negative (config m))) 1
                (zeros (hidden_size (config m)), syn1 m) (draws m) ltac:(lia))
      as (ts & n' & Hts & Hlen & Hall & _).
    exists ts, n'. split; [exact Hts|]. split; [exact Hlen|].
    split; [exact Hall|]. unfold ns_updates. rewrite for_each_cons.
    cbn [fst snd]. rewrite Hup. reflexivity.
Qed.

End ExactSampling.

(** C3: in exact arithmetic, with two words or more and a random source
    that returns numbers of [[0, 1)].
    (1) The target of a negative draw is never the index 0: it is the
    index that the lookup returns, or, when that index is 0, the redraw
    [Math.floor(r * (2^31 - 1)) % (vocab_size - 1) + 1] of the next random
    number [r], which lies in [[1, vocab_size - 1]].
    (2) The redraw is uniform: a number [r] is redrawn to [t] when
    [r * (2^31 - 1)] falls in one of [redraw_count] intervals of length 1,
    and the counts of two targets of [[1, vocab_size - 1]] differ by one
    at most.
    (3) A draw equal to the true target updates nothing and is not drawn
    again: its turn [d] is spent.  With the table of [build_vocab], the
    loop makes [negative] draws, and after the update of the true target
    with the label 1 it makes one update with the label 0 for each draw
    that is not the true target, in order: their number is [negative]
    less the number of draws equal to the true target. *)
Theorem C3_negative_draws
    {F : Type} `{Exact F} (get_random_float : nat -> F)
    (m : Word2vec F) (l1 : list F) (w_idx : nat) :
  2 <= vocab_size (voc m) ->
  (forall k, 0 <= den (get_random_float k) < 1)%R ->
  (forall n target n',
     draw_negative get_random_float m n = Ok (target, n') ->
     exists i t,
       bSearch (cum_table (voc m)) (get_random_float n * cum_table_domain)%js
       = Ok i
       /\ target = Some t /\ (1 <= t)%Z
       /\ (i = 0 ->
           t = (Zfloor (den (get_random_float (n + 1)%nat) * 2147483647)
                mod (Z.of_nat (vocab_size (voc m)) - 1) + 1)%Z
           /\ (t <= Z.of_nat (vocab_size (voc m)) - 1)%Z
           /\ n' = n + 2)
       /\ (i <> 0 -> t = Z.of_nat i /\ n' = n + 1))
  /\ (forall r t,
        (0 <= den r < 1)%R ->
        redraw (vocab_size (voc m)) r = Some t
        <-> (1 <= t <= Z.of_nat (vocab_size (voc m)) - 1)%Z
            /\ exists i,
                 (0 <= i < redraw_count (Z.of_nat (vocab_size (voc m)) - 1) t)%Z
                 /\ (IZR (t - 1 + (Z.of_nat (vocab_size (voc m)) - 1) * i)
                     <= den r * 2147483647
                     < IZR (t - 1 + (Z.of_nat (vocab_size (voc m)) - 1) * i) + 1)%R)
  /\ (forall t t',
        (1 <= t <= Z.of_nat (vocab_size (voc m)) - 1)%Z ->
        (1 <= t' <= Z.of_nat (vocab_size (voc m)) - 1)%Z ->
        (-1 <= redraw_count (Z.of_nat (vocab_size (voc m)) - 1) t
               - redraw_count (Z.of_nat (vocab_size (voc m)) - 1) t' <= 1)%Z)
  /\ (forall d neu1e syn1 n n',
        d <> 0 ->
        draw_negative get_random_float m n = Ok (Some (Z.of_nat w_idx), n') ->
        ns_body get_random_float m l1 w_idx d (neu1e, syn1, n)
        = Ok (neu1e, syn1, n'))
  /\ (cum_table_inv (voc m) -> (0 <= negative (config m))%Z ->
      exists targets n',
        negative_draws get_random_float m (Z.to_nat (negative (config m)))
          (draws m)
        = Ok (List.map Some targets, n')
        /\ length targets = Z.to_nat (negative (config m))
        /\ Forall (fun t => (1 <= t < Z.of_nat (vocab_size (voc m)))%Z) targets
        /\ negative_sampling get_random_float m l1 w_idx
           = (let* st' :=
                ns_updates m l1
                  ((fint 1, Z.of_nat w_idx) :: negatives w_idx targets)
                  (zeros (hidden_size (config m)), syn1 m) in
              Ok (st', n'))
        /\ length (negatives (F := F) w_idx targets)
           + count_occ Z.eq_dec targets (Z.of_nat w_idx)
           = Z.to_nat (negative (config m))).
Proof.
  intros Hvs Hrnd. split; [|split; [|split; [|split]]].
  - intros n target n'. apply draw_not_zero; [exact Hvs|]. apply Hrnd.
  - intros r t Hr. apply redraw_intervals; [exact Hvs|exact Hr].
  - intros t t'. apply redraw_count_even. lia.
  - intros d neu1e syn1 n n'. apply ns_body_skip.
  - intros Hinv Hneg.
    destruct (negative_sampling_targets get_random_float m l1 w_idx
                Hinv Hvs Hrnd Hneg) as (ts & n' & Hts & Hlen & Hall & Hloop).
    exists ts, n'. split; [exact Hts|]. split; [exact Hlen|].
    split; [exact Hall|]. split; [exact Hloop|].
    rewrite <- Hlen. unfold negatives. rewrite length_map. clear.
    induction ts as [|t ts IH]; [reflexivity|].
    cbn [List.filter count_occ length].
    destruct (Z.eqb_spec t (Z.of_nat w_idx)) as [E|E];
      destruct (Z.eq_dec t (Z.of_nat w_idx)) as [E'|E']; try contradiction;
      cbn [negb length]; lia.
Qed.

(** The corpus [a b]: three words, with the table of a third, two thirds
    and the whole of the domain.  The random number 0 is looked up to the
    index 0, and the next number, a half, is redrawn to the target 2, the
    word [b]: with the true target [b] each of the five draws is the true
    target and no update of a negative is made. *)
Lemma C3_random_unit (k : nat) : (0 <= den (C3_random k) < 1)%R.
Proof.
  unfold C3_random. destruct (Nat.even k); simpl.
  - rewrite Qc_den_int. lra.
  - unfold Qc_den. simpl. unfold Q2R. simpl. lra.
Qed.

Lemma C3_witness :
  2 <= vocab_size (voc C1_model)
  /\ draw_negative C3_random C1_model 0 = Ok (Some 2%Z, 2)
  /\ (exists i t,
        bSearch (cum_table (voc C1_model)) (C3_random 0 * cum_table_domain)%js
        = Ok i
        /\ Some 2%Z = Some t /\ (1 <= t)%Z
        /\ (i = 0 ->
            t = (Zfloor (den (C3_random (0 + 1)%nat) * 2147483647)
                 mod (Z.of_nat (vocab_size (voc C1_model)) - 1) + 1)%Z
            /\ (t <= Z.of_nat (vocab_size (voc C1_model)) - 1)%Z
            /\ 2 = 0 + 2)
        /\ (i <> 0 -> t = Z.of_nat i /\ 2 = 0 + 1))
  /\ (exists targets n',
        negative_draws C3_random C1_model 5 0 = Ok (List.map Some targets, n')
        /\ targets = [2; 2; 2; 2; 2]%Z
        /\ negatives (F := Qc) 2 targets = []
        /\ length (negatives (F := Qc) 2 targets)
           + count_occ Z.eq_dec targets (Z.of_nat 2)
           = 5).
Proof.
  assert (Hvs : 2 <= vocab_size (voc C1_model)) by (vm_compute; lia).
  assert (Hd : draw_negative C3_random C1_model 0 = Ok (Some 2%Z, 2))
    by (vm_compute; reflexivity).
  split; [exact Hvs|]. split; [exact Hd|].
  destruct (C3_negative_draws C3_random C1_model [] 2 Hvs C3_random_unit)
    as (Hdraw & _ & _ & _ & Hloop).
  split; [exact (Hdraw 0 (Some 2%Z) 2 Hd)|].
  destruct (Hloop (build_vocab_cum_table_inv (F := Qc) 1 "a b")
              ltac:(vm_compute; discriminate))
    as (ts & n' & Hts & _ & _ & _ & Hcount).
  exists ts, n'. split; [exact Hts|].
  assert (E : negative_draws C3_random C1_model 5 0
              = Ok ([Some 2; Some 2; Some 2; Some 2; Some 2]%Z, 10))
    by (vm_compute; reflexivity).
  change (Z.to_nat (negative (config C1_model))) with 5 in Hts.
  change (draws C1_model) with 0 in Hts.
  rewrite E in Hts. injection Hts as Hm _.
  assert (Ets : ts = [2; 2; 2; 2; 2]%Z).
  { destruct ts as [|t1 [|t2 [|t3 [|t4 [|t5 [|t6 ts]]]]]]; try discriminate Hm.
    injection Hm as <- <- <- <- <-. reflexivity. }
  split; [exact Ets|]. split; [rewrite Ets; reflexivity|exact Hcount].
Defined.

(** * The CBOW branch (lines 542-556) *)

(** [word2_indices] holds positions of the sentence, none of them [pos],
    whatever the words are. *)
Lemma word2_indices_positions (start pos : nat) (wrw : list string) (i : nat) :
  i ∈ word2_indices_of start pos wrw ->
  start <= i < start + length wrw /\ i <> pos.
Proof.
  unfold word2_indices_of. rewrite list_elem_of_In, in_flat_map.
  intros (k & Hk & Hi). apply in_seq in Hk.
  destruct (Nat.eqb_spec (k + start) pos) as [E|E]; simpl in Hi.
  - destruct Hi.
  - destruct Hi as [<-|[]]. lia.
Qed.

(** C1 (the code at the failing input): for the center word [a] at
    position 0 the context is the word [b], whose index in the vocabulary
    is 2; [word2_indices] holds its position 1, the hidden vector is row 1
    of [syn0] (the vector of [a] itself), and after the sentence row 2,
    the vector of [b], is as it was, while row 0, the vector of the null
    word, has changed.  (Which rows change does not depend on what
    [Math.exp] is.) *)
Theorem C1_cbow_indexes_by_position :
  reduced_window_of C1_random C1_model ["a"; "b"]%string 0
  = (0, ["a"; "b"]%string)
  /\ word2_indices_of 0 0 ["a"; "b"]%string = [1]
  /\ idx_of C1_model "b" = Ok 2
  /\ fractions (syn0 C1_model) = [[1]; [2]; [3]]%Q
  /\ (exists l1, cbow_l1 C1_model [1] = Ok l1 /\ List.map this l1 = [2%Q])
  /\ (exists m', train_sentence C1_random C1_model = Ok m'
                 /\ nth 2 (fractions (syn0 m')) [] = [3%Q]
                 /\ nth 0 (fractions (syn0 m')) [] <> [1%Q]).
Proof.
  split; [vm_compute; reflexivity|].
  split; [vm_compute; reflexivity|].
  split; [vm_compute; reflexivity|].
  split; [vm_compute; reflexivity|].
  split.
  - destruct (cbow_l1 C1_model [1]) as [l1| |] eqn:E.
    + exists l1. split; [reflexivity|].
      assert (E' : match cbow_l1 C1_model [1] with
                   | Ok l => List.map this l | _ => [] end = [2%Q])
        by (vm_compute; reflexivity).
      rewrite E in E'. exact E'.
    + vm_compute in E. discriminate E.
    + vm_compute in E. discriminate E.
  - destruct (train_sentence C1_random C1_model) as [m'| |] eqn:E.
    + exists m'. split; [reflexivity|].
      assert (E' : match train_sentence C1_random C1_model with
                   | Ok m => fractions (syn0 m) | _ => [] end
                   = [[4 # 5]; [41 # 20]; [3]]%Q)
        by (vm_compute; reflexivity).
      rewrite E in E'. rewrite E'. split; [reflexivity|discriminate].
    + vm_compute in E. discriminate E.
    + vm_compute in E. discriminate E.
Qed.

(** ** A step with an empty context *)

(** For any arithmetic: the hidden vector of an empty context is the zero
    vector; line 554 does not divide. *)
Lemma cbow_l1_empty {F : Type} `{JsArith F} (m : Word2vec F) :
  cbow_l1 m [] = Ok (zeros (hidden_size (config m))).
Proof. unfold cbow_l1. simpl. rewrite andb_false_r. reflexivity. Qed.

(** For any arithmetic: [train_cbow_pair] with no context index leaves
    [syn0] as it is (the loop of line 627 has no turn). *)
Lemma train_cbow_pair_empty_syn0 {F : Type} `{JsArith F} `{JsMath F}
    (get_random_float : nat -> F) (m m' : Word2vec F) (w_idx : nat)
    (l1 : list F) :
  train_cbow_pair get_random_float m w_idx [] l1 = Ok m' ->
  syn0 m' = syn0 m.
Proof.
  unfold train_cbow_pair. intros E. bind_inv E.
  destruct a as [[neu1e syn1'] k]. simpl in E. injection E as <-. reflexivity.
Qed.

Section ExactEmptyContext.
Context {F : Type} `{Exact F}.
Variable get_random_float : nat -> F.

Lemma vget_zeros (n j : nat) : j < n -> vget (zeros (F := F) n) j = fint 0.
Proof.
  unfold vget, zeros. revert j. induction n as [|n IH]; intros j Hj; [lia|].
  destruct j as [|j]; simpl; [reflexivity|]. apply IH. lia.
Qed.

Lemma add_mul_zero (x g : F) : (x + g * fint 0)%js = x.
Proof. apply den_inj. rewrite den_add, den_mul, den_int. lra. Qed.

Lemma vset_vget (y : list F) (j : nat) : j < length y -> vset y j (vget y j) = y.
Proof.
  intros Hj. unfold vset, vget.
  destruct (Nat.ltb_spec j (length y)) as [_|L]; [|lia].
  apply list_insert_id. rewrite nth_lookup.
  destruct (lookup_lt_is_Some_2 y j Hj) as [x ->]. reflexivity.
Qed.

(** [y[j] += g * 0] leaves [y] as it is. *)
Lemma axpy_zeros (n : nat) (g : F) (y : list F) :
  n <= length y -> axpy n g (zeros n) y = y.
Proof.
  intros Hn. unfold axpy. apply fold_left_fixed. intros j Hj.
  apply in_seq in Hj. rewrite vget_zeros by lia.
  rewrite add_mul_zero. apply vset_vget. lia.
Qed.

Lemma ns_update_zeros (m : Word2vec F) (label : F) (target : option Z)
    (neu1e neu1e' : list F) (syn1 syn1' : list (list F)) :
  Forall (fun r => length r = hidden_size (config m)) syn1 ->
  ns_update m (zeros (hidden_size (config m))) label target (neu1e, syn1)
  = Ok (neu1e', syn1') ->
  syn1' = syn1.
Proof.
  intros Hrows. unfold ns_update.
  destruct (row syn1 target) as [[t l2]|] eqn:Hrow.
  - intros E. injection E as _ <-.
    unfold row in Hrow. destruct target as [z|]; [|discriminate].
    destruct (z <? 0)%Z; [discriminate|].
    destruct (syn1 !! Z.to_nat z) as [l|] eqn:Hl; [|discriminate].
    injection Hrow as <- <-.
    assert (Hlen : length l = hidden_size (config m)).
    { rewrite Forall_forall in Hrows. apply Hrows.
      apply list_elem_of_lookup. eauto. }
    rewrite axpy_zeros by lia. apply list_insert_id. exact Hl.
  - destruct (hidden_size (config m) =? 0)%nat; [|discriminate].
    intros E. injection E as _ <-. reflexivity.
Qed.

Lemma ns_body_zeros (m : Word2vec F) (w_idx d : nat)
    (st st' : list F * list (list F) * nat) :
  Forall (fun r => length r = hidden_size (config m)) (snd (fst st)) ->
  ns_body get_random_float m (zeros (hidden_size (config m))) w_idx d st = Ok st' ->
  snd (fst st') = snd (fst st).
Proof.
  destruct st as [[neu1e syn1] n]. cbn [fst snd]. intros Hrows.
  unfold ns_body.
  destruct (d =? 0)%nat.
  - intros E. bind_inv E. destruct a as [neu1e' syn1']. injection E as <-.
    simpl. eapply ns_update_zeros; eassumption.
  - intros E. bind_inv E. destruct a as [target n'].
    assert (Hup : forall r,
               (let* st' := ns_update m (zeros (hidden_size (config m)))
                              (fint 0) target (neu1e, syn1) in
                Ok (st', n')) = Ok r ->
               snd (fst r) = syn1).
    { intros r G. bind_inv G. destruct a as [neu1e' syn1'].
      injection G as <-. simpl. eapply ns_update_zeros; eassumption. }
    destruct target as [t|]; [|apply Hup; exact E].
    destruct (t =? Z.of_nat w_idx)%Z; [|apply Hup; exact E].
    injection E as <-. reflexivity.
Qed.

Lemma negative_sampling_zeros (m : Word2vec F) (w_idx : nat)
    (neu1e : list F) (syn1' : list (list F)) (k : nat) :
  Forall (fun r => length r = hidden_size (config m)) (syn1 m) ->
  negative_sampling get_random_float m (zeros (hidden_size (config m))) w_idx
  = Ok (neu1e, syn1', k) ->
  syn1' = syn1 m.
Proof.
  intros Hrows E. unfold negative_sampling in E.
  change syn1' with (snd (fst (neu1e, syn1', k))).
  eapply (for_each_invariant (fun st => snd (fst st) = syn1 m)); [| |exact E].
  - intros d st st' _ Hst Hbody. rewrite <- Hst.
    eapply ns_body_zeros; [|exact Hbody]. rewrite Hst. exact Hrows.
  - reflexivity.
Qed.

Lemma train_cbow_pair_empty (m m' : Word2vec F) (w_idx : nat) :
  Forall (fun r => length r = hidden_size (config m)) (syn1 m) ->
  train_cbow_pair get_random_float m w_idx [] (zeros (hidden_size (config m)))
  = Ok m' ->
  syn0 m' = syn0 m /\ syn1 m' = syn1 m.
Proof.
  intros Hrows E. unfold train_cbow_pair in E. bind_inv E.
  destruct a as [[neu1e syn1'] k]. simpl in E. injection E as <-. simpl.
  split; [reflexivity|]. eapply negative_sampling_zeros; eassumption.
Qed.

(** With [window = 0] the context of every position is empty. *)
Lemma window_zero_context (m : Word2vec F) (words : list string) (pos : nat) :
  window (config m) = 0%Z ->
  let '(start, wrw) := reduced_window_of get_random_float m words pos in
  word2_indices_of start pos wrw = [].
Proof.
  intros Hw. unfold reduced_window_of. rewrite Hw.
  assert (E : to_int (fround (get_random_float (draws m) * fint 0)%js) = Some 0%Z).
  { apply to_int_den. rewrite den_round, den_mul, den_int. f_equal.
    apply Zfloor_eq. simpl. lra. }
  rewrite E.
  replace (Z.max 0 (Z.of_nat pos - 0 + 0)) with (Z.of_nat pos) by lia.
  rewrite Nat2Z.id. unfold Js.slice.
  set (len := Z.of_nat (length words)).
  destruct (Z.ltb_spec (Z.of_nat pos) 0) as [L|_]; [lia|].
  destruct (Z.ltb_spec (Z.of_nat pos + 0 + 1 - 0) 0) as [L|_]; [lia|].
  set (k := Z.min (Z.of_nat pos) len).
  set (e := Z.min (Z.of_nat pos + 0 + 1 - 0) len).
  assert (Hlen : length (firstn (Z.to_nat (e - k)) (skipn (Z.to_nat k) words)) <= 1).
  { rewrite length_firstn. unfold e, k. lia. }
  unfold word2_indices_of.
  destruct (firstn (Z.to_nat (e - k)) (skipn (Z.to_nat k) words)) as [|w [|w' l]];
    simpl in Hlen |- *; [reflexivity| |lia].
  rewrite Nat.eqb_refl. reflexivity.
Qed.

End ExactEmptyContext.

(** With [window = 0] in binary64: the reduced window is
    [Math.round(r * 0)]; it is 0 for a random number [r] of [[0, 1)], and
    the slice holds the center word alone. *)
Lemma C8_float_context :
  reduced_window_of C8_float_random C8_float_model ["a"; "b"]%string 0
  = (0, ["a"%string])
  /\ word2_indices_of 0 0 ["a"%string] = [].
Proof. split; vm_compute; reflexivity. Qed.


Lemma C8_model_returns :
  match train_word C1_random ["a"; "b"]%string (0, "a"%string) C8_model with
  | Ok _ => true
  | _ => false
  end = true.
Proof. vm_compute. reflexivity. Qed.



(** * The ranking (lines 367-493) *)

(** ** A query whose terms cancel *)

(** C2 (the code at the failing input): the composed vector of the query
    [a - a] is zero, line 407 divides it by its norm 0, the query vector
    becomes [NaN] in every coordinate, and the score of a word that is
    not a query term is [NaN]. *)
Theorem C2_zero_norm_query :
  for_each (add_query_term C2_model) (query_in C2_model) (zeros 2, [])
  = Ok ([0; 0]%float, [1; 1])
  /\ normalize 2 [0; 0]%float = [nan; nan]%float
  /\ (exists m', compute_query_result C2_model = Ok m'
                 /\ qi_vec m' = [nan; nan]%float)
  /\ score_of C2_model [nan; nan]%float [1; 1] 2 = Ok nan.
Proof.
  split; [vm_compute; reflexivity|].
  split; [vm_compute; reflexivity|].
  split; [|vm_compute; reflexivity].
  destruct (compute_query_result C2_model) as [m'| |] eqn:E.
  - exists m'. split; [reflexivity|].
    assert (E' : match compute_query_result C2_model with
                 | Ok m => qi_vec m | _ => [] end = [nan; nan]%float)
      by (vm_compute; reflexivity).
    rewrite E in E'. exact E'.
  - exfalso. assert (E' : match compute_query_result C2_model with
                 | Ok m => true | _ => false end = true)
      by (vm_compute; reflexivity).
    rewrite E in E'. discriminate.
  - exfalso. assert (E' : match compute_query_result C2_model with
                 | Ok m => true | _ => false end = true)
      by (vm_compute; reflexivity).
    rewrite E in E'. discriminate.
Qed.

(** ** Scores, ranks and emitted records *)

Lemma combine_seq {A : Type} (l : list A) (a : nat) :
  List.map fst (combine (seq a (length l)) l) = seq a (length l)
  /\ Forall (fun p => l !! (fst p - a) = Some (snd p) /\ a <= fst p)
       (combine (seq a (length l)) l).
Proof.
  revert a. induction l as [|x l IH]; intros a; simpl.
  - split; constructor.
  - destruct (IH (S a)) as [Hfst Hall]. split; [f_equal; exact Hfst|].
    constructor.
    + simpl. rewrite Nat.sub_diag. split; [reflexivity|lia].
    + eapply Forall_impl; [exact Hall|]. simpl. intros [i y] [Hy Hi]. simpl in *.
      split; [|lia]. replace (i - a) with (S (i - S a)) by lia. exact Hy.
Qed.

Section RankingFacts.
Context {F : Type} `{JsArith F}.

(** [q_idx_set] holds the indices of the words of the query terms. *)
Lemma add_query_terms_set (m : Word2vec F) (l : list string)
    (st st' : list F * list nat) :
  for_each (add_query_term m) l st = Ok st' ->
  forall i,
    In i (snd st') <->
    (In i (snd st)
     \/ exists q it, In q l /\ Js.get (query_word q) (vocab (voc m)) = Some it
                     /\ idx it = i).
Proof.
  revert st. induction l as [|q l IH]; intros st E i.
  - simpl in E. injection E as <-. split; [auto|].
    intros [Hi|(q & it & [] & _)]. exact Hi.
  - rewrite for_each_cons in E. bind_inv E. rewrite (IH a E i).
    unfold add_query_term in E0. destruct st as [qi_vec q_idx_set].
    fold (query_word q) in E0.
    destruct (Js.get (query_word q) (vocab (voc m))) as [it|] eqn:G;
      [|discriminate].
    bind_inv E0. injection E0 as <-. simpl. split.
    + intros [[<-|Hi]|(q' & it' & Hq' & G' & Hi)].
      * right. exists q, it. auto.
      * left. exact Hi.
      * right. exists q', it'. auto.
    + intros [Hi|(q' & it' & [<-|Hq'] & G' & Hi)].
      * left. right. exact Hi.
      * left. left. congruence.
      * right. exists q', it'. auto.
Qed.

(** Line 413: the words of the query score exactly 0. *)
Lemma score_of_query (m : Word2vec F) (qi_vec : list F) (q_idx_set : list nat)
    (i : nat) :
  In i q_idx_set -> score_of m qi_vec q_idx_set i = Ok (fint 0).
Proof.
  intros Hi. unfold score_of.
  rewrite bool_decide_eq_true_2; [reflexivity|].
  apply list_elem_of_In. exact Hi.
Qed.

(** Line 423: a word whose vector has the norm 0 scores 0. *)
Lemma score_of_zero_norm (m : Word2vec F) (qi_vec : list F)
    (q_idx_set : list nat) (i : nat) (r : list F) :
  syn0 m !! i = Some r ->
  feq (dot (hidden_size (config m)) r r) (fint 0) = true ->
  score_of m qi_vec q_idx_set i = Ok (fint 0).
Proof.
  intros Hr Hz. unfold score_of.
  destruct (bool_decide (i ∈ q_idx_set)); [reflexivity|].
  rewrite Hr. simpl. rewrite Hz. reflexivity.
Qed.

(** Lines 433-435: [item_scores] holds every index once, with its score;
    the rank of an item is its position in that array. *)
Lemma rank_items_spec (scores : list F) :
  Permutation (List.map item_idx (rank_items scores)) (seq 0 (length scores))
  /\ Forall (fun it => scores !! item_idx it = Some (score it))
       (rank_items scores).
Proof.
  unfold rank_items. destruct (combine_seq scores 0) as [Hfst Hall]. split.
  - rewrite sort_Permutation, List.map_map.
    rewrite (List.map_ext _ fst) by reflexivity.
    rewrite Hfst. reflexivity.
  - apply sort_Forall. apply Forall_map.
    eapply Forall_impl; [exact Hall|]. simpl. intros [i s] [Hs _]. simpl in *.
    rewrite Nat.sub_0_r in Hs. exact Hs.
Qed.

Lemma show_rank_shown (m : Word2vec F) (items : list (ScoredItem F))
    (Q : nat -> Prop) (k : nat)
    (st st' : option (Js.obj QueryOutRecord) * list string) :
  Q k -> shown_ok m items Q st ->
  show_rank m items k st = Ok st' ->
  shown_ok m items Q st'.
Proof.
  intros HQ. destruct st as [qo pushed]. unfold show_rank, shown_ok.
  cbn [fst snd]. destruct (items !! k) as [it|] eqn:Hit; [|discriminate].
  destruct qo as [qo|]; [|discriminate].
  intros [Hkeys Hpushed] E. injection E as <-. cbn [fst snd].
  set (w0 := word_at m (item_idx it)).
  set (fresh := {| query := w0; status := "NORMAL"; rank := None;
                   rank_history := None |}).
  set (qo1 := if Js.has w0 qo then qo else Js.set w0 fresh qo).
  assert (Hkeys1 : keys_ok qo1).
  { unfold qo1. destruct (Js.has w0 qo); [exact Hkeys|].
    apply Forall_set_key; [reflexivity|exact Hkeys]. }
  assert (Hget1 : exists r1, Js.get w0 qo1 = Some r1).
  { unfold qo1. destruct (Js.has w0 qo) eqn:Hhas.
    - apply has_get. exact Hhas.
    - exists fresh. apply get_set_eq. }
  assert (Hne : forall w, w0 <> w -> Js.get w qo1 = Js.get w qo).
  { intros w Hw. unfold qo1. destruct (Js.has w0 qo); [reflexivity|].
    apply get_set_ne. exact Hw. }
  split.
  - apply Forall_alter_key; [|exact Hkeys1]. intros v Hv. exact Hv.
  - intros w Hw. rewrite get_alter.
    destruct (String.eqb_spec w0 w) as [<-|Hw0].
    + destruct Hget1 as [r1 Hr1]. rewrite Hr1. simpl.
      exists (update_rank k (instances m) r1), k, it. auto.
    + rewrite (Hne w Hw0). apply in_app_or in Hw.
      destruct Hw as [Hw|[<-|[]]]; [|contradiction].
      apply Hpushed. exact Hw.
Qed.

(** The ranks shown passed both filters of lines 466-467. *)
Lemma ranks_to_show_spec (m : Word2vec F) (items : list (ScoredItem F))
    (rank_lookup : Js.obj nat) (q_idx_set : list nat) (ranks : list nat) :
  ranks_to_show_of m items rank_lookup q_idx_set = Ok ranks ->
  forall k, In k ranks ->
    exists it, items !! k = Some it
               /\ ~ In (item_idx it) q_idx_set
               /\ Js.has (word_at m (item_idx it)) (queries_ignored m) = false.
Proof.
  unfold ranks_to_show_of. intros E k Hk.
  bind_inv E. bind_inv E. bind_inv E. injection E as <-.
  apply (Permutation_in _ (sort_Permutation _ a1)) in Hk.
  destruct (filter_r_Ok _ _ _ E2 k Hk) as [Hk1 Hq].
  destruct (filter_r_Ok _ _ _ E1 k Hk1) as [_ Hi].
  unfold not_query in Hq. unfold not_ignored in Hi.
  destruct (items !! k) as [it|]; [|discriminate].
  exists it. split; [reflexivity|].
  injection Hq as Hq. injection Hi as Hi.
  apply negb_true_iff in Hq, Hi. split; [|exact Hi].
  apply bool_decide_eq_false in Hq. rewrite <- list_elem_of_In. exact Hq.
Qed.

Lemma comparable_b_spec (scores : list F) :
  comparable_b scores = true -> comparable scores.
Proof.
  unfold comparable_b, comparable. rewrite forallb_forall. intros Hall. split.
  - intros a b Ha Hb Hab. specialize (Hall a Ha).
    rewrite forallb_forall in Hall. specialize (Hall b Hb).
    apply andb_prop in Hall. destruct Hall as [G _].
    rewrite Hab in G. simpl in G. apply negb_true_iff in G. exact G.
  - intros a b c Ha Hb Hc Hab Hbc. specialize (Hall a Ha).
    rewrite forallb_forall in Hall. specialize (Hall b Hb).
    apply andb_prop in Hall. destruct Hall as [_ G].
    rewrite forallb_forall in G. specialize (G c Hc).
    rewrite Hab, Hbc in G. simpl in G. apply negb_true_iff in G. exact G.
Qed.

Lemma indexed_items_sorted (scores : list F) (a : nat) :
  StronglySorted (fun x y : ScoredItem F => item_idx x < item_idx y)
    (List.map (fun p => {| item_idx := fst p; score := snd p |})
       (combine (seq a (length scores)) scores)).
Proof.
  revert a. induction scores as [|s scores IH]; intros a; simpl; [constructor|].
  constructor; [apply IH|]. simpl. apply Forall_forall. intros it Hit.
  apply list_elem_of_In, in_map_iff in Hit. destruct Hit as ([i s'] & <- & Hp).
  apply in_combine_l, in_seq in Hp. simpl. lia.
Qed.

(** Lines 433-435: when the test of line 434 orders the scores,
    [item_scores] is in the descending order of the scores, the items of
    which none has the higher score in the order of their indices. *)
Lemma rank_items_ranked (scores : list F) :
  comparable scores -> StronglySorted ranked_before (rank_items scores).
Proof.
  intros [Hasym Htrans]. unfold rank_items.
  apply (sort_stable_on by_score (fun x y => item_idx x < item_idx y)
           ranked_before (fun it => In (score it) scores)).
  - intros a b c Pa Pb Pc [Hab Iab] [Hbc Ibc]. unfold ranked_before.
    change (by_score a b) with (higher (score a) (score b)) in Hab.
    change (by_score b c) with (higher (score b) (score c)) in Hbc.
    change (by_score b a) with (higher (score b) (score a)) in Iab.
    change (by_score c b) with (higher (score c) (score b)) in Ibc.
    change (by_score a c) with (higher (score a) (score c)).
    change (by_score c a) with (higher (score c) (score a)).
    split; [apply (Htrans _ (score b)); assumption|].
    intros Hca.
    assert (Hba : higher (score b) (score a) = false)
      by (apply (Htrans _ (score c)); assumption).
    assert (Hcb : higher (score c) (score b) = false)
      by (apply (Htrans _ (score a)); assumption).
    specialize (Iab Hba). specialize (Ibc Hcb). lia.
  - intros x y Px Py G. unfold ranked_before.
    change (by_score x y) with (higher (score x) (score y)) in G |- *.
    change (by_score y x) with (higher (score y) (score x)).
    split; [apply Hasym; assumption|]. intros G'. congruence.
  - intros x y Px Py Hxy G. split; [exact G|]. intros _. exact Hxy.
  - apply Forall_map. apply Forall_forall. intros [i y] Hp.
    rewrite list_elem_of_In in Hp. apply in_combine_r in Hp. exact Hp.
  - apply indexed_items_sorted.
Qed.

End RankingFacts.

(** In exact arithmetic the test orders every list of scores. *)
Lemma exact_comparable {F : Type} `{Exact F} (scores : list F) :
  comparable scores.
Proof.
  assert (G : forall a b : F, higher a b = true <-> (den a < den b)%R).
  { intros a b. unfold higher. rewrite flt_lt, den_sub, den_zero. lra. }
  assert (G' : forall a b : F, higher a b = false <-> (den b <= den a)%R).
  { intros a b. destruct (higher a b) eqn:E.
    - apply G in E. split; [discriminate|lra].
    - split; [|reflexivity]. intros _.
      destruct (Rle_or_lt (den b) (den a)) as [L|L]; [exact L|].
      apply G in L. congruence. }
  split.
  - intros a b _ _ Hab. apply G in Hab. apply G'. lra.
  - intros a b c _ _ _ Hab Hbc. apply G' in Hab, Hbc. apply G'. lra.
Qed.

(** C6 (amended): for a query that is not empty, when
    [compute_query_result] returns: every index of a query term has the
    score exactly 0 and is the index of no emitted record; every word whose
    own vector has the norm 0 has the score 0; [item_scores], the scores
    sorted, holds every index of the vocabulary once, the rank of an item
    being its position there; when the test of line 434 orders the scores
    (as it does in exact arithmetic) that array is in the descending order
    of the scores, items of equal scores in the order of their indices;
    every emitted record has the word and the rank of an item that is not
    a query term; and the emitted list is sorted by ascending rank.
    ([qo_map] is taken to store every record under its own word, as
    [update_qi_and_qo] and line 474 do.) *)
Theorem C6_query_ranking {F : Type} `{JsArith F} (m m' : Word2vec F) :
  query_in m <> [] ->
  (forall qo, Js.get (qi_key m) (qo_map m) = Some qo -> keys_ok qo) ->
  compute_query_result m = Ok m' ->
  exists (raw : list F) (q_idx_set : list nat) (scores : list F),
    let n := hidden_size (config m) in
    let item_scores := rank_items scores in
    for_each (add_query_term m) (query_in m) (zeros n, []) = Ok (raw, q_idx_set)
    /\ (forall i,
          In i q_idx_set <->
          exists q it,
            In q (query_in m)
            /\ Js.get (query_word q) (vocab (voc m)) = Some it /\ idx it = i)
    /\ map_r (score_of m (normalize n raw) q_idx_set)
         (seq 0 (vocab_size (voc m))) = Ok scores
    /\ length scores = vocab_size (voc m)
    /\ (forall i, In i q_idx_set -> i < vocab_size (voc m) ->
                  scores !! i = Some (fint 0))
    /\ (forall i r, i < vocab_size (voc m) -> syn0 m !! i = Some r ->
                    feq (dot n r r) (fint 0) = true ->
                    scores !! i = Some (fint 0))
    /\ Permutation (List.map item_idx item_scores) (seq 0 (vocab_size (voc m)))
    /\ Forall (fun it => scores !! item_idx it = Some (score it)) item_scores
    /\ (comparable scores -> StronglySorted ranked_before item_scores)
    /\ (forall r, In r (query_out_records m') ->
          exists k it,
            rank r = Some k /\ item_scores !! k = Some it
            /\ query r = word_at m (item_idx it)
            /\ ~ In (item_idx it) q_idx_set)
    /\ StronglySorted ranked_le (query_out_records m').
Proof.
  intros Hq Hkeys E. unfold compute_query_result in E.
  destruct (Nat.eqb_spec (length (query_in m)) 0) as [L|_].
  { destruct (query_in m); [contradiction|discriminate]. }
  bind_inv E. destruct a as [raw q_idx_set].
  bind_inv E. rename a into scores.
  bind_inv E. rename a into ranks.
  bind_inv E. destruct a as [qo pushed]. injection E as <-.
  exists raw, q_idx_set, scores. cbv zeta.
  destruct (map_r_Ok _ _ _ E1) as [Hlen Hscores]. rewrite length_seq in Hlen.
  destruct (rank_items_spec scores) as [Hperm Hitems]. rewrite Hlen in Hperm.
  assert (Hscore : forall i, i < vocab_size (voc m) ->
            exists y, score_of m (normalize (hidden_size (config m)) raw)
                        q_idx_set i = Ok y /\ scores !! i = Some y).
  { intros i Hi. apply Hscores. apply lookup_seq. lia. }
  (* the loop over the ranks shown *)
  set (items := rank_items scores) in *.
  set (Q := fun k => exists it, items !! k = Some it
                                /\ ~ In (item_idx it) q_idx_set).
  assert (Hshown : shown_ok m items Q (qo, pushed)).
  { eapply (for_each_invariant (shown_ok m items Q)); [| |exact E3].
    - intros k st st' Hk Hst Hbody.
      eapply show_rank_shown; [|exact Hst|exact Hbody].
      destruct (ranks_to_show_spec m items _ _ _ E2 k Hk) as (it & Hit & Hnq & _).
      exists it. auto.
    - unfold shown_ok. cbn [fst snd].
      destruct (Js.get (qi_key m) (qo_map m)) as [qo0|] eqn:G; [|reflexivity].
      split; [apply Hkeys; reflexivity|]. intros w []. }
  assert (Hrecords : forall r, In r (query_out_records
              (set_query_result m
                 match qo with
                 | Some qo0 => Js.set (qi_key m) qo0 (qo_map m)
                 | None => qo_map m
                 end
                 (Js.sort by_rank
                    match qo with
                    | Some qo0 => omap (fun w => Js.get w qo0) pushed
                    | None => []
                    end)
                 (normalize (hidden_size (config m)) raw))) ->
            exists k it,
              rank r = Some k /\ items !! k = Some it
              /\ query r = word_at m (item_idx it)
              /\ ~ In (item_idx it) q_idx_set).
  { cbn [query_out_records set_query_result]. intros r Hr.
    apply (Permutation_in _ (sort_Permutation _ _)) in Hr.
    destruct qo as [qo0|]; [|destruct Hr].
    unfold shown_ok in Hshown. cbn [fst snd] in Hshown.
    destruct Hshown as [Hk Hpushed].
    rewrite <- list_elem_of_In in Hr. apply list_elem_of_omap in Hr.
    destruct Hr as (w & Hw & G). rewrite list_elem_of_In in Hw.
    destruct (Hpushed w Hw) as (r' & k & it & G' & Hrank & HQ & Hit & Hword).
    assert (r' = r) by congruence. subst r'.
    exists k, it. split; [exact Hrank|]. split; [exact Hit|]. split.
    - apply get_In in G. unfold keys_ok in Hk. rewrite Forall_forall in Hk.
      rewrite <- list_elem_of_In in G. apply Hk in G. simpl in G. congruence.
    - destruct HQ as (it' & Hit' & Hnq). congruence. }
  split; [exact E0|]. split.
  { intros i. rewrite (add_query_terms_set m _ _ _ E0 i). simpl. split.
    - intros [[]|Hi]. exact Hi.
    - intros Hi. right. exact Hi. }
  split; [exact E1|]. split; [exact Hlen|]. split.
  { intros i Hi Hlt. destruct (Hscore i Hlt) as (y & Hy & Hs).
    rewrite (score_of_query m _ _ i Hi) in Hy. congruence. }
  split.
  { intros i r Hlt Hr Hz. destruct (Hscore i Hlt) as (y & Hy & Hs).
    rewrite (score_of_zero_norm m _ _ i r Hr Hz) in Hy. congruence. }
  split; [exact Hperm|]. split; [exact Hitems|].
  split; [apply rank_items_ranked|]. split; [exact Hrecords|].
  cbn [query_out_records set_query_result].
  set (records := match qo with
                  | Some qo0 => omap (fun w => Js.get w qo0) pushed
                  | None => []
                  end) in *.
  assert (Hranked : Forall (fun r => is_Some (rank r)) (Js.sort by_rank records)).
  { rewrite Forall_forall. intros r Hr. rewrite list_elem_of_In in Hr.
    destruct (Hrecords r Hr) as (k & it & Hk & _). rewrite Hk. eauto. }
  apply (StronglySorted_restrict
           (fun a b => default 0 (rank a) <= default 0 (rank b))
           ranked_le (fun r => is_Some (rank r))); [| exact Hranked |].
  - intros a b [x Hx] [y Hy] Hle. exists x, y. rewrite Hx, Hy in Hle. auto.
  - apply (sort_sorted by_rank (fun r => default 0 (rank r))
             (fun r => is_Some (rank r))).
    + intros a b [x Hx] [y Hy]. unfold by_rank. rewrite Hx, Hy. reflexivity.
    + eapply Permutation_Forall; [apply sort_Permutation|exact Hranked].
Qed.

Lemma C6_model_returns :
  match compute_query_result C6_model with Ok _ => true | _ => false end = true.
Proof. vm_compute. reflexivity. Qed.

Lemma C6_model_words :
  index2word (voc C6_model)
  = [null_word; "a"; "b"; "c"; "d"; "e"; "f"; "g"; "h"; "i"; "j"; "k"]%string.
Proof. vm_compute. reflexivity. Qed.

Lemma C6_witness :
  exists m' scores,
    query_in C6_model <> []
    /\ compute_query_result C6_model = Ok m'
    /\ StronglySorted ranked_le (query_out_records m')
    /\ (forall r, In r (query_out_records m') ->
          query r <> "a"%string /\ query r <> "b"%string)
    /\ map_r (score_of C6_model (qi_vec m') [1; 2]) (seq 0 12) = Ok scores
    /\ comparable scores
    /\ StronglySorted ranked_before (rank_items scores).
Proof.
  pose proof C6_model_returns as R.
  destruct (compute_query_result C6_model) as [m'| |] eqn:E; try discriminate R.
  assert (Hkeys : forall qo,
             Js.get (qi_key C6_model) (qo_map C6_model) = Some qo -> keys_ok qo).
  { intros qo G. vm_compute in G. injection G as <-. repeat constructor. }
  destruct (C6_query_ranking C6_model m' ltac:(discriminate) Hkeys E)
    as (raw & q_idx_set & scores & Hraw & Hset & Hmap & _ & _ & _ & Hperm & _
        & Horder & Hrec & Hsorted).
  exists m', scores. split; [discriminate|]. split; [reflexivity|].
  split; [exact Hsorted|]. split.
  { intros r Hr. destruct (Hrec r Hr) as (k & it & _ & Hit & Hword & Hnq).
    assert (Hlt : item_idx it < 12).
    { assert (Hin : In (item_idx it) (seq 0 (vocab_size (voc C6_model)))).
      { eapply Permutation_in; [exact Hperm|]. apply in_map.
        rewrite <- list_elem_of_In. apply list_elem_of_lookup. eauto. }
      apply in_seq in Hin.
      change (vocab_size (voc C6_model)) with 12 in Hin. lia. }
    assert (Ha : In 1 q_idx_set).
    { apply Hset. exists "-a"%string, {| idx := 1; count := 1 |}.
      split; [right; left; reflexivity|]. split; reflexivity. }
    assert (Hb : In 2 q_idx_set).
    { apply Hset. exists "b"%string, {| idx := 2; count := 1 |}.
      split; [left; reflexivity|]. split; reflexivity. }
    rewrite Hword. unfold word_at. rewrite C6_model_words.
    destruct (item_idx it) as [|[|[|[|[|[|[|[|[|[|[|[|i]]]]]]]]]]]];
      try contradiction; try lia; cbn [nth]; split; discriminate. }
  assert (Eq : for_each (add_query_term C6_model) (query_in C6_model)
                 (zeros (hidden_size (config C6_model)), [])
               = Ok ([0.25; -0.125]%float, [1; 2]))
    by (vm_compute; reflexivity).
  rewrite Eq in Hraw. injection Hraw as <- <-.
  assert (Ev : match compute_query_result C6_model with
               | Ok m => qi_vec m
               | _ => []
               end = normalize (hidden_size (config C6_model))
                       [0.25; -0.125]%float)
    by (vm_compute; reflexivity).
  rewrite E in Ev. rewrite Ev. split; [exact Hmap|].
  assert (Hc : comparable scores).
  { apply comparable_b_spec.
    assert (Es : match map_r (score_of C6_model
                                (normalize (hidden_size (config C6_model))
                                   [0.25; -0.125]%float) [1; 2])
                         (seq 0 (vocab_size (voc C6_model))) with
                 | Ok l => comparable_b l
                 | _ => false
                 end = true) by (vm_compute; reflexivity).
    rewrite Hmap in Es. exact Es. }
  split; [exact Hc|exact (Horder Hc)].
Defined.

(** C6 (the claim as stated, in binary64): the state after the request
    [init_model] on the corpus of the sentences [a b] and
    [c d e f g h i j k], with [iter = 0] and the query [d]; then one
    sentence of training and the ranking.  The learning rate of the
    sentence is 0 / 0, which is [NaN], and the rows of [a] and [b] in
    [syn0] hold [NaN] after it: their scores are [NaN].  The word [c] has
    the score 1, the highest one; the sort leaves it behind the null word,
    whose score is 0, and behind [a] and [b]: its rank is 3.  (Between
    two neighbours of the array of the scores 0, [NaN], [NaN], 1, 0, ...
    no comparison of line 434 is positive: an insertion sort leaves the
    array as it stands, and so does a sort that begins by looking for a
    sorted run.) *)
Lemma C6_counterexample :
  exists m1 m2,
    train_sentence C8_float_random C6_float_model = Ok m1
    /\ compute_query_result m1 = Ok m2
    /\ learning_rate m1 = nan
    /\ qi_vec m2 = [1; 0]%float
    /\ map_r (score_of m1 (qi_vec m2) [4]) (seq 0 12)
       = Ok [0; nan; nan; 1; 0; 0; 0; 0; 0; 0; 0; 0]%float
    /\ List.map item_idx
         (rank_items [0; nan; nan; 1; 0; 0; 0; 0; 0; 0; 0; 0]%float)
       = seq 0 12
    /\ higher 0%float 1%float = true
    /\ List.map (fun r => (query r, rank r)) (query_out_records m2)
       = [(null_word, Some 0); ("a", Some 1); ("b", Some 2); ("c", Some 3);
          ("e", Some 5); ("f", Some 6); ("g", Some 7); ("h", Some 8);
          ("i", Some 9)]%string.
Proof.
  assert (E : match train_sentence C8_float_random C6_float_model with
              | Ok m1 =>
                  match compute_query_result m1 with
                  | Ok m2 =>
                      Some (learning_rate m1, qi_vec m2,
                            map_r (score_of m1 (qi_vec m2) [4]) (seq 0 12),
                            List.map (fun r => (query r, rank r))
                              (query_out_records m2))
                  | _ => None
                  end
              | _ => None
              end
              = Some (nan, [1; 0]%float,
                      Ok [0; nan; nan; 1; 0; 0; 0; 0; 0; 0; 0; 0]%float,
                      [(null_word, Some 0); ("a", Some 1); ("b", Some 2);
                       ("c", Some 3); ("e", Some 5); ("f", Some 6);
                       ("g", Some 7); ("h", Some 8); ("i", Some 9)]%string))
    by (vm_compute; reflexivity).
  destruct (train_sentence C8_float_random C6_float_model) as [m1| |];
    try discriminate E.
  destruct (compute_query_result m1) as [m2| |] eqn:E2; try discriminate E.
  injection E as Hlr Hqv Hsc Hrec.
  exists m1, m2. split; [reflexivity|]. split; [exact E2|].
  split; [exact Hlr|]. split; [exact Hqv|]. split; [exact Hsc|].
  split; [vm_compute; reflexivity|]. split; [vm_compute; reflexivity|].
  exact Hrec.
Qed.

(** [item_scores] is in the order of scores that do not increase. *)
Lemma rank_items_descending {F : Type} `{Exact F} (scores : list F) :
  StronglySorted (fun a b => (den (score b) <= den (score a))%R)
    (rank_items scores).
Proof.
  unfold rank_items.
  apply (sort_sorted_le by_score _ (fun _ => True)).
  - intros a b c. lra.
  - intros a b _ _. unfold by_score. intros G. apply flt_lt in G.
    rewrite den_sub, den_zero in G. lra.
  - intros a b _ _. unfold by_score. intros G. apply flt_false in G.
    rewrite den_sub, den_zero in G. lra.
  - apply Forall_forall. auto.
Qed.

(** ** Vectors of norm 0 *)

(** In IEEE-754 arithmetic the sum of the squares of a vector of zeros,
    of either sign, is 0: the test of line 423 holds. *)
Lemma float_dot_zero (r : list float) :
  Forall (fun x => x = 0%float \/ x = (-0)%float) r ->
  feq (dot (length r) r r) (fint 0) = true.
Proof.
  intros Hr. unfold dot.
  assert (G : forall (l : list nat) (acc : float),
             Forall (fun j => vget r j = 0%float \/ vget r j = (-0)%float) l ->
             acc = 0%float ->
             List.fold_left (fun f j => (f + vget r j * vget r j)%js) l acc
             = 0%float).
  { induction l as [|j l IH]; intros acc Hl ->; simpl; [reflexivity|].
    inversion_clear Hl as [|? ? Hj Hl']. apply IH; [exact Hl'|].
    destruct Hj as [-> | ->]; reflexivity. }
  rewrite G; [reflexivity| |reflexivity].
  apply Forall_forall. intros j Hj. rewrite list_elem_of_In in Hj.
  apply in_seq in Hj. rewrite Forall_forall in Hr. apply Hr.
  unfold vget. apply list_elem_of_In, nth_In. lia.
Qed.

(** In exact arithmetic the sum of the squares is 0 exactly for the
    vectors of zeros. *)
Lemma exact_dot_zero {F : Type} `{Exact F} (r : list F) :
  feq (dot (length r) r r) (fint 0) = true
  <-> Forall (fun x => den x = 0%R) r.
Proof.
  rewrite feq_eq, den_zero. unfold dot.
  assert (G : forall (l : list nat) (acc : F),
             (0 <= den acc)%R ->
             (0 <= den (List.fold_left
                          (fun f j => (f + vget r j * vget r j)%js) l acc))%R
             /\ (den (List.fold_left
                        (fun f j => (f + vget r j * vget r j)%js) l acc) = 0%R
                 <-> den acc = 0%R
                     /\ Forall (fun j => den (vget r j) = 0%R) l)).
  { induction l as [|j l IH]; intros acc Hacc; simpl.
    - split; [exact Hacc|]. split; [auto|intros [G _]; exact G].
    - assert (Hstep : (0 <= den (acc + vget r j * vget r j)%js)%R).
      { rewrite den_add, den_mul. nra. }
      destruct (IH _ Hstep) as [Hpos Hiff]. split; [exact Hpos|].
      rewrite Hiff, den_add, den_mul. split.
      + intros [G Hl]. assert (den acc = 0%R /\ den (vget r j) = 0%R) by nra.
        split; [tauto|]. constructor; tauto.
      + intros [G Hl]. inversion_clear Hl as [|? ? Hj Hl']. split; [|exact Hl'].
        rewrite G, Hj. lra. }
  destruct (G (seq 0 (length r)) (fint 0)) as [_ Hiff];
    [rewrite den_zero; lra|].
  rewrite Hiff, den_zero. split.
  - intros [_ Hall]. apply Forall_forall. intros x Hx.
    apply list_elem_of_lookup in Hx. destruct Hx as [j Hj].
    rewrite Forall_forall in Hall.
    assert (Hlt : j < length r) by (eapply lookup_lt_Some; exact Hj).
    specialize (Hall j). unfold vget in Hall. rewrite nth_lookup, Hj in Hall.
    apply Hall. apply list_elem_of_In, in_seq. lia.
  - intros Hall. split; [reflexivity|]. apply Forall_forall. intros j Hj.
    rewrite list_elem_of_In in Hj. apply in_seq in Hj.
    rewrite Forall_forall in Hall. apply Hall.
    unfold vget. apply list_elem_of_In, nth_In. lia.
Qed.

(** ** When [compute_query_result] returns *)

Lemma uniq_fast_from_In (seen a : list nat) (x : nat) :
  In x (uniq_fast_from seen a) -> In x a.
Proof.
  revert seen. induction a as [|y a IH]; intros seen; simpl; [auto|].
  destruct (bool_decide (y ∈ seen)).
  - intros Hx. right. eapply IH. exact Hx.
  - intros [<-|Hx]; [left; reflexivity|]. right. eapply IH. exact Hx.
Qed.

Section RankingReturns.
Context {F : Type} `{JsArith F}.

Lemma add_query_terms_total (m : Word2vec F) (l : list string) :
  length (syn0 m) = vocab_size (voc m) ->
  (forall q, In q l ->
     exists it, Js.get (query_word q) (vocab (voc m)) = Some it
                /\ idx it < vocab_size (voc m)) ->
  forall st, exists st', for_each (add_query_term m) l st = Ok st'.
Proof.
  intros Hsyn0 Hl st.
  destruct (for_each_total (fun _ => True) (add_query_term m) l) with (s := st)
    as (st' & E & _); [|exact I|eauto].
  intros q [qi_vec q_idx_set] Hq _. unfold add_query_term.
  fold (query_word q). destruct (Hl q Hq) as (it & -> & Hlt).
  destruct (lookup_lt_is_Some_2 (syn0 m) (idx it)) as [r ->]; [lia|].
  simpl. eauto.
Qed.

Lemma score_of_total (m : Word2vec F) (qi_vec : list F) (q_idx_set : list nat)
    (i : nat) :
  i < length (syn0 m) -> exists y, score_of m qi_vec q_idx_set i = Ok y.
Proof.
  intros Hi. unfold score_of. destruct (bool_decide (i ∈ q_idx_set)); [eauto|].
  destruct (lookup_lt_is_Some_2 (syn0 m) i Hi) as [r ->]. simpl.
  destruct (feq _ _); eauto.
Qed.

Lemma rank_lookup_bound (m : Word2vec F) (items : list (ScoredItem F)) :
  (forall it, In it items -> item_idx it < length (index2word (voc m))) ->
  Forall (fun wr => snd wr < length items /\ In (fst wr) (index2word (voc m)))
    (rank_lookup_of m items).
Proof.
  intros Hitems. unfold rank_lookup_of.
  apply fold_left_invariant; [|constructor].
  intros rl [k it] Hp Hrl. cbn [fst snd].
  destruct (Js.has (word_at m (item_idx it)) (queries_watched m)); [|exact Hrl].
  apply Forall_set_key; [|exact Hrl]. cbn [fst snd].
  pose proof (in_combine_l _ _ _ _ Hp) as Hk. apply in_seq in Hk.
  pose proof (in_combine_r _ _ _ _ Hp) as Hit. split; [lia|].
  unfold word_at. apply nth_In. apply Hitems. exact Hit.
Qed.

(** [compute_query_result] returns in every such state. *)
Lemma compute_query_result_returns (m : Word2vec F) :
  rankable m -> exists m', compute_query_result m = Ok m'.
Proof.
  intros (Hten & Hsyn0 & Hwords & Hquery & Hvocab & [qo0 Hqo]).
  unfold compute_query_result.
  destruct (length (query_in m) =? 0); [eauto|].
  destruct (add_query_terms_total m (query_in m) Hsyn0 Hquery
              (zeros (hidden_size (config m)), [])) as [[raw q_idx_set] ->].
  simpl.
  destruct (map_r_total
              (score_of m (normalize (hidden_size (config m)) raw) q_idx_set)
              (seq 0 (vocab_size (voc m)))) as [scores Hscores].
  { intros i Hi. apply in_seq in Hi. apply score_of_total. lia. }
  rewrite Hscores. simpl.
  destruct (map_r_Ok _ _ _ Hscores) as [Hlen _]. rewrite length_seq in Hlen.
  destruct (rank_items_spec scores) as [Hperm _]. rewrite Hlen in Hperm.
  set (items := rank_items scores) in *.
  assert (Hitems_len : length items = vocab_size (voc m)).
  { rewrite <- (length_map item_idx), (Permutation_length Hperm).
    apply length_seq. }
  assert (Hitems : forall it, In it items ->
                     item_idx it < length (index2word (voc m))).
  { intros it Hit. rewrite Hwords.
    assert (G : In (item_idx it) (seq 0 (vocab_size (voc m)))).
    { eapply Permutation_in; [exact Hperm|]. apply in_map. exact Hit. }
    apply in_seq in G. lia. }
  pose proof (rank_lookup_bound m items Hitems) as Hrl.
  (* the ranks to show *)
  unfold ranks_to_show_of.
  destruct (for_each_total (Forall (fun k => k < length items))
              (watched_rank m (rank_lookup_of m items) q_idx_set)
              (Js.keys (queries_watched m))) with (s := seq 0 10)
    as (rs & -> & Hrs).
  { intros w rs _ Hrs. unfold watched_rank.
    destruct (Js.get w (rank_lookup_of m items)) as [k|] eqn:G; [|eauto].
    apply get_In in G. rewrite Forall_forall in Hrl.
    rewrite <- list_elem_of_In in G. destruct (Hrl _ G) as [Hk Hw].
    cbn [fst snd] in Hk, Hw. destruct (Hvocab w Hw) as [it ->].
    destruct (bool_decide _); [eauto|]. eexists. split; [reflexivity|].
    apply Forall_app. split; [exact Hrs|]. repeat constructor. exact Hk. }
  { apply Forall_forall. intros k Hk. rewrite list_elem_of_In in Hk.
    apply in_seq in Hk. lia. }
  simpl. rewrite Forall_forall in Hrs.
  assert (Hitem : forall k, k < length items -> exists it, items !! k = Some it).
  { intros k Hk. apply lookup_lt_is_Some_2. exact Hk. }
  destruct (filter_r_total (not_ignored m items) (uniq_fast rs)) as [rs1 Hrs1].
  { intros k Hk. apply uniq_fast_from_In in Hk.
    destruct (Hitem k) as [it Hit];
      [apply Hrs, list_elem_of_In; exact Hk|].
    unfold not_ignored. rewrite Hit. eauto. }
  rewrite Hrs1. simpl.
  destruct (filter_r_total (not_query items q_idx_set) rs1) as [rs2 Hrs2].
  { intros k Hk. destruct (filter_r_Ok _ _ _ Hrs1 k Hk) as [Hk' _].
    apply uniq_fast_from_In in Hk'.
    destruct (Hitem k) as [it Hit];
      [apply Hrs, list_elem_of_In; exact Hk'|].
    unfold not_query. rewrite Hit. eauto. }
  rewrite Hrs2. simpl.
  (* the loop over the ranks *)
  destruct (for_each_total (fun st => is_Some (fst st))
              (show_rank m items) (Js.sort_default rs2))
    with (s := (Js.get (qi_key m) (qo_map m), @nil string))
    as ([qo pushed] & -> & _).
  { intros k [qo pushed] Hk [qo1 Hqo1]. cbn [fst] in Hqo1. subst qo.
    apply (Permutation_in _ (sort_Permutation _ _)) in Hk.
    destruct (filter_r_Ok _ _ _ Hrs2 k Hk) as [Hk2 _].
    destruct (filter_r_Ok _ _ _ Hrs1 k Hk2) as [Hk1 _].
    apply uniq_fast_from_In in Hk1.
    destruct (Hitem k) as [it Hit];
      [apply Hrs, list_elem_of_In; exact Hk1|].
    unfold show_rank. rewrite Hit. eexists. split; [reflexivity|].
    cbn [fst]. eauto. }
  { rewrite Hqo. cbn [fst]. eauto. }
  simpl. eauto.
Qed.

End RankingReturns.

(** * Rank histories (lines 476-485) *)

(** Two updates at the same [iterations]: one entry, the later rank. *)
Lemma push_rank_same (rank iterations : nat) (h : list RankEntry) (e : RankEntry) :
  last h = Some e -> iteration e = iterations ->
  push_rank rank iterations h
  = removelast h ++ [{| entry_rank := rank; iteration := iterations |}].
Proof.
  intros Hl He. unfold push_rank. rewrite Hl, He, Nat.eqb_refl. reflexivity.
Qed.

(** An update at another [iterations]: a new entry. *)
Lemma push_rank_new (rank iterations : nat) (h : list RankEntry) :
  (forall e, last h = Some e -> iteration e <> iterations) ->
  push_rank rank iterations h
  = h ++ [{| entry_rank := rank; iteration := iterations |}].
Proof.
  intros Hne. unfold push_rank. destruct (last h) as [e|]; [|reflexivity].
  destruct (Nat.eqb_spec (iteration e) iterations) as [E|E]; [|reflexivity].
  destruct (Hne e eq_refl E).
Qed.

Lemma push_rank_last (rank iterations : nat) (h : list RankEntry) :
  last (push_rank rank iterations h)
  = Some {| entry_rank := rank; iteration := iterations |}.
Proof.
  unfold push_rank. destruct (last h) as [e|]; [|apply last_snoc].
  destruct (Nat.eqb_spec (iteration e) iterations) as [E|E];
    [rewrite E|]; apply last_snoc.
Qed.

Lemma push_rank_ok (rank iterations : nat) (h : list RankEntry) :
  StronglySorted lt (List.map iteration h) ->
  Forall (fun e => iteration e <= iterations) h ->
  StronglySorted lt (List.map iteration (push_rank rank iterations h))
  /\ Forall (fun e => iteration e <= iterations) (push_rank rank iterations h).
Proof.
  intros Hs Hb. unfold push_rank. destruct (last h) as [e|] eqn:Hl.
  - apply last_Some in Hl. destruct Hl as [l' ->].
    rewrite removelast_last.
    apply Forall_app in Hb. destruct Hb as [Hb He]. inversion_clear He as [|? ? He' _].
    rewrite List.map_app in Hs. simpl in Hs.
    apply StronglySorted_snoc_inv in Hs. destruct Hs as [Hs Hlt].
    destruct (Nat.eqb_spec (iteration e) iterations) as [E|E].
    + split.
      * rewrite List.map_app. simpl. rewrite E.
        apply StronglySorted_snoc; [exact Hs|]. rewrite <- E. exact Hlt.
      * apply Forall_app. split; [exact Hb|]. repeat constructor. simpl. lia.
    + split.
      * rewrite !List.map_app. simpl.
        apply StronglySorted_snoc.
        -- apply StronglySorted_snoc; assumption.
        -- apply Forall_app. split.
           ++ eapply Forall_impl; [exact Hlt|]. simpl. intros; lia.
           ++ repeat constructor. lia.
      * apply Forall_app. split.
        -- apply Forall_app. split; [exact Hb|]. repeat constructor. exact He'.
        -- repeat constructor.
  - apply last_None in Hl. subst h. simpl. split; repeat constructor.
Qed.

Lemma update_rank_ok (rank iterations : nat) (r : QueryOutRecord) :
  history_ok iterations r -> history_ok iterations (update_rank rank iterations r).
Proof.
  unfold history_ok. simpl. intros [Hs Hb]. apply push_rank_ok; assumption.
Qed.

Lemma history_ok_mono (b b' : nat) (r : QueryOutRecord) :
  b <= b' -> history_ok b r -> history_ok b' r.
Proof.
  unfold history_ok. intros Hb [Hs Hf]. split; [exact Hs|].
  eapply Forall_impl; [exact Hf|]. simpl. intros; lia.
Qed.

Section RankHistory.
Context {F : Type} `{JsArith F}.

Lemma show_rank_ok (m : Word2vec F) (items : list (ScoredItem F)) (rank : nat)
    (st st' : option (Js.obj QueryOutRecord) * list string) :
  lookup_ok (instances m) (fst st) ->
  show_rank m items rank st = Ok st' ->
  lookup_ok (instances m) (fst st').
Proof.
  destruct st as [qo pushed]. unfold show_rank. simpl.
  destruct (items !! rank) as [it|]; [|discriminate].
  destruct qo as [qo|]; [|discriminate].
  intros Hqo E. injection E as <-. simpl.
  apply Forall_alter.
  - intros k v. simpl. apply update_rank_ok.
  - destruct (Js.has _ qo); [exact Hqo|].
    apply Forall_set; [|exact Hqo].
    intros k. simpl. unfold history_ok. simpl. split; constructor.
Qed.

Lemma compute_query_result_instances (m m' : Word2vec F) :
  compute_query_result m = Ok m' -> instances m' = instances m.
Proof.
  unfold compute_query_result.
  destruct (length (query_in m) =? 0)%nat.
  - intros E. injection E as <-. reflexivity.
  - intros E. bind_inv E. destruct a as [v s]. bind_inv E. bind_inv E.
    bind_inv E. destruct a1 as [qo pushed]. injection E as <-. reflexivity.
Qed.

Lemma compute_query_result_history (m m' : Word2vec F) :
  records_ok (instances m) (qo_map m) ->
  compute_query_result m = Ok m' ->
  records_ok (instances m) (qo_map m')
  /\ Forall (history_ok (instances m)) (query_out_records m').
Proof.
  intros Hok. unfold compute_query_result.
  destruct (length (query_in m) =? 0)%nat.
  - intros E. injection E as <-. simpl. split; [exact Hok|constructor].
  - intros E. bind_inv E. destruct a as [v s]. bind_inv E. bind_inv E.
    bind_inv E. destruct a1 as [qo pushed]. injection E as <-. simpl.
    assert (Hqo : lookup_ok (instances m) qo).
    { change qo with (fst (qo, pushed)).
      eapply (for_each_invariant (fun st => lookup_ok (instances m) (fst st)));
        [| |exact E3].
      - intros rank st st' _. apply show_rank_ok.
      - simpl. destruct (Js.get (qi_key m) (qo_map m)) as [o|] eqn:G; simpl; [|exact I].
        destruct (get_Forall _ _ _ _ Hok G) as [k Hk]. exact Hk. }
    destruct qo as [qo|]; simpl in Hqo.
    + split.
      * apply Forall_set; [|exact Hok]. intros k. exact Hqo.
      * apply sort_Forall. apply Forall_forall. intros r Hr.
        apply list_elem_of_omap in Hr.
        destruct Hr as (w & _ & G).
        destruct (get_Forall _ _ _ _ Hqo G) as [k Hk]. exact Hk.
    + split; [exact Hok|constructor].
Qed.

End RankHistory.

(** Two updates at the same [iterations] leave what the later one alone
    leaves. *)
Lemma push_rank_twice (rank1 rank2 iterations : nat) (h : list RankEntry) :
  push_rank rank2 iterations (push_rank rank1 iterations h)
  = push_rank rank2 iterations h.
Proof.
  rewrite (push_rank_same rank2 iterations (push_rank rank1 iterations h)
             {| entry_rank := rank1; iteration := iterations |}
             (push_rank_last _ _ _) eq_refl).
  unfold push_rank. destruct (last h) as [e|] eqn:Hl.
  - destruct (Nat.eqb_spec (iteration e) iterations) as [E|E].
    + rewrite removelast_last, E. reflexivity.
    + rewrite removelast_last. reflexivity.
  - rewrite removelast_last. reflexivity.
Qed.

Section RankHistoryWrites.
Context {F : Type} `{JsArith F}.

Lemma show_rank_writes (m : Word2vec F) (items : list (ScoredItem F))
    (k : nat) (st st' : option (Js.obj QueryOutRecord) * list string) :
  writes_ok m st -> show_rank m items k st = Ok st' -> writes_ok m st'.
Proof.
  destruct st as [qo pushed]. unfold show_rank, writes_ok. cbn [fst snd].
  destruct (items !! k) as [it|] eqn:Hit; [|discriminate].
  destruct qo as [qo|]; [|discriminate].
  intros (qo0 & Hqo0 & Hnone & Hsome & Hpushed) E. injection E as <-.
  cbn [fst snd].
  set (w0 := word_at m (item_idx it)) in *.
  set (fresh := {| query := w0; status := "NORMAL"; rank := None;
                   rank_history := None |}).
  set (qo1 := if Js.has w0 qo then qo else Js.set w0 fresh qo).
  assert (Hne : forall w, w0 <> w -> Js.get w qo1 = Js.get w qo).
  { intros w Hw. unfold qo1. destruct (Js.has w0 qo); [reflexivity|].
    apply get_set_ne. exact Hw. }
  assert (Hw0 : exists r1,
             Js.get w0 qo1 = Some r1
             /\ written m w0 (update_rank k (instances m) r1)).
  { unfold qo1. destruct (Js.has w0 qo) eqn:Hhas.
    - destruct (has_get _ _ Hhas) as [r1 Hr1]. exists r1.
      split; [exact Hr1|]. exists k. split; [reflexivity|].
      cbn [rank_history update_rank]. f_equal.
      destruct (Hsome w0 r1 Hr1) as [G|(k1 & _ & G)].
      + unfold prior_history. rewrite Hqo0, G. reflexivity.
      + rewrite G. cbn [default]. apply push_rank_twice.
    - exists fresh. split; [apply get_set_eq|].
      exists k. split; [reflexivity|].
      cbn [rank_history update_rank fresh default]. f_equal.
      unfold prior_history. rewrite Hqo0.
      rewrite (Hnone w0); [reflexivity|].
      unfold Js.has in Hhas. destruct (Js.get w0 qo); [discriminate|].
      reflexivity. }
  destruct Hw0 as (r1 & Hr1 & Hwritten).
  exists qo0. split; [exact Hqo0|]. split; [|split].
  - intros w. rewrite get_alter.
    destruct (String.eqb_spec w0 w) as [<-|Hw].
    + rewrite Hr1. discriminate.
    + rewrite (Hne w Hw). apply Hnone.
  - intros w r. rewrite get_alter.
    destruct (String.eqb_spec w0 w) as [<-|Hw].
    + rewrite Hr1. cbn [option_map]. intros E. injection E as <-.
      right. exact Hwritten.
    + rewrite (Hne w Hw). apply Hsome.
  - intros w Hw. rewrite get_alter.
    destruct (String.eqb_spec w0 w) as [<-|Hw0].
    + rewrite Hr1. cbn [option_map]. eauto.
    + rewrite (Hne w Hw0). apply in_app_or in Hw.
      destruct Hw as [Hw|[G|[]]]; [apply Hpushed; exact Hw|contradiction].
Qed.

(** What a call writes: every record that it emits is stored under its
    word in the store of the query key, with the rank of the call pushed
    on the history that the word had before the call. *)
Lemma compute_query_result_writes (m m' : Word2vec F) :
  compute_query_result m = Ok m' ->
  forall r, In r (query_out_records m') ->
    exists qo w,
      Js.get (qi_key m) (qo_map m') = Some qo
      /\ Js.get w qo = Some r
      /\ written m w r.
Proof.
  unfold compute_query_result.
  destruct (length (query_in m) =? 0)%nat.
  { intros E. injection E as <-. intros r []. }
  intros E. bind_inv E. destruct a as [v s]. bind_inv E. bind_inv E.
  bind_inv E. destruct a1 as [qo pushed]. injection E as <-.
  cbn [query_out_records qo_map set_query_result].
  assert (Hw : writes_ok m (qo, pushed)).
  { eapply (for_each_invariant (writes_ok m)); [| |exact E3].
    - intros k st st' _. apply show_rank_writes.
    - unfold writes_ok. cbn [fst snd].
      destruct (Js.get (qi_key m) (qo_map m)) as [qo0|] eqn:G; [|reflexivity].
      exists qo0. split; [reflexivity|]. split; [auto|]. split; [auto|].
      intros w []. }
  unfold writes_ok in Hw. cbn [fst snd] in Hw.
  destruct qo as [qo|]; [|intros r []].
  destruct Hw as (qo0 & _ & _ & _ & Hpushed).
  intros r Hr. apply (Permutation_in _ (sort_Permutation _ _)) in Hr.
  rewrite <- list_elem_of_In in Hr. apply list_elem_of_omap in Hr.
  destruct Hr as (w & Hw & G). rewrite list_elem_of_In in Hw.
  destruct (Hpushed w Hw) as (r' & G' & Hwr).
  assert (r' = r) by congruence. subst r'.
  exists qo, w. split; [apply get_set_eq|]. split; [exact G|exact Hwr].
Qed.

Lemma compute_query_result_key (m m' : Word2vec F) :
  compute_query_result m = Ok m' -> qi_key m' = qi_key m.
Proof.
  unfold compute_query_result.
  destruct (length (query_in m) =? 0)%nat.
  - intros E. injection E as <-. reflexivity.
  - intros E. bind_inv E. destruct a as [v s]. bind_inv E. bind_inv E.
    bind_inv E. destruct a1 as [qo pushed]. injection E as <-. reflexivity.
Qed.

End RankHistoryWrites.

(** C7 (amended): when [compute_query_result] returns.
    (1) Every record that the call emits is the record of its word in the
    store of the query key, with the rank of the call pushed on the
    history that the word had before the call: when that history ends with
    an entry of the current instance count, the entry is overwritten in
    place (one entry, the later rank), otherwise an entry is appended.
    (2) Two calls at the same instance count: a record that the second
    call emits for a word that the first call ranked has the history that
    the word had before the two calls with one entry pushed, which
    carries the rank of the second call.
    (3) As long as no iteration already recorded is above the instance
    count of the call, the iteration numbers of every history increase
    strictly, in the whole store and in the emitted records. *)
Theorem C7_rank_history_increases
    {F : Type} `{JsArith F} (m m' : Word2vec F) :
  compute_query_result m = Ok m' ->
  (forall r, In r (query_out_records m') ->
     exists qo w k,
       Js.get (qi_key m) (qo_map m') = Some qo
       /\ Js.get w qo = Some r
       /\ rank r = Some k
       /\ rank_history r
          = Some (push_rank k (instances m) (prior_history m w))
       /\ (forall e, last (prior_history m w) = Some e ->
             iteration e = instances m ->
             rank_history r
             = Some (removelast (prior_history m w)
                     ++ [{| entry_rank := k; iteration := instances m |}]))
       /\ ((forall e, last (prior_history m w) = Some e ->
               iteration e <> instances m) ->
           rank_history r
           = Some (prior_history m w
                   ++ [{| entry_rank := k; iteration := instances m |}])))
  /\ (forall m'' r'',
        compute_query_result m' = Ok m'' ->
        In r'' (query_out_records m'') ->
        instances m' = instances m
        /\ exists qo'' w k'',
             Js.get (qi_key m) (qo_map m'') = Some qo''
             /\ Js.get w qo'' = Some r''
             /\ rank r'' = Some k''
             /\ (forall qo' r',
                   Js.get (qi_key m) (qo_map m') = Some qo' ->
                   Js.get w qo' = Some r' -> written m w r' ->
                   rank_history r''
                   = Some (push_rank k'' (instances m) (prior_history m w))))
  /\ (records_ok (instances m) (qo_map m) ->
      records_ok (instances m') (qo_map m')
      /\ Forall (history_ok (instances m')) (query_out_records m')).
Proof.
  intros E. split; [|split].
  - intros r Hr.
    destruct (compute_query_result_writes m m' E r Hr)
      as (qo & w & Hqo & Hw & k & Hk & Hh).
    exists qo, w, k. split; [exact Hqo|]. split; [exact Hw|].
    split; [exact Hk|]. split; [exact Hh|]. split.
    + intros e He Hit. rewrite Hh. f_equal.
      apply (push_rank_same _ _ _ e He Hit).
    + intros Hne. rewrite Hh. f_equal. apply push_rank_new. exact Hne.
  - intros m'' r'' E2 Hr.
    pose proof (compute_query_result_instances m m' E) as Hi.
    pose proof (compute_query_result_key m m' E) as Hkey.
    split; [exact Hi|].
    destruct (compute_query_result_writes m' m'' E2 r'' Hr)
      as (qo'' & w & Hqo & Hw & k'' & Hk & Hh).
    rewrite Hkey in Hqo. rewrite Hi in Hh.
    exists qo'', w, k''. split; [exact Hqo|]. split; [exact Hw|].
    split; [exact Hk|].
    intros qo' r' Hqo' Hr' (k' & _ & Hh'). rewrite Hh. f_equal.
    unfold prior_history at 1. rewrite Hkey, Hqo', Hr', Hh'. cbn [default].
    apply push_rank_twice.
  - intros Hok. rewrite (compute_query_result_instances m m' E).
    apply (compute_query_result_history m m' Hok E).
Qed.

(** The record of the watched word [k], ranked before at the instance
    counts 2 and 4, is ranked at the count 7: an entry is appended. *)
Lemma C7_witness :
  exists m',
    compute_query_result C6_model = Ok m'
    /\ List.map
         (fun r => (query r, List.map iteration (default [] (rank_history r))))
         (query_out_records m')
       = [("k", [2; 4; 7]); ("j", [7]); ("i", [7]); ("h", [7]); ("g", [7]);
          ("f", [7]); ("e", [7]); ("d", [7]); ("c", [7])]%string
    /\ (forall r, In r (query_out_records m') ->
          exists qo w k,
            Js.get (qi_key C6_model) (qo_map m') = Some qo
            /\ Js.get w qo = Some r
            /\ rank r = Some k
            /\ rank_history r
               = Some (push_rank k (instances C6_model)
                         (prior_history C6_model w)))
    /\ records_ok (instances m') (qo_map m')
    /\ Forall (history_ok (instances m')) (query_out_records m').
Proof.
  assert (Hok : records_ok (instances C6_model) (qo_map C6_model)).
  { repeat constructor; simpl; lia. }
  assert (Ev : match compute_query_result C6_model with
               | Ok m =>
                   List.map
                     (fun r => (query r,
                                List.map iteration
                                  (default [] (rank_history r))))
                     (query_out_records m)
               | _ => []
               end
               = [("k", [2; 4; 7]); ("j", [7]); ("i", [7]); ("h", [7]);
                  ("g", [7]); ("f", [7]); ("e", [7]); ("d", [7]);
                  ("c", [7])]%string)
    by (vm_compute; reflexivity).
  pose proof C6_model_returns as R.
  destruct (compute_query_result C6_model) as [m'| |] eqn:E; try discriminate R.
  exists m'. split; [reflexivity|]. split; [exact Ev|].
  destruct (C7_rank_history_increases C6_model m' E) as (H1 & _ & H3).
  split.
  - intros r Hr. destruct (H1 r Hr) as (qo & w & k & G1 & G2 & G3 & G4 & _).
    exists qo, w, k. auto.
  - exact (H3 Hok).
Defined.

(** C7 (the claim as stated): the model [C6_model] at the instance count
    7.  A first call ranks the words at the iteration 7.  The request
    [init_model] then builds the vocabulary and the weights again: line
    259 sets the instance count to 0, and the records of [qo_map] stay.
    The next call pushes the iteration 0 on the histories that end with
    7, and on the one of the word [k], which becomes 2, 4, 7, 0. *)
Lemma C7_counterexample :
  exists m1 m3,
    instances C6_model = 7
    /\ compute_query_result C6_model = Ok m1
    /\ qo_map (build_and_init C7_weight C7_corpus m1) = qo_map m1
    /\ instances (build_and_init C7_weight C7_corpus m1) = 0
    /\ compute_query_result (build_and_init C7_weight C7_corpus m1) = Ok m3
    /\ List.map
         (fun r => (query r, List.map iteration (default [] (rank_history r))))
         (query_out_records m3)
       = [("c", [7; 0]); ("j", [7; 0]); ("e", [7; 0]); (null_word, [0]);
          ("g", [7; 0]); ("i", [7; 0]); ("d", [7; 0]);
          ("k", [2; 4; 7; 0])]%string.
Proof.
  assert (E : match compute_query_result C6_model with
              | Ok m1 =>
                  match compute_query_result
                          (build_and_init C7_weight C7_corpus m1) with
                  | Ok m3 =>
                      Some (List.map
                              (fun r => (query r,
                                         List.map iteration
                                           (default [] (rank_history r))))
                              (query_out_records m3))
                  | _ => None
                  end
              | _ => None
              end
              = Some [("c", [7; 0]); ("j", [7; 0]); ("e", [7; 0]);
                      (null_word, [0]); ("g", [7; 0]); ("i", [7; 0]);
                      ("d", [7; 0]); ("k", [2; 4; 7; 0])]%string)
    by (vm_compute; reflexivity).
  destruct (compute_query_result C6_model) as [m1| |]; try discriminate E.
  destruct (compute_query_result (build_and_init C7_weight C7_corpus m1))
    as [m3| |] eqn:E3; try discriminate E.
  injection E as Hrec.
  exists m1, m3. split; [reflexivity|]. split; [reflexivity|].
  split; [reflexivity|]. split; [reflexivity|]. split; [exact E3|exact Hrec].
Qed.

(** ** The instance count during training *)

Section TrainingCounters.
Context {F : Type} `{JsArith F} `{JsMath F}.
Variable get_random_float : nat -> F.

Lemma train_sg_pair_counters (m m' : Word2vec F) (w c : nat) :
  train_sg_pair get_random_float m w c = Ok m' -> counters_kept m m'.
Proof.
  unfold train_sg_pair. intros E. bind_inv E. bind_inv E.
  destruct a0 as [[neu1e s1] k]. injection E as <-.
  split; [reflexivity|simpl; lia].
Qed.

Lemma train_cbow_pair_counters (m m' : Word2vec F) (w : nat)
    (idxs : list nat) (l1 : list F) :
  train_cbow_pair get_random_float m w idxs l1 = Ok m' -> counters_kept m m'.
Proof.
  unfold train_cbow_pair. intros E. bind_inv E.
  destruct a as [[neu1e s1] k]. bind_inv E. injection E as <-.
  split; [reflexivity|simpl; lia].
Qed.

Lemma counters_kept_trans (m0 m1 m2 : Word2vec F) :
  counters_kept m0 m1 -> counters_kept m1 m2 -> counters_kept m0 m2.
Proof. unfold counters_kept. intros [E1 L1] [E2 L2]. split; [congruence|lia]. Qed.

(** Each word of the sentence is one more instance. *)
Lemma train_word_counters (words : list string) (p : nat * string)
    (m m' : Word2vec F) :
  train_word get_random_float words p m = Ok m' ->
  qo_map m' = qo_map m /\ instances m' = instances m + 1.
Proof.
  unfold train_word. destruct p as [pos word].
  destruct (reduced_window_of get_random_float m words pos) as [start wrw].
  set (m1 := set_weights m (syn0 m) (syn1 m) (draws m + 1)).
  intros E. bind_inv E. injection E as <-. cbn [qo_map instances set_counters].
  assert (Hk : qo_map a = qo_map m1 /\ instances a = instances m1);
    [|destruct Hk as [-> ->]; split; reflexivity].
  destruct (sg (config m1)).
  - revert E0.
    apply (for_each_invariant
             (fun m2 => qo_map m2 = qo_map m1 /\ instances m2 = instances m1));
      [|split; reflexivity].
    intros [i word2] m2 m3 _ [Hq Hi] Hbody.
    destruct (i + start =? pos); [injection Hbody as <-; auto|].
    bind_inv Hbody. bind_inv Hbody. unfold train_sg_pair in Hbody.
    bind_inv Hbody. bind_inv Hbody. destruct a3 as [[neu1e s1] k].
    injection Hbody as <-. simpl. auto.
  - bind_inv E0. bind_inv E0. unfold train_cbow_pair in E0.
    bind_inv E0. destruct a2 as [[neu1e s1] k]. bind_inv E0.
    injection E0 as <-. simpl. auto.
Qed.

Lemma train_sentence_counters (m m' : Word2vec F) :
  train_sentence get_random_float m = Ok m' -> counters_kept m m'.
Proof.
  unfold train_sentence.
  destruct (sentences (voc m) !! state_sentences m) as [sentence|];
    [|discriminate].
  set (m1 := set_learning_rate m _). intros E. bind_inv E.
  assert (Hk : counters_kept m1 a).
  { revert E0. apply (for_each_invariant (counters_kept m1));
      [|split; [reflexivity|lia]].
    intros p m2 m3 _ Hm2 Hbody. apply train_word_counters in Hbody.
    eapply counters_kept_trans; [exact Hm2|].
    destruct Hbody as [Hq Hi]. split; [exact Hq|lia]. }
  destruct Hk as [Hq Hi].
  destruct (num_sentences (voc a) <=? state_sentences a + 1);
    injection E as <-; split; simpl; auto.
Qed.

(** Training keeps the invariant of the rank histories. *)
Lemma train_sentence_records_ok (m m' : Word2vec F) :
  records_ok (instances m) (qo_map m) ->
  train_sentence get_random_float m = Ok m' ->
  records_ok (instances m') (qo_map m').
Proof.
  intros Hok E. destruct (train_sentence_counters m m' E) as [-> Hle].
  unfold records_ok in *. eapply Forall_impl; [exact Hok|]. simpl.
  intros kq Hkq. eapply Forall_impl; [exact Hkq|]. simpl.
  intros wr. apply history_ok_mono. exact Hle.
Qed.

End TrainingCounters.

(** * More of [build_vocab]: the vocabulary of a corpus without the null word *)

Lemma build_vocab_fields {F : Type} `{JsArith F} `{JsMath F}
    (mc : Z) (corpus : string) :
  let v := build_vocab (F := F) mc corpus in
  vocab v = fst (vocabulary mc corpus)
  /\ index2word v = snd (vocabulary mc corpus)
  /\ vocab_size v = length (snd (vocabulary mc corpus))
  /\ corpus_size v = total_words (fst (vocabulary mc corpus))
  /\ sentences v = Js.split "010" corpus
  /\ num_sentences v = length (Js.split "010" corpus).
Proof.
  unfold build_vocab. destruct (vocabulary mc corpus) as [v i2w]. simpl.
  repeat split; reflexivity.
Qed.

(** Every entry of [vocab] belongs to a word of [index2word], which
    stands at the entry's index. *)
Lemma vocabulary_entry (mc : Z) (corpus : string) (w : string) (it : VocabItem) :
  ~ In null_word (tokens corpus) ->
  Js.get w (fst (vocabulary mc corpus)) = Some it ->
  snd (vocabulary mc corpus) !! idx it = Some w.
Proof.
  intros Hnull Hget.
  destruct (vocabulary_spec mc corpus Hnull)
    as (rest & Hi2w & Hnd & Hperm & Hidx & _).
  rewrite Hi2w.
  assert (Hin : In w (null_word :: rest)).
  { eapply Permutation_in; [exact Hperm|]. apply has_In. unfold Js.has.
    rewrite Hget. reflexivity. }
  apply list_elem_of_In, list_elem_of_lookup in Hin. destruct Hin as [i Hi].
  destruct (Hidx i w Hi) as (it' & Hit' & <-).
  rewrite Hget in Hit'. injection Hit' as <-. exact Hi.
Qed.

(** X1: for a corpus in which the null word is no token, [index2word] and
    the indices of [vocab] are inverse to each other: no word stands twice
    in [index2word], the null word stands at index 0, the entry of the
    word at position [i] has the index [i], and every entry of [vocab]
    has an index below [vocab_size] at which its own word stands. *)
Theorem X1_index_round_trip {F : Type} `{JsArith F} `{JsMath F}
    (mc : Z) (corpus : string) :
  ~ In null_word (tokens corpus) ->
  let v := build_vocab (F := F) mc corpus in
  NoDup (index2word v)
  /\ index2word v !! 0 = Some null_word
  /\ (forall i w, index2word v !! i = Some w ->
        exists it, Js.get w (vocab v) = Some it /\ idx it = i)
  /\ (forall w it, Js.get w (vocab v) = Some it ->
        idx it < vocab_size v /\ index2word v !! idx it = Some w).
Proof.
  intros Hnull v.
  destruct (build_vocab_fields (F := F) mc corpus) as (Hv & Hi & Hs & _).
  fold v in Hv, Hi, Hs. rewrite Hv, Hi, Hs.
  destruct (vocabulary_spec mc corpus Hnull)
    as (rest & Hi2w & Hnd & Hperm & Hidx & _).
  split; [rewrite Hi2w; exact Hnd|].
  split; [rewrite Hi2w; reflexivity|].
  split; [rewrite Hi2w; exact Hidx|].
  intros w it Hget.
  pose proof (vocabulary_entry mc corpus w it Hnull Hget) as Hl.
  split; [|exact Hl]. eapply lookup_lt_Some. exact Hl.
Qed.

Lemma X1_witness :
  ~ In null_word (tokens "b a b")
  /\ NoDup (index2word (build_vocab (F := Qc) 1 "b a b")).
Proof.
  assert (Hnull : ~ In null_word (tokens "b a b")).
  { vm_compute. intros [G|[G|[G|[]]]]; discriminate G. }
  split; [exact Hnull|].
  exact (proj1 (X1_index_round_trip (F := Qc) 1 "b a b" Hnull)).
Defined.
Lemma StronglySorted_lookup {A : Type} (R : A -> A -> Prop) (l : list A)
    (i j : nat) (a b : A) :
  StronglySorted R l -> i < j -> l !! i = Some a -> l !! j = Some b -> R a b.
Proof.
  intros Hs. revert i j. induction Hs as [|x l Hs IH Hall]; intros i j Hij Hi Hj.
  - discriminate Hi.
  - destruct j as [|j]; [lia|]. simpl in Hj. destruct i as [|i].
    + simpl in Hi. injection Hi as <-. rewrite Forall_forall in Hall.
      apply Hall. apply list_elem_of_lookup. eauto.
    + simpl in Hi. apply (IH i j); [lia|exact Hi|exact Hj].
Qed.

(** X2: for a corpus of which no token is the null word or a member name
    of [Object.prototype] ([constructor], [toString], ...), the words of
    the vocabulary other than the null word are the tokens counted
    [min_count] times or more, each with the number of its occurrences as
    count; [vocab_size] is one more than the number of these words. *)
Theorem X2_words_kept {F : Type} `{JsArith F} `{JsMath F}
    (mc : Z) (corpus : string) :
  ~ In null_word (tokens corpus) ->
  JsProto.plain (tokens corpus) ->
  let v := build_vocab (F := F) mc corpus in
  let ts := tokens corpus in
  (forall w, w <> null_word ->
     (Js.has w (vocab v) = true
      <-> In w ts /\ (mc <= Z.of_nat (count_occ string_dec ts w))%Z))
  /\ (forall w, w <> null_word -> Js.has w (vocab v) = true ->
        count_of (vocab v) w = count_occ string_dec ts w)
  /\ vocab_size v
     = 1 + length (nodup string_dec
                     (List.filter
                        (fun t => (mc <=? Z.of_nat (count_occ string_dec ts t))%Z)
                        ts)).
Proof.
  intros Hnull _ v ts.
  destruct (build_vocab_fields (F := F) mc corpus) as (Hv & Hi & Hs & _).
  fold v in Hv, Hi, Hs. rewrite Hv, Hs.
  destruct (vocabulary_spec mc corpus Hnull)
    as (rest & Hi2w & Hnd & Hperm & _ & _ & Hin & Hcount & _).
  fold ts in Hin, Hcount.
  assert (Hhas : forall w, w <> null_word ->
            (Js.has w (fst (vocabulary mc corpus)) = true <-> In w rest)).
  { intros w Hw. rewrite has_In. split; intros G.
    - apply (Permutation_in _ Hperm) in G. destruct G as [G|G]; [congruence|exact G].
    - apply (Permutation_in _ (Permutation_sym Hperm)). right. exact G. }
  split; [|split].
  - intros w Hw. rewrite (Hhas w Hw). apply Hin.
  - intros w Hw G. apply Hcount. apply (Hhas w Hw). exact G.
  - rewrite Hi2w. simpl. f_equal. apply Permutation_length.
    apply NoDup_Permutation.
    + apply NoDup_cons in Hnd. tauto.
    + apply NoDup_ListNoDup, List.NoDup_nodup.
    + intros w. rewrite !list_elem_of_In, nodup_In, filter_In, Hin.
      rewrite Z.leb_le. reflexivity.
Qed.

Lemma X2_witness :
  ~ In null_word (tokens "b a b")
  /\ JsProto.plain (tokens "b a b")
  /\ vocab_size (build_vocab (F := Qc) 2 "b a b")
     = 1 + length (nodup string_dec
                     (List.filter
                        (fun t => (2 <=? Z.of_nat
                                     (count_occ string_dec (tokens "b a b") t))%Z)
                        (tokens "b a b"))).
Proof.
  assert (Hnull : ~ In null_word (tokens "b a b")).
  { vm_compute. intros [G|[G|[G|[]]]]; discriminate G. }
  assert (Hplain : JsProto.plain (tokens "b a b")) by (repeat constructor).
  split; [exact Hnull|]. split; [exact Hplain|].
  exact (proj2 (proj2 (X2_words_kept (F := Qc) 2 "b a b" Hnull Hplain))).
Defined.

(** X3: for a corpus in which the null word is no token, the words after
    the null word stand in [index2word] in the order of counts that do not
    increase. *)
Theorem X3_sorted_by_count {F : Type} `{JsArith F} `{JsMath F}
    (mc : Z) (corpus : string) (i j : nat) (wi wj : string) :
  ~ In null_word (tokens corpus) ->
  let v := build_vocab (F := F) mc corpus in
  1 <= i -> i <= j ->
  index2word v !! i = Some wi ->
  index2word v !! j = Some wj ->
  count_of (vocab v) wj <= count_of (vocab v) wi.
Proof.
  intros Hnull v Hi Hij Hwi Hwj.
  destruct (build_vocab_fields (F := F) mc corpus) as (Hv & Hi2 & _).
  fold v in Hv, Hi2. rewrite Hv. rewrite Hi2 in Hwi, Hwj.
  destruct (vocabulary_spec mc corpus Hnull)
    as (rest & Hi2w & _ & _ & _ & _ & _ & _ & Hsorted).
  rewrite Hi2w in Hwi, Hwj.
  destruct i as [|i]; [lia|]. destruct j as [|j]; [lia|]. simpl in Hwi, Hwj.
  destruct (Nat.eq_dec i j) as [->|Hne].
  - rewrite Hwi in Hwj. injection Hwj as <-. lia.
  - apply (StronglySorted_lookup _ rest i j wi wj Hsorted); [lia|exact Hwi|exact Hwj].
Qed.

Lemma X3_witness :
  ~ In null_word (tokens "b a b")
  /\ count_of (vocab (build_vocab (F := Qc) 1 "b a b")) "a"
     <= count_of (vocab (build_vocab (F := Qc) 1 "b a b")) "b".
Proof.
  assert (Hnull : ~ In null_word (tokens "b a b")).
  { vm_compute. intros [G|[G|[G|[]]]]; discriminate G. }
  split; [exact Hnull|].
  apply (X3_sorted_by_count (F := Qc) 1 "b a b" 1 2 "b" "a" Hnull);
    [lia|lia|reflexivity|reflexivity].
Defined.
(** ** [corpus_size] and [num_sentences] *)

Lemma fold_left_sum {A : Type} (f : A -> nat) (l : list A) (a : nat) :
  List.fold_left (fun t w => t + f w) l a = a + list_sum (List.map f l).
Proof.
  revert a. induction l as [|x l IH]; intros a; simpl; [lia|].
  rewrite IH. lia.
Qed.

Lemma list_sum_Permutation (l l' : list nat) :
  Permutation l l' -> list_sum l = list_sum l'.
Proof. induction 1; simpl; lia. Qed.

Lemma sum_step (t : string) (f : string -> nat) (l : list string) :
  NoDup l ->
  list_sum (List.map (fun w => if string_dec t w then S (f w) else f w) l)
  = (if in_dec string_dec t l then 1 else 0) + list_sum (List.map f l).
Proof.
  intros Hnd. induction Hnd as [|w l Hw Hnd IH]; simpl; [reflexivity|].
  rewrite IH. rewrite list_elem_of_In in Hw.
  destruct (string_dec t w) as [->|Hne].
  - destruct (string_dec w w) as [G0|G]; [|congruence].
    destruct (in_dec string_dec w l) as [G|G1]; [contradiction|]. lia.
  - destruct (string_dec w t) as [G|G0]; [congruence|].
    destruct (in_dec string_dec t l); lia.
Qed.

Lemma sum_counts (l ts : list string) :
  NoDup l ->
  list_sum (List.map (count_occ string_dec ts) l)
  = length (List.filter (fun t => if in_dec string_dec t l then true else false) ts).
Proof.
  intros Hnd. induction ts as [|t ts IH].
  - simpl. induction l as [|w l IHl]; simpl; [reflexivity|].
    apply IHl. apply NoDup_cons in Hnd. tauto.
  - cbn [count_occ List.filter].
    change (List.map (count_occ string_dec (t :: ts)) l)
      with (List.map (fun w => if string_dec t w
                               then S (count_occ string_dec ts w)
                               else count_occ string_dec ts w) l).
    rewrite (sum_step t _ l Hnd), IH.
    destruct (in_dec string_dec t l); simpl; lia.
Qed.

(** X4: for a corpus of which no token is the null word or a member name
    of [Object.prototype], [corpus_size] is one more than the number of the
    occurrences of the words kept: the count 1 of the null word is part of
    the total. *)
Theorem X4_corpus_size {F : Type} `{JsArith F} `{JsMath F}
    (mc : Z) (corpus : string) :
  ~ In null_word (tokens corpus) ->
  JsProto.plain (tokens corpus) ->
  let ts := tokens corpus in
  corpus_size (build_vocab (F := F) mc corpus)
  = 1 + length (List.filter
                  (fun t => (mc <=? Z.of_nat (count_occ string_dec ts t))%Z) ts).
Proof.
  intros Hnull _ ts.
  destruct (build_vocab_fields (F := F) mc corpus) as (_ & _ & _ & Hc & _).
  rewrite Hc. clear Hc.
  destruct (vocabulary_spec mc corpus Hnull)
    as (rest & Hi2w & Hnd & Hperm & _ & Hget0 & Hin & Hcount & _).
  fold ts in Hin, Hcount.
  unfold total_words. rewrite fold_left_sum. simpl.
  rewrite (list_sum_Permutation _
             (List.map (count_of (fst (vocabulary mc corpus))) (null_word :: rest))).
  2:{ apply Permutation_map. rewrite keys_Permutation. exact Hperm. }
  simpl. unfold count_of at 1. rewrite Hget0. simpl. f_equal.
  rewrite (List.map_ext_in _ (count_occ string_dec ts)) by exact Hcount.
  apply NoDup_cons in Hnd. destruct Hnd as [_ Hnd].
  rewrite (sum_counts rest ts Hnd). f_equal.
  apply List.filter_ext_in. intros t Ht.
  destruct (in_dec string_dec t rest) as [G|G].
  - apply Hin in G. symmetry. apply Z.leb_le. tauto.
  - symmetry. apply Z.leb_gt. apply Z.lt_nge. intros G'. apply G, Hin. tauto.
Qed.

Lemma X4_witness :
  ~ In null_word (tokens "b a b")
  /\ JsProto.plain (tokens "b a b")
  /\ corpus_size (build_vocab (F := Qc) 2 "b a b") = 3.
Proof.
  assert (Hnull : ~ In null_word (tokens "b a b")).
  { vm_compute. intros [G|[G|[G|[]]]]; discriminate G. }
  assert (Hplain : JsProto.plain (tokens "b a b")) by (repeat constructor).
  split; [exact Hnull|]. split; [exact Hplain|].
  exact (X4_corpus_size (F := Qc) 2 "b a b" Hnull Hplain).
Defined.

Lemma split_cons (sep : ascii) (s : string) :
  exists w ws, Js.split sep s = w :: ws.
Proof.
  induction s as [|c s IH]; simpl; [eauto|].
  destruct (Ascii.eqb c sep); [eauto|].
  destruct IH as (w & ws & ->). eauto.
Qed.

Lemma split_length (sep : ascii) (s : string) :
  length (Js.split sep s)
  = 1 + count_occ ascii_dec (list_ascii_of_string s) sep.
Proof.
  induction s as [|c s IH]; simpl; [reflexivity|].
  destruct (Ascii.eqb_spec c sep) as [->|Hne].
  - destruct (ascii_dec sep sep) as [_|G]; [|congruence]. simpl. rewrite IH. lia.
  - destruct (ascii_dec c sep) as [G|_]; [congruence|].
    destruct (split_cons sep s) as (w & ws & E). rewrite E in IH |- *.
    simpl in *. exact IH.
Qed.

Lemma join_split (sep : ascii) (s : string) :
  JsString.join (String sep EmptyString) (Js.split sep s) = s.
Proof.
  induction s as [|c s IH]; simpl; [reflexivity|].
  destruct (Ascii.eqb_spec c sep) as [->|Hne].
  - destruct (split_cons sep s) as (w & ws & E). rewrite E in IH |- *.
    transitivity (String sep (JsString.join (String sep EmptyString) (w :: ws)));
      [reflexivity|rewrite IH; reflexivity].
  - destruct (split_cons sep s) as (w & ws & E). rewrite E in IH |- *.
    rewrite <- IH. destruct ws as [|w' ws]; reflexivity.
Qed.

(** A piece of [s.split(sep)] does not hold the separator. *)
Lemma split_no_sep (sep : ascii) (s w : string) :
  In w (Js.split sep s) -> ~ In sep (list_ascii_of_string w).
Proof.
  revert w. induction s as [|c s IH]; intros w; simpl.
  - intros [<-|[]]. simpl. tauto.
  - destruct (Ascii.eqb_spec c sep) as [->|Hne].
    + intros [<-|G]; [simpl; tauto|apply IH; exact G].
    + destruct (split_cons sep s) as (w0 & ws & E). rewrite E in IH |- *.
      intros [<-|G].
      * simpl. intros [G|G]; [congruence|]. revert G. apply IH. left. reflexivity.
      * apply IH. right. exact G.
Qed.

(** X5: [num_sentences] is one more than the number of line feeds of the
    corpus (1 for the empty corpus); no sentence holds a line feed, and
    the sentences joined by line feeds are the corpus. *)
Theorem X5_sentences {F : Type} `{JsArith F} `{JsMath F}
    (mc : Z) (corpus : string) :
  let v := build_vocab (F := F) mc corpus in
  num_sentences v
  = 1 + count_occ ascii_dec (list_ascii_of_string corpus) "010"%char
  /\ length (sentences v) = num_sentences v
  /\ (forall s, In s (sentences v) -> ~ In "010"%char (list_ascii_of_string s))
  /\ JsString.join JsString.newline (sentences v) = corpus.
Proof.
  intros v.
  destruct (build_vocab_fields (F := F) mc corpus) as (_ & _ & _ & _ & Hs & Hn).
  fold v in Hs, Hn. rewrite Hs, Hn.
  split; [apply split_length|]. split; [reflexivity|].
  split; [intros s; apply split_no_sep|apply join_split].
Qed.
(** * More of [bSearch] *)

Section ExactInsertion.
Context {F : Type} `{Exact F}.

Lemma sorted_vget (xs : list F) (i j : nat) :
  StronglySorted (fun a b => (den a <= den b)%R) xs ->
  i <= j -> j < length xs -> (den (vget xs i) <= den (vget xs j))%R.
Proof.
  intros Hs Hij Hj. destruct (Nat.eq_dec i j) as [->|Hne]; [lra|].
  destruct (lookup_lt_is_Some_2 xs i) as [a Ha]; [lia|].
  destruct (lookup_lt_is_Some_2 xs j) as [b Hb]; [lia|].
  unfold vget. rewrite !nth_lookup, Ha, Hb. simpl.
  apply (StronglySorted_lookup _ xs i j a b Hs); [lia|exact Ha|exact Hb].
Qed.

Lemma bSearch_loop_insertion (xs : list F) (x : F) :
  StronglySorted (fun a b => (den a <= den b)%R) xs ->
  forall fuel bot top,
    top - bot <= fuel -> bot <= top <= length xs ->
    (forall j, j < bot -> (den (vget xs j) < den x)%R) ->
    (forall j, top <= j < length xs -> (den x < den (vget xs j))%R) ->
    exists i,
      bSearch_loop fuel xs x bot top = Ok i
      /\ i <= length xs
      /\ ((i < length xs /\ den (vget xs i) = den x)
          \/ ((forall j, j < i -> (den (vget xs j) < den x)%R)
              /\ (forall j, i <= j < length xs -> (den x < den (vget xs j))%R))).
Proof.
  intros Hs. induction fuel as [|fuel IH]; intros bot top Hfuel Hbt Hlo Hhi.
  - simpl. destruct (Nat.ltb_spec bot top) as [L|L]; [lia|].
    exists bot. split; [reflexivity|]. split; [lia|]. right.
    split; [exact Hlo|]. intros j Hj. apply Hhi. lia.
  - rewrite bSearch_loop_unfold.
    destruct (Nat.ltb_spec bot top) as [L|L].
    2:{ exists bot. split; [reflexivity|]. split; [lia|]. right.
        split; [exact Hlo|]. intros j Hj. apply Hhi. lia. }
    set (mid := (bot + top) / 2).
    assert (Hmid : bot <= mid < top).
    { unfold mid. split.
      - apply Nat.div_le_lower_bound; lia.
      - apply Nat.Div0.div_lt_upper_bound; lia. }
    cbv zeta. set (c := (vget xs mid - x)%js).
    assert (Hc : den c = (den (vget xs mid) - den x)%R) by apply den_sub.
    destruct (feq c (fint 0)) eqn:E0.
    + apply feq_eq in E0. rewrite den_zero in E0.
      exists mid. split; [reflexivity|]. split; [lia|]. left. split; [lia|lra].
    + apply feq_false in E0. rewrite den_zero in E0.
      destruct (flt c (fint 0)) eqn:E1.
      * apply flt_lt in E1. rewrite den_zero in E1.
        assert (E2 : flt (fint 0) c = false)
          by (apply flt_false; rewrite den_zero; lra).
        rewrite E2. apply IH; [lia|lia| |exact Hhi].
        intros j Hj.
        assert (den (vget xs j) <= den (vget xs mid))%R
          by (apply (sorted_vget xs j mid Hs); lia). lra.
      * apply flt_false in E1. rewrite den_zero in E1.
        assert (E2 : flt (fint 0) c = true)
          by (apply flt_lt; rewrite den_zero; lra).
        rewrite E2. apply IH; [lia|lia|exact Hlo|].
        intros j Hj.
        assert (den (vget xs mid) <= den (vget xs j))%R
          by (apply (sorted_vget xs mid j Hs); lia). lra.
Qed.

Lemma bSearch_insertion (xs : list F) (x : F) :
  StronglySorted (fun a b => (den a <= den b)%R) xs ->
  exists i,
    bSearch xs x = Ok i
    /\ i <= length xs
    /\ ((i < length xs /\ den (vget xs i) = den x)
        \/ ((forall j, j < i -> (den (vget xs j) < den x)%R)
            /\ (forall j, i <= j < length xs -> (den x < den (vget xs j))%R))).
Proof.
  intros Hs. unfold bSearch.
  destruct (Nat.eqb_spec (length xs) 0) as [E|E].
  { exists 0. split; [reflexivity|]. split; [lia|]. right. split; intros j Hj; lia. }
  destruct (flt (vget xs (length xs - 1)) x) eqn:E1.
  { apply flt_lt in E1. exists (length xs). split; [reflexivity|].
    split; [lia|]. right. split; [|intros j Hj; lia].
    intros j Hj.
    assert (den (vget xs j) <= den (vget xs (length xs - 1)))%R
      by (apply (sorted_vget xs j _ Hs); lia). lra. }
  destruct (flt x (vget xs 0)) eqn:E2.
  { apply flt_lt in E2. exists 0. split; [reflexivity|]. split; [lia|]. right.
    split; [intros j Hj; lia|]. intros j Hj.
    assert (den (vget xs 0) <= den (vget xs j))%R
      by (apply (sorted_vget xs 0 j Hs); lia). lra. }
  apply bSearch_loop_insertion; [exact Hs|lia|lia| |]; intros j Hj; lia.
Qed.
End ExactInsertion.

(** X6: in exact arithmetic, on an array sorted in the order that does not
    decrease, [bSearch] returns an insertion point of [x]: an index of
    [[0, xs.length]] with no entry above [x] before it and no entry below
    [x] from it on; when [x] is an entry of the array, the entry at the
    index returned is [x] (one of them, not always the first one). *)
Theorem X6_bSearch_insertion_point {F : Type} `{Exact F} (xs : list F) (x : F) :
  StronglySorted (fun a b => (den a <= den b)%R) xs ->
  exists i,
    bSearch xs x = Ok i
    /\ i <= length xs
    /\ (forall j, j < i -> (den (vget xs j) <= den x)%R)
    /\ (forall j, i <= j < length xs -> (den x <= den (vget xs j))%R)
    /\ ((exists j, j < length xs /\ vget xs j = x) ->
        i < length xs /\ vget xs i = x).
Proof.
  intros Hs. destruct (bSearch_insertion xs x Hs) as (i & Hi & Hle & Hcase).
  exists i. split; [exact Hi|]. split; [exact Hle|].
  destruct Hcase as [[Hlt Heq]|[Hlo Hhi]].
  - split; [|split].
    + intros j Hj. rewrite <- Heq. apply (sorted_vget xs j i Hs); lia.
    + intros j Hj. rewrite <- Heq. apply (sorted_vget xs i j Hs); lia.
    + intros _. split; [exact Hlt|]. apply den_inj. exact Heq.
  - split; [|split].
    + intros j Hj. apply Rlt_le, Hlo. exact Hj.
    + intros j Hj. apply Rlt_le, Hhi. exact Hj.
    + intros (j & Hj & <-). exfalso.
      destruct (Nat.lt_ge_cases j i) as [L|L].
      * specialize (Hlo j L). lra.
      * specialize (Hhi j (conj L Hj)). lra.
Qed.

Lemma X6_witness :
  exists i,
    bSearch [Qc_of_Z 1; Qc_of_Z 3; Qc_of_Z 3; Qc_of_Z 5] (Qc_of_Z 3) = Ok i
    /\ i <= 4.
Proof.
  destruct (X6_bSearch_insertion_point
              [Qc_of_Z 1; Qc_of_Z 3; Qc_of_Z 3; Qc_of_Z 5] (Qc_of_Z 3))
    as (i & Hi & Hle & _).
  - repeat constructor; simpl; rewrite !Qc_den_int; lra.
  - exists i. split; [exact Hi|exact Hle].
Defined.

(** The search for [NaN], in IEEE-754 arithmetic: no comparison holds. *)
Lemma float_sub_nan (a : float) : (a - nan)%float = nan.
Proof.
  rewrite <- (SF2Prim_Prim2SF (a - nan)), sub_spec.
  change (Prim2SF nan) with S754_nan.
  destruct (Prim2SF a) as [s|s| |s m e]; reflexivity.
Qed.

Lemma float_ltb_nan_r (a : float) : (a <? nan)%float = false.
Proof.
  rewrite ltb_spec. change (Prim2SF nan) with S754_nan.
  destruct (Prim2SF a) as [s|s| |s m e]; try destruct s; reflexivity.
Qed.

Lemma float_ltb_nan_l (a : float) : (nan <? a)%float = false.
Proof.
  rewrite ltb_spec. change (Prim2SF nan) with S754_nan. reflexivity.
Qed.

Lemma bSearch_loop_nan (xs : list float) (fuel bot top : nat) :
  bot < top -> bSearch_loop fuel xs nan bot top = Hangs.
Proof.
  intros L. induction fuel as [|fuel IH].
  - simpl. destruct (Nat.ltb_spec bot top); [reflexivity|lia].
  - rewrite bSearch_loop_unfold.
    destruct (Nat.ltb_spec bot top) as [_|G]; [|lia].
    cbv zeta. change fsub with PrimFloat.sub. rewrite float_sub_nan.
    exact IH.
Qed.

(** X7: in IEEE-754 arithmetic [bSearch] does not return when [x] is
    [NaN] and the array is not empty: no test of the loop holds, and its
    bounds stay as they are. *)
Theorem X7_bSearch_nan_never_returns (xs : list float) :
  xs <> [] -> bSearch xs nan = Hangs.
Proof.
  intros Hne. unfold bSearch.
  destruct (Nat.eqb_spec (length xs) 0) as [E|E].
  { destruct xs; [congruence|discriminate E]. }
  change flt with PrimFloat.ltb.
  rewrite float_ltb_nan_r, float_ltb_nan_l.
  apply bSearch_loop_nan. lia.
Qed.

Lemma X7_witness : bSearch [1%float; 2%float] nan = Hangs.
Proof. apply X7_bSearch_nan_never_returns. discriminate. Defined.
(** * [uniq_fast] *)

Lemma uniq_fast_from_spec (seen a : list nat) :
  NoDup (uniq_fast_from seen a)
  /\ (forall x, x ∈ uniq_fast_from seen a <-> x ∈ a /\ x ∉ seen)
  /\ sublist (uniq_fast_from seen a) a.
Proof.
  revert seen. induction a as [|y a IH]; intros seen; simpl.
  - split; [constructor|]. split; [|constructor].
    intros x. rewrite elem_of_nil. tauto.
  - destruct (bool_decide_reflect (y ∈ seen)) as [Hy|Hy].
    + destruct (IH seen) as (Hnd & Hin & Hsub). split; [exact Hnd|].
      split; [|apply sublist_cons; exact Hsub].
      intros x. rewrite Hin, elem_of_cons.
      destruct (decide (x = y)) as [->|Hne]; tauto.
    + destruct (IH (y :: seen)) as (Hnd & Hin & Hsub). split; [|split].
      * constructor; [|exact Hnd]. rewrite Hin, elem_of_cons. tauto.
      * intros x. rewrite !elem_of_cons, Hin, elem_of_cons.
        destruct (decide (x = y)) as [->|Hne]; tauto.
      * apply sublist_skip. exact Hsub.
Qed.

Lemma uniq_fast_from_ext (s1 s2 c : list nat) :
  (forall u, u ∈ s1 <-> u ∈ s2) ->
  uniq_fast_from s1 c = uniq_fast_from s2 c.
Proof.
  revert s1 s2. induction c as [|u c IHc]; intros s1 s2 Hs; simpl; [reflexivity|].
  rewrite (bool_decide_ext _ _ (Hs u)).
  destruct (bool_decide (u ∈ s2)); [apply IHc; exact Hs|].
  f_equal. apply IHc. intros v. rewrite !elem_of_cons, Hs. tauto.
Qed.

Lemma uniq_fast_from_filter (seen a : list nat) (x : nat) :
  uniq_fast_from (x :: seen) a
  = List.filter (fun y => negb (y =? x)) (uniq_fast_from seen a).
Proof.
  revert seen. induction a as [|y a IH]; intros seen; simpl; [reflexivity|].
  destruct (bool_decide_reflect (y ∈ seen)) as [Hy|Hy].
  - rewrite bool_decide_eq_true_2 by (apply elem_of_cons; tauto). apply IH.
  - destruct (Nat.eqb_spec y x) as [->|Hne].
    + rewrite bool_decide_eq_true_2 by (apply elem_of_cons; tauto).
      simpl. rewrite Nat.eqb_refl. simpl. rewrite <- IH.
      apply uniq_fast_from_ext. intros u. rewrite !elem_of_cons. tauto.
    + rewrite bool_decide_eq_false_2 by (rewrite elem_of_cons; tauto).
      simpl. destruct (Nat.eqb_spec y x) as [G|G]; [contradiction|]. simpl.
      f_equal. rewrite <- IH.
      apply uniq_fast_from_ext. intros u. rewrite !elem_of_cons. tauto.
Qed.

Lemma uniq_fast_from_NoDup (seen a : list nat) :
  NoDup a -> (forall x, x ∈ a -> x ∉ seen) -> uniq_fast_from seen a = a.
Proof.
  intros Hnd. revert seen. induction Hnd as [|y a Hy Hnd IH]; intros seen Hs;
    simpl; [reflexivity|].
  rewrite bool_decide_eq_false_2 by (apply Hs; left).
  f_equal. apply IH. intros x Hx. rewrite elem_of_cons. intros [->|G].
  - contradiction.
  - revert G. apply Hs. right. exact Hx.
Qed.

(** X8: [uniq_fast] keeps the first occurrence of each entry, in order:
    the result has no entry twice, holds the entries of the array and no
    other, and is taken from the array without reordering; the first
    entry is kept and its later copies are dropped; an array without a
    repeated entry is returned as it is. *)
Theorem X8_uniq_fast (a : list nat) :
  NoDup (uniq_fast a)
  /\ (forall x, x ∈ uniq_fast a <-> x ∈ a)
  /\ sublist (uniq_fast a) a
  /\ (forall x a', a = x :: a' ->
        uniq_fast a = x :: List.filter (fun y => negb (y =? x)) (uniq_fast a'))
  /\ (NoDup a -> uniq_fast a = a).
Proof.
  unfold uniq_fast. destruct (uniq_fast_from_spec [] a) as (Hnd & Hin & Hsub).
  split; [exact Hnd|]. split; [|split; [exact Hsub|split]].
  - intros x. rewrite Hin, elem_of_nil. tauto.
  - intros x a' ->. simpl. f_equal. apply uniq_fast_from_filter.
  - intros Ha. apply uniq_fast_from_NoDup; [exact Ha|].
    intros x _. apply not_elem_of_nil.
Qed.
(** * [validate_query_in] and [validate_query_out] *)

Lemma string_app_assoc (a b c : string) :
  ((a ++ b) ++ c)%string = (a ++ b ++ c)%string.
Proof.
  induction a as [|x a IH]; [reflexivity|].
  change (String x ((a ++ b) ++ c)%string = String x (a ++ b ++ c)%string).
  rewrite IH. reflexivity.
Qed.

Lemma string_app_empty (a b : string) :
  (a ++ b)%string = EmptyString -> a = EmptyString /\ b = EmptyString.
Proof. destruct a; simpl; [tauto|discriminate]. Qed.

Lemma string_length_pos (a : string) :
  (0 <? String.length a) = true <-> a <> EmptyString.
Proof.
  destruct a; simpl; split; try discriminate; try congruence; reflexivity.
Qed.

Lemma not_in_vocabulary_ne (q : string) : not_in_vocabulary q <> EmptyString.
Proof. discriminate. Qed.

Lemma join_cons_app (sep a b : string) (rest : list string) :
  JsString.join sep ((a ++ sep ++ b)%string :: rest)
  = (a ++ sep ++ JsString.join sep (b :: rest))%string.
Proof.
  destruct rest as [|c rest]; [reflexivity|].
  change (((a ++ sep ++ b) ++ sep ++ JsString.join sep (c :: rest))%string
          = (a ++ sep ++ b ++ sep ++ JsString.join sep (c :: rest))%string).
  rewrite !string_app_assoc. reflexivity.
Qed.

Lemma validate_terms_started (vocab : Js.obj VocabItem) (qs : list string)
    (v : Validation) :
  message v <> EmptyString -> is_valid v = false ->
  let v' := List.fold_left (validate_term vocab) qs v in
  is_valid v' = false
  /\ message v'
     = JsString.join ("<br>" ++ JsString.newline)
         (message v :: List.map not_in_vocabulary (missing_words vocab qs)).
Proof.
  revert v. induction qs as [|q qs IH]; intros v Hm Hv; simpl.
  - split; [exact Hv|reflexivity].
  - unfold validate_term at 2 4. fold (query_word q).
    unfold missing_words. simpl. fold (missing_words vocab qs).
    destruct (JsProto.has_in (query_word q) vocab); simpl.
    + apply IH; assumption.
    + assert (E : (0 <? String.length (message v)) = true)
        by (apply string_length_pos; exact Hm).
      rewrite E.
      match goal with |- context [List.fold_left _ qs ?v0] =>
        destruct (IH v0) as [Hv' Hm'] end.
      * simpl. intros G. apply string_app_empty in G. destruct G as [G _].
        apply string_app_empty in G. tauto.
      * reflexivity.
      * split; [exact Hv'|]. rewrite Hm'. simpl message.
        rewrite string_app_assoc. apply join_cons_app.
Qed.

Lemma validate_terms_spec (vocab : Js.obj VocabItem) (qs : list string) :
  let v := List.fold_left (validate_term vocab) qs
             {| is_valid := true; message := EmptyString |} in
  is_valid v = match missing_words vocab qs with [] => true | _ => false end
  /\ message v
     = JsString.join ("<br>" ++ JsString.newline)
         (List.map not_in_vocabulary (missing_words vocab qs)).
Proof.
  induction qs as [|q qs IH]; simpl; [split; reflexivity|].
  unfold validate_term at 2 4. fold (query_word q).
  unfold missing_words. simpl. fold (missing_words vocab qs).
  destruct (JsProto.has_in (query_word q) vocab); simpl; [exact IH|].
  match goal with |- context [List.fold_left _ qs ?v0] =>
    destruct (validate_terms_started vocab qs v0) as [Hv Hm] end.
  - discriminate.
  - reflexivity.
  - split; [exact Hv|exact Hm].
Qed.

Lemma missing_words_nil (vocab : Js.obj VocabItem) (query_in : list string) :
  missing_words vocab query_in = []
  <-> forall q, In q query_in -> JsProto.has_in (query_word q) vocab = true.
Proof.
  unfold missing_words. induction query_in as [|q qs IH]; simpl.
  - split; [intros _ q []|reflexivity].
  - destruct (JsProto.has_in (query_word q) vocab) eqn:E; simpl.
    + rewrite IH. split.
      * intros G q' [<-|Hq']; [exact E|apply G; exact Hq'].
      * intros G q' Hq'. apply G. right. exact Hq'.
    + split; [discriminate|]. intros G. specialize (G q (or_introl eq_refl)).
      congruence.
Qed.

(** For a key that is not inherited, [in] is the test of the own
    properties. *)
Lemma has_in_plain {V : Type} (k : string) (o : Js.obj V) :
  JsProto.inherited k = false -> JsProto.has_in k o = Js.has k o.
Proof. intros Hk. unfold JsProto.has_in. rewrite Hk. apply orb_false_r. Qed.

(** X9: once the vocabulary is built, [validate_query_in] returns; the
    query is valid exactly when the word of every term, its sign removed,
    is [in] [vocab], that is, a key of [vocab] or a member name of
    [Object.prototype] ([constructor], [toString], ...), and exactly when
    the message is empty; for a query without such names the valid queries
    are those whose words are keys of [vocab]; the message is made of one
    line for each word that is not [in] [vocab], in the order of the query,
    the lines joined by [<br>] and a line feed. *)
Theorem X9_validate_query_in (vocab : Js.obj VocabItem) (query_in : list string) :
  exists v,
    validate_query_in (Some vocab) query_in = Ok v
    /\ (is_valid v = true
        <-> forall q, In q query_in ->
              Js.has (query_word q) vocab = true
              \/ JsProto.inherited (query_word q) = true)
    /\ (JsProto.plain (List.map query_word query_in) ->
        (is_valid v = true
         <-> forall q, In q query_in -> Js.has (query_word q) vocab = true))
    /\ (is_valid v = true <-> message v = EmptyString)
    /\ message v
       = JsString.join ("<br>" ++ JsString.newline)
           (List.map not_in_vocabulary
              (List.filter (fun w => negb (JsProto.has_in w vocab))
                 (List.map query_word query_in))).
Proof.
  eexists. split; [reflexivity|].
  destruct (validate_terms_spec vocab query_in) as [Hv Hm].
  fold (missing_words vocab query_in). rewrite Hv, Hm.
  pose proof (missing_words_nil vocab query_in) as Hmiss.
  assert (Hvalid : match missing_words vocab query_in with
                   | [] => true
                   | _ => false
                   end = true
                   <-> forall q, In q query_in ->
                         JsProto.has_in (query_word q) vocab = true).
  { rewrite <- Hmiss. destruct (missing_words vocab query_in);
      split; congruence. }
  split; [|split; [|split; [|reflexivity]]].
  - rewrite Hvalid. unfold JsProto.has_in. split; intros G q Hq.
    + apply orb_true_iff. apply G. exact Hq.
    + apply orb_true_iff. apply G. exact Hq.
  - intros Hplain. rewrite Hvalid. unfold JsProto.plain in Hplain.
    rewrite Forall_forall in Hplain.
    split; intros G q Hq.
    + rewrite <- has_in_plain; [apply G; exact Hq|].
      apply Hplain. apply list_elem_of_In, in_map. exact Hq.
    + rewrite has_in_plain; [apply G; exact Hq|].
      apply Hplain. apply list_elem_of_In, in_map. exact Hq.
  - destruct (missing_words vocab query_in) as [|w ws]; [tauto|].
    split; [discriminate|]. intros G. exfalso. simpl in G.
    destruct (List.map not_in_vocabulary ws); discriminate G.
Qed.

(** * [update_config] *)

Lemma has_set {V : Type} (k k0 : string) (v : V) (o : Js.obj V) :
  Js.has k o = true -> Js.has k (Js.set k0 v o) = Js.has k o.
Proof.
  intros Hk. unfold Js.has at 1. destruct (String.eqb_spec k0 k) as [->|Hne].
  - rewrite get_set_eq. symmetry. exact Hk.
  - rewrite (get_set_ne k k0 v o Hne). reflexivity.
Qed.

Lemma update_config_fold {V : Type} (config : Js.obj V) (ks : list string)
    (model_config : Js.obj V) :
  let step := fun (mc : Js.obj V) key =>
    if Js.has key mc then
      match Js.get key config with
      | Some v => Js.set key v mc
      | None => mc
      end
    else mc in
  List.map fst (List.fold_left step ks model_config) = List.map fst model_config
  /\ forall k,
       Js.get k (List.fold_left step ks model_config)
       = match Js.get k config with
         | Some v =>
             if Js.has k model_config && bool_decide (k ∈ ks)
             then Some v else Js.get k model_config
         | None => Js.get k model_config
         end.
Proof.
  intros step. revert model_config.
  induction ks as [|key ks IH]; intros mc; simpl.
  - split; [reflexivity|]. intros k. destruct (Js.get k config); [|reflexivity].
    rewrite andb_false_r. reflexivity.
  - destruct (IH (step mc key)) as [Hkeys Hget].
    assert (Hk1 : List.map fst (step mc key) = List.map fst mc).
    { unfold step. destruct (Js.has key mc) eqn:E; [|reflexivity].
      destruct (Js.get key config); [|reflexivity].
      rewrite keys_set, E. reflexivity. }
    assert (Hhas : forall k, Js.has k (step mc key) = Js.has k mc).
    { intros k. destruct (Js.has k mc) eqn:E.
      - apply has_In. rewrite Hk1. apply has_In. exact E.
      - destruct (Js.has k (step mc key)) eqn:E'; [|reflexivity].
        apply has_In in E'. rewrite Hk1 in E'. apply has_In in E'. congruence. }
    split; [rewrite Hkeys; exact Hk1|].
    intros k. rewrite Hget, Hhas.
    destruct (Js.get k config) as [v|] eqn:Ev.
    + destruct (Js.has k mc) eqn:Ek; simpl.
      * destruct (bool_decide_reflect (k ∈ ks)) as [G|G].
        -- rewrite bool_decide_eq_true_2 by (right; exact G). reflexivity.
        -- destruct (String.eqb_spec key k) as [->|Hne].
           ++ rewrite bool_decide_eq_true_2 by left.
              unfold step. rewrite Ek, Ev. apply get_set_eq.
           ++ rewrite bool_decide_eq_false_2
                by (rewrite elem_of_cons; intros [?|?]; [congruence|contradiction]).
              unfold step. destruct (Js.has key mc); [|reflexivity].
              destruct (Js.get key config); [|reflexivity].
              apply get_set_ne. exact Hne.
      * unfold step. destruct (Js.has key mc) eqn:Ekey; [|reflexivity].
        destruct (Js.get key config); [|reflexivity].
        apply get_set_ne. intros ->. congruence.
    + unfold step. destruct (Js.has key mc) eqn:Ekey; [|reflexivity].
      destruct (Js.get key config) eqn:Ekc; [|reflexivity].
      apply get_set_ne. intros ->. congruence.
Qed.

(** X11: [update_config] neither adds nor removes a key of the
    configuration and keeps their order; a key of the configuration that
    the custom object has takes the custom value, whatever it is; every
    other key keeps its value, and a custom key that the configuration
    does not have is ignored. *)
Theorem X11_update_config {V : Type} (model_config config : Js.obj V) :
  List.map fst (update_config model_config config) = List.map fst model_config
  /\ (forall k v, Js.has k model_config = true -> Js.get k config = Some v ->
        Js.get k (update_config model_config config) = Some v)
  /\ (forall k, Js.get k config = None ->
        Js.get k (update_config model_config config) = Js.get k model_config)
  /\ (forall k, Js.has k model_config = false ->
        Js.get k (update_config model_config config) = None).
Proof.
  unfold update_config.
  destruct (update_config_fold config (Js.keys config) model_config)
    as [Hkeys Hget].
  cbv zeta in Hkeys, Hget.
  split; [exact Hkeys|]. split; [|split].
  - intros k v Hk Hv. rewrite Hget, Hv, Hk. simpl.
    rewrite bool_decide_eq_true_2; [reflexivity|].
    apply list_elem_of_In.
    apply (Permutation_in _ (Permutation_sym (keys_Permutation config))).
    apply has_In. unfold Js.has. rewrite Hv. reflexivity.
  - intros k Hk. rewrite Hget, Hk. reflexivity.
  - intros k Hk.
    assert (Hnone : Js.get k model_config = None).
    { unfold Js.has in Hk. destruct (Js.get k model_config);
        [discriminate|reflexivity]. }
    rewrite Hget, Hk, Hnone. destruct (Js.get k config); reflexivity.
Qed.

(** * [autocomplete] *)

Section AutocompleteFacts.
Variable ui_filter : list string -> string -> list string.

Lemma length_firstn_le {A : Type} (n : nat) (l : list A) :
  length (firstn n l) <= n.
Proof. rewrite length_firstn. lia. Qed.

Lemma autocomplete_items (index2word : list string) (term : string) :
  term <> EmptyString ->
  let minus := Js.starts_with "-" term in
  let search_term := if minus then Js.slice1 term else term in
  let out := ui_filter index2word search_term in
  autocomplete ui_filter (Some index2word) term
  = firstn 20
      (List.map (fun w => if minus then String.append "-" w else w)
         (List.filter (String.prefix search_term) out
          ++ List.filter (fun w => negb (String.prefix search_term w)) out)).
Proof.
  intros Hne. unfold autocomplete.
  destruct term as [|c term]; [congruence|]. cbn [String.length Nat.eqb].
  cbv zeta. destruct (Js.starts_with "-" (String c term)); [reflexivity|].
  rewrite List.map_id. reflexivity.
Qed.

Lemma autocomplete_split (index2word : list string) (term : string) :
  term <> EmptyString ->
  let minus := Js.starts_with "-" term in
  let search_term := if minus then Js.slice1 term else term in
  exists l1 l2,
    autocomplete ui_filter (Some index2word) term
    = firstn 20
        (List.map (fun w => if minus then String.append "-" w else w) (l1 ++ l2))
    /\ Permutation (l1 ++ l2) (ui_filter index2word search_term)
    /\ Forall (fun w => String.prefix search_term w = true) l1
    /\ Forall (fun w => String.prefix search_term w = false) l2.
Proof.
  intros Hne minus search_term.
  exists (List.filter (String.prefix search_term)
            (ui_filter index2word search_term)),
         (List.filter (fun w => negb (String.prefix search_term w))
            (ui_filter index2word search_term)).
  split; [apply autocomplete_items; exact Hne|].
  split; [|split].
  - induction (ui_filter index2word search_term) as [|w l IH]; simpl;
      [reflexivity|].
    destruct (String.prefix search_term w); simpl.
    + constructor. exact IH.
    + rewrite <- Permutation_middle. constructor. exact IH.
  - apply Forall_forall. intros w Hw. apply list_elem_of_In, filter_In in Hw.
    tauto.
  - apply Forall_forall. intros w Hw. apply list_elem_of_In, filter_In in Hw.
    destruct Hw as [_ Hw]. apply negb_true_iff in Hw. exact Hw.
Qed.

Lemma item_word_signed (term w : string) :
  item_word term (if Js.starts_with "-" term then String.append "-" w else w) = w.
Proof. unfold item_word. destruct (Js.starts_with "-" term); reflexivity. Qed.
End AutocompleteFacts.

(** X12: [autocomplete] returns 20 items or fewer, each one a word that
    the filter of jQuery UI returned for the term without its sign, with
    the sign of the term put back; the words that start with the term
    come before the others; with 20 words or fewer from the filter none
    is lost; for the empty term, and before the vocabulary is built,
    there is no item. *)
Theorem X12_autocomplete (ui_filter : list string -> string -> list string)
    (index2word : list string) (term : string) :
  let items := autocomplete ui_filter (Some index2word) term in
  let search_term := if Js.starts_with "-" term then Js.slice1 term else term in
  length items <= 20
  /\ (forall it, In it items ->
        In (item_word term it) (ui_filter index2word search_term)
        /\ it = if Js.starts_with "-" term
                then String.append "-" (item_word term it)
                else item_word term it)
  /\ (forall i j a b, i < j -> items !! i = Some a -> items !! j = Some b ->
        String.prefix search_term (item_word term b) = true ->
        String.prefix search_term (item_word term a) = true)
  /\ (term <> EmptyString ->
      length (ui_filter index2word search_term) <= 20 ->
      Permutation (List.map (item_word term) items)
        (ui_filter index2word search_term))
  /\ autocomplete ui_filter (Some index2word) EmptyString = []
  /\ autocomplete ui_filter None term = [].
Proof.
  intros items search_term.
  destruct (string_dec term EmptyString) as [->|Hne].
  { subst items. simpl. split; [lia|]. split; [intros it []|].
    split; [intros i j a b _ G; discriminate G|]. split; [congruence|].
    split; reflexivity. }
  destruct (autocomplete_split ui_filter index2word term Hne)
    as (l1 & l2 & Hitems & Hperm & Hl1 & Hl2).
  fold search_term in Hperm, Hl1, Hl2. fold items in Hitems.
  set (f := fun w => if Js.starts_with "-" term then String.append "-" w else w)
    in Hitems.
  assert (Hlook : forall i a, items !! i = Some a ->
            exists w, (l1 ++ l2) !! i = Some w /\ a = f w).
  { intros i a Hi. rewrite Hitems in Hi.
    apply lookup_take_Some in Hi. destruct Hi as [Hi _].
    rewrite list_lookup_fmap in Hi.
    destruct ((l1 ++ l2) !! i) as [w|]; [|discriminate].
    injection Hi as <-. eauto. }
  split; [rewrite Hitems; apply length_firstn_le|]. split; [|split; [|split]].
  - intros it Hit. apply list_elem_of_In, list_elem_of_lookup in Hit.
    destruct Hit as [i Hi]. destruct (Hlook i it Hi) as (w & Hw & ->).
    unfold f. rewrite item_word_signed. split; [|reflexivity].
    apply (Permutation_in _ Hperm). apply list_elem_of_In, list_elem_of_lookup.
    eauto.
  - intros i j a b Hij Hi Hj Hb.
    destruct (Hlook i a Hi) as (wa & Hwa & ->).
    destruct (Hlook j b Hj) as (wb & Hwb & ->).
    unfold f in *. rewrite item_word_signed in *.
    assert (Hj1 : j < length l1).
    { destruct (Nat.lt_ge_cases j (length l1)) as [L|L]; [exact L|].
      rewrite lookup_app_r in Hwb by exact L.
      rewrite Forall_forall in Hl2. rewrite Hl2 in Hb; [discriminate|].
      apply list_elem_of_lookup. eauto. }
    rewrite lookup_app_l in Hwa by lia.
    rewrite Forall_forall in Hl1. apply Hl1. apply list_elem_of_lookup. eauto.
  - intros _ Hlen. rewrite Hitems.
    rewrite firstn_all2.
    2:{ rewrite length_map, (Permutation_length Hperm). exact Hlen. }
    rewrite List.map_map.
    rewrite (List.map_ext _ (fun w => w)) by (intros w; apply item_word_signed).
    rewrite List.map_id. exact Hperm.
  - split; reflexivity.
Qed.
(** * [init_model] *)

Section InitFacts.
Context {F : Type} `{JsArith F} `{JsMath F}.
Variable get_random_init_weight : nat -> nat -> F.

Lemma init_rows_matrix (vocab_size hidden_size side : nat) :
  matrix vocab_size hidden_size
    (init_rows get_random_init_weight vocab_size hidden_size side).
Proof.
  unfold matrix, init_rows. rewrite length_map, length_seq.
  split; [reflexivity|]. apply Forall_forall. intros r Hr.
  apply list_elem_of_In, in_map_iff in Hr. destruct Hr as (i & <- & _).
  unfold init_row. rewrite length_map, length_seq. reflexivity.
Qed.

Lemma init_rows_lookup (vocab_size hidden_size side i j : nat) :
  i < vocab_size -> j < hidden_size ->
  exists r,
    init_rows get_random_init_weight vocab_size hidden_size side !! i = Some r
    /\ r !! j
       = Some (get_random_init_weight (2 * (i * hidden_size + j) + side)
                 hidden_size).
Proof.
  intros Hi Hj. unfold init_rows. rewrite list_lookup_fmap.
  rewrite lookup_seq_lt by exact Hi. simpl. eexists. split; [reflexivity|].
  unfold init_row. rewrite list_lookup_fmap, lookup_seq_lt by exact Hj.
  reflexivity.
Qed.
End InitFacts.

(** X13: [init_model] makes [syn0] and [syn1] matrices of [vocab_size]
    rows of [hidden_size] entries, the entry [j] of row [i] being the
    weight of call [2 (i hidden_size + j)] for [syn0] and of the next call
    for [syn1]; it sets the counts of instances, of epochs and the
    sentence cursor to 0, and leaves the configuration, the vocabulary,
    the queries, their records and the count of watched instances as they
    are. *)
Theorem X13_init_model {F : Type} `{JsArith F} `{JsMath F}
    (get_random_init_weight : nat -> nat -> F) (m : Word2vec F) :
  let m' := init_model get_random_init_weight m in
  shaped m'
  /\ (forall i j, i < vocab_size (voc m) -> j < hidden_size (config m) ->
        exists r0 r1,
          syn0 m' !! i = Some r0 /\ syn1 m' !! i = Some r1
          /\ r0 !! j = Some (get_random_init_weight
                               (2 * (i * hidden_size (config m) + j))
                               (hidden_size (config m)))
          /\ r1 !! j = Some (get_random_init_weight
                               (2 * (i * hidden_size (config m) + j) + 1)
                               (hidden_size (config m))))
  /\ instances m' = 0 /\ epochs m' = 0 /\ state_sentences m' = 0
  /\ same_setup m m'
  /\ count_instances_watched m' = count_instances_watched m.
Proof.
  intros m'. split; [|split].
  - split; apply init_rows_matrix.
  - intros i j Hi Hj.
    destruct (init_rows_lookup get_random_init_weight (vocab_size (voc m))
                (hidden_size (config m)) 0 i j Hi Hj) as (r0 & Hr0 & Hj0).
    destruct (init_rows_lookup get_random_init_weight (vocab_size (voc m))
                (hidden_size (config m)) 1 i j Hi Hj) as (r1 & Hr1 & Hj1).
    exists r0, r1. rewrite Nat.add_0_r in Hj0.
    split; [exact Hr0|]. split; [exact Hr1|]. split; [exact Hj0|exact Hj1].
  - repeat split; reflexivity.
Qed.
(** * Training keeps the model well formed *)

Section Shapes.
Context {F : Type} `{JsArith F}.

Lemma vset_length (y : list F) (j : nat) (x : F) :
  j < length y -> length (vset y j x) = length y.
Proof.
  intros Hj. unfold vset. destruct (Nat.ltb_spec j (length y)); [|lia].
  apply length_insert.
Qed.

Lemma fold_vset_length (n : nat) (f : list F -> nat -> F) (y : list F) :
  n <= length y ->
  length (List.fold_left (fun y j => vset y j (f y j)) (seq 0 n) y) = length y.
Proof.
  intros Hn.
  apply (fold_left_invariant (fun y' => length y' = length y)); [|reflexivity].
  intros a j Hj Ha. apply in_seq in Hj. rewrite vset_length; [exact Ha|lia].
Qed.

Lemma axpy_length (n : nat) (g : F) (x y : list F) :
  n <= length y -> length (axpy n g x y) = length y.
Proof.
  intros Hn. unfold axpy.
  apply (fold_vset_length n (fun y j => (vget y j + g * vget x j)%js) y Hn).
Qed.

Lemma vadd_length (n : nat) (x y : list F) :
  n <= length y -> length (vadd n x y) = length y.
Proof.
  intros Hn. unfold vadd.
  apply (fold_vset_length n (fun y j => (vget y j + vget x j)%js) y Hn).
Qed.

Lemma matrix_insert (rows cols t : nat) (r : list F) (m : list (list F)) :
  matrix rows cols m -> length r = cols -> matrix rows cols (<[t:=r]> m).
Proof.
  intros [Hlen Hall] Hr. split; [rewrite length_insert; exact Hlen|].
  apply Forall_insert; assumption.
Qed.

Lemma matrix_lookup (rows cols t : nat) (m : list (list F)) :
  matrix rows cols m -> t < rows ->
  exists r, m !! t = Some r /\ length r = cols.
Proof.
  intros [Hlen Hall] Ht.
  destruct (lookup_lt_is_Some_2 m t) as [r Hr]; [lia|].
  exists r. split; [exact Hr|]. rewrite Forall_forall in Hall. apply Hall.
  apply list_elem_of_lookup. eauto.
Qed.
End Shapes.

Section ExactTraining.
Context {F : Type} `{Exact F}.
Variable get_random_float : nat -> F.
Hypothesis unit_interval : forall k, (0 <= den (get_random_float k) < 1)%R.

Lemma ns_update_total (m : Word2vec F) (l1 : list F) (label : F) (t : Z)
    (neu1e : list F) (syn1 : list (list F)) (rows : nat) :
  matrix rows (hidden_size (config m)) syn1 ->
  length neu1e = hidden_size (config m) ->
  (0 <= t < Z.of_nat rows)%Z ->
  exists neu1e' syn1',
    ns_update m l1 label (Some t) (neu1e, syn1) = Ok (neu1e', syn1')
    /\ matrix rows (hidden_size (config m)) syn1'
    /\ length neu1e' = hidden_size (config m).
Proof.
  intros Hm Hn Ht. unfold ns_update, row.
  destruct (Z.ltb_spec t 0) as [L|L]; [lia|].
  destruct (matrix_lookup rows _ (Z.to_nat t) syn1 Hm) as (l2 & Hl2 & Hlen);
    [lia|].
  rewrite Hl2. eexists _, _. split; [reflexivity|]. split.
  - apply matrix_insert; [exact Hm|]. rewrite axpy_length; lia.
  - rewrite axpy_length; lia.
Qed.

Lemma ns_body_total (m : Word2vec F) (l1 : list F) (w_idx d : nat)
    (neu1e : list F) (syn1 : list (list F)) (n : nat) :
  cum_table_inv (voc m) ->
  2 <= vocab_size (voc m) ->
  w_idx < vocab_size (voc m) ->
  matrix (vocab_size (voc m)) (hidden_size (config m)) syn1 ->
  length neu1e = hidden_size (config m) ->
  exists neu1e' syn1' n',
    ns_body get_random_float m l1 w_idx d (neu1e, syn1, n)
    = Ok (neu1e', syn1', n')
    /\ matrix (vocab_size (voc m)) (hidden_size (config m)) syn1'
    /\ length neu1e' = hidden_size (config m)
    /\ n <= n'.
Proof.
  intros Hinv Hvs Hw Hm Hn. unfold ns_body.
  destruct (Nat.eqb_spec d 0) as [_|_].
  - destruct (ns_update_total m l1 (fint 1) (Z.of_nat w_idx) neu1e syn1 _ Hm Hn)
      as (neu1e' & syn1' & E & Hm' & Hn'); [lia|].
    rewrite E. simpl. eexists _, _, _. split; [reflexivity|]. auto.
  - destruct (draw_in_bounds get_random_float m n Hinv Hvs
                (unit_interval n) (unit_interval (n + 1)))
      as (t & n' & Hd & Ht & Hlt).
    rewrite Hd. cbn [bind].
    destruct (Z.eqb_spec t (Z.of_nat w_idx)) as [_|_].
    + eexists _, _, _. split; [reflexivity|]. split; [exact Hm|].
      split; [exact Hn|lia].
    + destruct (ns_update_total m l1 (fint 0) t neu1e syn1 _ Hm Hn)
        as (neu1e' & syn1' & E & Hm' & Hn'); [lia|].
      rewrite E. cbn [bind]. eexists _, _, _. split; [reflexivity|].
      split; [exact Hm'|]. split; [exact Hn'|lia].
Qed.

Lemma negative_sampling_total (m : Word2vec F) (l1 : list F) (w_idx : nat) :
  cum_table_inv (voc m) ->
  2 <= vocab_size (voc m) ->
  w_idx < vocab_size (voc m) ->
  matrix (vocab_size (voc m)) (hidden_size (config m)) (syn1 m) ->
  exists neu1e syn1' n',
    negative_sampling get_random_float m l1 w_idx = Ok (neu1e, syn1', n')
    /\ matrix (vocab_size (voc m)) (hidden_size (config m)) syn1'
    /\ length neu1e = hidden_size (config m)
    /\ draws m <= n'.
Proof.
  intros Hinv Hvs Hw Hm. unfold negative_sampling.
  destruct (for_each_total
              (fun st : list F * list (list F) * nat =>
                 matrix (vocab_size (voc m)) (hidden_size (config m)) (snd (fst st))
                 /\ length (fst (fst st)) = hidden_size (config m)
                 /\ draws m <= snd st)
              (ns_body get_random_float m l1 w_idx)
              (seq 0 (Z.to_nat (negative (config m) + 1)))) with
    (s := (zeros (hidden_size (config m)), syn1 m, draws m))
    as ([[neu1e syn1'] n'] & E & Hm' & Hn' & Hd).
  - intros d [[neu1e syn1] n] _ (Hm1 & Hn1 & Hd1). cbn [fst snd] in *.
    destruct (ns_body_total m l1 w_idx d neu1e syn1 n Hinv Hvs Hw Hm1 Hn1)
      as (neu1e' & syn1' & n' & E & Hm' & Hn' & Hle).
    exists (neu1e', syn1', n'). split; [exact E|]. cbn [fst snd].
    split; [exact Hm'|]. split; [exact Hn'|lia].
  - cbn [fst snd]. split; [exact Hm|]. split; [|lia].
    unfold zeros. apply length_replicate.
  - exists neu1e, syn1', n'. cbn [fst snd] in *. auto.
Qed.

Lemma train_sg_pair_total (m : Word2vec F) (w_idx context_idx : nat) :
  cum_table_inv (voc m) ->
  2 <= vocab_size (voc m) ->
  shaped m ->
  w_idx < vocab_size (voc m) ->
  context_idx < vocab_size (voc m) ->
  exists m',
    train_sg_pair get_random_float m w_idx context_idx = Ok m'
    /\ step_kept m m'
    /\ instances m' = instances m
    /\ count_instances_watched m' = count_instances_watched m.
Proof.
  intros Hinv Hvs [Hs0 Hs1] Hw Hc. unfold train_sg_pair.
  destruct (matrix_lookup _ _ context_idx (syn0 m) Hs0 Hc) as (l1 & Hl1 & Hlen).
  rewrite Hl1. simpl.
  destruct (negative_sampling_total m l1 w_idx Hinv Hvs Hw Hs1)
    as (neu1e & syn1' & n' & E & Hm' & Hn' & Hd).
  rewrite E. simpl. eexists. split; [reflexivity|].
  split; [|split; reflexivity].
  split; [repeat split; reflexivity|]. split.
  - split; simpl; [|exact Hm'].
    apply matrix_insert; [exact Hs0|]. rewrite vadd_length; lia.
  - simpl. repeat split; try reflexivity. exact Hd.
Qed.
End ExactTraining.
Lemma firstn_In {A : Type} (n : nat) (l : list A) (x : A) :
  In x (firstn n l) -> In x l.
Proof.
  revert l. induction n as [|n IH]; intros [|a l]; simpl; try tauto.
  intros [->|G]; [left; reflexivity|right; apply IH; exact G].
Qed.

Lemma skipn_In {A : Type} (n : nat) (l : list A) (x : A) :
  In x (skipn n l) -> In x l.
Proof.
  revert l. induction n as [|n IH]; intros [|a l]; simpl; try tauto.
  intros G. right. apply IH. exact G.
Qed.

Lemma slice_In {A : Type} (l : list A) (start stop : Z) (x : A) :
  In x (Js.slice l start stop) -> In x l.
Proof.
  unfold Js.slice. intros Hx. apply firstn_In, skipn_In in Hx. exact Hx.
Qed.

Section ExactSentence.
Context {F : Type} `{Exact F}.
Variable get_random_float : nat -> F.
Hypothesis unit_interval : forall k, (0 <= den (get_random_float k) < 1)%R.

Lemma step_kept_refl (m : Word2vec F) : shaped m -> step_kept m m.
Proof. intros Hs. repeat split; try reflexivity; try apply Hs. Qed.

Lemma step_kept_trans (m0 m1 m2 : Word2vec F) :
  step_kept m0 m1 -> step_kept m1 m2 -> step_kept m0 m2.
Proof.
  intros (S1 & Hs1 & L1 & C1 & E1 & D1) (S2 & Hs2 & L2 & C2 & E2 & D2).
  split; [|split; [exact Hs2|repeat split; try congruence; lia]].
  destruct S1 as (A1 & A2 & A3 & A4 & A5 & A6 & A7 & A8 & A9).
  destruct S2 as (B1 & B2 & B3 & B4 & B5 & B6 & B7 & B8 & B9).
  repeat split; congruence.
Qed.

Lemma reduced_window_In (m : Word2vec F) (words : list string) (pos : nat)
    (w : string) :
  In w (snd (reduced_window_of get_random_float m words pos)) -> In w words.
Proof.
  unfold reduced_window_of.
  destruct (to_int _) as [rw|]; simpl; [apply slice_In|tauto].
Qed.

Lemma idx_of_total (m : Word2vec F) (w : string) :
  (forall w it, Js.get w (vocab (voc m)) = Some it ->
                idx it < vocab_size (voc m)) ->
  Js.has w (vocab (voc m)) = true ->
  exists i, idx_of m w = Ok i /\ i < vocab_size (voc m).
Proof.
  intros Hidx Hw. unfold idx_of. apply has_get in Hw. destruct Hw as [it Hit].
  rewrite Hit. exists (idx it). split; [reflexivity|]. eapply Hidx. exact Hit.
Qed.

(** The callback of [words.forEach], in the skip-gram mode. *)
Lemma train_word_total (words : list string) (pos : nat) (word : string)
    (m : Word2vec F) :
  cum_table_inv (voc m) ->
  2 <= vocab_size (voc m) ->
  shaped m ->
  (forall w it, Js.get w (vocab (voc m)) = Some it ->
                idx it < vocab_size (voc m)) ->
  sg (config m) = true ->
  Js.has word (vocab (voc m)) = true ->
  (forall w, In w words -> Js.has w (vocab (voc m)) = true) ->
  exists m',
    train_word get_random_float words (pos, word) m = Ok m'
    /\ step_kept m m'
    /\ instances m' = instances m + 1
    /\ count_instances_watched m'
       = count_instances_watched m
         + (if Js.has word (queries_watched m) then 1 else 0).
Proof.
  intros Hinv Hvs Hshape Hidx Hsg Hword Hwords. unfold train_word.
  pose proof (reduced_window_In m words pos) as Hwrw.
  destruct (reduced_window_of get_random_float m words pos) as [start wrw].
  cbn [snd] in Hwrw.
  set (m1 := set_weights m (syn0 m) (syn1 m) (draws m + 1)).
  assert (Hk1 : step_kept m m1).
  { unfold m1. repeat split; try reflexivity; try apply Hshape. simpl. lia. }
  change (sg (config m1)) with (sg (config m)). rewrite Hsg.
  set (P := fun m2 : Word2vec F =>
              step_kept m m2 /\ instances m2 = instances m
              /\ count_instances_watched m2 = count_instances_watched m).
  destruct (for_each_total P
              (fun (q : nat * string) (m2 : Word2vec F) =>
                 let '(i, word2) := q in
                 if (i + start =? pos)%nat then Ok m2
                 else let* w := idx_of m2 word in
                      let* c := idx_of m2 word2 in
                      train_sg_pair get_random_float m2 w c)
              (combine (seq 0 (length wrw)) wrw)) with (s := m1)
    as (m2 & E & Hk2 & Hi2 & Hc2).
  - intros [i word2] m2 Hq (Hk & Hi & Hc).
    destruct (i + start =? pos)%nat; [exists m2; split; [reflexivity|]; split; auto|].
    destruct Hk as (Hsame & Hshape2 & Hrest).
    pose proof Hsame as (Hcfg & Hvoc & _).
    assert (Hidx2 : forall w it, Js.get w (vocab (voc m2)) = Some it ->
                      idx it < vocab_size (voc m2))
      by (rewrite Hvoc; exact Hidx).
    destruct (idx_of_total m2 word Hidx2) as (w & Ew & Hw);
      [rewrite Hvoc; exact Hword|].
    destruct (idx_of_total m2 word2 Hidx2) as (c & Ec & Hcx).
    { rewrite Hvoc. apply Hwords, Hwrw.
      eapply in_combine_r. exact Hq. }
    rewrite Ew, Ec. cbn [bind].
    destruct (train_sg_pair_total get_random_float unit_interval m2 w c)
      as (m3 & E3 & Hk3 & Hi3 & Hc3);
      [rewrite Hvoc; exact Hinv|rewrite Hvoc; exact Hvs|exact Hshape2
      |exact Hw|exact Hcx|].
    exists m3. split; [exact E3|]. split; [|split; congruence].
    eapply step_kept_trans; [|exact Hk3]. split; [exact Hsame|].
    split; [exact Hshape2|exact Hrest].
  - split; [exact Hk1|]. split; reflexivity.
  - rewrite E. cbn [bind]. eexists. split; [reflexivity|].
    destruct Hk2 as (Hsame & Hshape2 & Hlr & Hss & He & Hd).
    pose proof Hsame as (Hcfg & Hvoc & Hq1 & Hq2 & Hq3 & Hq4 & Hq5 & Hq6 & Hq7).
    split; [|split].
    + split; [repeat split; assumption|].
      split; [exact Hshape2|]. repeat split; simpl; assumption.
    + simpl. lia.
    + simpl. rewrite Hq3. destruct (Js.has word (queries_watched m)); lia.
Qed.
End ExactSentence.
(** * What a training step counts and what it leaves *)

Section TrainingFrame.
Context {F : Type} `{JsArith F} `{JsMath F}.
Variable get_random_float : nat -> F.

Lemma frame_kept_refl (m : Word2vec F) : frame_kept m m.
Proof. repeat split; reflexivity. Qed.

Lemma frame_kept_trans (m0 m1 m2 : Word2vec F) :
  frame_kept m0 m1 -> frame_kept m1 m2 -> frame_kept m0 m2.
Proof.
  intros (S1 & L1 & C1 & E1 & D1) (S2 & L2 & C2 & E2 & D2).
  split; [|repeat split; try congruence; lia].
  destruct S1 as (A1 & A2 & A3 & A4 & A5 & A6 & A7 & A8 & A9).
  destruct S2 as (B1 & B2 & B3 & B4 & B5 & B6 & B7 & B8 & B9).
  repeat split; congruence.
Qed.

Lemma ns_body_draws (m : Word2vec F) (l1 : list F) (w_idx d : nat)
    (st st' : list F * list (list F) * nat) :
  ns_body get_random_float m l1 w_idx d st = Ok st' -> snd st <= snd st'.
Proof.
  destruct st as [[neu1e syn1] n]. unfold ns_body.
  destruct (d =? 0)%nat.
  - intros E. bind_inv E. injection E as <-. simpl. lia.
  - intros E. bind_inv E. destruct a as [target n'].
    assert (Hn : n <= n').
    { unfold draw_negative in E0. bind_inv E0.
      destruct (a =? 0)%nat; injection E0 as _ <-; lia. }
    destruct target as [t|].
    + destruct (t =? Z.of_nat w_idx)%Z.
      * injection E as <-. simpl. exact Hn.
      * bind_inv E. injection E as <-. simpl. exact Hn.
    + bind_inv E. injection E as <-. simpl. exact Hn.
Qed.

Lemma negative_sampling_draws (m : Word2vec F) (l1 : list F) (w_idx : nat)
    (st : list F * list (list F) * nat) :
  negative_sampling get_random_float m l1 w_idx = Ok st -> draws m <= snd st.
Proof.
  unfold negative_sampling.
  apply (for_each_invariant (fun st => draws m <= snd st)); [|simpl; lia].
  intros d s s' _ Hs Hbody. apply ns_body_draws in Hbody. lia.
Qed.

Lemma train_sg_pair_frame (m m' : Word2vec F) (w c : nat) :
  train_sg_pair get_random_float m w c = Ok m' ->
  frame_kept m m' /\ instances m' = instances m
  /\ count_instances_watched m' = count_instances_watched m.
Proof.
  unfold train_sg_pair. intros E. bind_inv E. bind_inv E.
  apply negative_sampling_draws in E1.
  destruct a0 as [[neu1e s1] k]. injection E as <-. simpl in E1.
  repeat split; try reflexivity. exact E1.
Qed.

Lemma train_cbow_pair_frame (m m' : Word2vec F) (w : nat)
    (idxs : list nat) (l1 : list F) :
  train_cbow_pair get_random_float m w idxs l1 = Ok m' ->
  frame_kept m m' /\ instances m' = instances m
  /\ count_instances_watched m' = count_instances_watched m.
Proof.
  unfold train_cbow_pair. intros E. bind_inv E.
  apply negative_sampling_draws in E0.
  destruct a as [[neu1e s1] k]. bind_inv E. injection E as <-. simpl in E0.
  repeat split; try reflexivity. exact E0.
Qed.

Lemma train_word_frame (words : list string) (pos : nat) (word : string)
    (m m' : Word2vec F) :
  train_word get_random_float words (pos, word) m = Ok m' ->
  frame_kept m m'
  /\ instances m' = instances m + 1
  /\ count_instances_watched m'
     = count_instances_watched m
       + (if Js.has word (queries_watched m) then 1 else 0).
Proof.
  unfold train_word.
  destruct (reduced_window_of get_random_float m words pos) as [start wrw].
  set (m1 := set_weights m (syn0 m) (syn1 m) (draws m + 1)).
  assert (Hk1 : frame_kept m m1).
  { unfold m1. repeat split; try reflexivity. simpl. lia. }
  intros E. bind_inv E. injection E as <-.
  set (P := fun m2 : Word2vec F =>
              frame_kept m m2 /\ instances m2 = instances m
              /\ count_instances_watched m2 = count_instances_watched m).
  assert (Ha : P a).
  { destruct (sg (config m1)).
    - revert E0. apply (for_each_invariant P);
        [|split; [exact Hk1|split; reflexivity]].
      intros [i word2] m2 m3 _ (Hk & Hi & Hc) Hbody.
      destruct (i + start =? pos)%nat;
        [injection Hbody as <-; split; [exact Hk|auto]|].
      bind_inv Hbody. bind_inv Hbody.
      apply train_sg_pair_frame in Hbody. destruct Hbody as (Hk3 & Hi3 & Hc3).
      split; [eapply frame_kept_trans; eassumption|]. split; congruence.
    - bind_inv E0. bind_inv E0. apply train_cbow_pair_frame in E0.
      destruct E0 as (Hk3 & Hi3 & Hc3).
      split; [eapply frame_kept_trans; eassumption|].
      split; [rewrite Hi3|rewrite Hc3]; reflexivity. }
  destruct Ha as (Hk & Hi & Hc).
  destruct Hk as (Hsame & Hlr & Hss & He & Hd).
  pose proof Hsame as (Hcfg & Hvoc & Hq1 & Hq2 & Hq3 & Hq4 & Hq5 & Hq6 & Hq7).
  split; [|split].
  - split; [repeat split; assumption|]. repeat split; simpl; assumption.
  - simpl. lia.
  - simpl. rewrite Hq3. destruct (Js.has word (queries_watched m)); lia.
Qed.

Lemma train_words_frame (words : list string) (l : list (nat * string))
    (m m' : Word2vec F) :
  for_each (train_word get_random_float words) l m = Ok m' ->
  frame_kept m m'
  /\ instances m' = instances m + length l
  /\ count_instances_watched m'
     = count_instances_watched m
       + length (List.filter (fun w => Js.has w (queries_watched m))
                   (List.map snd l)).
Proof.
  revert m. induction l as [|[pos word] l IH]; intros m E.
  - injection E as <-. split; [apply frame_kept_refl|]. simpl. lia.
  - rewrite for_each_cons in E. bind_inv E.
    apply train_word_frame in E0. destruct E0 as (Hk1 & Hi1 & Hc1).
    apply IH in E. destruct E as (Hk2 & Hi2 & Hc2).
    split; [eapply frame_kept_trans; eassumption|].
    destruct Hk1 as ((_ & _ & _ & _ & Hw & _) & _).
    rewrite Hw in Hc2. cbn [List.map List.filter snd length].
    split; [lia|]. rewrite Hc2, Hc1.
    destruct (Js.has word (queries_watched m)); simpl; lia.
Qed.

Lemma map_snd_combine_seq {A : Type} (l : list A) (a : nat) :
  List.map snd (combine (seq a (length l)) l) = l.
Proof.
  revert a. induction l as [|x l IH]; intros a; simpl; [reflexivity|].
  rewrite IH. reflexivity.
Qed.

Lemma train_sentence_frame (m m' : Word2vec F) (sentence : string) :
  sentences (voc m) !! state_sentences m = Some sentence ->
  train_sentence get_random_float m = Ok m' ->
  same_setup m m'
  /\ instances m' = instances m + length (known_words m sentence)
  /\ count_instances_watched m'
     = count_instances_watched m
       + length (List.filter (fun w => Js.has w (queries_watched m))
                   (known_words m sentence))
  /\ (if (num_sentences (voc m) <=? state_sentences m + 1)%nat
      then state_sentences m' = 0 /\ epochs m' = epochs m + 1
      else state_sentences m' = state_sentences m + 1 /\ epochs m' = epochs m)
  /\ learning_rate m'
     = (alpha (config m)
        - (alpha (config m) - min_alpha (config m))
          * fmin (fint 1)
              (fint (Z.of_nat (instances m))
               / (fint (Z.of_nat (corpus_size (voc m))) * iter (config m))))%js
  /\ draws m <= draws m'.
Proof.
  intros Hs. unfold train_sentence. rewrite Hs.
  set (lr := (alpha (config m) - _)%js).
  set (m0 := set_learning_rate m lr).
  change (vocab (voc m0)) with (vocab (voc m)).
  fold (known_words m sentence).
  intros E. bind_inv E. apply train_words_frame in E0.
  destruct E0 as (Hk & Hi & Hc). rewrite length_combine, length_seq, Nat.min_id in Hi.
  rewrite map_snd_combine_seq in Hc.
  destruct Hk as (Hsame & Hlr & Hss & He & Hd).
  pose proof Hsame as (Hcfg & Hvoc & Hq1 & Hq2 & Hq3 & Hq4 & Hq5 & Hq6 & Hq7).
  rewrite Hvoc, Hss in E. change (voc m0) with (voc m) in E.
  change (state_sentences m0) with (state_sentences m) in E.
  destruct (num_sentences (voc m) <=? state_sentences m + 1)%nat;
    injection E as <-; simpl;
    (split; [repeat split; assumption|]);
    (split; [exact Hi|]); (split; [exact Hc|]);
    (split; [split; [reflexivity|try rewrite He; reflexivity]|]);
    (split; [exact Hlr|exact Hd]).
Qed.
End TrainingFrame.
Section ExactSentenceStep.
Context {F : Type} `{Exact F}.
Variable get_random_float : nat -> F.
Hypothesis unit_interval : forall k, (0 <= den (get_random_float k) < 1)%R.

Lemma train_words_total (words : list string) (l : list (nat * string))
    (m : Word2vec F) :
  cum_table_inv (voc m) ->
  2 <= vocab_size (voc m) ->
  shaped m ->
  (forall w it, Js.get w (vocab (voc m)) = Some it ->
                idx it < vocab_size (voc m)) ->
  sg (config m) = true ->
  (forall w, In w words -> Js.has w (vocab (voc m)) = true) ->
  (forall p, In p l -> In (snd p) words) ->
  exists m',
    for_each (train_word get_random_float words) l m = Ok m' /\ shaped m'.
Proof.
  revert m. induction l as [|[pos word] l IH];
    intros m Hinv Hvs Hshape Hidx Hsg Hwords Hl.
  - exists m. split; [reflexivity|exact Hshape].
  - rewrite for_each_cons.
    destruct (train_word_total get_random_float unit_interval words pos word m
                Hinv Hvs Hshape Hidx Hsg)
      as (m1 & E1 & Hk & _); [|exact Hwords|].
    { apply Hwords. apply (Hl (pos, word)). left. reflexivity. }
    rewrite E1. cbn [bind].
    destruct Hk as ((Hcfg & Hvoc & _) & Hshape1 & _).
    apply IH; try rewrite Hvoc; try rewrite Hcfg; try assumption.
    intros p Hp. apply Hl. right. exact Hp.
Qed.

Lemma train_sentence_shaped (m : Word2vec F) :
  well_formed m ->
  2 <= vocab_size (voc m) ->
  sg (config m) = true ->
  exists m', train_sentence get_random_float m = Ok m' /\ shaped m'.
Proof.
  intros (Hshape & (Hidx & Hnum & Hcur) & Hinv) Hvs Hsg.
  destruct (lookup_lt_is_Some_2 (sentences (voc m)) (state_sentences m))
    as [sentence Hs]; [lia|].
  unfold train_sentence. rewrite Hs.
  set (lr := (alpha (config m) - _)%js).
  set (m0 := set_learning_rate m lr).
  set (words := List.filter (fun w => Js.has w (vocab (voc m0)))
                  (Js.split " " sentence)).
  destruct (train_words_total words (combine (seq 0 (length words)) words) m0)
    as (m1 & E1 & Hshape1); try assumption.
  - intros w Hw. apply filter_In in Hw. tauto.
  - intros p Hp. destruct p as [i w]. eapply in_combine_r. exact Hp.
  - rewrite E1. cbn [bind].
    destruct (num_sentences (voc m1) <=? state_sentences m1 + 1)%nat;
      eexists; (split; [reflexivity|exact Hshape1]).
Qed.

Lemma train_sentence_total (m : Word2vec F) :
  well_formed m ->
  2 <= vocab_size (voc m) ->
  sg (config m) = true ->
  exists m', train_sentence get_random_float m = Ok m' /\ well_formed m'.
Proof.
  intros Hwf Hvs Hsg.
  destruct (train_sentence_shaped m Hwf Hvs Hsg) as (m' & E & Hshape').
  exists m'. split; [exact E|].
  destruct Hwf as (Hshape & (Hidx & Hnum & Hcur) & Hinv).
  destruct (lookup_lt_is_Some_2 (sentences (voc m)) (state_sentences m))
    as [sentence Hs]; [lia|].
  destruct (train_sentence_frame get_random_float m m' sentence Hs E)
    as (Hsame & _ & _ & Hc & _).
  destruct Hsame as (Hcfg & Hvoc & _).
  split; [exact Hshape'|]. split; [|rewrite Hvoc; exact Hinv].
  unfold indexed. rewrite Hvoc. split; [exact Hidx|]. split; [exact Hnum|].
  destruct (Nat.leb_spec (num_sentences (voc m)) (state_sentences m + 1));
    destruct Hc as [-> _]; lia.
Qed.
End ExactSentenceStep.
(** * [build_vocab] and [init_model] make a well-formed model *)

Lemma build_and_init_well_formed {F : Type} `{Exact F}
    (get_random_init_weight : nat -> nat -> F) (corpus : string)
    (m : Word2vec F) :
  ~ In null_word (tokens corpus) ->
  well_formed (build_and_init get_random_init_weight corpus m).
Proof.
  intros Hnull. unfold build_and_init.
  set (v := build_vocab (min_count (config m)) corpus).
  destruct (build_vocab_fields (F := F) (min_count (config m)) corpus)
    as (Hv & Hi & Hs & _ & Hsen & Hn). fold v in Hv, Hi, Hs, Hsen, Hn.
  split; [|split].
  - split; apply init_rows_matrix.
  - unfold indexed. simpl. split; [|split].
    + intros w it Hget. rewrite Hv in Hget. rewrite Hs.
      eapply lookup_lt_Some. eapply vocabulary_entry; eassumption.
    + rewrite Hn, Hsen. reflexivity.
    + rewrite Hn. destruct (split_cons "010" corpus) as (w & ws & ->).
      simpl. lia.
  - simpl. apply build_vocab_cum_table_inv.
Qed.

Lemma sg_corpus_tokens : ~ In null_word (tokens sg_corpus).
Proof. vm_compute. intros [G|[G|[G|[G|[]]]]]; discriminate G. Qed.

Lemma sg_model_well_formed : well_formed sg_model.
Proof. apply build_and_init_well_formed. exact sg_corpus_tokens. Qed.

(** X14: in exact arithmetic and the skip-gram mode, with a random source
    of numbers of [[0, 1)], [train_sentence] on a well-formed model of two
    words or more, in whose sentences no word is a member name of
    [Object.prototype], returns: no row that it reads is missing and no
    search runs on.  The model that it returns is well formed again, with
    the same vocabulary, sentences and configuration, so that any number
    of steps returns. *)
Theorem X14_skip_gram_step_returns {F : Type} `{Exact F}
    (get_random_float : nat -> F) (m : Word2vec F) :
  (forall k, (0 <= den (get_random_float k) < 1)%R) ->
  well_formed m ->
  plain_sentences m ->
  2 <= vocab_size (voc m) ->
  sg (config m) = true ->
  exists m',
    train_sentence get_random_float m = Ok m'
    /\ well_formed m'
    /\ plain_sentences m'
    /\ voc m' = voc m /\ config m' = config m.
Proof.
  intros Hrnd Hwf Hplain Hvs Hsg.
  destruct (train_sentence_total get_random_float Hrnd m Hwf Hvs Hsg)
    as (m' & E & Hwf').
  exists m'. split; [exact E|]. split; [exact Hwf'|].
  destruct Hwf as (_ & (_ & Hnum & Hcur) & _).
  destruct (lookup_lt_is_Some_2 (sentences (voc m)) (state_sentences m))
    as [sentence Hs]; [lia|].
  destruct (train_sentence_frame get_random_float m m' sentence Hs E)
    as ((Hcfg & Hvoc & _) & _).
  split; [unfold plain_sentences; rewrite Hvoc; exact Hplain|].
  split; assumption.
Qed.

Lemma sg_model_plain : plain_sentences sg_model.
Proof. repeat constructor. Qed.

Lemma X14_witness :
  exists m', train_sentence C1_random sg_model = Ok m' /\ well_formed m'.
Proof.
  destruct (X14_skip_gram_step_returns C1_random sg_model C1_random_unit
              sg_model_well_formed sg_model_plain) as (m' & E & Hwf & _).
  - vm_compute. lia.
  - reflexivity.
  - exists m'. split; [exact E|exact Hwf].
Defined.

(** X15: in exact arithmetic, for a corpus in which the null word is no
    token, the model that [build_vocab] and [init_model] make is well
    formed: the matrices have a row of [hidden_size] entries for every
    index of the vocabulary, every index of [vocab] is below
    [vocab_size], the sentence cursor is an index of [sentences], and the
    cumulative table has its invariant. *)
Theorem X15_init_well_formed {F : Type} `{Exact F}
    (get_random_init_weight : nat -> nat -> F) (corpus : string)
    (m : Word2vec F) :
  ~ In null_word (tokens corpus) ->
  well_formed (build_and_init get_random_init_weight corpus m).
Proof. apply build_and_init_well_formed. Qed.

Lemma X15_witness : well_formed sg_model.
Proof. exact (X15_init_well_formed half_weight sg_corpus _ sg_corpus_tokens). Defined.

(** X16: when [train_sentence] returns, in either mode and any
    arithmetic, for a sentence of which no word is a member name of
    [Object.prototype]: the count of instances has grown by the number of
    words of the sentence that are keys of [vocab], the count of watched
    instances by the number of those that are watched, the sentence cursor
    has moved to the next sentence, or to the first one with one more
    epoch after the last one, and the configuration, the vocabulary, the
    queries and their records are as before. *)
Theorem X16_train_sentence_counts {F : Type} `{JsArith F} `{JsMath F}
    (get_random_float : nat -> F) (m m' : Word2vec F) (sentence : string) :
  sentences (voc m) !! state_sentences m = Some sentence ->
  JsProto.plain (Js.split " " sentence) ->
  train_sentence get_random_float m = Ok m' ->
  instances m' = instances m + length (known_words m sentence)
  /\ count_instances_watched m'
     = count_instances_watched m
       + length (List.filter (fun w => Js.has w (queries_watched m))
                   (known_words m sentence))
  /\ (if (num_sentences (voc m) <=? state_sentences m + 1)%nat
      then state_sentences m' = 0 /\ epochs m' = epochs m + 1
      else state_sentences m' = state_sentences m + 1 /\ epochs m' = epochs m)
  /\ same_setup m m'.
Proof.
  intros Hs _ E.
  destruct (train_sentence_frame get_random_float m m' sentence Hs E)
    as (Hsame & Hi & Hc & Hcur & _).
  auto.
Qed.

Lemma X16_witness :
  exists m',
    train_sentence C1_random sg_model = Ok m' /\ instances m' = 2.
Proof.
  destruct (train_sentence_total C1_random C1_random_unit sg_model
              sg_model_well_formed) as (m' & E & _).
  - vm_compute. lia.
  - reflexivity.
  - exists m'. split; [exact E|].
    exact (proj1 (X16_train_sentence_counts C1_random sg_model m' "a b"
                    eq_refl ltac:(repeat constructor) E)).
Defined.
(** * The learning rate *)

Lemma train_sentence_sentence {F : Type} `{JsArith F} `{JsMath F}
    (get_random_float : nat -> F) (m m' : Word2vec F) :
  train_sentence get_random_float m = Ok m' ->
  exists sentence, sentences (voc m) !! state_sentences m = Some sentence.
Proof.
  unfold train_sentence.
  destruct (sentences (voc m) !! state_sentences m) as [s|]; [eauto|discriminate].
Qed.

(** X17: in exact arithmetic, with [min_alpha] not above [alpha], a
    positive [iter] and a positive [corpus_size], the learning rate that
    [train_sentence] sets lies between [min_alpha] and [alpha]: it is
    [alpha] at the start, decreases with the count of instances, and is
    [min_alpha] from [corpus_size * iter] instances on. *)
Theorem X17_learning_rate {F : Type} `{Exact F}
    (get_random_float : nat -> F) (m m' : Word2vec F) :
  train_sentence get_random_float m = Ok m' ->
  (den (min_alpha (config m)) <= den (alpha (config m)))%R ->
  (0 < den (iter (config m)))%R ->
  0 < corpus_size (voc m) ->
  let progress :=
    Rmin 1 (INR (instances m)
            / (INR (corpus_size (voc m)) * den (iter (config m)))) in
  den (learning_rate m')
  = (den (alpha (config m))
     - (den (alpha (config m)) - den (min_alpha (config m))) * progress)%R
  /\ (den (min_alpha (config m)) <= den (learning_rate m')
      <= den (alpha (config m)))%R
  /\ (instances m = 0 -> learning_rate m' = alpha (config m))
  /\ ((INR (corpus_size (voc m)) * den (iter (config m))
       <= INR (instances m))%R ->
      learning_rate m' = min_alpha (config m)).
Proof.
  intros E Hmin Hiter Hcs progress.
  destruct (train_sentence_sentence get_random_float m m' E) as [sentence Hs].
  destruct (train_sentence_frame get_random_float m m' sentence Hs E)
    as (_ & _ & _ & _ & Hlr & _).
  assert (Hcs' : (0 < INR (corpus_size (voc m)))%R) by (apply lt_0_INR; exact Hcs).
  assert (Hprod : (0 < INR (corpus_size (voc m)) * den (iter (config m)))%R)
    by (apply Rmult_lt_0_compat; assumption).
  assert (Hinst : (0 <= INR (instances m))%R) by apply pos_INR.
  assert (Hden : den (fint (Z.of_nat (corpus_size (voc m))) * iter (config m))%js
                 = (INR (corpus_size (voc m)) * den (iter (config m)))%R).
  { rewrite den_mul, den_int, <- INR_IZR_INZ. reflexivity. }
  assert (Hp : den (fmin (fint 1)
                      (fint (Z.of_nat (instances m))
                       / (fint (Z.of_nat (corpus_size (voc m)))
                          * iter (config m)))%js) = progress).
  { rewrite den_min, den_int, den_div by (rewrite Hden; lra).
    rewrite Hden, den_int, <- INR_IZR_INZ. reflexivity. }
  assert (Heq : den (learning_rate m')
                = (den (alpha (config m))
                   - (den (alpha (config m)) - den (min_alpha (config m)))
                     * progress)%R).
  { rewrite Hlr, den_sub, den_mul, den_sub, Hp. reflexivity. }
  assert (Hq : (0 <= INR (instances m)
                     / (INR (corpus_size (voc m)) * den (iter (config m))))%R).
  { apply div_nonneg; assumption. }
  assert (Hrange : (0 <= progress <= 1)%R).
  { unfold progress. split; [apply Rmin_glb; lra|apply Rmin_l]. }
  split; [exact Heq|]. split; [rewrite Heq; nra|]. split.
  - intros Hzero. apply den_inj. rewrite Heq.
    assert (progress = 0%R); [|nra].
    unfold progress. rewrite Hzero. simpl. unfold Rdiv. rewrite Rmult_0_l.
    apply Rmin_right. lra.
  - intros Hfull. apply den_inj. rewrite Heq.
    assert (progress = 1%R); [|nra].
    unfold progress. apply Rmin_left.
    apply (Rmult_le_reg_r (INR (corpus_size (voc m)) * den (iter (config m))));
      [exact Hprod|].
    unfold Rdiv. rewrite Rmult_assoc, Rinv_l by lra. lra.
Qed.

Lemma X17_witness :
  exists m',
    train_sentence C1_random sg_model = Ok m'
    /\ learning_rate m' = alpha (config sg_model).
Proof.
  destruct (train_sentence_total C1_random C1_random_unit sg_model
              sg_model_well_formed) as (m' & E & _).
  - vm_compute. lia.
  - reflexivity.
  - exists m'. split; [exact E|].
    apply (X17_learning_rate C1_random sg_model m' E).
    + simpl. unfold Qc_den. simpl. unfold Q2R. simpl. lra.
    + simpl. rewrite Qc_den_int. lra.
    + vm_compute. lia.
    + reflexivity.
Defined.
(** * More of the ranking *)

(** The sort is stable: an element that stood before all those of a
    sorted array is inserted before the ones it does not have to follow. *)
Section StableSort.
Context {A : Type} (gt : A -> A -> bool) (before le : A -> A -> Prop).
Hypothesis le_trans : forall a b c, le a b -> le b c -> le a c.
Hypothesis gt_true : forall x y, gt x y = true -> le y x.
Hypothesis gt_false : forall x y, before x y -> gt x y = false -> le x y.

Lemma insert_stable (x : A) (l : list A) :
  StronglySorted le l -> Forall (before x) l ->
  StronglySorted le (Js.insert gt x l).
Proof.
  intros Hs. induction Hs as [|y l Hs IH Hall]; intros Hx; simpl.
  - repeat constructor.
  - apply Forall_cons in Hx. destruct Hx as [Hxy Hx].
    destruct (gt x y) eqn:E.
    + constructor; [apply IH; exact Hx|].
      rewrite (insert_Permutation gt x l). constructor; [|exact Hall].
      apply gt_true. exact E.
    + constructor; [constructor; assumption|].
      pose proof (gt_false x y Hxy E) as Hle. constructor; [exact Hle|].
      eapply Forall_impl; [exact Hall|]. simpl. intros z Hz.
      eapply le_trans; eassumption.
Qed.

Lemma sort_stable (l : list A) :
  StronglySorted before l -> StronglySorted le (Js.sort gt l).
Proof.
  induction 1 as [|x l Hs IH Hall]; simpl; [constructor|].
  apply insert_stable; [exact IH|].
  rewrite (sort_Permutation gt l). exact Hall.
Qed.
End StableSort.




Lemma rank_items_stable {F : Type} `{Exact F} (scores : list F) :
  StronglySorted ranks_before (rank_items scores).
Proof.
  unfold rank_items.
  apply (sort_stable by_score (fun x y => item_idx x < item_idx y)).
  - intros a b c [L1|[E1 I1]] [L2|[E2 I2]]; unfold ranks_before.
    + left. lra.
    + left. lra.
    + left. lra.
    + right. split; [congruence|lia].
  - intros x y G. unfold by_score in G. apply flt_lt in G.
    rewrite den_sub, den_zero in G. left. lra.
  - intros x y Hxy G. unfold by_score in G. apply flt_false in G.
    rewrite den_sub, den_zero in G. unfold ranks_before.
    destruct (Rle_lt_or_eq_dec _ _ G) as [L|E]; [left; lra|right].
    split; [lra|exact Hxy].
  - apply indexed_items_sorted.
Qed.

(** X18: in exact arithmetic, [item_scores] after the sort is in the order
    of the ranks: of two items the one at the lower rank has the higher
    score or, the scores being equal, the lower index (the sort being
    stable); so the scores determine the ranks. *)
Theorem X18_rank_order {F : Type} `{Exact F} (scores : list F)
    (i j : nat) (a b : ScoredItem F) :
  i < j ->
  rank_items scores !! i = Some a ->
  rank_items scores !! j = Some b ->
  (den (score b) <= den (score a))%R
  /\ (den (score a) = den (score b) -> item_idx a < item_idx b).
Proof.
  intros Hij Ha Hb.
  pose proof (StronglySorted_lookup _ _ i j a b (rank_items_stable scores)
                Hij Ha Hb) as [L|[E L]].
  - split; [lra|]. intros E. lra.
  - split; [lra|]. intros _. exact L.
Qed.

Lemma X18_witness :
  (den (Qc_of_Z 1) <= den (Qc_of_Z 1))%R
  /\ (den (Qc_of_Z 1) = den (Qc_of_Z 1) -> 0 < 2).
Proof.
  exact (X18_rank_order [Qc_of_Z 1; Qc_of_Z 3; Qc_of_Z 1] 1 2
           {| item_idx := 0; score := Qc_of_Z 1 |}
           {| item_idx := 2; score := Qc_of_Z 1 |}
           (le_n 2) eq_refl eq_refl).
Defined.
(** ** Fewer than ten words *)

Lemma bind_no_hang {A B : Type} (r : result A) (f : A -> result B) :
  r <> Hangs -> (forall a, f a <> Hangs) -> bind r f <> Hangs.
Proof. destruct r; simpl; auto. Qed.

Lemma for_each_no_hang {A S : Type} (body : A -> S -> result S) (l : list A) :
  (forall a s, body a s <> Hangs) -> forall s, for_each body l s <> Hangs.
Proof.
  intros Hb. induction l as [|a l IH]; intros s; [discriminate|].
  rewrite for_each_cons. apply bind_no_hang; [apply Hb|exact IH].
Qed.

Lemma map_r_no_hang {A B : Type} (f : A -> result B) (l : list A) :
  (forall a, f a <> Hangs) -> map_r f l <> Hangs.
Proof.
  intros Hf. induction l as [|a l IH]; simpl; [discriminate|].
  apply bind_no_hang; [apply Hf|]. intros b.
  apply bind_no_hang; [exact IH|discriminate].
Qed.

Lemma filter_r_no_hang {A : Type} (p : A -> result bool) (l : list A) :
  (forall a, p a <> Hangs) -> filter_r p l <> Hangs.
Proof.
  intros Hp. induction l as [|a l IH]; simpl; [discriminate|].
  apply bind_no_hang; [apply Hp|]. intros b.
  apply bind_no_hang; [exact IH|discriminate].
Qed.

Lemma filter_r_throws {A : Type} (p : A -> result bool) (l : list A) (x : A) :
  (forall a, p a <> Hangs) -> In x l -> p x = Throws -> filter_r p l = Throws.
Proof.
  intros Hp Hx Ex. induction l as [|a l IH]; [destruct Hx|]. simpl.
  destruct Hx as [->|Hx].
  - rewrite Ex. reflexivity.
  - rewrite (IH Hx). destruct (p a) as [b| |] eqn:Ea; try reflexivity.
    exfalso. exact (Hp a Ea).
Qed.

Section RankingThrows.
Context {F : Type} `{JsArith F}.

Lemma deref_no_hang (n : nat) (r : option (list F)) : deref n r <> Hangs.
Proof. unfold deref. destruct r; [discriminate|]. destruct (n =? 0); discriminate. Qed.

Lemma add_query_term_no_hang (m : Word2vec F) (q : string)
    (st : list F * list nat) : add_query_term m q st <> Hangs.
Proof.
  unfold add_query_term. destruct st as [v s].
  destruct (Js.get _ _); [|discriminate].
  apply bind_no_hang; [apply deref_no_hang|discriminate].
Qed.

Lemma score_of_no_hang (m : Word2vec F) (v : list F) (s : list nat) (i : nat) :
  score_of m v s i <> Hangs.
Proof.
  unfold score_of. destruct (bool_decide _); [discriminate|].
  apply bind_no_hang; [apply deref_no_hang|].
  intros r. destruct (feq _ _); discriminate.
Qed.

Lemma watched_rank_no_hang (m : Word2vec F) (rl : Js.obj nat) (s : list nat)
    (w : string) (rs : list nat) : watched_rank m rl s w rs <> Hangs.
Proof.
  unfold watched_rank. destruct (Js.get w rl); [|discriminate].
  destruct (Js.get w _); [|discriminate]. destruct (bool_decide _); discriminate.
Qed.

Lemma watched_ranks_prefix (m : Word2vec F) (rl : Js.obj nat) (s : list nat)
    (ks : list string) (rs0 rs : list nat) :
  for_each (watched_rank m rl s) ks rs0 = Ok rs ->
  exists more, rs = rs0 ++ more /\ length more <= length ks.
Proof.
  revert rs0. induction ks as [|w ks IH]; intros rs0 E.
  - injection E as <-. exists []. rewrite app_nil_r. split; [reflexivity|simpl; lia].
  - rewrite for_each_cons in E. bind_inv E.
    destruct (IH a E) as (more & -> & Hlen).
    unfold watched_rank in E0.
    destruct (Js.get w rl) as [k|].
    + destruct (Js.get w (vocab (voc m))); [|discriminate].
      destruct (bool_decide _); injection E0 as <-.
      * exists more. split; [reflexivity|simpl; lia].
      * exists (k :: more). rewrite <- app_assoc. split; [reflexivity|simpl; lia].
    + injection E0 as <-. exists more. split; [reflexivity|simpl; lia].
Qed.

Lemma not_ignored_no_hang (m : Word2vec F) (items : list (ScoredItem F))
    (k : nat) : not_ignored m items k <> Hangs.
Proof. unfold not_ignored. destruct (items !! k); discriminate. Qed.

Lemma rank_items_length (scores : list F) :
  length (rank_items scores) = length scores.
Proof.
  destruct (rank_items_spec scores) as [Hperm _].
  rewrite <- (length_map item_idx), (Permutation_length Hperm).
  apply length_seq.
Qed.

Lemma compute_query_result_throws (m : Word2vec F) :
  query_in m <> [] -> vocab_size (voc m) < 10 ->
  compute_query_result m = Throws.
Proof.
  intros Hq Hvs. unfold compute_query_result.
  destruct (query_in m) as [|q0 qs] eqn:Eq; [congruence|]. rewrite <- Eq.
  assert (E0 : (length (query_in m) =? 0) = false) by (rewrite Eq; reflexivity).
  rewrite E0.
  destruct (for_each (add_query_term m) (query_in m)
              (zeros (hidden_size (config m)), [])) as [[raw s]| |] eqn:E1;
    [|reflexivity|].
  2:{ exfalso. revert E1. apply for_each_no_hang.
      apply add_query_term_no_hang. }
  cbn [bind].
  destruct (map_r (score_of m (normalize (hidden_size (config m)) raw) s)
              (seq 0 (vocab_size (voc m)))) as [scores| |] eqn:E2;
    [|reflexivity|].
  2:{ exfalso. revert E2. apply map_r_no_hang. apply score_of_no_hang. }
  cbn [bind].
  destruct (map_r_Ok _ _ _ E2) as [Hlen _]. rewrite length_seq in Hlen.
  set (items := rank_items scores).
  assert (Hitems : length items = vocab_size (voc m))
    by (unfold items; rewrite rank_items_length; exact Hlen).
  assert (Hshow : ranks_to_show_of m items (rank_lookup_of m items) s = Throws).
  { unfold ranks_to_show_of.
    destruct (for_each (watched_rank m (rank_lookup_of m items) s)
                (Js.keys (queries_watched m)) (seq 0 10)) as [rs| |] eqn:E3;
      [|reflexivity|].
    2:{ exfalso. revert E3. apply for_each_no_hang.
        apply watched_rank_no_hang. }
    cbn [bind].
    destruct (watched_ranks_prefix _ _ _ _ _ _ E3) as (more & -> & _).
    rewrite (filter_r_throws (not_ignored m items) _ 9); [reflexivity| | |].
    - apply not_ignored_no_hang.
    - apply list_elem_of_In.
      apply (proj1 (proj2 (uniq_fast_from_spec [] _))).
      split; [|apply not_elem_of_nil].
      apply elem_of_app. left. apply list_elem_of_In, in_seq. lia.
    - unfold not_ignored. rewrite lookup_ge_None_2; [reflexivity|lia]. }
  rewrite Hshow. reflexivity.
Qed.
End RankingThrows.

(** X19: with a query that is not empty, [compute_query_result] throws
    whenever the vocabulary has fewer than ten words: the ranks 0 to 9 are
    always shown, and [item_scores] has no item at rank [vocab_size]. *)
Theorem X19_ranking_needs_ten_words {F : Type} `{JsArith F} (m : Word2vec F) :
  query_in m <> [] -> vocab_size (voc m) < 10 ->
  compute_query_result m = Throws.
Proof. apply compute_query_result_throws. Qed.

Lemma X19_witness :
  compute_query_result
    (set_queries sg_model ["a"%string] "a" [] [] [("a"%string, [])] [])
  = Throws.
Proof.
  apply X19_ranking_needs_ten_words; [discriminate|vm_compute; lia].
Defined.
(** ** What the ranking leaves and what it returns *)

Section RankingFrame.
Context {F : Type} `{JsArith F}.

Lemma compute_query_result_Ok (m m' : Word2vec F) :
  compute_query_result m = Ok m' ->
  (query_in m = []
   /\ m' = set_query_result m (qo_map m) [] (qi_vec m))
  \/ exists raw s scores ranks qo_lookup pushed,
       map_r (score_of m (normalize (hidden_size (config m)) raw) s)
         (seq 0 (vocab_size (voc m))) = Ok scores
       /\ ranks_to_show_of m (rank_items scores)
            (rank_lookup_of m (rank_items scores)) s = Ok ranks
       /\ for_each (show_rank m (rank_items scores)) ranks
            (Js.get (qi_key m) (qo_map m), []) = Ok (qo_lookup, pushed)
       /\ m' = set_query_result m
                 match qo_lookup with
                 | Some qo => Js.set (qi_key m) qo (qo_map m)
                 | None => qo_map m
                 end
                 (Js.sort by_rank
                    match qo_lookup with
                    | Some qo => omap (fun w => Js.get w qo) pushed
                    | None => []
                    end)
                 (normalize (hidden_size (config m)) raw).
Proof.
  unfold compute_query_result.
  destruct (query_in m) as [|q qs] eqn:Eq.
  - intros E. injection E as <-. left. split; reflexivity.
  - rewrite <- Eq.
    assert (E0 : (length (query_in m) =? 0) = false) by (rewrite Eq; reflexivity).
    rewrite E0. intros E. right.
    bind_inv E. destruct a as [raw s]. bind_inv E. bind_inv E. bind_inv E.
    destruct a1 as [qo pushed]. injection E as <-.
    exists raw, s, a, a0, qo, pushed. auto.
Qed.

Lemma show_rank_pushed (m : Word2vec F) (items : list (ScoredItem F))
    (ranks : list nat) (st st' : option (Js.obj QueryOutRecord) * list string) :
  for_each (show_rank m items) ranks st = Ok st' ->
  length (snd st') = length (snd st) + length ranks.
Proof.
  revert st. induction ranks as [|k ranks IH]; intros st E.
  - injection E as <-. simpl. lia.
  - rewrite for_each_cons in E. bind_inv E. rewrite (IH a E).
    unfold show_rank in E0. destruct st as [qo pushed].
    destruct (items !! k); [|discriminate]. destruct qo; [|discriminate].
    injection E0 as <-. simpl. rewrite length_app. simpl. lia.
Qed.

Lemma filter_r_length {A : Type} (p : A -> result bool) (l l' : list A) :
  filter_r p l = Ok l' -> length l' <= length l.
Proof.
  revert l'. induction l as [|a l IH]; intros l' E; simpl in E.
  - injection E as <-. simpl. lia.
  - bind_inv E. bind_inv E. injection E as <-. specialize (IH a1 E1).
    destruct a0; simpl; lia.
Qed.

Lemma length_omap {A B : Type} (f : A -> option B) (l : list A) :
  length (omap f l) <= length l.
Proof.
  induction l as [|a l IH]; [simpl; lia|]. cbn [omap list_omap length].
  destruct (f a); cbn [length]; lia.
Qed.

Lemma ranks_to_show_length (m : Word2vec F) (items : list (ScoredItem F))
    (rl : Js.obj nat) (s ranks : list nat) :
  ranks_to_show_of m items rl s = Ok ranks ->
  length ranks <= 10 + length (queries_watched m).
Proof.
  unfold ranks_to_show_of. intros E. bind_inv E. bind_inv E. bind_inv E.
  injection E as <-. unfold Js.sort_default.
  rewrite (Permutation_length (sort_Permutation _ a1)).
  apply filter_r_length in E2, E1.
  destruct (watched_ranks_prefix _ _ _ _ _ _ E0) as (more & -> & Hmore).
  rewrite (Permutation_length (keys_Permutation _)), length_map in Hmore.
  pose proof (sublist_length _ _
                (proj2 (proj2 (uniq_fast_from_spec [] (seq 0 10 ++ more)))))
    as Hu.
  unfold uniq_fast in E1. rewrite length_app, length_seq in Hu. lia.
Qed.

Lemma show_rank_kept (m : Word2vec F) (items : list (ScoredItem F)) (k : nat)
    (qo0 : Js.obj QueryOutRecord)
    (st st' : option (Js.obj QueryOutRecord) * list string) :
  record_kept qo0 (fst st) ->
  show_rank m items k st = Ok st' ->
  record_kept qo0 (fst st').
Proof.
  destruct st as [qo pushed]. unfold show_rank. cbn [fst].
  destruct (items !! k) as [it|]; [|discriminate].
  destruct qo as [qo|]; [|discriminate].
  intros Hkept E. injection E as <-. cbn [fst]. intros w r Hr.
  destruct (Hkept w r Hr) as (qo' & r' & Eqo & Hr' & Hq & Hs).
  injection Eqo as <-.
  set (w0 := word_at m (item_idx it)).
  set (qo1 := if Js.has w0 qo then qo
              else Js.set w0 {| query := w0; status := "NORMAL";
                                rank := None; rank_history := None |} qo).
  assert (G : Js.get w qo1 = Some r').
  { unfold qo1. destruct (Js.has w0 qo) eqn:Hhas; [exact Hr'|].
    rewrite get_set_ne; [exact Hr'|]. intros ->. unfold Js.has in Hhas.
    rewrite Hr' in Hhas. discriminate. }
  exists (Js.alter (update_rank k (instances m)) w0 qo1),
         (if String.eqb w0 w then update_rank k (instances m) r' else r').
  split; [reflexivity|]. rewrite get_alter, G.
  destruct (String.eqb w0 w); simpl; auto.
Qed.
End RankingFrame.

(** X20: when [compute_query_result] returns, the state of the training
    (configuration, vocabulary, weights, counters) and the query are as
    before; the records of the other queries are untouched, and every
    record of the query is still there, with its word and its status: a
    rank and a history entry are all that the method writes. *)
Theorem X20_ranking_frame {F : Type} `{JsArith F} (m m' : Word2vec F) :
  compute_query_result m = Ok m' ->
  same_training m m'
  /\ query_in m' = query_in m /\ qi_key m' = qi_key m
  /\ queries_watched m' = queries_watched m
  /\ queries_ignored m' = queries_ignored m
  /\ (forall k, k <> qi_key m -> Js.get k (qo_map m') = Js.get k (qo_map m))
  /\ (forall qo, Js.get (qi_key m) (qo_map m) = Some qo ->
        record_kept qo (Js.get (qi_key m) (qo_map m'))).
Proof.
  intros E. apply compute_query_result_Ok in E.
  destruct E as [[Hq ->]|(raw & s & scores & ranks & qo & pushed
                          & _ & _ & Eshow & ->)].
  - split; [repeat split; reflexivity|].
    do 4 (split; [reflexivity|]). split; [reflexivity|].
    intros qo Hqo w r Hr. cbn [qo_map set_query_result]. rewrite Hqo.
    exists qo, r. auto.
  - split; [repeat split; reflexivity|].
    do 4 (split; [reflexivity|]).
    cbn [qo_map set_query_result]. split.
    + intros k Hk. destruct qo as [qo|]; [|reflexivity].
      apply get_set_ne. congruence.
    + intros qo0 Hqo0.
      assert (Hkept : record_kept qo0 (fst (qo, pushed))).
      { revert Eshow.
        apply (for_each_invariant (fun st => record_kept qo0 (fst st))).
        - intros k st st' _. apply show_rank_kept.
        - cbn [fst]. rewrite Hqo0. intros w r Hr. exists qo0, r. auto. }
      cbn [fst] in Hkept. destruct qo as [qo|].
      * rewrite get_set_eq. exact Hkept.
      * rewrite Hqo0. intros w r Hr. exists qo0, r. auto.
Qed.

Lemma X20_witness :
  exists m',
    compute_query_result C6_model = Ok m' /\ syn0 m' = syn0 C6_model.
Proof.
  pose proof C6_model_returns as R.
  destruct (compute_query_result C6_model) as [m'| |] eqn:E; try discriminate R.
  exists m'. split; [reflexivity|].
  destruct (X20_ranking_frame C6_model m' E) as ((_ & _ & Hs & _) & _).
  exact Hs.
Defined.

(** X21: [compute_query_result] returns ten records and one for each
    watched word, at most. *)
Theorem X21_records_bound {F : Type} `{JsArith F} (m m' : Word2vec F) :
  compute_query_result m = Ok m' ->
  length (query_out_records m') <= 10 + length (queries_watched m).
Proof.
  intros E. apply compute_query_result_Ok in E.
  destruct E as [[Hq ->]|(raw & s & scores & ranks & qo & pushed
                          & _ & Eranks & Eshow & ->)].
  - simpl. lia.
  - cbn [query_out_records set_query_result].
    rewrite (Permutation_length (sort_Permutation _ _)).
    apply ranks_to_show_length in Eranks.
    apply show_rank_pushed in Eshow. cbn [snd length] in Eshow.
    destruct qo as [qo|]; [|simpl; lia].
    pose proof (length_omap (fun w => Js.get w qo) pushed). lia.
Qed.

Lemma X21_witness :
  exists m',
    compute_query_result C6_model = Ok m'
    /\ length (query_out_records m') <= 10 + length (queries_watched C6_model).
Proof.
  pose proof C6_model_returns as R.
  destruct (compute_query_result C6_model) as [m'| |] eqn:E; try discriminate R.
  exists m'. split; [reflexivity|].
  exact (X21_records_bound C6_model m' E).
Defined.
(** * [update_qi_and_qo] *)

Lemma has_set_eq {V : Type} (k : string) (v : V) (o : Js.obj V) :
  Js.has k (Js.set k v o) = true.
Proof. unfold Js.has. rewrite get_set_eq. reflexivity. Qed.

Lemma has_set_ne {V : Type} (k k0 : string) (v : V) (o : Js.obj V) :
  k0 <> k -> Js.has k (Js.set k0 v o) = Js.has k o.
Proof. intros Hne. unfold Js.has. rewrite get_set_ne by exact Hne. reflexivity. Qed.

Lemma get_remove_eq {V : Type} (k : string) (o : Js.obj V) :
  Js.get k (Js.remove k o) = None.
Proof.
  unfold Js.remove. induction o as [|[k' v] o IH]; simpl; [reflexivity|].
  destruct (String.eqb_spec k' k) as [->|Hne]; simpl; [exact IH|].
  destruct (String.eqb_spec k' k); [contradiction|exact IH].
Qed.

Lemma get_remove_ne {V : Type} (k k0 : string) (o : Js.obj V) :
  k0 <> k -> Js.get k (Js.remove k0 o) = Js.get k o.
Proof.
  intros Hne. unfold Js.remove. induction o as [|[k' v] o IH]; simpl; [reflexivity|].
  destruct (String.eqb_spec k' k0) as [->|Hne0]; simpl.
  - destruct (String.eqb_spec k0 k); [contradiction|exact IH].
  - destruct (String.eqb_spec k' k); [reflexivity|exact IH].
Qed.

Lemma has_remove_eq {V : Type} (k : string) (o : Js.obj V) :
  Js.has k (Js.remove k o) = false.
Proof. unfold Js.has. rewrite get_remove_eq. reflexivity. Qed.

Lemma has_remove_ne {V : Type} (k k0 : string) (o : Js.obj V) :
  k0 <> k -> Js.has k (Js.remove k0 o) = Js.has k o.
Proof. intros Hne. unfold Js.has. rewrite get_remove_ne by exact Hne. reflexivity. Qed.

Lemma has_false_get {V : Type} (k : string) (o : Js.obj V) :
  Js.has k o = false -> Js.get k o = None.
Proof. unfold Js.has. destruct (Js.get k o); [discriminate|reflexivity]. Qed.

(** One entry of [query_out]. *)
Lemma update_query_out_disjoint (q : string)
    (st st' : option (Js.obj QueryOutRecord) * Js.obj bool * Js.obj bool) :
  update_query_out q st = Ok st' ->
  disjoint_marks (snd (fst st)) (snd st) ->
  disjoint_marks (snd (fst st')) (snd st').
Proof.
  destruct st as [[qo w] i]. unfold update_query_out. cbn [fst snd].
  set (q_str := JsString.slice2 q).
  destruct (status_of_prefix (JsString.first q)) as [s|].
  - destruct qo as [qo|]; [|discriminate]. intros E. injection E as <-.
    cbn [fst snd]. intros Hd k Hk.
    destruct (String.eqb_spec q_str k) as [<-|Hne].
    + destruct (Js.has q_str i) eqn:Hi; [apply has_remove_eq|exact Hi].
    + rewrite has_set_ne in Hk by exact Hne.
      destruct (Js.has q_str i); [rewrite has_remove_ne by exact Hne|];
        apply Hd; exact Hk.
  - destruct (JsString.first q) as [c|]; [|intros E; injection E as <-; auto].
    destruct (Ascii.eqb c "I" && Js.has q_str w);
      [|intros E; injection E as <-; auto].
    intros E. injection E as <-. cbn [fst snd]. intros Hd k Hk.
    destruct (String.eqb_spec q_str k) as [<-|Hne].
    + rewrite has_remove_eq in Hk. discriminate.
    + rewrite has_remove_ne in Hk by exact Hne.
      rewrite has_set_ne by exact Hne. apply Hd. exact Hk.
Qed.

Lemma update_query_out_kept (q : string) (qo0 : Js.obj QueryOutRecord)
    (st st' : option (Js.obj QueryOutRecord) * Js.obj bool * Js.obj bool) :
  update_query_out q st = Ok st' ->
  history_kept qo0 (fst (fst st)) ->
  history_kept qo0 (fst (fst st')).
Proof.
  destruct st as [[qo w] i]. unfold update_query_out. cbn [fst snd].
  set (q_str := JsString.slice2 q).
  destruct (status_of_prefix (JsString.first q)) as [s|].
  - destruct qo as [qo|]; [|discriminate]. intros E. injection E as <-.
    cbn [fst snd]. intros Hk k r Hr.
    destruct (Hk k r Hr) as (qo' & r' & Eqo & Hr' & Hq & Hrk & Hh).
    injection Eqo as <-.
    set (qo1 := if Js.has q_str qo then qo
                else Js.set q_str {| query := q_str; status := EmptyString;
                                     rank := None; rank_history := None |} qo).
    assert (G : Js.get k qo1 = Some r').
    { unfold qo1. destruct (Js.has q_str qo) eqn:Hhas; [exact Hr'|].
      rewrite get_set_ne; [exact Hr'|]. intros ->. unfold Js.has in Hhas.
      rewrite Hr' in Hhas. discriminate. }
    exists (Js.alter (set_status s) q_str qo1),
           (if String.eqb q_str k then set_status s r' else r').
    split; [reflexivity|]. rewrite get_alter, G.
    destruct (String.eqb q_str k); simpl; auto.
  - destruct (JsString.first q) as [c|]; [|intros E; injection E as <-; auto].
    destruct (Ascii.eqb c "I" && Js.has q_str w);
      intros E; injection E as <-; auto.
Qed.

Lemma status_of_prefix_marks (p : option ascii) (s : string) :
  status_of_prefix p = Some s ->
  s = "GOOD"%string \/ s = "BAD"%string \/ s = "WATCHED"%string.
Proof.
  unfold status_of_prefix. destruct p as [c|]; [|discriminate].
  destruct (Ascii.eqb c "G"); [intros E; injection E as <-; auto|].
  destruct (Ascii.eqb c "B"); [intros E; injection E as <-; auto|].
  destruct (Ascii.eqb c "W"); [intros E; injection E as <-; auto|discriminate].
Qed.

Lemma update_query_out_marked (q : string) (w0 : string)
    (st st' : option (Js.obj QueryOutRecord) * Js.obj bool * Js.obj bool) :
  update_query_out q st = Ok st' ->
  (marked w0 (fst (fst st))
   \/ (w0 = JsString.slice2 q /\ is_Some (status_of_prefix (JsString.first q)))) ->
  marked w0 (fst (fst st')).
Proof.
  destruct st as [[qo w] i]. unfold update_query_out. cbn [fst snd].
  set (q_str := JsString.slice2 q).
  destruct (status_of_prefix (JsString.first q)) as [s|] eqn:Es.
  - destruct qo as [qo|]; [|discriminate]. intros E. injection E as <-.
    cbn [fst snd].
    set (qo1 := if Js.has q_str qo then qo
                else Js.set q_str {| query := q_str; status := EmptyString;
                                     rank := None; rank_history := None |} qo).
    assert (Hget1 : exists r1, Js.get q_str qo1 = Some r1).
    { unfold qo1. destruct (Js.has q_str qo) eqn:Hhas.
      - apply has_get. exact Hhas.
      - eexists. apply get_set_eq. }
    intros [(qo' & r & Eqo & Hr & Hs)|[-> _]].
    + injection Eqo as <-.
      assert (G : Js.get w0 qo1 = Some r).
      { unfold qo1. destruct (Js.has q_str qo) eqn:Hhas; [exact Hr|].
        rewrite get_set_ne; [exact Hr|]. intros ->. unfold Js.has in Hhas.
        rewrite Hr in Hhas. discriminate. }
      exists (Js.alter (set_status s) q_str qo1),
             (if String.eqb q_str w0 then set_status s r else r).
      split; [reflexivity|]. rewrite get_alter, G.
      destruct (String.eqb q_str w0); simpl; split; try reflexivity;
        [apply (status_of_prefix_marks _ _ Es)|exact Hs].
    + destruct Hget1 as [r1 Hr1].
      exists (Js.alter (set_status s) q_str qo1), (set_status s r1).
      split; [reflexivity|]. rewrite get_alter, Hr1, String.eqb_refl.
      split; [reflexivity|]. simpl. apply (status_of_prefix_marks _ _ Es).
  - intros E [Hm|[_ [s Hs]]]; [|discriminate].
    destruct (JsString.first q) as [c|]; [|injection E as <-; exact Hm].
    destruct (Ascii.eqb c "I" && Js.has q_str w); injection E as <-; exact Hm.
Qed.

Lemma update_query_out_total (q : string) (qo : Js.obj QueryOutRecord)
    (w i : Js.obj bool) :
  exists qo' w' i', update_query_out q (Some qo, w, i) = Ok (Some qo', w', i').
Proof.
  unfold update_query_out.
  destruct (status_of_prefix (JsString.first q)); [eauto|].
  destruct (JsString.first q) as [c|]; [|eauto].
  destruct (Ascii.eqb c "I" && Js.has _ w); eauto.
Qed.

Lemma update_query_outs_total (qs : list string) (qo : Js.obj QueryOutRecord)
    (w i : Js.obj bool) :
  exists qo' w' i',
    for_each update_query_out qs (Some qo, w, i) = Ok (Some qo', w', i').
Proof.
  revert qo w i. induction qs as [|q qs IH]; intros qo w i; [simpl; eauto|].
  rewrite for_each_cons.
  destruct (update_query_out_total q qo w i) as (qo1 & w1 & i1 & ->).
  cbn [bind]. apply IH.
Qed.

Lemma update_query_outs_throw (qs : list string) (w i : Js.obj bool) :
  (exists q, In q qs /\ is_Some (status_of_prefix (JsString.first q))) ->
  for_each update_query_out qs (None, w, i) = Throws.
Proof.
  revert w i. induction qs as [|q qs IH]; intros w i (q0 & Hq0 & Hs);
    [destruct Hq0|].
  rewrite for_each_cons.
  destruct (status_of_prefix (JsString.first q)) as [s|] eqn:Es.
  - unfold update_query_out. rewrite Es. reflexivity.
  - destruct Hq0 as [->|Hq0]; [rewrite Es in Hs; destruct Hs; discriminate|].
    unfold update_query_out. rewrite Es.
    destruct (JsString.first q) as [c|]; cbn [bind].
    + destruct (Ascii.eqb c "I" && Js.has _ w); cbn [bind]; apply IH; eauto.
    + apply IH. eauto.
Qed.
Section UpdateFacts.
Context {F : Type}.

Lemma update_qi_and_qo_Ok (request : QueryRequest) (s s' : Session F) :
  update_qi_and_qo request s = Ok s' ->
  let key := JsString.join "&" (default [] (request_query_in request)) in
  exists qo_lookup watched ignored,
    for_each update_query_out (default [] (request_query_out request))
      (Js.get key (with_store key (qo_map (model s))),
       queries_watched (model s), queries_ignored (model s))
    = Ok (qo_lookup, watched, ignored)
    /\ s' = set_session_status
              (set_model s
                 (let qo_map' :=
                    match qo_lookup with
                    | Some qo => Js.set key qo (with_store key (qo_map (model s)))
                    | None => with_store key (qo_map (model s))
                    end in
                  set_queries (model s) (default [] (request_query_in request))
                    key watched ignored qo_map'
                    (shared_records qo_map' (qi_key (model s))
                       (query_out_records (model s)))))
              (request_status request).
Proof.
  intros E key. unfold update_qi_and_qo in E. cbv zeta in E. fold key in E.
  fold (with_store key (qo_map (model s))) in E.
  bind_inv E. destruct a as [[qo w] i]. injection E as <-.
  exists qo, w, i. split; [exact E0|reflexivity].
Qed.

Lemma with_store_get (key : string) (qo_map : Js.obj (Js.obj QueryOutRecord)) :
  key <> EmptyString -> is_Some (Js.get key (with_store key qo_map)).
Proof.
  intros Hkey. unfold with_store.
  assert (E : (0 <? String.length key) = true)
    by (apply string_length_pos; exact Hkey).
  rewrite E. simpl. destruct (Js.has key qo_map) eqn:Hhas; simpl.
  - apply has_get in Hhas. destruct Hhas as [v ->]. eauto.
  - rewrite get_set_eq. eauto.
Qed.

Lemma with_store_other (key k : string)
    (qo_map : Js.obj (Js.obj QueryOutRecord)) :
  k <> key -> Js.get k (with_store key qo_map) = Js.get k qo_map.
Proof.
  intros Hk. unfold with_store. destruct (_ && _); [|reflexivity].
  apply get_set_ne. congruence.
Qed.

Lemma with_store_same (key : string) (qo_map : Js.obj (Js.obj QueryOutRecord))
    (qo : Js.obj QueryOutRecord) :
  Js.get key qo_map = Some qo -> with_store key qo_map = qo_map.
Proof.
  intros Hqo. unfold with_store. unfold Js.has. rewrite Hqo.
  rewrite andb_false_r. reflexivity.
Qed.
End UpdateFacts.

Lemma update_qi_and_qo_returns {F : Type} (request : QueryRequest) (s : Session F) :
  let query := default [] (request_query_in request) in
  JsString.join "&" query <> EmptyString ->
  exists s',
    update_qi_and_qo request s = Ok s'
    /\ session_status s' = request_status request
    /\ query_in (model s') = query
    /\ qi_key (model s') = JsString.join "&" query
    /\ is_Some (Js.get (qi_key (model s')) (qo_map (model s')))
    /\ (forall k, k <> qi_key (model s') ->
          Js.get k (qo_map (model s')) = Js.get k (qo_map (model s)))
    /\ same_training (model s) (model s')
    /\ breakpoint_time s' = breakpoint_time s
    /\ breakpoint_iterations s' = breakpoint_iterations s
    /\ breakpoint_instances_watched s' = breakpoint_instances_watched s.
Proof.
  intros query Hkey. unfold update_qi_and_qo. cbv zeta. fold query.
  set (key := JsString.join "&" query) in *.
  change (if (0 <? String.length key)%nat && negb (Js.has key (qo_map (model s)))
          then Js.set key [] (qo_map (model s)) else qo_map (model s))
    with (with_store key (qo_map (model s))).
  destruct (with_store_get key (qo_map (model s)) Hkey) as [qo0 Hqo0].
  rewrite Hqo0.
  destruct (update_query_outs_total (default [] (request_query_out request))
              qo0 (queries_watched (model s)) (queries_ignored (model s)))
    as (qo & w & i & ->).
  cbn [bind]. eexists. split; [reflexivity|]. cbn.
  do 3 (split; [reflexivity|]). split; [rewrite get_set_eq; eauto|].
  split; [|split; [repeat split; reflexivity|repeat split; reflexivity]].
  intros k Hk. rewrite get_set_ne by congruence.
  apply with_store_other. exact Hk.
Qed.


(** X22: for a request whose query has a key, its terms joined by [&],
    that is not empty, and in which neither the key nor a word is a member
    name of [Object.prototype], [update_qi_and_qo] returns: the status, the
    query and its key are those of the request, [qo_map] has a store of
    records for the key, the stores of the other keys and the state of the
    training are as before. *)
Theorem X22_update_returns {F : Type} (request : QueryRequest) (s : Session F) :
  let query := default [] (request_query_in request) in
  JsString.join "&" query <> EmptyString ->
  plain_request request ->
  exists s',
    update_qi_and_qo request s = Ok s'
    /\ session_status s' = request_status request
    /\ query_in (model s') = query
    /\ qi_key (model s') = JsString.join "&" query
    /\ is_Some (Js.get (qi_key (model s')) (qo_map (model s')))
    /\ (forall k, k <> qi_key (model s') ->
          Js.get k (qo_map (model s')) = Js.get k (qo_map (model s)))
    /\ same_training (model s) (model s')
    /\ breakpoint_time s' = breakpoint_time s
    /\ breakpoint_iterations s' = breakpoint_iterations s
    /\ breakpoint_instances_watched s' = breakpoint_instances_watched s.
Proof. intros query Hkey _. apply update_qi_and_qo_returns. exact Hkey. Qed.

Lemma sg_request_plain : plain_request sg_request.
Proof. split; [reflexivity|]. split; repeat constructor. Qed.

Lemma X22_witness :
  exists s',
    update_qi_and_qo sg_request sg_session = Ok s'
    /\ qi_key (model s') = "a&-b"%string.
Proof.
  destruct (X22_update_returns sg_request sg_session) as (s' & E & _ & _ & Hk & _).
  - discriminate.
  - exact sg_request_plain.
  - exists s'. split; [exact E|exact Hk].
Defined.

(** X23: with a query whose key is empty (no term, or the one empty
    term) [qo_map] has no store of records, and [update_qi_and_qo] throws
    as soon as an entry of [query_out] is marked [G], [B] or [W]. *)
Theorem X23_update_throws {F : Type} (request : QueryRequest) (s : Session F)
    (q : string) :
  JsString.join "&" (default [] (request_query_in request)) = EmptyString ->
  Js.get EmptyString (qo_map (model s)) = None ->
  In q (default [] (request_query_out request)) ->
  is_Some (status_of_prefix (JsString.first q)) ->
  update_qi_and_qo request s = Throws.
Proof.
  intros Hkey Hnone Hq Hs. unfold update_qi_and_qo. cbv zeta. rewrite Hkey.
  cbn [String.length Nat.ltb Nat.leb andb]. rewrite Hnone.
  rewrite update_query_outs_throw; [reflexivity|eauto].
Qed.

Lemma X23_witness :
  update_qi_and_qo
    {| request_status := "WAIT_FOR_TRAIN"; request_query_in := None;
       request_query_out := Some ["W_b"]%string |}
    {| model := sg_model; session_status := "WAIT_FOR_TRAIN";
       breakpoint_instances_watched := -1; breakpoint_iterations := -1;
       breakpoint_time := -1 |}
  = Throws.
Proof.
  apply (X23_update_throws _ _ "W_b");
    [reflexivity|reflexivity|left; reflexivity|simpl; eauto].
Defined.

(** X24: [update_qi_and_qo] keeps the watched and the ignored words
    apart: when no word is both before the call, none is after it. *)
Theorem X24_watched_or_ignored {F : Type} (request : QueryRequest)
    (s s' : Session F) :
  update_qi_and_qo request s = Ok s' ->
  disjoint_marks (queries_watched (model s)) (queries_ignored (model s)) ->
  disjoint_marks (queries_watched (model s')) (queries_ignored (model s')).
Proof.
  intros E Hd. apply update_qi_and_qo_Ok in E.
  destruct E as (qo & w & i & E & ->). cbn.
  change (disjoint_marks (snd (fst (qo, w, i))) (snd (qo, w, i))).
  revert E.
  apply (for_each_invariant
           (fun st => disjoint_marks (snd (fst st)) (snd st))).
  - intros q st st' _ Hst Hbody. eapply update_query_out_disjoint; eassumption.
  - exact Hd.
Qed.

Lemma sg_request_returns :
  match update_qi_and_qo sg_request sg_session with
  | Ok _ => true
  | _ => false
  end = true.
Proof. vm_compute. reflexivity. Qed.

Lemma X24_witness :
  exists s',
    update_qi_and_qo sg_request sg_session = Ok s'
    /\ disjoint_marks (queries_watched (model s')) (queries_ignored (model s')).
Proof.
  pose proof sg_request_returns as R.
  destruct (update_qi_and_qo sg_request sg_session) as [s'| |] eqn:E;
    try discriminate R.
  exists s'. split; [reflexivity|].
  apply (X24_watched_or_ignored sg_request sg_session s' E).
  intros w Hw. discriminate Hw.
Defined.

(** X25: when [update_qi_and_qo] returns, for a request in which
    neither the key of the query nor a word is a member name of
    [Object.prototype]: every record that the query had is still there
    with its word, its rank and its rank history, and every word that the
    request marks [G], [B] or [W] has a record, whose status is [GOOD],
    [BAD] or [WATCHED]. *)
Theorem X25_update_records {F : Type} (request : QueryRequest)
    (s s' : Session F) :
  update_qi_and_qo request s = Ok s' ->
  plain_request request ->
  let key := JsString.join "&" (default [] (request_query_in request)) in
  (forall qo, Js.get key (qo_map (model s)) = Some qo ->
     history_kept qo (Js.get key (qo_map (model s'))))
  /\ (forall q, In q (default [] (request_query_out request)) ->
        is_Some (status_of_prefix (JsString.first q)) ->
        marked (JsString.slice2 q) (Js.get key (qo_map (model s')))).
Proof.
  intros E _ key. apply update_qi_and_qo_Ok in E. fold key in E.
  destruct E as (qo & w & i & E & ->). cbn [model set_session_status set_model
    qo_map set_queries].
  assert (Hfinal : forall (P : option (Js.obj QueryOutRecord) -> Prop),
            P qo -> (forall o, P o -> is_Some o) ->
            P (Js.get key
                 match qo with
                 | Some qo1 => Js.set key qo1 (with_store key (qo_map (model s)))
                 | None => with_store key (qo_map (model s))
                 end)).
  { intros P HP Hsome. destruct qo as [qo1|].
    - rewrite get_set_eq. exact HP.
    - destruct (Hsome _ HP) as [o Ho]. discriminate Ho. }
  split.
  - intros qo0 Hqo0.
    rewrite (with_store_same key _ qo0 Hqo0), Hqo0 in E.
    assert (Hk : history_kept qo0 (fst (fst (qo, w, i)))).
    { revert E.
      apply (for_each_invariant (fun st => history_kept qo0 (fst (fst st)))).
      - intros q st st' _ Hst Hbody. eapply update_query_out_kept; eassumption.
      - cbn [fst]. intros k r Hr. exists qo0, r. auto. }
    cbn [fst] in Hk. destruct qo as [qo1|].
    + rewrite get_set_eq. exact Hk.
    + rewrite (with_store_same key _ qo0 Hqo0), Hqo0.
      intros k r Hr. exists qo0, r. auto.
  - intros q Hq Hs. apply Hfinal; [|intros o (qo' & r & -> & _); eauto].
    clear Hfinal. revert E.
    generalize (Js.get key (with_store key (qo_map (model s))),
                queries_watched (model s), queries_ignored (model s)).
    induction (default [] (request_query_out request)) as [|q1 qs IH];
      [destruct Hq|].
    intros st E. rewrite for_each_cons in E. bind_inv E.
    destruct Hq as [->|Hq].
    + assert (Hm : marked (JsString.slice2 q) (fst (fst a))).
      { eapply update_query_out_marked; [exact E0|]. right. auto. }
      change qo with (fst (fst (qo, w, i))). revert E.
      apply (for_each_invariant
               (fun st => marked (JsString.slice2 q) (fst (fst st))));
        [|exact Hm].
      intros q2 st2 st3 _ Hst Hbody.
      eapply update_query_out_marked; [exact Hbody|]. left. exact Hst.
    + eapply IH; [exact Hq|exact E].
Qed.

Lemma X25_witness :
  exists s',
    update_qi_and_qo sg_request sg_session = Ok s'
    /\ marked "b" (Js.get "a&-b" (qo_map (model s'))).
Proof.
  pose proof sg_request_returns as R.
  destruct (update_qi_and_qo sg_request sg_session) as [s'| |] eqn:E;
    try discriminate R.
  exists s'. split; [reflexivity|].
  apply (proj2 (X25_update_records sg_request sg_session s' E
                  sg_request_plain) "W_b"%string).
  - left. reflexivity.
  - simpl. eauto.
Defined.
(** * The request [update_query_out_result] (lines 135-138) *)

Lemma build_and_init_queryable {F : Type} `{JsArith F} `{JsMath F}
    (get_random_init_weight : nat -> nat -> F) (corpus : string)
    (m : Word2vec F) :
  ~ In null_word (tokens corpus) ->
  10 <= vocab_size (voc (build_and_init get_random_init_weight corpus m)) ->
  queryable (build_and_init get_random_init_weight corpus m).
Proof.
  intros Hnull Hten. split; [exact Hten|]. unfold build_and_init in *.
  set (v := build_vocab (min_count (config m)) corpus) in *.
  destruct (build_vocab_fields (F := F) (min_count (config m)) corpus)
    as (Hv & Hi & Hs & _). fold v in Hv, Hi, Hs. cbn.
  split; [|split; [|split]].
  - unfold init_rows. rewrite length_map, length_seq. reflexivity.
  - rewrite Hi, Hs. reflexivity.
  - intros w it Hget. rewrite Hv in Hget. rewrite Hs.
    eapply lookup_lt_Some. eapply vocabulary_entry; eassumption.
  - intros w Hw. rewrite Hi in Hw. rewrite Hv.
    destruct (vocabulary_spec (min_count (config m)) corpus Hnull)
      as (rest & Hi2w & _ & _ & Hidx & _).
    rewrite Hi2w in Hw. apply list_elem_of_In, list_elem_of_lookup in Hw.
    destruct Hw as [i Hw]. destruct (Hidx i w Hw) as (it & -> & _). eauto.
Qed.

Lemma queryable_rankable {F : Type} `{JsArith F} (m m' : Word2vec F) :
  queryable m -> same_training m m' ->
  (forall q, In q (query_in m') ->
     Js.has (query_word q) (vocab (voc m)) = true) ->
  is_Some (Js.get (qi_key m') (qo_map m')) ->
  rankable m'.
Proof.
  intros (Hten & Hsyn0 & Hwords & Hidx & Hvocab)
         (Hcfg & Hvoc & Hs0 & _) Hquery Hstore.
  unfold rankable. rewrite Hvoc, Hs0.
  split; [exact Hten|]. split; [exact Hsyn0|]. split; [exact Hwords|].
  split; [|split; [exact Hvocab|exact Hstore]].
  intros q Hq. destruct (has_get _ _ (Hquery q Hq)) as [it Hit].
  exists it. split; [exact Hit|]. eapply Hidx. exact Hit.
Qed.

(** X26: the request [update_query_out_result] returns, [update_qi_and_qo]
    and then [compute_query_result], on a model of ten words or more with
    its matrices and indices in place, for a query that
    [validate_query_in] accepts and whose key is not empty, when no word of
    [index2word], no watched word, and neither the key nor a word of the
    request is a member name of [Object.prototype]. *)
Theorem X26_query_request_returns {F : Type} `{JsArith F}
    (request : QueryRequest) (s : Session F) (query : list string)
    (v : Validation) :
  queryable (model s) ->
  plain_model (model s) ->
  plain_request request ->
  request_query_in request = Some query ->
  validate_query_in (Some (vocab (voc (model s)))) query = Ok v ->
  is_valid v = true ->
  JsString.join "&" query <> EmptyString ->
  exists s' m',
    update_qi_and_qo request s = Ok s'
    /\ compute_query_result (model s') = Ok m'.
Proof.
  intros Hq _ (_ & Hplain & _) Hreq Hv Hvalid Hkey.
  rewrite Hreq in Hplain. cbn [default] in Hplain.
  assert (Hknown : forall q, In q query ->
            Js.has (query_word q) (vocab (voc (model s))) = true).
  { unfold validate_query_in in Hv. injection Hv as <-.
    destruct (validate_terms_spec (vocab (voc (model s))) query) as [Hval _].
    rewrite Hvalid in Hval. intros q Hq'.
    rewrite <- has_in_plain.
    - apply (proj1 (missing_words_nil (vocab (voc (model s))) query));
        [|exact Hq'].
      destruct (missing_words _ _); [reflexivity|discriminate].
    - unfold JsProto.plain in Hplain. rewrite Forall_forall in Hplain.
      apply Hplain. apply list_elem_of_In, in_map. exact Hq'. }
  destruct (update_qi_and_qo_returns request s) as
    (s' & E & _ & Hquery & _ & Hstore & _ & Hsame & _).
  { rewrite Hreq. exact Hkey. }
  rewrite Hreq in Hquery. cbn [default] in Hquery.
  destruct (compute_query_result_returns (model s')) as [m' Hm'].
  - apply (queryable_rankable (model s)); [exact Hq|exact Hsame| |exact Hstore].
    rewrite Hquery. exact Hknown.
  - exists s', m'. split; [exact E|exact Hm'].
Qed.

Lemma ten_words_tokens : ~ In null_word (tokens ten_words).
Proof.
  vm_compute. intros G.
  repeat (destruct G as [G|G]; [discriminate G|]). exact G.
Qed.

Lemma X26_witness :
  exists s' m',
    update_qi_and_qo sg_request ten_session = Ok s'
    /\ compute_query_result (model s') = Ok m'.
Proof.
  apply (X26_query_request_returns sg_request ten_session ["a"; "-b"]%string
           {| is_valid := true; message := EmptyString |}).
  - apply build_and_init_queryable; [exact ten_words_tokens|vm_compute; lia].
  - split; [vm_compute; repeat constructor|constructor].
  - exact sg_request_plain.
  - reflexivity.
  - vm_compute. reflexivity.
  - reflexivity.
  - discriminate.
Defined.
(** * [train_until_breakpoint] *)

Section LoopFacts.
Context {F : Type} `{JsArith F} `{JsMath F}.
Variable get_random_float : nat -> F.
Variable now : nat -> Z.

Lemma breakpoint_met_spec (s : Session F) (clock : nat) (status : string)
    (clock' : nat) :
  breakpoint_met now s clock = (Some status, clock') ->
  clock <= clock'
  /\ ((status = "AUTO_BREAK"%string
       /\ (0 < breakpoint_time s)%Z /\ clock' = S clock
       /\ (breakpoint_time s <= now clock)%Z)
      \/ (status = "USER_BREAK"%string
          /\ (((0 < breakpoint_iterations s)%Z
               /\ (breakpoint_iterations s <= Z.of_nat (instances (model s)))%Z)
              \/ ((0 < breakpoint_instances_watched s)%Z
                  /\ (breakpoint_instances_watched s
                      <= Z.of_nat (count_instances_watched (model s)))%Z)))).
Proof.
  unfold breakpoint_met.
  destruct (Z.ltb_spec 0 (breakpoint_time s)) as [Lt|Lt];
    destruct (Z.leb_spec (breakpoint_time s) (now clock)) as [Ln|Ln]; cbn [andb];
    try (intros E; injection E as <- <-; split; [lia|left; auto]).
  all: destruct (Z.ltb_spec 0 (breakpoint_iterations s)) as [Li|Li];
    destruct (Z.leb_spec (breakpoint_iterations s)
                (Z.of_nat (instances (model s)))) as [Lj|Lj]; cbn [andb];
    try (intros E; injection E as <- <-; split; [lia|right; auto]).
  all: destruct (Z.ltb_spec 0 (breakpoint_instances_watched s)) as [Lw|Lw];
    destruct (Z.leb_spec (breakpoint_instances_watched s)
                (Z.of_nat (count_instances_watched (model s)))) as [Lx|Lx];
    cbn [andb];
    try (intros E; injection E as <- <-; split; [lia|right; auto]);
    try discriminate.
Qed.

Lemma breakpoint_met_none (s : Session F) (clock : nat) :
  no_breakpoint s -> breakpoint_met now s clock = (None, clock).
Proof.
  intros (Ht & Hi & Hw). unfold breakpoint_met.
  destruct (Z.ltb_spec 0 (breakpoint_time s)); [lia|].
  destruct (Z.ltb_spec 0 (breakpoint_iterations s)); [lia|].
  destruct (Z.ltb_spec 0 (breakpoint_instances_watched s)); [lia|].
  reflexivity.
Qed.

Lemma train_loop_Ok (fuel : nat) (s s' : Session F) (clock clock' : nat) :
  train_loop get_random_float now fuel s clock = Some (Ok (s', clock')) ->
  exists n,
    1 <= n <= fuel
    /\ train_sentences get_random_float n (model s) = Ok (model s')
    /\ same_breakpoints s s'
    /\ clock <= clock'
    /\ ((session_status s' = "AUTO_BREAK"%string
         /\ (0 < breakpoint_time s)%Z /\ 0 < clock'
         /\ (breakpoint_time s <= now (clock' - 1))%Z)
        \/ (session_status s' = "USER_BREAK"%string
            /\ (((0 < breakpoint_iterations s)%Z
                 /\ (breakpoint_iterations s
                     <= Z.of_nat (instances (model s')))%Z)
                \/ ((0 < breakpoint_instances_watched s)%Z
                    /\ (breakpoint_instances_watched s
                        <= Z.of_nat (count_instances_watched (model s')))%Z)))).
Proof.
  revert s clock. induction fuel as [|fuel IH]; intros s clock E; [discriminate|].
  simpl in E.
  destruct (train_sentence get_random_float (model s)) as [m| |] eqn:Em;
    try discriminate.
  destruct (breakpoint_met now (set_model s m) clock) as [[status|] c1] eqn:Eb.
  - injection E as <- <-. apply breakpoint_met_spec in Eb.
    destruct Eb as [Hc Hcase]. exists 1. split; [lia|].
    split; [simpl; rewrite Em; reflexivity|].
    split; [repeat split; reflexivity|]. split; [exact Hc|].
    destruct Hcase as [(-> & Ht & -> & Hn)|(-> & Hu)].
    + left. split; [reflexivity|]. split; [exact Ht|]. split; [lia|].
      simpl. rewrite Nat.sub_0_r. exact Hn.
    + right. split; [reflexivity|exact Hu].
  - apply IH in E.
    destruct E as (n & Hn & Hrun & (B1 & B2 & B3) & Hc & Hcase).
    assert (Hc1 : clock <= c1).
    { unfold breakpoint_met in Eb.
      destruct ((0 <? breakpoint_time (set_model s m))%Z
                && (breakpoint_time (set_model s m) <=? now clock)%Z);
        [discriminate|].
      destruct (_ && _); [discriminate|]. destruct (_ && _); [discriminate|].
      injection Eb as <-. destruct (0 <? _)%Z; lia. }
    exists (S n). split; [lia|].
    split; [simpl; rewrite Em; exact Hrun|].
    split; [split; [exact B1|split; [exact B2|exact B3]]|].
    split; [lia|exact Hcase].
Qed.

Lemma train_loop_no_breakpoint (fuel : nat) (s : Session F) (clock : nat)
    (p : Session F * nat) :
  no_breakpoint s ->
  train_loop get_random_float now fuel s clock <> Some (Ok p).
Proof.
  revert s clock. induction fuel as [|fuel IH]; intros s clock Hno;
    [discriminate|].
  simpl.
  destruct (train_sentence get_random_float (model s)) as [m| |];
    try discriminate.
  rewrite (breakpoint_met_none (set_model s m) clock Hno).
  apply IH. exact Hno.
Qed.

Lemma train_loop_more_fuel (fuel extra : nat) (s : Session F) (clock : nat)
    (r : result (Session F * nat)) :
  train_loop get_random_float now fuel s clock = Some r ->
  train_loop get_random_float now (fuel + extra) s clock = Some r.
Proof.
  revert s clock. induction fuel as [|fuel IH]; intros s clock E; [discriminate|].
  simpl in E |- *.
  destruct (train_sentence get_random_float (model s)) as [m| |];
    try exact E.
  destruct (breakpoint_met now (set_model s m) clock) as [[status|] c1];
    [exact E|]. apply IH. exact E.
Qed.
End LoopFacts.
Lemma compute_query_result_kept {F : Type} `{JsArith F} (m m' : Word2vec F) :
  compute_query_result m = Ok m' -> same_training m m'.
Proof.
  intros E. apply compute_query_result_Ok in E.
  destruct E as [[_ ->]|(raw & s & scores & ranks & qo & pushed & _ & _ & _ & ->)];
    repeat split; reflexivity.
Qed.

(** X27: when the loop of [train_until_breakpoint] ends, it has trained
    one sentence or more, the breakpoints are as they were set, and the
    status is [AUTO_BREAK], the clock having reached the time breakpoint at
    its last reading, or [USER_BREAK], the count of instances or of watched
    instances having reached its breakpoint; more rounds allowed to the
    model of the loop give the same result. *)
Theorem X27_loop_result {F : Type} `{JsArith F} `{JsMath F}
    (get_random_float : nat -> F) (now : nat -> Z)
    (fuel : nat) (s s' : Session F) (clock clock' : nat) :
  train_loop get_random_float now fuel s clock = Some (Ok (s', clock')) ->
  (exists n,
     1 <= n <= fuel
     /\ train_sentences get_random_float n (model s) = Ok (model s'))
  /\ same_breakpoints s s'
  /\ ((session_status s' = "AUTO_BREAK"%string
       /\ (0 < breakpoint_time s)%Z /\ (0 < clock')%nat
       /\ (breakpoint_time s <= now (clock' - 1)%nat)%Z)
      \/ (session_status s' = "USER_BREAK"%string
          /\ (((0 < breakpoint_iterations s)%Z
               /\ (breakpoint_iterations s
                   <= Z.of_nat (instances (model s')))%Z)
              \/ ((0 < breakpoint_instances_watched s)%Z
                  /\ (breakpoint_instances_watched s
                      <= Z.of_nat (count_instances_watched (model s')))%Z))))
  /\ (forall extra,
        train_loop get_random_float now (fuel + extra) s clock
        = Some (Ok (s', clock'))).
Proof.
  intros E.
  destruct (train_loop_Ok get_random_float now fuel s s' clock clock' E)
    as (n & Hn & Hrun & Hb & _ & Hcase).
  split; [eauto|]. split; [exact Hb|]. split; [exact Hcase|].
  intros extra. apply train_loop_more_fuel. exact E.
Qed.

Lemma sg_session_one_returns :
  match train_loop C1_random tick 3 sg_session_one 0 with
  | Some (Ok _) => true
  | _ => false
  end = true.
Proof. vm_compute. reflexivity. Qed.

Lemma X27_witness :
  exists s' clock',
    train_loop C1_random tick 3 sg_session_one 0 = Some (Ok (s', clock'))
    /\ same_breakpoints sg_session_one s'.
Proof.
  pose proof sg_session_one_returns as R.
  destruct (train_loop C1_random tick 3 sg_session_one 0)
    as [[[s' clock']| |]|] eqn:E; try discriminate R.
  exists s', clock'. split; [reflexivity|].
  exact (proj1 (proj2 (X27_loop_result C1_random tick 3 sg_session_one s'
                         0 clock' E))).
Defined.

(** X28: with no breakpoint set, neither the loop nor
    [train_until_breakpoint] returns, however many rounds the loop is
    allowed: it runs until [train_sentence] throws. *)
Theorem X28_no_breakpoint_no_return {F : Type} `{JsArith F} `{JsMath F}
    (get_random_float : nat -> F) (now : nat -> Z)
    (fuel : nat) (s : Session F) (clock : nat) (p : Session F * nat) :
  no_breakpoint s ->
  train_loop get_random_float now fuel s clock <> Some (Ok p)
  /\ train_until_breakpoint get_random_float now fuel s clock <> Some (Ok p).
Proof.
  intros Hno. split; [apply train_loop_no_breakpoint; exact Hno|].
  unfold train_until_breakpoint.
  destruct (train_loop get_random_float now fuel s clock) as [[[s1 c1]| |]|] eqn:E;
    try discriminate.
  exfalso. revert E. apply train_loop_no_breakpoint. exact Hno.
Qed.

Lemma X28_witness :
  train_loop C1_random tick 3 sg_session 0 <> Some (Ok (sg_session, 0)).
Proof.
  refine (proj1 (X28_no_breakpoint_no_return C1_random tick 3 sg_session 0
                   (sg_session, 0) _)).
  repeat split; simpl; lia.
Defined.
Section LoopReturns.
Context {F : Type} `{Exact F}.
Variable get_random_float : nat -> F.
Variable now : nat -> Z.
Hypothesis unit_interval : forall k, (0 <= den (get_random_float k) < 1)%R.

Lemma breakpoint_met_continue (s : Session F) (clock c1 : nat) :
  (0 < breakpoint_time s)%Z ->
  breakpoint_met now s clock = (None, c1) ->
  c1 = S clock /\ (now clock < breakpoint_time s)%Z.
Proof.
  intros Ht. unfold breakpoint_met.
  destruct (Z.ltb_spec 0 (breakpoint_time s)) as [_|L]; [|lia].
  destruct (Z.leb_spec (breakpoint_time s) (now clock)) as [L|L]; cbn [andb];
    [discriminate|].
  destruct (_ && _); [discriminate|]. destruct (_ && _); [discriminate|].
  intros E. injection E as <-. split; [reflexivity|exact L].
Qed.

Lemma train_loop_returns (k : nat) (s : Session F) (clock : nat) :
  well_formed (model s) ->
  2 <= vocab_size (voc (model s)) ->
  sg (config (model s)) = true ->
  (0 < breakpoint_time s)%Z ->
  (breakpoint_time s <= now (clock + k))%Z ->
  exists s' clock',
    train_loop get_random_float now (S k) s clock = Some (Ok (s', clock'))
    /\ well_formed (model s')
    /\ query_in (model s') = query_in (model s).
Proof.
  revert s clock. induction k as [|k IH]; intros s clock Hwf Hvs Hsg Ht Hnow.
  - destruct (train_sentence_total get_random_float unit_interval (model s)
                Hwf Hvs Hsg) as (m1 & E1 & Hwf1).
    assert (Hq : query_in m1 = query_in (model s)).
    { destruct (train_sentence_sentence get_random_float _ _ E1) as [sen Hsen].
      destruct (train_sentence_frame get_random_float _ _ sen Hsen E1)
        as ((_ & _ & Hq & _) & _). exact Hq. }
    cbn [train_loop]. rewrite E1.
    destruct (breakpoint_met now (set_model s m1) clock) as [[status|] c1] eqn:Eb.
    + eexists _, _. split; [reflexivity|]. split; [exact Hwf1|exact Hq].
    + apply breakpoint_met_continue in Eb; [|exact Ht].
      rewrite Nat.add_0_r in Hnow. simpl in Eb. lia.
  - destruct (train_sentence_total get_random_float unit_interval (model s)
                Hwf Hvs Hsg) as (m1 & E1 & Hwf1).
    destruct (train_sentence_sentence get_random_float _ _ E1) as [sen Hsen].
    destruct (train_sentence_frame get_random_float _ _ sen Hsen E1)
      as ((Hcfg & Hvoc & Hq & _) & _).
    change (train_loop get_random_float now (S (S k)) s clock)
      with (match train_sentence get_random_float (model s) with
            | Ok m =>
                match breakpoint_met now (set_model s m) clock with
                | (Some status, c) =>
                    Some (Ok (set_session_status (set_model s m) status, c))
                | (None, c) =>
                    train_loop get_random_float now (S k) (set_model s m) c
                end
            | Throws => Some Throws
            | Hangs => Some Hangs
            end).
    rewrite E1.
    destruct (breakpoint_met now (set_model s m1) clock) as [[status|] c1] eqn:Eb.
    + eexists _, _. split; [reflexivity|]. split; [exact Hwf1|exact Hq].
    + apply breakpoint_met_continue in Eb; [|exact Ht].
      destruct Eb as [-> _].
      destruct (IH (set_model s m1) (S clock)) as (s' & c' & E & Hwf' & Hq');
        try assumption.
      * simpl. rewrite Hvoc. exact Hvs.
      * simpl. rewrite Hcfg. exact Hsg.
      * simpl. replace (S (clock + k)) with (clock + S k) by lia. exact Hnow.
      * exists s', c'. split; [exact E|]. split; [exact Hwf'|].
        rewrite Hq'. exact Hq.
Qed.
End LoopReturns.

(** X29: in exact arithmetic and the skip-gram mode, with a random source
    of numbers of [[0, 1)], on a well-formed model of two words or more,
    in whose sentences no word is a member name of [Object.prototype], and
    with no query, [train_until_breakpoint] returns once the clock has
    reached the time breakpoint: no sentence throws, and [k + 1] rounds of
    the loop are enough when the clock reaches it at its reading [k]. *)
Theorem X29_training_returns {F : Type} `{Exact F}
    (get_random_float : nat -> F) (now : nat -> Z)
    (k : nat) (s : Session F) (clock : nat) :
  (forall j, (0 <= den (get_random_float j) < 1)%R) ->
  well_formed (model s) ->
  plain_sentences (model s) ->
  2 <= vocab_size (voc (model s)) ->
  sg (config (model s)) = true ->
  query_in (model s) = [] ->
  (0 < breakpoint_time s)%Z ->
  (breakpoint_time s <= now (clock + k)%nat)%Z ->
  exists s' clock',
    train_until_breakpoint get_random_float now (S k) s clock
    = Some (Ok (s', clock'))
    /\ well_formed (model s').
Proof.
  intros Hrnd Hwf _ Hvs Hsg Hq Ht Hnow.
  destruct (train_loop_returns get_random_float now Hrnd k s clock
              Hwf Hvs Hsg Ht Hnow) as (s1 & c1 & E & Hwf1 & Hq1).
  unfold train_until_breakpoint. rewrite E.
  unfold compute_query_result. rewrite Hq1, Hq. cbn [length Nat.eqb].
  eexists _, _. split; [reflexivity|]. exact Hwf1.
Qed.

Lemma X29_witness :
  exists s' clock',
    train_until_breakpoint C1_random tick 3
      {| model := sg_model; session_status := "WAIT_FOR_TRAIN";
         breakpoint_instances_watched := -1; breakpoint_iterations := -1;
         breakpoint_time := 102 |} 0
    = Some (Ok (s', clock')).
Proof.
  destruct (X29_training_returns C1_random tick 2
              {| model := sg_model; session_status := "WAIT_FOR_TRAIN";
                 breakpoint_instances_watched := -1; breakpoint_iterations := -1;
                 breakpoint_time := 102 |} 0 C1_random_unit sg_model_well_formed
              sg_model_plain)
    as (s' & c' & E & _).
  - vm_compute. lia.
  - reflexivity.
  - reflexivity.
  - reflexivity.
  - vm_compute. discriminate.
  - exists s', c'. exact E.
Defined.
Lemma train_until_breakpoint_Ok {F : Type} `{JsArith F} `{JsMath F}
    (get_random_float : nat -> F) (now : nat -> Z)
    (fuel : nat) (s s' : Session F) (clock clock' : nat) :
  train_until_breakpoint get_random_float now fuel s clock
  = Some (Ok (s', clock')) ->
  exists s1 m2,
    train_loop get_random_float now fuel s clock = Some (Ok (s1, clock'))
    /\ compute_query_result (model s1) = Ok m2
    /\ s' = set_model s1 m2.
Proof.
  unfold train_until_breakpoint.
  destruct (train_loop get_random_float now fuel s clock)
    as [[[s1 c1]| |]|]; try discriminate.
  destruct (compute_query_result (model s1)) as [m2| |] eqn:E2; try discriminate.
  intros E. injection E as <- <-. eauto.
Qed.

(** X30: when the request [train] returns, the status is [AUTO_BREAK],
    the clock having reached the time of the request plus the report
    interval, or [USER_BREAK]; the latter only for a positive number of
    requested iterations, and then the count of instances, or the count of
    watched instances when [watched] is set, has grown by that number or
    more. *)
Theorem X30_train_request {F : Type} `{JsArith F} `{JsMath F}
    (get_random_float : nat -> F) (now : nat -> Z)
    (report_interval : Z) (requested : option Z) (watched : bool)
    (fuel : nat) (s s' : Session F) (clock clock' : nat) :
  train_request get_random_float now report_interval requested watched
    fuel s clock = Some (Ok (s', clock')) ->
  (session_status s' = "AUTO_BREAK"%string
   /\ (0 < clock')%nat
   /\ (now clock + report_interval <= now (clock' - 1)%nat)%Z)
  \/ (session_status s' = "USER_BREAK"%string
      /\ exists n,
           requested = Some n /\ (0 < n)%Z
           /\ if watched
              then (Z.of_nat (count_instances_watched (model s)) + n
                    <= Z.of_nat (count_instances_watched (model s')))%Z
              else (Z.of_nat (instances (model s)) + n
                    <= Z.of_nat (instances (model s')))%Z).
Proof.
  unfold train_request. intros E.
  apply train_until_breakpoint_Ok in E.
  destruct E as (s1 & m2 & Eloop & Ecq & ->).
  apply compute_query_result_kept in Ecq.
  destruct Ecq as (_ & _ & _ & _ & _ & Hi & _ & _ & Hw & _).
  apply train_loop_Ok in Eloop.
  destruct Eloop as (n0 & _ & _ & _ & _ & Hcase).
  cbn [model set_model session_status].
  set (req := match requested with
              | Some z => if (z =? 0)%Z then (-1)%Z else z
              | None => (-1)%Z
              end) in *.
  destruct (Z.ltb_spec 0 req) as [Lreq|Lreq].
  - assert (Hreq : requested = Some req).
    { unfold req in *. destruct requested as [z|]; [|lia].
      destruct (Z.eqb_spec z 0); [lia|reflexivity]. }
    destruct watched; cbn in Hcase;
      destruct Hcase as [(-> & Ht & Hc & Hn)|(-> & [[L1 L2]|[L1 L2]])];
      try lia; try (left; auto; fail);
      right; (split; [reflexivity|]); exists req;
      (split; [exact Hreq|]); (split; [exact Lreq|]); lia.
  - cbn in Hcase.
    destruct Hcase as [(-> & Ht & Hc & Hn)|(-> & [[L1 L2]|[L1 L2]])];
      try lia. left. auto.
Qed.

Lemma sg_train_request_returns :
  match train_request C1_random tick 0 (Some 1%Z) false 3 sg_session 0 with
  | Some (Ok _) => true
  | _ => false
  end = true.
Proof. vm_compute. reflexivity. Qed.

Lemma X30_witness :
  exists s' clock',
    train_request C1_random tick 0 (Some 1%Z) false 3 sg_session 0
    = Some (Ok (s', clock'))
    /\ (session_status s' = "AUTO_BREAK"%string
        \/ session_status s' = "USER_BREAK"%string).
Proof.
  pose proof sg_train_request_returns as R.
  destruct (train_request C1_random tick 0 (Some 1%Z) false 3 sg_session 0)
    as [[[s' clock']| |]|] eqn:E; try discriminate R.
  exists s', clock'. split; [reflexivity|].
  destruct (X30_train_request C1_random tick 0 (Some 1%Z) false 3 sg_session s'
              0 clock' E) as [[Hs _]|[Hs _]]; auto.
Defined.
